(* ===== verification/_CoqProject ===== *)
-Q . S2P
Prelude.v
GoBytes.v
Unicode.v
Tokenization.v
Rules.v
ByteAnalyzer.v
Pool.v
ConcurrentTokens.v
SharedPool.v
CacheStore.v
GoFloat.v
ValkeyCache.v
SerialRunner.v
ConcurrentRunner.v
RunnerPool.v
Runners.v
Panics.v
Interleaving.v
Singleflight.v
Factory.v
Regex.v
NetIP.v
IPGrammar.v
TextMatchers.v
RegexMatchers.v
Expressions.v
IPMatchers.v
Documents.v
Monitoring.v
GlobalTracer.v
Sha256.v
CacheTracer.v
Patterns.v
BuiltinMatchers.v
PersonalData.v
Entities.v
Leakspok.v
System.v
Examples.v
