(* ===== verification/Prelude.v ===== *)
(** * Verification of leakspok: the development and its prelude

    leakspok finds personal data in text and anonymizes it.  [Anonymize]
    (src/analyzer/byte_analyzer.go) splits its input into tokens, asks a rule
    runner for the rule that applies to each token, and writes the input with
    the tokens found replaced by the rule's placeholder or mask.  A runner
    evaluates the matchers of the rules, built from the patterns of
    src/pattern/, and keeps negative results in a cache that may live on a
    Valkey server; it may evaluate on a pool of workers, and concurrent callers
    with the same token may share one evaluation.

    ** Files

    - Prelude.v: Go values (bytes, slices with their panics), tactics, hints.
    - GoBytes.v, Unicode.v, GoFloat.v, NetIP.v, Sha256.v, Regex.v: what the
      program uses of Go's standard library, as executable definitions: UTF-8
      and [bytes], case mapping, float64, [net.ParseIP], SHA-256 and hex, the
      regular expressions of [regexp] with their meaning as a relation.
    - Tokenization.v (tokenization.go): the loops of [TokenIterator] on
      positions; the specification is the one-pass automaton [lex].
    - Rules.v (rules.go of analyzer): rules, matchers (which may panic),
      exceptions, settings.
    - ByteAnalyzer.v (byte_analyzer.go, string_analyzer.go): [Anonymize] over
      two interfaces, [Writer] and [RuleRunner]; a runner promises
      [RuleRunnerSpec], answers that are admissible for the token, and the
      specification of the output is [rewrite_choices] on such answers, or
      [rewrite_tokens] when the answer is a function of the token.  A runner
      whose calls may overlap is a [SteppedRunner]: [Process] is [Begin] then
      [Finish], and [SteppedRunnerSpec] says what holds between the two, or
      [PanickyRunnerSpec] when calls may panic.
    - ConcurrentTokens.v: [anonymizeConcurrent] as a transition system of the
      caller, the tasks, the stepped runner they share, whatever else uses that
      runner, the context and the workers of the pool.
    - Pool.v (pool.go): a bounded pool shared by any number of calls, of which it
      asks the laws of [PoolClientLaws].  SharedPool.v: calls of [Anonymize] on
      one runner and one token pool.  RunnerPool.v: collections of the
      concurrent runner on its pool.
    - CacheStore.v (cache/store.go, noop.go): the interface [CacheStore] and
      [CacheStoreLaws], what the runners rely on: a store invents nothing.
    - ValkeyCache.v (cache/valkey.go): the store on a Valkey client, which is a
      parameter with laws; [Mem_Client] is a concrete one.
    - CacheTracer.v (cache/tracer.go, monitoring/cache.go): the decorator.
    - SerialRunner.v (serial_runner.go): [Process], against [first_match] and
      [first_by_entity].
    - ConcurrentRunner.v (concurrent_runner.go): the collection as a transition
      system of caller, workers and environment, and [Process] on its outcomes.
    - Runners.v: both runners as instances of [RuleRunner] and [SteppedRunner]
      (the read of the store, then the rest), a schedule saying which flight
      serves each call; the order of a pool of one worker.
    - Panics.v: what a matcher that panics makes of a call, on both token paths.
    - Interleaving.v: any number of calls of [Process] whose parts interleave
      on one [SteppedRunner].
    - Singleflight.v (singleflight_coalescer.go): any number of callers of
      [doShared] on one key, as a transition system.
    - Factory.v (factory.go, pool.go, cache/options.go, cache/factory.go, the
      constructor of cache/valkey.go): what is built, what is left open.
    - TextMatchers.v, RegexMatchers.v, Documents.v (pattern/regex.go): the
      matchers, each against a description of the texts it accepts.
    - Expressions.v: a computed normal form of the expressions, proved to give
      the same answers, and the characters the matchers shipped look for.
    - NetIP.v, IPGrammar.v: [net.ParseIP], and the grammar of the texts it
      accepts.  IPMatchers.v (pattern/regex.go): the three matchers of IP
      addresses against the grammar.
    - Monitoring.v (monitoring/pattern.go, tracing.go, tracing_datadog.go):
      contexts, records, the interfaces [Tracer] and [Span] with their no-op and
      DataDog implementations; the tracing library is a parameter, [SpanLibrary]
      says what it promises.
    - GlobalTracer.v (monitoring/tracing.go): the package-level tracer and its
      mutex as a transition system.
    - Patterns.v (pattern/pattern.go, meta.go): the combinators of patterns.
    - BuiltinMatchers.v (pattern/matcher.go, entity.go, rules.go): the matchers
      and the default rules.
    - PersonalData.v: what the default rules look for, described apart from the
      matchers, which decide it.  Entities.v: what each matcher shipped finds.
    - Leakspok.v: the default rules on the analyzer, from text to text.
    - System.v: the behaviour of every analyzer the factory can return, and of
      calls that overlap on it or on its runner.
    - Examples.v (examples/): the rules, modes, texts and reports of the example
      programs.

    ** How the code is modelled

    A function that can panic (an index out of range, a nil interface) returns
    an [option], [None] being the panic; the theorems show that the matchers
    shipped, the tokenizer and [Anonymize] do not panic.  The matcher of a rule
    is any code: the runners take its panics into account, and the theorems say
    which calls must return ([returns], [inline_returns], [panic_free]).  State is passed explicitly: a
    runner and a store return their new state with the answer, a writer its
    output.  What runs concurrently is an inductive step relation on a record
    of the shared variables, with an invariant proved by induction on the steps
    and a measure that bounds the runs.  Loops that are not structural take a
    fuel of one more than the length of the input; [TokenIterator_lex] shows
    that it is enough, each turn of the loop moving forward.

    ** What the theorems show

    - Tokens: [TokenIterator] equals [lex]; the tokens are disjoint, ordered,
      in range, and on input without a backslash the fields between delimiters.
    - Anonymization: the bytes written and the details are those of
      [rewrite_tokens] on the first matching rule of every token, for any lawful
      runner, and those of some admissible answer for each token when the
      answers may vary; the concurrent path gives the same output when it is
      neither cancelled nor stopped; calls that share the pool use no more
      workers than it has, and all of them can always come to their end.  A rule
      found whose settings lack the configuration of its strategy makes the call
      panic.
    - Runners: the serial runner, over any lawful store, answers the first rule
      that applies, whether it leads a flight or shares one, and no rule when it
      is cancelled; callers that share a flight are answered by their own rules
      when these agree on the entities that several claim; the concurrent
      runner answers a rule that applies, and some rule whenever one does, but
      not always the first unless its pool has one worker; calls may interleave in any way on the
      store they share, and a store that holds true negatives keeps doing so;
      only negative results are persisted; every run ends and no worker or
      caller is left waiting, however many share the pool, but for the collector
      of the concurrent runner when a matcher panics, which the pool recovers
      without a result.
    - Panics: a call of the serial runner panics exactly when a matcher it calls
      does; then the sequential [Anonymize] panics, and the concurrent one
      copies the token and goes on.  A panic in a coalesced flight is not
      recovered and ends the program.
    - Cache: the Valkey store keeps the contract, reads back what it saved, and
      sends an expiry of at least one second inside the band; the tracing
      decorator is transparent.
    - Matchers: each matcher shipped decides a description of the texts it finds;
      each theorem named after a function of regex.go gives those it accepts
      (check digits of CPF and CNPJ, card prefixes and lengths, the shapes of
      addresses, phones, file names and identifiers), in every context; an
      expression accepts what contains one of its forms.
    - Monitoring: patterns leave well-nested spans and records, or none; the
      package-level tracer can be read and replaced by any number of goroutines.
    - Composition: the default rules redact exactly the tokens that are personal
      data, from the input text to the output, on every analyzer the factory
      builds: with and without a cache, coalescing, tracing and the two pools;
      a rule with the address matcher finds nothing on any of them.

    ** Not modelled

    - src/vendor: code of others.  The Valkey client, the worker pool of ants and
      the uuid generator are parameters; the group of singleflight is part of
      the transition system of Singleflight.v.
    - The mocks and src/analyzer/cache/testing: test doubles.
    - A tracer replaced in the middle of a call: a match, and an operation of the
      store, takes one tracer as an argument.
    - The constants of regex.go and meta.go that no code uses.
    - Loggers: a logger is a name; the messages are kept where a runner or a
      writer logs an error, and in the records of the patterns.
    - Machine overflow of positions: a Go [int] is unbounded here, as every
      integer of the program but those of the cache expiry is bounded by the
      length of a slice.  The expiry is computed on 64-bit integers and floats.
    - A matcher that does not return, or whose answers change: a matcher is a
      partial function of the token.
    - What is left of the other calls when a panic in a flight of the coalescer
      ends the program: the flight has no further step in Singleflight.v, it is
      the panic of the call that leads it in SerialRunner.v, and Panics.v asks
      that the matchers of coalesced calls return. *)
From Stdlib Require Export ZArith Lia Strings.Byte Strings.String.
From stdpp Require Export base gmap strings list.

#[global] Open Scope Z_scope.

(** ** Go values

    A Go [byte] is a [byte], a [[]byte] is a list of them and a Go [string] is
    a Stdlib [string] (eight-bit characters).  The conversions [[]byte(s)] and
    [string(b)] are [list_byte_of_string] and [string_of_list_byte].  A Go
    [int] is a [Z]: every integer of the program is a position in a slice, a
    count or a small sum; where a conversion wraps, the wrap is written out. *)

Abbreviation bytes := (list byte).

#[global] Instance byte_eq_dec : EqDecision byte := Byte.byte_eq_dec.

#[global] Program Instance byte_countable : Countable byte :=
  inj_countable Byte.to_N Byte.of_N Byte.of_to_N.

(** The unsigned value of a byte, and of a character literal. *)
Definition bz (b : byte) : Z := Z.of_N (Byte.to_N b).

(** [lo <= b && b <= hi], the comparison every character test is made of. *)
Definition in_range (lo hi b : byte) : bool := (bz lo <=? bz b) && (bz b <=? bz hi).

Definition blen {A} (s : list A) : Z := Z.of_nat (length s).

(** Go's conversions [[]byte(s)] and [string(b)]. *)
Definition of_str (s : string) : bytes := list_byte_of_string s.
Definition to_str (b : bytes) : string := string_of_list_byte b.

Lemma to_str_inj a b : to_str a = to_str b -> a = b.
Proof.
  unfold to_str. intros H. rewrite <- (list_byte_of_string_of_list_byte a), H.
  apply list_byte_of_string_of_list_byte.
Qed.

Declare Scope go_scope.
Delimit Scope go_scope with go.
Bind Scope byte_scope with byte.

(** ** Panics

    A Go computation that may panic (index or slice bounds out of range, nil
    dereference) is an [option]; [None] is the panic.  [idx] is [s[i]] and
    [slice] is [s[lo:hi]]. *)

Definition idx {A} (s : list A) (i : Z) : option A :=
  if i <? 0 then None else s !! Z.to_nat i.

Definition slice {A} (s : list A) (lo hi : Z) : option (list A) :=
  if (0 <=? lo) && (lo <=? hi) && (hi <=? blen s)
  then Some (take (Z.to_nat (hi - lo)) (drop (Z.to_nat lo) s))
  else None.

Notation "s '.[' lo ':' hi ']'" := (slice s lo hi)
  (at level 1, lo at level 99, hi at level 99, left associativity,
   format "s .[ lo  ':'  hi ]") : go_scope.
Notation "s '.[' lo ':]'" := (slice s lo (blen s))
  (at level 1, lo at level 99, left associativity, format "s .[ lo  ':]'") : go_scope.
#[global] Open Scope go_scope.

(** ** Automation *)

(** Case analysis on the boolean integer tests of the goal or the context. *)
Ltac zbool :=
  repeat match goal with
  | _ : context [?x <=? ?y] |- _ => destruct (Z.leb_spec x y)
  | _ : context [?x <? ?y] |- _ => destruct (Z.ltb_spec x y)
  | _ : context [?x =? ?y] |- _ => destruct (Z.eqb_spec x y)
  | |- context [?x <=? ?y] => destruct (Z.leb_spec x y)
  | |- context [?x <? ?y] => destruct (Z.ltb_spec x y)
  | |- context [?x =? ?y] => destruct (Z.eqb_spec x y)
  end; cbn [andb orb negb] in *.

(** Solve [if] tests on integers known to be decided by [lia]. *)
Ltac if_lia :=
  repeat match goal with
  | |- context [?x <=? ?y] =>
      first [rewrite (proj2 (Z.leb_le x y)) by lia | rewrite (proj2 (Z.leb_gt x y)) by lia]
  | |- context [?x <? ?y] =>
      first [rewrite (proj2 (Z.ltb_lt x y)) by lia | rewrite (proj2 (Z.ltb_ge x y)) by lia]
  | |- context [?x =? ?y] =>
      first [rewrite (proj2 (Z.eqb_eq x y)) by lia | rewrite (proj2 (Z.eqb_neq x y)) by lia]
  end; cbn [andb orb negb].

(** Replace the value of every literal byte by its numeral. *)
Ltac bz_lit :=
  repeat match goal with
  | H : context [bz ?c] |- _ =>
      is_constructor c; let v := eval vm_compute in (bz c) in change (bz c) with v in H
  | |- context [bz ?c] =>
      is_constructor c; let v := eval vm_compute in (bz c) in change (bz c) with v
  end.

(** Decide a closed boolean statement about one byte by trying all 256. *)
Ltac all_bytes b := destruct b; vm_compute; auto.

(** Split the conjunctions, disjunctions and negations of boolean tests. *)
Ltac bsplit :=
  repeat match goal with
  | H : _ && _ = true |- _ => apply andb_true_iff in H; destruct H
  | H : _ || _ = false |- _ => apply orb_false_iff in H; destruct H
  | H : negb _ = true |- _ => apply negb_true_iff in H
  | H : negb _ = false |- _ => apply negb_false_iff in H
  | |- _ && _ = true => apply andb_true_iff; split
  | |- negb _ = true => apply negb_true_iff
  end.

Create HintDb go.
Create Rewrite HintDb go.

(** ** Bytes *)

Lemma bz_bounds b : 0 <= bz b < 256.
Proof.
  unfold bz. pose proof (Byte.to_N_bounded b). lia.
Qed.

Lemma bz_inj b c : bz b = bz c -> b = c.
Proof.
  unfold bz. intros H%N2Z.inj.
  pose proof (Byte.of_to_N b) as Hb. pose proof (Byte.of_to_N c) as Hc.
  rewrite H in Hb. congruence.
Qed.

(** The byte of value [z mod 256]: Go's conversion [byte(z)]. *)
Definition byte_of_Z (z : Z) : byte :=
  default x00 (Byte.of_N (Z.to_N (z mod 256))).

Lemma bz_byte_of_Z z : 0 <= z < 256 -> bz (byte_of_Z z) = z.
Proof.
  intros Hz. unfold byte_of_Z. rewrite Z.mod_small by done.
  destruct (Byte.of_N (Z.to_N z)) as [b|] eqn:E; simpl.
  - apply Byte.to_of_N in E. unfold bz. lia.
  - apply Byte.of_N_None_iff in E. lia.
Qed.

Lemma byte_of_Z_bz b : byte_of_Z (bz b) = b.
Proof. apply bz_inj, bz_byte_of_Z, bz_bounds. Qed.

Lemma in_range_iff lo hi b : in_range lo hi b = true <-> bz lo <= bz b <= bz hi.
Proof. unfold in_range. rewrite andb_true_iff, !Z.leb_le. done. Qed.

(** ** Slices *)

(** The total version of [slice], for statements about slices in bounds. *)
Definition sub {A} (s : list A) (lo hi : Z) : list A :=
  take (Z.to_nat (hi - lo)) (drop (Z.to_nat lo) s).

Section Slices.
Context {A : Type}.
Implicit Types s t : list A.

Lemma blen_nonneg s : 0 <= blen s.
Proof. unfold blen. lia. Qed.

Lemma blen_app s t : blen (s ++ t) = blen s + blen t.
Proof. unfold blen. rewrite length_app. lia. Qed.

Lemma blen_nil : blen (@nil A) = 0.
Proof. done. Qed.

Lemma blen_cons x s : blen (x :: s) = 1 + blen s.
Proof. unfold blen. simpl. lia. Qed.

Lemma blen_zero s : blen s = 0 <-> s = [].
Proof. destruct s; [done|]. rewrite blen_cons. pose proof (blen_nonneg s). split; [lia|done]. Qed.

Lemma blen_pos s : s <> [] -> 0 < blen s.
Proof. destruct s; [done|]. rewrite blen_cons. pose proof (blen_nonneg s). lia. Qed.

Lemma slice_Some s lo hi :
  0 <= lo <= hi -> hi <= blen s -> slice s lo hi = Some (sub s lo hi).
Proof.
  intros [H1 H2] H3. unfold slice, sub.
  rewrite (proj2 (Z.leb_le _ _) H1), (proj2 (Z.leb_le _ _) H2), (proj2 (Z.leb_le _ _) H3).
  done.
Qed.

Lemma slice_Some_inv s lo hi t :
  slice s lo hi = Some t -> 0 <= lo <= hi /\ hi <= blen s /\ t = sub s lo hi.
Proof. unfold slice, sub. intros H. zbool; simplify_eq; lia || eauto with lia. Qed.

Lemma length_sub s lo hi :
  0 <= lo <= hi -> hi <= blen s -> blen (sub s lo hi) = hi - lo.
Proof. unfold sub, blen. rewrite length_take, length_drop. lia. Qed.

Lemma sub_full s : sub s 0 (blen s) = s.
Proof. unfold sub, blen. simpl. apply take_ge. rewrite ?drop_0. lia. Qed.

Lemma sub_empty s lo : sub s lo lo = [].
Proof. unfold sub. rewrite Z.sub_diag. done. Qed.

(** Adjacent slices concatenate. *)
Lemma sub_app s a b c :
  0 <= a -> a <= b -> b <= c -> sub s a b ++ sub s b c = sub s a c.
Proof.
  intros Ha Hb Hc. unfold sub.
  replace (Z.to_nat b) with (Z.to_nat a + Z.to_nat (b - a))%nat by lia.
  rewrite <- drop_drop.
  replace (Z.to_nat (c - a)) with (Z.to_nat (b - a) + Z.to_nat (c - b))%nat by lia.
  apply take_take_drop.
Qed.

Lemma sub_app_l s t : sub (s ++ t) 0 (blen s) = s.
Proof. unfold sub, blen. rewrite drop_0. rewrite take_app_length'; lia || done. Qed.

Lemma sub_app_r s t : sub (s ++ t) (blen s) (blen (s ++ t)) = t.
Proof.
  unfold sub. rewrite blen_app. unfold blen.
  rewrite drop_app_length' by lia. apply take_ge. lia.
Qed.

Lemma slice_app_r s t : slice (s ++ t) (blen s) (blen (s ++ t)) = Some t.
Proof.
  rewrite slice_Some by (rewrite ?blen_app; pose proof (blen_nonneg s);
    pose proof (blen_nonneg t); lia).
  by rewrite sub_app_r.
Qed.

Lemma sub_app_mid s t u : sub (s ++ t ++ u) (blen s) (blen s + blen t) = t.
Proof.
  unfold sub. rewrite drop_app_length' by (unfold blen; lia).
  apply take_app_length'. unfold blen. lia.
Qed.

Lemma slice_app_mid s t u : slice (s ++ t ++ u) (blen s) (blen s + blen t) = Some t.
Proof.
  pose proof (blen_nonneg s). pose proof (blen_nonneg t). pose proof (blen_nonneg u).
  rewrite slice_Some by (rewrite ?blen_app; lia). by rewrite sub_app_mid.
Qed.

Lemma drop_sub s lo : 0 <= lo <= blen s -> drop (Z.to_nat lo) s = sub s lo (blen s).
Proof. intros H. unfold sub. rewrite take_ge; [done|]. unfold blen in *. rewrite length_drop. lia. Qed.

Lemma idx_Some s i : 0 <= i < blen s -> is_Some (idx s i).
Proof.
  intros H. unfold idx, blen in *. zbool; [lia|]. apply lookup_lt_is_Some. lia.
Qed.

Lemma idx_of_nat s (n : nat) : idx s (Z.of_nat n) = s !! n.
Proof. unfold idx. zbool; [lia|]. by rewrite Nat2Z.id. Qed.
End Slices.

(** Bring the sign of every length into the context, then solve by [lia]. *)
Ltac blen_lia :=
  autorewrite with go in *;
  repeat match goal with
  | |- context [blen ?l] =>
      lazymatch goal with _ : 0 <= blen l |- _ => fail | _ => pose proof (blen_nonneg l) end
  | _ : context [blen ?l] |- _ =>
      lazymatch goal with _ : 0 <= blen l |- _ => fail | _ => pose proof (blen_nonneg l) end
  end; lia.

#[export] Hint Resolve blen_nonneg bz_bounds : go.
#[export] Hint Rewrite @blen_app @blen_cons @blen_nil : go.

(** ** Lists *)

Section Lists.
Context {A : Type} (f : A -> bool).

Lemma existsb_false_iff l : existsb f l = false <-> Forall (fun x => f x = false) l.
Proof.
  induction l as [|x l IH]; simpl; [split; auto|].
  rewrite orb_false_iff, IH, Forall_cons. done.
Qed.

Lemma forallb_iff l : forallb f l = true <-> Forall (fun x => f x = true) l.
Proof.
  induction l as [|x l IH]; simpl; [split; auto|].
  rewrite andb_true_iff, IH, Forall_cons. done.
Qed.

Lemma forallb_false_iff l : forallb f l = false <-> exists x, x ∈ l /\ f x = false.
Proof.
  induction l as [|x l IH]; simpl; [set_solver|]. rewrite andb_false_iff, IH. set_solver.
Qed.

Lemma filter_none l : Forall (fun x => f x = false) l -> List.filter f l = [].
Proof. induction 1 as [|x l Hx _ IH]; simpl; [done|]. by rewrite Hx. Qed.

Lemma filter_all l : Forall (fun x => f x = true) l -> List.filter f l = l.
Proof. induction 1 as [|x l Hx _ IH]; simpl; [done|]. by rewrite Hx, IH. Qed.

Lemma forallb_filter_id l : forallb f l = true -> List.filter f l = l.
Proof.
  rewrite forallb_iff. apply filter_all.
Qed.

(** [find] returns the first element that satisfies the test. *)
Lemma find_Some_split l x :
  List.find f l = Some x <->
  exists l1 l2, l = l1 ++ x :: l2 /\ f x = true /\ forallb (fun y => negb (f y)) l1 = true.
Proof.
  induction l as [|y l IH]; simpl.
  - split; [done|]. intros ([|? ?] & ? & ? & _); done.
  - destruct (f y) eqn:Hy; split.
    + intros [= ->]. exists [], l. auto.
    + intros ([|z l1] & l2 & Heq & Hx & Hl1); simplify_eq/=; [done|].
      by rewrite Hy in Hl1.
    + rewrite IH. intros (l1 & l2 & -> & Hx & Hl1). exists (y :: l1), l2.
      simpl. rewrite Hy. auto.
    + intros ([|z l1] & l2 & Heq & Hx & Hl1); simplify_eq/=; [congruence|].
      rewrite Hy in Hl1. apply IH. eauto.
Qed.

Lemma find_None_forallb l :
  List.find f l = None <-> forallb (fun y => negb (f y)) l = true.
Proof. induction l as [|y l IH]; simpl; [done|]. destruct (f y); simpl; [done|auto]. Qed.
End Lists.

Lemma find_ext {A} (f g : A -> bool) l :
  (forall x, x ∈ l -> f x = g x) -> List.find f l = List.find g l.
Proof.
  induction l as [|x l IH]; intros H; simpl; [done|].
  rewrite H by set_solver. destruct (g x); [done|]. apply IH. set_solver.
Qed.

Lemma sublist_eq_length {A} (l1 l2 : list A) :
  l1 `sublist_of` l2 -> length l1 = length l2 -> l1 = l2.
Proof.
  induction 1 as [|x l1 l2 _ IH|x l1 l2 Hsub _]; simpl; intros Hlen; [done| |].
  - f_equal. auto.
  - apply sublist_length in Hsub. lia.
Qed.

Lemma sublist_Forall {A} (P : A -> Prop) l1 l2 :
  l1 `sublist_of` l2 -> Forall P l2 -> Forall P l1.
Proof.
  induction 1 as [|x l1 l2 _ IH|x l1 l2 _ IH]; rewrite ?Forall_cons; [done|intuition..].
Qed.
