(* ===== verification/GoBytes.v ===== *)
(** * The parts of Go's [unicode/utf8], [unicode] and [bytes] the program uses

    Runes are [Z]; a rune and the number of bytes it was decoded from are what
    [utf8.DecodeRune] returns.  Every function below is executable and follows
    the behaviour of the standard library on all byte slices, invalid UTF-8
    included: an invalid byte decodes to [RuneError] with width one. *)
From S2P Require Import Prelude.

(** ** unicode/utf8 *)

Definition RuneError : Z := 65533.
Definition RuneSelf : Z := 128.
Definition UTFMax : Z := 4.

Definition is_ascii (b : byte) : bool := bz b <? RuneSelf.

(** A continuation byte, 10xxxxxx. *)
Definition is_cont (b : byte) : bool := (128 <=? bz b) && (bz b <=? 191).

(** The number of bytes announced by a first byte outside ASCII and the range
    its second byte must lie in; [None] for a byte that starts no encoding. *)
Definition accept_range (x : Z) : option (Z * Z * Z) :=
  if (194 <=? x) && (x <=? 223) then Some (2, 128, 191)
  else if x =? 224 then Some (3, 160, 191)
  else if (225 <=? x) && (x <=? 236) then Some (3, 128, 191)
  else if x =? 237 then Some (3, 128, 159)
  else if (238 <=? x) && (x <=? 239) then Some (3, 128, 191)
  else if x =? 240 then Some (4, 144, 191)
  else if (241 <=? x) && (x <=? 243) then Some (4, 128, 191)
  else if x =? 244 then Some (4, 128, 143)
  else None.

Definition DecodeRune (p : bytes) : Z * Z :=
  match p with
  | [] => (RuneError, 0)
  | p0 :: p1s =>
      if is_ascii p0 then (bz p0, 1) else
      match accept_range (bz p0), p1s with
      | Some (sz, lo, hi), b1 :: p2s =>
          if (bz b1 <? lo) || (hi <? bz b1) then (RuneError, 1) else
          if sz <=? 2 then (bz p0 mod 32 * 64 + bz b1 mod 64, 2) else
          match p2s with
          | [] => (RuneError, 1)
          | b2 :: p3s =>
              if negb (is_cont b2) then (RuneError, 1) else
              if sz <=? 3
              then (bz p0 mod 16 * 4096 + bz b1 mod 64 * 64 + bz b2 mod 64, 3) else
              match p3s with
              | [] => (RuneError, 1)
              | b3 :: _ =>
                  if negb (is_cont b3) then (RuneError, 1) else
                  (bz p0 mod 8 * 262144 + bz b1 mod 64 * 4096
                   + bz b2 mod 64 * 64 + bz b3 mod 64, 4)
              end
          end
      | _, _ => (RuneError, 1)
      end
  end.

(** [utf8.AppendRune(nil, r)]: runes outside Unicode encode as [RuneError]. *)
Definition AppendRune (r : Z) : bytes :=
  if (0 <=? r) && (r <? 128) then [byte_of_Z r]
  else if (128 <=? r) && (r <? 2048)
  then [byte_of_Z (192 + r / 64); byte_of_Z (128 + r mod 64)]
  else if ((2048 <=? r) && (r <? 55296)) || ((57344 <=? r) && (r <? 65536))
  then [byte_of_Z (224 + r / 4096); byte_of_Z (128 + r / 64 mod 64);
        byte_of_Z (128 + r mod 64)]
  else if (65536 <=? r) && (r <? 1114112)
  then [byte_of_Z (240 + r / 262144); byte_of_Z (128 + r / 4096 mod 64);
        byte_of_Z (128 + r / 64 mod 64); byte_of_Z (128 + r mod 64)]
  else [xef; xbf; xbd].

(** [utf8.RuneLen]. *)
Definition RuneLen (r : Z) : Z :=
  if r <? 0 then -1
  else if r <? 128 then 1
  else if r <? 2048 then 2
  else if (55296 <=? r) && (r <=? 57343) then -1
  else if r <? 65536 then 3
  else if r <? 1114112 then 4
  else -1.

(** [utf8.DecodeLastRune]: the start of the last encoding is searched at most
    [UTFMax] bytes back. *)
Definition DecodeLastRune (p : bytes) : Z * Z :=
  match last p with
  | None => (RuneError, 0)
  | Some b =>
      if is_ascii b then (bz b, 1) else
      let tries := List.seq 2 (Nat.min 3 (length p - 1)) in
      let start_of n := default b (p !! (length p - n)%nat) in
      let n := default (Nat.min 4 (length p))
                 (List.find (fun n => negb (is_cont (start_of n))) tries) in
      let '(r, size) := DecodeRune (drop (length p - n) p) in
      if size =? Z.of_nat n then (r, size) else (RuneError, 1)
  end.

(** ** Iterating over the runes of a slice

    [chunks s] lists the runes of [s] with the bytes each was decoded from,
    what a loop [for i < len(s) { r, size := utf8.DecodeRune(s[i:]); ... ;
    i += size }] sees. *)

Fixpoint chunks_from (skip : nat) (s : bytes) : list (Z * bytes) :=
  match s with
  | [] => []
  | _ :: s' =>
      match skip with
      | S k => chunks_from k s'
      | O => let '(r, w) := DecodeRune s in
             (r, take (Z.to_nat w) s) :: chunks_from (Z.to_nat w - 1) s'
      end
  end.

Definition chunks (s : bytes) : list (Z * bytes) := chunks_from 0 s.

(** ** unicode *)

(** [unicode.IsSpace]: the white space of Latin-1, then of [White_Space]. *)
Definition IsSpace (r : Z) : bool :=
  ((9 <=? r) && (r <=? 13)) || (r =? 32) || (r =? 133) || (r =? 160)
  || (r =? 5760) || ((8192 <=? r) && (r <=? 8202)) || (r =? 8232) || (r =? 8233)
  || (r =? 8239) || (r =? 8287) || (r =? 12288).

(** ** bytes *)

Definition beq (b c : byte) : bool := bz b =? bz c.

(** [bytes.Equal]. *)
Fixpoint Equal (s t : bytes) : bool :=
  match s, t with
  | [], [] => true
  | b :: s', c :: t' => beq b c && Equal s' t'
  | _, _ => false
  end.

(** [bytes.IndexByte] and [bytes.LastIndexByte]: -1 when the byte is absent. *)
Fixpoint IndexByte (s : bytes) (c : byte) : Z :=
  match s with
  | [] => -1
  | b :: s' =>
      if beq b c then 0
      else let i := IndexByte s' c in if i <? 0 then -1 else i + 1
  end.

Fixpoint LastIndexByte (s : bytes) (c : byte) : Z :=
  match s with
  | [] => -1
  | b :: s' =>
      let i := LastIndexByte s' c in
      if 0 <=? i then i + 1 else if beq b c then 0 else -1
  end.

Fixpoint HasPrefix (s pre : bytes) : bool :=
  match pre, s with
  | [], _ => true
  | c :: pre', b :: s' => beq b c && HasPrefix s' pre'
  | _ :: _, [] => false
  end.

Definition HasSuffix (s suf : bytes) : bool := HasPrefix (rev s) (rev suf).

(** [bytes.Contains(s, []byte{c})]. *)
Definition ContainsByte (s : bytes) (c : byte) : bool := 0 <=? IndexByte s c.

(** [bytes.Map]: a rune mapped below zero is dropped; a kept rune is encoded
    again, so an invalid byte that is kept becomes the encoding of
    [RuneError]. *)
Definition Map (mapping : Z -> Z) (s : bytes) : bytes :=
  concat (map (fun rb : Z * bytes =>
                 let r := mapping rb.1 in if r <? 0 then [] else AppendRune r)
              (chunks s)).

(** [bytes.Split(s, sep)] for a separator of one byte. *)
Fixpoint Split (s : bytes) (sep : byte) : list bytes :=
  match s with
  | [] => [[]]
  | b :: s' =>
      if beq b sep then [] :: Split s' sep
      else match Split s' sep with
           | [] => [[b]]
           | f :: fs => (b :: f) :: fs
           end
  end.

(** [bytes.FieldsFunc]: the maximal runs of runes that do not satisfy [f]. *)
Fixpoint fields (f : Z -> bool) (cur : option bytes) (cs : list (Z * bytes)) : list bytes :=
  match cs with
  | [] => match cur with Some field => [field] | None => [] end
  | (r, raw) :: cs' =>
      if f r
      then match cur with
           | Some field => field :: fields f None cs'
           | None => fields f None cs'
           end
      else fields f (Some (default [] cur ++ raw)) cs'
  end.

Definition FieldsFunc (s : bytes) (f : Z -> bool) : list bytes := fields f None (chunks s).

(** [bytes.Join]. *)
Fixpoint Join (ss : list bytes) (sep : bytes) : bytes :=
  match ss with
  | [] => []
  | [s] => s
  | s :: ss' => s ++ sep ++ Join ss' sep
  end.

(** [bytes.IndexFunc(s, f) != -1]. *)
Definition ContainsFunc (s : bytes) (f : Z -> bool) : bool :=
  existsb (fun rb : Z * bytes => f rb.1) (chunks s).

(** [bytes.ReplaceAll(s, []byte{c}, nil)]. *)
Definition RemoveAll (s : bytes) (c : byte) : bytes :=
  List.filter (fun b => negb (beq b c)) s.

(** [bytes.TrimSpace], as [TrimFunc(s, unicode.IsSpace)]. *)
Fixpoint drop_while (f : Z -> bool) (cs : list (Z * bytes)) : list (Z * bytes) :=
  match cs with
  | [] => []
  | (r, raw) :: cs' => if f r then drop_while f cs' else cs
  end.

Definition TrimLeftFunc (s : bytes) (f : Z -> bool) : bytes :=
  concat (map snd (drop_while f (chunks s))).

Fixpoint trim_right (fuel : nat) (s : bytes) (f : Z -> bool) : bytes :=
  match fuel, s with
  | S fuel', _ :: _ =>
      let '(r, size) := DecodeLastRune s in
      if f r then trim_right fuel' (take (length s - Z.to_nat size) s) f else s
  | _, _ => s
  end.

Definition TrimSpace (s : bytes) : bytes :=
  let s' := TrimLeftFunc s IsSpace in trim_right (length s') s' IsSpace.

(** [bytes.Repeat]. *)
Definition Repeat (s : bytes) (n : Z) : option bytes :=
  if n <? 0 then None else Some (concat (replicate (Z.to_nat n) s)).

(** ** Lemmas *)

Lemma beq_true b c : beq b c = true <-> b = c.
Proof. unfold beq. rewrite Z.eqb_eq. split; [apply bz_inj|by intros ->]. Qed.

Lemma beq_false b c : beq b c = false <-> b <> c.
Proof. rewrite <- beq_true. destruct (beq b c); split; congruence. Qed.

Lemma beq_refl b : beq b b = true.
Proof. by apply beq_true. Qed.

Lemma Equal_true s t : Equal s t = true <-> s = t.
Proof.
  revert t. induction s as [|b s IH]; intros [|c t]; simpl; try (split; congruence).
  rewrite andb_true_iff, beq_true, IH. split; [intros [-> ->]; done|].
  intros [= -> ->]; done.
Qed.

Lemma HasPrefix_nil s : HasPrefix s [] = true.
Proof. by destruct s. Qed.

(** Either the byte is absent, or the index is that of its first occurrence. *)
Lemma IndexByte_spec s c :
  (IndexByte s c = -1 /\ (c ∉ s)) \/
  (exists l1 l2, s = l1 ++ c :: l2 /\ (c ∉ l1) /\ IndexByte s c = blen l1).
Proof.
  induction s as [|b s IH]; simpl; [left; set_solver|].
  destruct (beq b c) eqn:Hb.
  - apply beq_true in Hb as ->. right. exists [], s. split_and!; [done|set_solver|done].
  - apply beq_false in Hb. destruct IH as [[-> Hs]|(l1 & l2 & -> & Hl1 & ->)].
    + left. split; [done|set_solver].
    + right. exists (b :: l1), l2. split_and!; [done|set_solver|].
      pose proof (blen_nonneg l1). rewrite blen_cons. zbool; lia.
Qed.

(** Either the byte is absent, or the index is that of its last occurrence. *)
Lemma LastIndexByte_spec s c :
  (LastIndexByte s c = -1 /\ (c ∉ s)) \/
  (exists l1 l2, s = l1 ++ c :: l2 /\ (c ∉ l2) /\ LastIndexByte s c = blen l1).
Proof.
  induction s as [|b s IH]; simpl; [left; set_solver|].
  destruct IH as [[-> Hs]|(l1 & l2 & -> & Hl2 & ->)].
  - simpl. destruct (beq b c) eqn:Hb.
    + apply beq_true in Hb as ->. right. exists [], s. done.
    + apply beq_false in Hb. left. split; [done|set_solver].
  - right. exists (b :: l1), l2. split_and!; [done|done|].
    pose proof (blen_nonneg l1). rewrite blen_cons. zbool; lia.
Qed.

Lemma DecodeRune_ascii b p : is_ascii b = true -> DecodeRune (b :: p) = (bz b, 1).
Proof. simpl. by intros ->. Qed.

(** ** Decoding

    Re-encoding a decoded rune gives back the bytes it was decoded from. *)

Lemma byte_of_Z_eq z b : z = bz b -> byte_of_Z z = b.
Proof. intros ->. apply byte_of_Z_bz. Qed.

(** Equal lists of bytes, from the equality of their values. *)
Ltac bytes_eq :=
  repeat (apply (f_equal2 cons)); try reflexivity; apply byte_of_Z_eq.

Lemma div_eq x m q : 0 < m -> q * m <= x < q * m + m -> x / m = q.
Proof. intros Hm Hx. symmetry. apply (Z.div_unique_pos x m q (x - q * m)); lia. Qed.

Lemma is_cont_iff b : is_cont b = true <-> 128 <= bz b <= 191.
Proof. unfold is_cont. rewrite andb_true_iff, !Z.leb_le. done. Qed.

Lemma mod_shift k m x : 0 < m -> k * m <= x < k * m + m -> x mod m = x - k * m.
Proof. intros Hm Hx. symmetry. apply (Z.mod_unique_pos x m k); lia. Qed.

Lemma AppendRune_2 b0 b1 :
  194 <= bz b0 <= 223 -> 128 <= bz b1 <= 191 ->
  let r := bz b0 mod 32 * 64 + bz b1 mod 64 in
  128 <= r < 2048 /\ AppendRune r = [b0; b1].
Proof.
  intros H0 H1 r.
  assert (Hr : r = (bz b0 - 192) * 64 + (bz b1 - 128))
    by (unfold r; rewrite (mod_shift 6 32), (mod_shift 2 64); lia).
  clearbody r. split; [lia|]. unfold AppendRune. if_lia. bytes_eq.
  - rewrite (div_eq r 64 (bz b0 - 192)); lia.
  - rewrite (mod_shift (bz b0 - 192) 64); lia.
Qed.

Lemma AppendRune_3 b0 b1 b2 :
  224 <= bz b0 <= 239 -> 128 <= bz b1 <= 191 -> (bz b0 = 224 -> 160 <= bz b1) ->
  (bz b0 = 237 -> bz b1 <= 159) -> 128 <= bz b2 <= 191 ->
  let r := bz b0 mod 16 * 4096 + bz b1 mod 64 * 64 + bz b2 mod 64 in
  2048 <= r < 65536 /\ AppendRune r = [b0; b1; b2].
Proof.
  intros H0 H1 Hlo Hhi H2 r.
  assert (Hr : r = (bz b0 - 224) * 4096 + (bz b1 - 128) * 64 + (bz b2 - 128))
    by (unfold r; rewrite (mod_shift 14 16), !(mod_shift 2 64); lia).
  clearbody r. split; [lia|]. unfold AppendRune.
  assert (r < 55296 \/ 57344 <= r) as [|] by lia; if_lia; bytes_eq.
  1,4: rewrite (div_eq r 4096 (bz b0 - 224)); lia.
  1,3: rewrite (div_eq r 64 ((bz b0 - 224) * 64 + (bz b1 - 128))), (mod_shift (bz b0 - 224) 64); lia.
  all: rewrite (mod_shift ((bz b0 - 224) * 64 + (bz b1 - 128)) 64); lia.
Qed.

Lemma AppendRune_4 b0 b1 b2 b3 :
  240 <= bz b0 <= 244 -> 128 <= bz b1 <= 191 -> (bz b0 = 240 -> 144 <= bz b1) ->
  (bz b0 = 244 -> bz b1 <= 143) -> 128 <= bz b2 <= 191 -> 128 <= bz b3 <= 191 ->
  let r := bz b0 mod 8 * 262144 + bz b1 mod 64 * 4096 + bz b2 mod 64 * 64 + bz b3 mod 64 in
  65536 <= r < 1114112 /\ AppendRune r = [b0; b1; b2; b3].
Proof.
  intros H0 H1 Hlo Hhi H2 H3 r.
  assert (Hr : r = (bz b0 - 240) * 262144 + (bz b1 - 128) * 4096
                   + (bz b2 - 128) * 64 + (bz b3 - 128))
    by (unfold r; rewrite (mod_shift 30 8), !(mod_shift 2 64); lia).
  clearbody r. split; [lia|]. unfold AppendRune. if_lia. bytes_eq.
  - rewrite (div_eq r 262144 (bz b0 - 240)); lia.
  - rewrite (div_eq r 4096 ((bz b0 - 240) * 64 + (bz b1 - 128))), (mod_shift (bz b0 - 240) 64); lia.
  - rewrite (div_eq r 64 (((bz b0 - 240) * 64 + (bz b1 - 128)) * 64 + (bz b2 - 128))),
      (mod_shift ((bz b0 - 240) * 64 + (bz b1 - 128)) 64); lia.
  - rewrite (mod_shift (((bz b0 - 240) * 64 + (bz b1 - 128)) * 64 + (bz b2 - 128)) 64); lia.
Qed.

(** The four outcomes of decoding a slice that does not start in ASCII. *)
Variant decoded (b0 : byte) (p : bytes) : Z * Z -> Prop :=
| dec_error : decoded b0 p (RuneError, 1)
| dec_2 b1 p' r : p = b1 :: p' -> is_cont b1 = true -> 128 <= r < 2048 ->
    AppendRune r = [b0; b1] -> decoded b0 p (r, 2)
| dec_3 b1 b2 p' r : p = b1 :: b2 :: p' -> is_cont b1 = true -> is_cont b2 = true ->
    2048 <= r < 65536 -> AppendRune r = [b0; b1; b2] -> decoded b0 p (r, 3)
| dec_4 b1 b2 b3 p' r : p = b1 :: b2 :: b3 :: p' ->
    is_cont b1 = true -> is_cont b2 = true -> is_cont b3 = true ->
    65536 <= r < 1114112 -> AppendRune r = [b0; b1; b2; b3] -> decoded b0 p (r, 4).

(** What [accept_range] guarantees of a first byte. *)
Lemma accept_range_Some x sz lo hi :
  accept_range x = Some (sz, lo, hi) ->
  128 <= lo /\ hi <= 191 /\
  ((sz = 2 /\ 194 <= x <= 223) \/
   (sz = 3 /\ 224 <= x <= 239 /\ (x = 224 -> 160 <= lo) /\ (x = 237 -> hi <= 159)) \/
   (sz = 4 /\ 240 <= x <= 244 /\ (x = 240 -> 144 <= lo) /\ (x = 244 -> hi <= 143))).
Proof. unfold accept_range. intros H. repeat case_match; simplify_eq; lia. Qed.

Lemma DecodeRune_decoded b0 p :
  is_ascii b0 = false -> decoded b0 p (DecodeRune (b0 :: p)).
Proof.
  intros Hb0. unfold DecodeRune. rewrite Hb0.
  destruct (accept_range (bz b0)) as [[[sz lo] hi]|] eqn:Hacc; [|constructor].
  apply accept_range_Some in Hacc as (Hlo & Hhi & Hsz).
  destruct p as [|b1 p]; [constructor|].
  destruct (Z.ltb_spec (bz b1) lo); [constructor|].
  destruct (Z.ltb_spec hi (bz b1)); [constructor|]. cbn [orb].
  assert (is_cont b1 = true) by (apply is_cont_iff; lia).
  destruct Hsz as [(-> & Hx)|[(-> & Hx & ? & ?)|(-> & Hx & ? & ?)]]; if_lia.
  - destruct (AppendRune_2 b0 b1) as [? ?]; [lia..|]. by econstructor.
  - destruct p as [|b2 p]; [constructor|].
    destruct (is_cont b2) eqn:Hb2; [|constructor]. apply is_cont_iff in Hb2 as ?.
    destruct (AppendRune_3 b0 b1 b2) as [? ?]; [lia..|]. by econstructor.
  - destruct p as [|b2 p]; [constructor|].
    destruct (is_cont b2) eqn:Hb2; [|constructor]. apply is_cont_iff in Hb2 as ?.
    destruct p as [|b3 p]; [constructor|].
    destruct (is_cont b3) eqn:Hb3; [|constructor]. apply is_cont_iff in Hb3 as ?.
    destruct (AppendRune_4 b0 b1 b2 b3) as [? ?]; [lia..|]. by econstructor.
Qed.

(** Decoding consumes between one and four bytes, and never past the end. *)
Lemma DecodeRune_width p :
  p <> [] -> 1 <= (DecodeRune p).2 <= 4 /\ (DecodeRune p).2 <= blen p.
Proof.
  destruct p as [|b p]; [done|]. intros _. destruct (is_ascii b) eqn:Hb.
  - rewrite DecodeRune_ascii by done. simpl. blen_lia.
  - destruct (DecodeRune_decoded b p Hb); subst; simpl; blen_lia.
Qed.

Lemma is_cont_not_ascii b : is_cont b = true -> is_ascii b = false.
Proof. unfold is_cont, is_ascii, RuneSelf. lia. Qed.

(** A byte outside ASCII starts a rune outside ASCII, of bytes outside ASCII. *)
Lemma DecodeRune_non_ascii b p :
  is_ascii b = false ->
  RuneSelf <= (DecodeRune (b :: p)).1 /\
  Forall (fun c => is_ascii c = false) (take (Z.to_nat (DecodeRune (b :: p)).2) (b :: p)).
Proof.
  intros Hb. unfold RuneSelf.
  destruct (DecodeRune_decoded b p Hb); subst; simpl; unfold RuneError;
    (split; [lia|]); rewrite ?take_0, ?Forall_cons, ?Forall_nil; split_and?;
    auto using is_cont_not_ascii.
Qed.

(** ** Chunks *)

Lemma chunks_from_drop k s : chunks_from k s = chunks (drop k s).
Proof.
  revert k. induction s as [|b s IH]; intros k; [by rewrite drop_nil|].
  destruct k as [|k]; [done|]. simpl. apply IH.
Qed.

Lemma chunks_cons b s :
  let rw := DecodeRune (b :: s) in
  chunks (b :: s) =
    (rw.1, take (Z.to_nat rw.2) (b :: s)) :: chunks (drop (Z.to_nat rw.2) (b :: s)).
Proof.
  intros rw. pose proof (DecodeRune_width (b :: s) ltac:(done)) as Hw. fold rw in Hw.
  unfold chunks at 1. cbn [chunks_from]. fold rw.
  destruct rw as [r w] eqn:E. cbn [fst snd] in *. f_equal.
  rewrite chunks_from_drop.
  replace (Z.to_nat w) with (S (Z.to_nat w - 1)) at 2 by lia. done.
Qed.

Lemma chunks_ascii b s : is_ascii b = true -> chunks (b :: s) = (bz b, [b]) :: chunks s.
Proof. intros Hb. rewrite chunks_cons, DecodeRune_ascii by done. done. Qed.

(** Induction along the runes of a slice. *)
Lemma chunks_ind (P : bytes -> Prop) :
  P [] ->
  (forall b s, is_ascii b = true -> P s -> P (b :: s)) ->
  (forall raw s r, chunks (raw ++ s) = (r, raw) :: chunks s ->
     raw <> [] -> RuneSelf <= r -> Forall (fun c => is_ascii c = false) raw ->
     P s -> P (raw ++ s)) ->
  forall s, P s.
Proof.
  intros Hnil Hascii Hother s.
  remember (length s) as n eqn:Hn. revert s Hn.
  induction (lt_wf n) as [n _ IH]. intros [|b s] ->; [done|].
  destruct (is_ascii b) eqn:Hb.
  - apply Hascii; [done|]. eapply IH; [|done]. simpl. lia.
  - pose proof (DecodeRune_width (b :: s) ltac:(done)) as Hw.
    destruct (DecodeRune_non_ascii b s Hb) as [Hr Hraw].
    pose proof (chunks_cons b s) as Hc. simpl in Hc.
    set (w := Z.to_nat (DecodeRune (b :: s)).2) in *.
    rewrite <- (take_drop w (b :: s)).
    apply (Hother _ _ (DecodeRune (b :: s)).1); try done.
    + rewrite take_drop. done.
    + destruct w eqn:Hw'; [lia|]. done.
    + eapply IH; [|done]. rewrite length_drop. simpl. lia.
Qed.

Lemma chunks_concat s : concat (map snd (chunks s)) = s.
Proof.
  induction s as [|b s Hb IH|raw s r Hc Hne Hr Hraw IH] using chunks_ind; [done| |].
  - rewrite chunks_ascii by done. simpl. by f_equal.
  - rewrite Hc. simpl. by f_equal.
Qed.

(** Every rune of the chunks is non-negative. *)
Lemma chunks_rune_nonneg s : Forall (fun rb : Z * bytes => 0 <= rb.1) (chunks s).
Proof.
  induction s as [|b s Hb IH|raw s r Hc Hne Hr Hraw IH] using chunks_ind; [constructor| |].
  - rewrite chunks_ascii by done. constructor; [apply bz_bounds|done].
  - rewrite Hc. constructor; [unfold RuneSelf in *; simpl; lia|done].
Qed.

(** ** Map *)

Lemma AppendRune_ascii b : is_ascii b = true -> AppendRune (bz b) = [b].
Proof.
  unfold is_ascii, RuneSelf, AppendRune. intros Hb. pose proof (bz_bounds b). if_lia.
  by rewrite byte_of_Z_bz.
Qed.

Lemma Map_ascii f b s :
  is_ascii b = true ->
  Map f (b :: s) = (if f (bz b) <? 0 then [] else AppendRune (f (bz b))) ++ Map f s.
Proof. intros Hb. unfold Map. rewrite chunks_ascii by done. done. Qed.

Lemma Map_cons_rune f raw s r :
  chunks (raw ++ s) = (r, raw) :: chunks s ->
  Map f (raw ++ s) = (if f r <? 0 then [] else AppendRune (f r)) ++ Map f s.
Proof. intros H. unfold Map. rewrite H. done. Qed.

Lemma Map_ext f g s : (forall r, f r = g r) -> Map f s = Map g s.
Proof. intros H. unfold Map. f_equal. apply map_ext. intros rb. by rewrite H. Qed.

(** The mapping that keeps the runes satisfying [p] and drops the others. *)
Definition keep (p : Z -> bool) (r : Z) : Z := if p r then r else -1.

(** When every kept rune is ASCII the result is the filtered slice: the bytes
    of a longer encoding, and invalid bytes, are all dropped. *)
Lemma Map_keep_ascii p s :
  (forall r, RuneSelf <= r -> p r = false) ->
  Map (keep p) s = List.filter (fun b => p (bz b)) s.
Proof.
  intros Hp. induction s as [|b s Hb IH|raw s r Hc Hne Hr Hraw IH] using chunks_ind; [done| |].
  - rewrite Map_ascii by done. unfold keep at 1 2. simpl.
    pose proof (bz_bounds b). destruct (p (bz b)).
    + if_lia. rewrite AppendRune_ascii by done. simpl. by f_equal.
    + simpl. done.
  - rewrite (Map_cons_rune _ _ _ r) by done.
    unfold keep at 1 2. rewrite Hp by done. simpl.
    rewrite List.filter_app, IH.
    rewrite (filter_none _ raw); [done|]. eapply Forall_impl; [exact Hraw|].
    unfold is_ascii. intros c Hlt. apply Hp. lia.
Qed.

Lemma AppendRune_non_ascii r :
  RuneSelf <= r -> exists b l, AppendRune r = b :: l /\ is_ascii b = false.
Proof.
  unfold RuneSelf, AppendRune, is_ascii, RuneSelf. intros Hr.
  repeat case_match; (eexists _, _; split; [reflexivity|]); try reflexivity;
    rewrite ?bz_byte_of_Z; Z.div_mod_to_equations; lia.
Qed.

(** A mapping that keeps all runes outside ASCII: on ASCII it filters, and the
    result is ASCII exactly when the slice is. *)
Section KeepNonAscii.
Context (p : Z -> bool) (Hp : forall r, RuneSelf <= r -> p r = true).

Lemma Map_keep_filter s :
  forallb is_ascii s = true ->
  Map (keep p) s = List.filter (fun b => p (bz b)) s.
Proof.
  induction s as [|b s IH]; simpl; [done|]. intros [Hb Hs]%andb_true_iff.
  rewrite Map_ascii by done. unfold keep at 1 2. pose proof (bz_bounds b).
  destruct (p (bz b)); rewrite IH by done; [|done].
  if_lia. by rewrite AppendRune_ascii.
Qed.

Lemma Map_keep_is_ascii s :
  forallb is_ascii (Map (keep p) s) = true -> forallb is_ascii s = true.
Proof.
  induction s as [|b s Hb IH|raw s r Hc Hne Hr Hraw IH] using chunks_ind; [done| |].
  - rewrite Map_ascii, forallb_app, andb_true_iff by done. simpl.
    rewrite Hb. intros [_ Hs]. auto.
  - rewrite (Map_cons_rune _ _ _ r) by done. unfold keep at 1 2. rewrite Hp by done.
    unfold RuneSelf in Hr. if_lia.
    destruct (AppendRune_non_ascii r Hr) as (b & l & -> & Hb). simpl. by rewrite Hb.
Qed.
End KeepNonAscii.

(** ** FieldsFunc and Join *)

Lemma Join_nil ss : Join ss [] = concat ss.
Proof.
  induction ss as [|s ss IH]; [done|]. destruct ss as [|t ss]; simpl in *.
  - by rewrite app_nil_r.
  - by rewrite IH.
Qed.

Lemma fields_concat f cur cs :
  concat (fields f cur cs) =
  default [] cur ++ concat (map snd (List.filter (fun rb : Z * bytes => negb (f rb.1)) cs)).
Proof.
  revert cur. induction cs as [|[r raw] cs IH]; intros cur; simpl.
  - destruct cur; simpl; by rewrite ?app_nil_r.
  - destruct (f r); simpl.
    + destruct cur; simpl; by rewrite IH.
    + rewrite IH. simpl. by rewrite app_assoc.
Qed.

(** Joining the fields between ASCII separators drops the separators and keeps
    every other byte as it is. *)
Lemma Join_FieldsFunc f s :
  (forall r, RuneSelf <= r -> f r = false) ->
  Join (FieldsFunc s f) [] = List.filter (fun b => negb (f (bz b))) s.
Proof.
  intros Hf. rewrite Join_nil. unfold FieldsFunc. rewrite fields_concat. simpl.
  induction s as [|b s Hb IH|raw s r Hc Hne Hr Hraw IH] using chunks_ind; [done| |].
  - rewrite chunks_ascii by done. simpl. destruct (f (bz b)); simpl; by rewrite IH.
  - rewrite Hc. simpl. rewrite Hf by done. simpl. rewrite List.filter_app, IH. f_equal.
    symmetry. apply filter_all. eapply Forall_impl; [exact Hraw|].
    unfold is_ascii. intros c Hlt. rewrite Hf by lia. done.
Qed.

(** ** The runes of a slice *)

Definition runes (b : bytes) : list Z := map fst (chunks b).

Lemma runes_ascii s : forallb is_ascii s = true -> runes s = map bz s.
Proof.
  unfold runes. induction s as [|b s IH]; simpl; [done|]. intros [Hb Hs]%andb_true_iff.
  rewrite chunks_ascii by done. simpl. by rewrite IH.
Qed.

Lemma length_runes s : (length (runes s) <= length s)%nat.
Proof.
  unfold runes. induction s as [|b s Hb IH|raw s r Hc Hne Hr Hraw IH] using chunks_ind; [done| |].
  - rewrite chunks_ascii by done. simpl. lia.
  - rewrite Hc, length_app. simpl. destruct raw; [done|]. simpl. lia.
Qed.

Lemma runes_all_ascii s : Forall (fun r => r < RuneSelf) (runes s) -> forallb is_ascii s = true.
Proof.
  unfold runes. induction s as [|b s Hb IH|raw s r Hc Hne Hr Hraw IH] using chunks_ind; [done| |].
  - rewrite chunks_ascii by done. simpl. intros [_ ?]%Forall_cons. rewrite Hb. auto.
  - rewrite Hc. simpl. intros [Hr' _]%Forall_cons. lia.
Qed.

(** When there are as many runes as bytes, every rune outside ASCII stands for
    an invalid byte. *)
Lemma runes_full s : length (runes s) = length s ->
  Forall (fun r => r < RuneSelf \/ r = RuneError) (runes s).
Proof.
  induction s as [|b s Hb IH|raw s r Hc Hne Hr Hraw IH] using chunks_ind; intros Hlen; [constructor| |].
  - assert (runes (b :: s) = bz b :: runes s) as Heq by (unfold runes; by rewrite chunks_ascii).
    rewrite Heq in *. simpl in Hlen. constructor; [|apply IH; lia]. left. unfold is_ascii in Hb. lia.
  - assert (runes (raw ++ s) = r :: runes s) as Heq by (unfold runes; by rewrite Hc).
    rewrite Heq in *. rewrite length_app in Hlen. simpl in Hlen. pose proof (length_runes s).
    destruct raw as [|b [|? ?]]; [done| |simpl in Hlen; lia]. constructor; [|apply IH; simpl in Hlen; lia].
    right. apply Forall_cons in Hraw as [Hb _]. change ([b] ++ s) with (b :: s) in Hc.
    rewrite chunks_cons in Hc. cbv zeta in Hc. pose proof (DecodeRune_decoded b s Hb) as Hd.
    remember (DecodeRune (b :: s)) as d eqn:Ed. clear Ed.
    destruct Hd; subst; cbn [fst snd] in Hc; [congruence|..]; discriminate Hc.
Qed.

(** Every byte, for statements decided by trying them all. *)
Definition all_byte_list : list byte := map byte_of_Z (map Z.of_nat (List.seq 0 256)).

Lemma elem_of_all_byte_list b : In b all_byte_list.
Proof.
  apply in_map_iff. exists (bz b). split; [apply byte_of_Z_bz|]. apply in_map_iff.
  pose proof (bz_bounds b). exists (Z.to_nat (bz b)). split; [lia|]. apply in_seq. lia.
Qed.

Lemma forall_bytes (f : byte -> bool) : forallb f all_byte_list = true -> forall b, f b = true.
Proof. intros H b. rewrite forallb_forall in H. apply H, elem_of_all_byte_list. Qed.
