(* ===== verification/Tokenization.v ===== *)
(** * analyzer/tokenization.go: splitting the input into tokens

    [TokenIterator] is modelled loop by loop on positions of the input, with
    its [yield] callback; [tokens] collects what a full iteration yields.  The
    specification is [lex], a one-pass automaton over the runes of the input. *)
From S2P Require Import Prelude GoBytes.

(** A token of the input with its position (byte_analyzer.go). *)
Record Token := mkToken { Start : Z; End_ : Z; Content : bytes }.

Definition Len (t : Token) : Z := End_ t - Start t.

#[export] Instance Token_eq_dec : EqDecision Token.
Proof. solve_decision. Defined.

Definition rune_in (set : list byte) (r : Z) : bool := existsb (fun b => r =? bz b) set.

Definition delimiters : list byte :=
  [","; ";"; "!"; "?"; "("; ")"; "["; "]"; "{"; "}"; x22; "'"; "/"; "\"; x0a; x09; x0d]%byte.

Definition escapeChar : Z := bz "\".
Definition escapeCharLen : Z := RuneLen escapeChar.

Definition control : list byte := ["n"; "t"; "r"]%byte.

Definition isDelimiter (r : Z) : bool :=
  if IsSpace r then true else rune_in delimiters r.

(** The closure [skipDelimiters]: the position of the next rune that belongs
    to a token.  The escape flag is set by a backslash and cleared only by a
    control letter. *)
Fixpoint skipDelimiters_loop (fuel : nat) (s : bytes) (start : Z) (isEscaping : bool)
    : option Z :=
  match fuel with
  | O => None
  | S fuel' =>
      if start <? blen s then
        rest ← s.[start:];
        let '(r, size) := DecodeRune rest in
        if r =? escapeChar then skipDelimiters_loop fuel' s (start + size) true
        else if isEscaping && rune_in control r
        then skipDelimiters_loop fuel' s (start + size) false
        else if negb (isDelimiter r) then Some start
        else skipDelimiters_loop fuel' s (start + size) isEscaping
      else Some start
  end.

Definition skipDelimiters (s : bytes) (start : Z) : option Z :=
  skipDelimiters_loop (S (length s)) s start false.

(** The closure [findTokenEnd]. *)
Fixpoint findTokenEnd_loop (fuel : nat) (s : bytes) (end_ : Z) (isEscaping : bool)
    : option Z :=
  match fuel with
  | O => None
  | S fuel' =>
      if end_ <? blen s then
        rest ← s.[end_:];
        let '(r, size) := DecodeRune rest in
        if isDelimiter r then Some end_
        else if isEscaping && rune_in control r then Some (end_ - escapeCharLen)
        else findTokenEnd_loop fuel' s (end_ + size) (r =? escapeChar)
      else Some end_
  end.

Definition findTokenEnd (s : bytes) (start : Z) : option Z :=
  findTokenEnd_loop (S (length s)) s start false.

(** The iterator.  [yield] threads the state of the loop body it stands for
    and answers whether to go on. *)
Section Iterator.
Context {St : Type} (yield : St -> Token -> option (St * bool)).

Fixpoint TokenIterator_loop (fuel : nat) (s : bytes) (start : Z) (st : St) : option St :=
  match fuel with
  | O => None
  | S fuel' =>
      if start <? blen s then
        start ← skipDelimiters s start;
        if blen s <=? start then Some st else
        end_ ← findTokenEnd s start;
        content ← s.[start : end_];
        '(st', more) ← yield st (mkToken start end_ content);
        if (more : bool) then TokenIterator_loop fuel' s end_ st' else Some st'
      else Some st
  end.

Definition TokenIterator (s : bytes) (st : St) : option St :=
  TokenIterator_loop (S (length s)) s 0 st.

(** Running [yield] over a list of tokens until it answers [false]. *)
Fixpoint yield_all (ts : list Token) (st : St) : option St :=
  match ts with
  | [] => Some st
  | t :: ts' =>
      '(st', more) ← yield st t;
      if (more : bool) then yield_all ts' st' else Some st'
  end.
End Iterator.

(** The tokens of a full iteration, in the order they are yielded. *)
Definition tokens (s : bytes) : option (list Token) :=
  TokenIterator (fun acc t => Some (acc ++ [t], true)) s [].

(** ** Specification: a one-pass automaton *)

Variant lex_state :=
| InGap (escaping : bool)
| InToken (start : Z) (content : bytes).

Fixpoint lex (cs : list (Z * bytes)) (pos : Z) (st : lex_state) : list Token :=
  match cs, st with
  | [], InGap _ => []
  | [], InToken start content => [mkToken start pos content]
  | (r, raw) :: cs', InGap esc =>
      if r =? escapeChar then lex cs' (pos + blen raw) (InGap true)
      else if esc && rune_in control r then lex cs' (pos + blen raw) (InGap false)
      else if isDelimiter r then lex cs' (pos + blen raw) (InGap esc)
      else lex cs' (pos + blen raw) (InToken pos raw)
  | (r, raw) :: cs', InToken start content =>
      if isDelimiter r
      then mkToken start pos content :: lex cs' (pos + blen raw) (InGap (r =? escapeChar))
      else lex cs' (pos + blen raw) (InToken start (content ++ raw))
  end.

Definition lex_tokens (s : bytes) : list Token := lex (chunks s) 0 (InGap false).

(** ** The loops follow the automaton *)

(** The state of [lex] on the first rune of a token. *)
Definition lex_start (cs : list (Z * bytes)) (pos : Z) : list Token :=
  match cs with
  | [] => []
  | (r, raw) :: cs' => lex cs' (pos + blen raw) (InToken pos raw)
  end.

Definition starts_token (s : bytes) : Prop :=
  match chunks s with [] => True | (r, _) :: _ => isDelimiter r = false end.

Lemma isDelimiter_escapeChar : isDelimiter escapeChar = true.
Proof. vm_compute. done. Qed.

(** One step of a loop that decodes the rune at the end of [p]. *)
Lemma chunks_head t :
  t <> [] ->
  exists raw t' r, t = raw ++ t' /\ chunks t = (r, raw) :: chunks t' /\
    DecodeRune t = (r, blen raw) /\ raw <> [].
Proof.
  destruct t as [|b t]; [done|]. intros _.
  pose proof (chunks_cons b t) as Hc. pose proof (DecodeRune_width (b :: t) ltac:(done)) as Hw.
  set (rw := DecodeRune (b :: t)) in *. simpl in Hc.
  set (w := Z.to_nat rw.2) in *. assert (rw.2 = Z.of_nat w) as Hw2 by (unfold w; lia).
  assert (blen (take w (b :: t)) = rw.2) as Hlen.
  { unfold blen in *. rewrite length_take. lia. }
  exists (take w (b :: t)), (drop w (b :: t)), rw.1.
  rewrite take_drop. split_and!; try done.
  - rewrite Hlen. by destruct rw.
  - intros Hnil. rewrite Hnil in Hlen. unfold blen in Hlen. simpl in Hlen. lia.
Qed.

Lemma app_step {A} (p raw t : list A) : p ++ raw ++ t = (p ++ raw) ++ t.
Proof. apply app_assoc. Qed.

Lemma skipDelimiters_lex t : forall p esc fuel,
  (length t < fuel)%nat ->
  exists g rest, t = g ++ rest /\ starts_token rest /\
    skipDelimiters_loop fuel (p ++ t) (blen p) esc = Some (blen p + blen g) /\
    forall pos, lex (chunks t) pos (InGap esc) = lex_start (chunks rest) (pos + blen g).
Proof.
  remember (length t) as n eqn:Hn. revert t Hn.
  induction (lt_wf n) as [n _ IH]. intros t -> p esc fuel Hfuel.
  destruct fuel as [|fuel]; [lia|]. cbn [skipDelimiters_loop].
  destruct (decide (t = [])) as [->|Ht].
  { rewrite app_nil_r. exists [], []. split_and!; [done|done| |done].
    if_lia. f_equal. rewrite blen_nil. lia. }
  destruct (chunks_head t Ht) as (raw & t' & r & -> & Hc & Hd & Hraw).
  pose proof (blen_nonneg t'). pose proof (blen_pos raw Hraw).
  rewrite slice_app_r, Hc. cbn [mbind option_bind lex].
  rewrite Hd. assert (blen p < blen (p ++ raw ++ t')) by blen_lia. if_lia.
  assert (forall esc', exists g rest, raw ++ t' = g ++ rest /\ starts_token rest /\
    skipDelimiters_loop fuel (p ++ raw ++ t') (blen p + blen raw) esc' = Some (blen p + blen g) /\
    forall pos, lex (chunks t') (pos + blen raw) (InGap esc') =
                lex_start (chunks rest) (pos + blen g)) as Hnext.
  { intros esc'. rewrite length_app in Hfuel, IH.
    assert (length raw <> 0)%nat by (destruct raw; simpl; done || lia).
    destruct (IH (length t') ltac:(lia) t' eq_refl (p ++ raw) esc' fuel ltac:(lia))
      as (g & rest & -> & Hs & Hskip & Hlex).
    rewrite <- app_assoc, blen_app in Hskip.
    exists (raw ++ g), rest. split_and!; [apply app_assoc|done| |].
    - rewrite Hskip, blen_app. f_equal. lia.
    - intros pos. rewrite Hlex, blen_app. f_equal. lia. }
  destruct (r =? escapeChar); [apply Hnext|].
  destruct (esc && rune_in control r); [apply Hnext|].
  destruct (isDelimiter r) eqn:Hdel; [apply Hnext|].
  exists [], (raw ++ t'). simpl. unfold starts_token. rewrite Hc. split_and!; try done.
  - f_equal. rewrite blen_nil. lia.
  - intros pos. simpl. rewrite blen_nil. f_equal; [|f_equal]; lia.
Qed.

Lemma findTokenEnd_lex t : forall p fuel,
  (length t < fuel)%nat ->
  exists c rest, t = c ++ rest /\
    findTokenEnd_loop fuel (p ++ t) (blen p) false = Some (blen p + blen c) /\
    (t <> [] -> starts_token t -> c <> []) /\
    forall pos start acc, lex (chunks t) pos (InToken start acc) =
      mkToken start (pos + blen c) (acc ++ c) :: lex (chunks rest) (pos + blen c) (InGap false).
Proof.
  remember (length t) as n eqn:Hn. revert t Hn.
  induction (lt_wf n) as [n _ IH]. intros t -> p fuel Hfuel.
  destruct fuel as [|fuel]; [lia|]. cbn [findTokenEnd_loop].
  destruct (decide (t = [])) as [->|Ht].
  { rewrite app_nil_r. exists [], []. split_and!; try done.
    - if_lia. f_equal. rewrite blen_nil. lia.
    - intros. simpl. rewrite blen_nil, app_nil_r. do 2 f_equal. lia. }
  destruct (chunks_head t Ht) as (raw & t' & r & -> & Hc & Hd & Hraw).
  pose proof (blen_nonneg t'). pose proof (blen_pos raw Hraw).
  rewrite slice_app_r, Hc. cbn [mbind option_bind lex andb].
  rewrite Hd. assert (blen p < blen (p ++ raw ++ t')) by blen_lia. if_lia.
  destruct (isDelimiter r) eqn:Hdel.
  - exists [], (raw ++ t'). unfold starts_token. rewrite Hc. simpl. split_and!; try done.
    + f_equal. rewrite blen_nil. lia.
    + congruence.
    + intros. rewrite Hdel, blen_nil, app_nil_r.
      replace (pos + 0) with pos by lia. by destruct (r =? escapeChar).
  - assert ((r =? escapeChar) = false) as ->.
    { apply Z.eqb_neq. intros ->. by rewrite isDelimiter_escapeChar in Hdel. }
    rewrite length_app in Hfuel, IH.
    assert (length raw <> 0)%nat by (destruct raw; simpl; done || lia).
    destruct (IH (length t') ltac:(lia) t' eq_refl (p ++ raw) fuel ltac:(lia))
      as (c & rest & -> & Hend & _ & Hlex).
    rewrite <- app_assoc, blen_app in Hend.
    exists (raw ++ c), rest. split_and!; [apply app_assoc| | |].
    + rewrite Hend, blen_app. f_equal. lia.
    + intros _ _ ?. by destruct raw.
    + intros. rewrite Hlex, blen_app, <- app_assoc. f_equal; [f_equal|f_equal]; lia.
Qed.

Lemma lex_start_token t pos :
  starts_token t -> t <> [] ->
  lex_start (chunks t) pos = lex (chunks t) pos (InToken pos []).
Proof.
  intros Hs Ht. destruct (chunks_head t Ht) as (raw & t' & r & -> & Hc & _).
  unfold starts_token in Hs. rewrite Hc in *. simpl. by rewrite Hs.
Qed.

Section IteratorLemmas.
Context {St : Type} (yield : St -> Token -> option (St * bool)).

Lemma TokenIterator_loop_lex t : forall p fuel st,
  (length t < fuel)%nat ->
  TokenIterator_loop yield fuel (p ++ t) (blen p) st =
  yield_all yield (lex (chunks t) (blen p) (InGap false)) st.
Proof.
  remember (length t) as n eqn:Hn. revert t Hn.
  induction (lt_wf n) as [n _ IH]. intros t -> p fuel st Hfuel.
  destruct fuel as [|fuel]; [lia|]. cbn [TokenIterator_loop].
  destruct (decide (t = [])) as [->|Ht]; [rewrite app_nil_r; by if_lia|].
  pose proof (blen_pos t Ht).
  assert (blen p < blen (p ++ t)) by blen_lia. if_lia.
  destruct (skipDelimiters_lex t p false (S (length (p ++ t))))
    as (g & rest & -> & Hs & Hskip & Hlex); [rewrite length_app; lia|].
  unfold skipDelimiters. rewrite Hskip, Hlex. cbn [mbind option_bind].
  destruct (decide (rest = [])) as [->|Hrest].
  { rewrite app_nil_r, blen_app. by if_lia. }
  pose proof (blen_pos rest Hrest).
  assert (blen p + blen g < blen (p ++ g ++ rest)) by blen_lia. if_lia.
  rewrite lex_start_token by done.
  destruct (findTokenEnd_lex rest (p ++ g) (S (length (p ++ g ++ rest))))
    as (c & rest' & -> & Hend & Hc & Hlex'); [rewrite !length_app; lia|].
  specialize (Hc Hrest Hs). rewrite blen_app, <- !app_assoc in Hend.
  unfold findTokenEnd. rewrite Hend, Hlex', <- blen_app. cbn [mbind option_bind].
  rewrite (app_assoc p g), slice_app_mid. cbn [mbind option_bind yield_all app].
  destruct (yield st _) as [[st' [|]]|]; [|done..]. cbn [mbind option_bind].
  rewrite <- blen_app, (app_assoc (p ++ g)).
  rewrite !length_app in Hfuel, IH. destruct c as [|b c]; [done|]. simpl in Hfuel, IH.
  eapply IH; [|done|]; lia.
Qed.
End IteratorLemmas.

(** ** Shape of the tokens *)

(** The tokens are disjoint, not empty, in order and between two positions. *)
Fixpoint within (lo hi : Z) (ts : list Token) : Prop :=
  match ts with
  | [] => lo <= hi
  | t :: ts' => lo <= Start t /\ Start t < End_ t /\ within (End_ t) hi ts'
  end.

Lemma within_mono lo lo' hi ts : lo' <= lo -> within lo hi ts -> within lo' hi ts.
Proof. destruct ts; simpl; intros; [lia|]. intuition lia. Qed.

Definition raws (cs : list (Z * bytes)) : bytes := concat (map snd cs).

Definition no_empty (cs : list (Z * bytes)) : Prop := Forall (fun rb => rb.2 <> []) cs.

Lemma chunks_no_empty s : no_empty (chunks s).
Proof.
  induction s as [|b s Hb IH|raw s r Hc Hne Hr Hraw IH] using chunks_ind; [constructor| |].
  - rewrite chunks_ascii by done. by constructor.
  - rewrite Hc. by constructor.
Qed.

Lemma sublist_within lo hi sub ts :
  sub `sublist_of` ts -> within lo hi ts -> within lo hi sub.
Proof.
  intros Hsub. revert lo. induction Hsub as [|t sub ts _ IH|t sub ts _ IH]; intros lo; simpl.
  - done.
  - intuition.
  - intros (H1 & H2 & H3). apply (within_mono (End_ t)); [lia|auto].
Qed.

Lemma lex_within cs : forall pos,
  no_empty cs ->
  (forall esc, within pos (pos + blen (raws cs)) (lex cs pos (InGap esc))) /\
  (forall start acc, start < pos ->
     within start (pos + blen (raws cs)) (lex cs pos (InToken start acc))).
Proof.
  induction cs as [|[r raw] cs IH]; intros pos Hne; simpl.
  { split; intros; unfold raws, blen; simpl; lia. }
  apply Forall_cons in Hne as [Hraw Hne]. simpl in Hraw. pose proof (blen_pos raw Hraw).
  unfold raws in *. simpl. rewrite blen_app, Z.add_assoc.
  destruct (IH (pos + blen raw) Hne) as [IHg IHt].
  split.
  - intros esc. repeat case_match;
      first [apply (within_mono (pos + blen raw)); [lia|by auto]|by apply IHt; lia].
  - intros start acc Hs. case_match; simpl.
    + split_and!; [lia|lia|]. apply (within_mono (pos + blen raw)); [lia|auto].
    + apply IHt. lia.
Qed.

(** Every token holds the bytes of the input between its positions. *)
Lemma lex_content cs : forall p,
  (forall esc, Forall (fun t => Content t = sub (p ++ raws cs) (Start t) (End_ t))
                 (lex cs (blen p) (InGap esc))) /\
  (forall q acc, p = q ++ acc ->
     Forall (fun t => Content t = sub (p ++ raws cs) (Start t) (End_ t))
       (lex cs (blen p) (InToken (blen q) acc))).
Proof.
  induction cs as [|[r raw] cs IH]; intros p; simpl.
  { split; intros; repeat constructor. subst. simpl. rewrite blen_app.
    unfold raws. simpl. by rewrite <- app_assoc, sub_app_mid. }
  unfold raws in *. simpl. rewrite <- blen_app.
  destruct (IH (p ++ raw)) as [IHg IHt]. rewrite <- app_assoc in IHg, IHt.
  split.
  - intros esc. repeat case_match; auto.
  - intros q acc ->. case_match.
    + constructor; [|auto]. simpl. by rewrite blen_app, <- app_assoc, sub_app_mid.
    + apply IHt. by rewrite app_assoc.
Qed.

(** An ASCII byte of a rune is the rune. *)
Definition ascii_faithful (cs : list (Z * bytes)) : Prop :=
  Forall (fun rb : Z * bytes => Forall (fun b => is_ascii b = true -> bz b = rb.1) rb.2) cs.

Lemma chunks_ascii_faithful s : ascii_faithful (chunks s).
Proof.
  induction s as [|b s Hb IH|raw s r Hc Hne Hr Hraw IH] using chunks_ind; [constructor| |].
  - rewrite chunks_ascii by done. constructor; [|done]. by repeat constructor.
  - rewrite Hc. constructor; [|done]. eapply Forall_impl; [exact Hraw|].
    simpl. congruence.
Qed.

Definition no_delimiter (content : bytes) : Prop :=
  Forall (fun b => is_ascii b = true -> isDelimiter (bz b) = false) content.

Lemma no_delimiter_raw r raw :
  isDelimiter r = false -> Forall (fun b => is_ascii b = true -> bz b = r) raw ->
  no_delimiter raw.
Proof.
  intros Hr H. eapply Forall_impl; [exact H|]. simpl. intros b Hb Ha. by rewrite Hb.
Qed.

Lemma lex_no_delimiter cs : forall pos,
  ascii_faithful cs ->
  (forall esc, Forall (fun t => no_delimiter (Content t)) (lex cs pos (InGap esc))) /\
  (forall start acc, no_delimiter acc ->
     Forall (fun t => no_delimiter (Content t)) (lex cs pos (InToken start acc))).
Proof.
  induction cs as [|[r raw] cs IH]; intros pos Hf; simpl.
  { split; intros; by repeat constructor. }
  apply Forall_cons in Hf as [Hraw Hf]. simpl in Hraw.
  destruct (IH (pos + blen raw) Hf) as [IHg IHt]. split.
  - intros esc. repeat case_match; auto. apply IHt. by eapply no_delimiter_raw.
  - intros start acc Hacc. case_match; [by constructor|].
    apply IHt. apply Forall_app. split; [done|]. by eapply no_delimiter_raw.
Qed.

(** Without a backslash the automaton computes the fields between delimiters. *)
Lemma lex_fields cs : forall pos,
  Forall (fun rb : Z * bytes => rb.1 <> escapeChar) cs ->
  map Content (lex cs pos (InGap false)) = fields isDelimiter None cs /\
  forall start acc,
    map Content (lex cs pos (InToken start acc)) = fields isDelimiter (Some acc) cs.
Proof.
  induction cs as [|[r raw] cs IH]; intros pos Hne; simpl; [done|].
  apply Forall_cons in Hne as [Hr Hne]. simpl in Hr. apply Z.eqb_neq in Hr as ->.
  destruct (IH (pos + blen raw) Hne) as [IHg IHt]. simpl.
  destruct (isDelimiter r); simpl; [|auto]. split; [done|]. intros start acc. by f_equal.
Qed.

Lemma lex_tokens_within s : within 0 (blen s) (lex_tokens s).
Proof.
  destruct (lex_within (chunks s) 0 (chunks_no_empty s)) as [H _].
  specialize (H false). unfold raws in H. by rewrite chunks_concat in H.
Qed.

Lemma lex_tokens_content s :
  Forall (fun t => Content t = sub s (Start t) (End_ t)) (lex_tokens s).
Proof.
  destruct (lex_content (chunks s) []) as [H _]. specialize (H false).
  unfold raws in H. simpl in H. by rewrite chunks_concat in H.
Qed.

Lemma yield_all_collect ts : forall acc,
  yield_all (fun acc t => Some (acc ++ [t], true)) ts acc = Some (acc ++ ts).
Proof.
  induction ts as [|t ts IH]; intros acc; simpl; [by rewrite app_nil_r|].
  rewrite IH, <- app_assoc. done.
Qed.

Lemma tokens_lex s : tokens s = Some (lex_tokens s).
Proof.
  unfold tokens, TokenIterator, lex_tokens.
  pose proof (TokenIterator_loop_lex (fun acc t => Some (acc ++ [t], true)) s []
                (S (length s)) [] ltac:(lia)) as H.
  simpl app in H. rewrite blen_nil in H. rewrite H. apply yield_all_collect.
Qed.

Lemma within_bounds lo hi ts :
  within lo hi ts ->
  lo <= hi /\ Forall (fun t => lo <= Start t /\ Start t < End_ t /\ End_ t <= hi) ts.
Proof.
  revert lo. induction ts as [|t ts IH]; intros lo; simpl; [auto|].
  intros (H1 & H2 & H3). destruct (IH _ H3) as [Hle HF]. split; [lia|].
  constructor; [lia|]. eapply Forall_impl; [exact HF|]. simpl. intros. lia.
Qed.

(** ** Properties *)

(** C7: [TokenIterator] terminates and never slices out of range: on every
    input it runs its callback over exactly the tokens of the one-pass
    automaton [lex_tokens], in order, and stops when the callback asks to. *)
Theorem TokenIterator_lex St (yield : St -> Token -> option (St * bool)) s st :
  TokenIterator yield s st = yield_all yield (lex_tokens s) st.
Proof.
  apply (TokenIterator_loop_lex yield s [] (S (length s)) st). lia.
Qed.

(** C8: the tokens are not empty, disjoint, in increasing order and inside the
    input, and each holds exactly the bytes between its positions. *)
Theorem tokens_well_formed s :
  exists ts, tokens s = Some ts /\ within 0 (blen s) ts /\
    Forall (fun t => Content t = sub s (Start t) (End_ t) /\ Len t = blen (Content t)) ts.
Proof.
  exists (lex_tokens s). split_and!; [apply tokens_lex|apply lex_tokens_within|].
  destruct (within_bounds _ _ _ (lex_tokens_within s)) as [_ Hb].
  pose proof (lex_tokens_content s) as Hc. rewrite Forall_forall in Hb, Hc |- *.
  intros t Ht. split; [auto|]. rewrite Hc by done. specialize (Hb t Ht). unfold Len.
  rewrite length_sub; lia.
Qed.

(** No token holds an ASCII delimiter: white space, quote, bracket, slash,
    backslash or separator. *)
Theorem tokens_no_delimiter s :
  exists ts, tokens s = Some ts /\ Forall (fun t => no_delimiter (Content t)) ts.
Proof.
  exists (lex_tokens s). split; [apply tokens_lex|].
  apply lex_no_delimiter, chunks_ascii_faithful.
Qed.

Lemma chunks_no_escape s :
  ~ ("\"%byte ∈ s) -> Forall (fun rb : Z * bytes => rb.1 <> escapeChar) (chunks s).
Proof.
  induction s as [|b s Hb IH|raw s r Hc Hne Hr Hraw IH] using chunks_ind; intros Hs;
    [constructor| |].
  - rewrite chunks_ascii by done. constructor; [|set_solver]. simpl.
    intros ?%bz_inj. set_solver.
  - rewrite Hc. constructor; [|set_solver]. simpl. unfold RuneSelf, escapeChar in *.
    bz_lit. lia.
Qed.

(** C11: on input without a backslash the tokens are the fields between
    delimiters, [bytes.FieldsFunc(s, isDelimiter)]: no byte that is not part of
    a delimiter is left out of every token. *)
Theorem tokens_are_fields s (no_backslash : ~ ("\"%byte ∈ s)) :
  exists ts, tokens s = Some ts /\ map Content ts = FieldsFunc s isDelimiter.
Proof.
  exists (lex_tokens s). split; [apply tokens_lex|].
  apply (lex_fields (chunks s) 0). by apply chunks_no_escape.
Qed.

Lemma tokens_are_fields_witness :
  exists ts, tokens (list_byte_of_string "a@b.c, (d)") = Some ts /\
    map Content ts = FieldsFunc (list_byte_of_string "a@b.c, (d)") isDelimiter.
Proof. refine (tokens_are_fields _ _). apply (bool_decide_unpack _). vm_compute. exact I. Defined.

Lemma lex_plain w : forall pos start acc,
  forallb (fun b => is_ascii b && negb (isDelimiter (bz b))) w = true ->
  lex (chunks w) pos (InToken start acc) = [mkToken start (pos + blen w) (acc ++ w)].
Proof.
  induction w as [|b w IH]; intros pos start acc Hw; simpl.
  { rewrite app_nil_r, blen_nil. do 2 f_equal. lia. }
  simpl in Hw. bsplit. rewrite chunks_ascii by done. simpl. rewrite H1.
  rewrite IH by done. rewrite <- app_assoc, !blen_cons, blen_nil. simpl.
  do 2 f_equal. lia.
Qed.

(** The escape flag of [skipDelimiters] survives the delimiters that follow
    a backslash: in a backslash, a space and a word, a first letter n, t or r
    of the word is skipped as if it were the end of an escape sequence. *)
Theorem escape_flag_survives_space c w
    (is_control : c ∈ control) (not_empty : w <> [])
    (plain : forallb (fun b => is_ascii b && negb (isDelimiter (bz b))) w = true) :
  tokens (["\"; " "; c] ++ w)%byte = Some [mkToken 3 (3 + blen w) w].
Proof.
  rewrite tokens_lex. unfold lex_tokens. f_equal. simpl app.
  assert (is_ascii c = true /\ rune_in control (bz c) = true /\ (bz c =? escapeChar) = false)
    as (Hc & Hctl & Hesc).
  { unfold control in is_control. set_unfold in is_control.
    destruct is_control as [->|[->|[->|[]]]]; done. }
  rewrite !chunks_ascii by done.
  destruct w as [|b w]; [done|]. simpl in plain. bsplit.
  cbn [lex].
  change (bz "\" =? escapeChar) with true. change (bz " " =? escapeChar) with false.
  change (true && rune_in control (bz " ")) with false. change (isDelimiter (bz " ")) with true.
  cbv iota. rewrite Hesc, Hctl, chunks_ascii by done. cbn [lex andb].
  assert ((bz b =? escapeChar) = false) as ->.
  { apply Z.eqb_neq. intros Hb. by rewrite Hb in H1. }
  rewrite H1, lex_plain by done. unfold blen. simpl. do 2 f_equal; lia.
Qed.

Lemma escape_flag_survives_space_witness :
  tokens (["\"; " "; "r"] ++ list_byte_of_string "ui@example.com")%byte
  = Some [mkToken 3 17 (list_byte_of_string "ui@example.com")].
Proof.
  refine (escape_flag_survives_space _ _ _ _ _); [|done|vm_compute; done].
  unfold control. apply list_elem_of_In. simpl. auto.
Defined.
