(* ===== verification/Rules.v ===== *)
(** * analyzer/rules.go: rules, matchers, exceptions and settings

    A [Matcher] is its entity and its answer on the bytes of a token, [None] if
    it panics: a matcher is code of the caller.  The context the Go interface
    also receives carries logging, tracing and cancellation only; the patterns
    of the [pattern] package are shown in Patterns.v to answer independently of
    it. *)
From S2P Require Import Prelude.

(** [pattern.Entity] is a string. *)
Abbreviation Entity := string.

Record Matcher := mkMatcher { MEntity : Entity; Match : bytes -> option bool }.

Record RedactSettings := mkRedact { Placeholder : string }.

Record MaskSettings := mkMask { MaskingChar : string; MaxSize : Z }.

(** [AnonymizeStrategy] is an [int] with two named values; a [switch] on it
    has no default branch, so the other values are kept. *)
Variant AnonymizeStrategy := REDACT | MASK | OtherStrategy (n : Z).

(** The settings of a strategy are pointers and may be nil. *)
Record RuleSettings := mkSettings {
  Strategy : AnonymizeStrategy;
  Redact : option RedactSettings;
  Mask : option MaskSettings
}.

Record Exception := mkException { Reason : string; ExMatcher : Matcher }.

Record Rule := mkRule {
  Disable : bool;
  Name : string;
  Description : string;
  RMatcher : Matcher;
  Exceptions : list Exception;
  Settings : RuleSettings
}.

(** [rule.Matcher.Entity()]. *)
Definition entity (r : Rule) : Entity := MEntity (RMatcher r).

(** [isException] (byte_analyzer.go): does any exception match the token? *)
Fixpoint isException (token : bytes) (exceptions : list Exception) : option bool :=
  match exceptions with
  | [] => Some false
  | exception :: rest =>
      b ← Match (ExMatcher exception) token;
      if (b : bool) then Some true else isException token rest
  end.

(** ** The meaning of rules

    What the matcher of a rule answers, and whether one of its exceptions
    matches; a matcher that panics answers nothing. *)
Definition matches (r : Rule) (data : bytes) : bool := default false (Match (RMatcher r) data).

Definition excepted (token : bytes) (exceptions : list Exception) : bool :=
  existsb (fun x => default false (Match (ExMatcher x) token)) exceptions.

(** The matchers of the enabled rules, and their exceptions, do not panic. *)
Definition matchers_return (data : bytes) (rules : list Rule) : Prop :=
  forall r, r ∈ rules -> Disable r = false -> is_Some (Match (RMatcher r) data).

Definition exceptions_return (data : bytes) (rules : list Rule) : Prop :=
  forall r, r ∈ rules -> Disable r = false -> is_Some (isException data (Exceptions r)).

Definition panic_free (rules : list Rule) : Prop :=
  forall data, matchers_return data rules /\ exceptions_return data rules.

(** The first rule that applies to the token when every enabled rule is tried
    in order: the reference the rule runners are compared with. *)
Definition applies (data : bytes) (r : Rule) : bool :=
  negb (Disable r) && negb (excepted data (Exceptions r)) && matches r data.

Definition first_match (rules : list Rule) (data : bytes) : option Rule :=
  List.find (applies data) rules.

(** Settings that name the configuration of their strategy. *)
Definition settings_ok (st : RuleSettings) : Prop :=
  match Strategy st with
  | REDACT => is_Some (Redact st)
  | MASK => is_Some (Mask st)
  | OtherStrategy _ => True
  end.

#[export] Instance settings_ok_dec st : Decision (settings_ok st).
Proof. unfold settings_ok. destruct (Strategy st); apply _. Defined.

Lemma isException_excepted token exceptions b :
  isException token exceptions = Some b -> excepted token exceptions = b.
Proof.
  induction exceptions as [|x xs IH]; simpl; [by intros [= <-]|].
  destruct (Match (ExMatcher x) token) as [[]|]; simpl; [by intros [= <-]|done|done].
Qed.

Lemma isException_total token exceptions :
  is_Some (isException token exceptions) -> isException token exceptions = Some (excepted token exceptions).
Proof. intros [b Hb]. by rewrite Hb, (isException_excepted _ _ _ Hb). Qed.

Lemma isException_returns token exceptions :
  Forall (fun x => is_Some (Match (ExMatcher x) token)) exceptions -> is_Some (isException token exceptions).
Proof. induction 1 as [|x xs [[] Hb] _ IH]; simpl; [by eexists|..]; rewrite Hb; simpl; [by eexists|done]. Qed.

Lemma matches_Some r data b : Match (RMatcher r) data = Some b -> matches r data = b.
Proof. unfold matches. by intros ->. Qed.

Lemma matches_true r data : matches r data = true -> Match (RMatcher r) data = Some true.
Proof. unfold matches. destruct (Match (RMatcher r) data) as [[]|]; by simpl. Qed.

(** Rules that all return on every token. *)
Lemma panic_free_all rules :
  Forall (fun r => forall data, is_Some (Match (RMatcher r) data) /\
    Forall (fun x => is_Some (Match (ExMatcher x) data)) (Exceptions r)) rules ->
  panic_free rules.
Proof.
  rewrite Forall_forall. intros Hall data. split; intros r Hr _; [by apply Hall|].
  apply isException_returns. by apply Hall.
Qed.

Lemma first_match_applies rules data r :
  first_match rules data = Some r ->
  r ∈ rules /\ Disable r = false /\ excepted data (Exceptions r) = false /\ matches r data = true.
Proof.
  unfold first_match. intros H%List.find_some. destruct H as [Hin Ha].
  unfold applies in Ha. bsplit. split_and!; try done. by apply list_elem_of_In.
Qed.
