(* ===== verification/ByteAnalyzer.v ===== *)
(** * analyzer/byte_analyzer.go and string_analyzer.go: anonymization

    The output writer and the rule runner are interfaces: [Writer] and
    [RuleRunner] below, with the state the implementation keeps.  [Anonymize]
    is stated for any implementation; [Buffer] is Go's [bytes.Buffer]. *)
From S2P Require Import Prelude GoBytes Tokenization Rules.

(** ** Interfaces *)

(** [io.Writer]: the number of bytes written is ignored by the program, so a
    call returns the new state and the error if any. *)
Class Writer (W : Type) := Write : bytes -> W -> W * option string.

(** [bytes.Buffer]: never fails. *)
Definition Buffer := bytes.
#[export] Instance Buffer_Writer : Writer Buffer := fun data w => (w ++ data, None).

(** [RuleRunner.Process]: [None] inside is [(Rule{}, false)]; the outer option
    is a panic of the runner. *)
Class RuleRunner (R : Type) := Process : list Rule -> bytes -> R -> option (option Rule * R).

#[global] Arguments Write : simpl never.
#[global] Arguments Process : simpl never.

Record anonymizationAction := mkAction { token : Token; settings : RuleSettings }.

Record AnonymizationDetails := mkDetails {
  HasFindings : bool;
  DetectedEntities : list Entity;
  AnonymizedEntities : list Entity
}.

(** ** Writing the output *)

(** The writer and the warnings logged about it. *)
Record Output (W : Type) := mkOutput { writer : W; warnings : list string }.
Arguments mkOutput {W}.
Arguments writer {W}.
Arguments warnings {W}.

Section WithWriter.
Context {W : Type} `{Writer W}.

Definition writeToOutput (data : bytes) (out : Output W) : Output W :=
  let '(w, err) := Write data (writer out) in
  match err with
  | Some e => mkOutput w (warnings out ++ [e])
  | None => mkOutput w (warnings out)
  end.

(** The [switch settings.Strategy] of [applyActions]. *)
Definition applyStrategy (action : anonymizationAction) (content : bytes) (out : Output W)
    : option (Output W) :=
  let token := token action in
  let settings := settings action in
  match Strategy settings with
  | REDACT =>
      redact ← Redact settings;
      Some (writeToOutput (of_str (Placeholder redact)) out)
  | MASK =>
      mask ← Mask settings;
      let replacement := of_str (MaskingChar mask) in
      let n := MaxSize mask in
      let n := if n <=? 0 then 1 else n in
      let n := if Len token <? n then Len token else n in
      repeated ← Repeat replacement n;
      let out := writeToOutput repeated out in
      rest ← content.[Start token + n : End_ token];
      Some (writeToOutput rest out)
  | OtherStrategy _ => Some out
  end.

Fixpoint applyActions_loop (actions : list anonymizationAction) (content : bytes)
    (lastPos : Z) (out : Output W) : option (Output W) :=
  match actions with
  | [] =>
      rest ← content.[lastPos:];
      Some (writeToOutput rest out)
  | action :: actions' =>
      between ← content.[lastPos : Start (token action)];
      let out := writeToOutput between out in
      out ← applyStrategy action content out;
      applyActions_loop actions' content (End_ (token action)) out
  end.

Definition applyActions (content : bytes) (actions : list anonymizationAction)
    (out : Output W) : option (Output W) :=
  applyActions_loop actions content 0 out.
End WithWriter.

(** ** Sequential tokens *)

(** The runner and the accumulators of one [Anonymize] call. *)
Record scan (R : Type) := mkScan {
  runner : R;
  actions : list anonymizationAction;
  detectedEntities : gset Entity;
  anonymizedEntities : gset Entity
}.
Arguments mkScan {R}.
Arguments runner {R}.
Arguments actions {R}.
Arguments detectedEntities {R}.
Arguments anonymizedEntities {R}.

(** [entityMapToSlice]: the keys of the map, in no specified order. *)
Definition entityMapToSlice (m : gset Entity) : list Entity := elements m.

Section Sequential.
Context {R : Type} `{RuleRunner R}.

Definition anonymizeToken (rules : list Rule) (st : scan R) (tok : Token)
    : option (scan R * bool) :=
  '(matchedRule, r) ← Process rules (Content tok) (runner st);
  match matchedRule with
  | Some rule =>
      Some (mkScan r (actions st ++ [mkAction tok (Settings rule)])
              ({[entity rule]} ∪ detectedEntities st)
              ({[entity rule]} ∪ anonymizedEntities st), true)
  | None => Some (mkScan r (actions st) (detectedEntities st) (anonymizedEntities st), true)
  end.

Definition anonymizeSequential (rules : list Rule) (content : bytes) (st : scan R)
    : option (scan R) :=
  TokenIterator (anonymizeToken rules) content st.

(** [Anonymize] once the actions are known. *)
Definition writeResult {W} `{Writer W} (data : bytes) (st : scan R) (out : Output W)
    : option (AnonymizationDetails * Output W) :=
  let hasFindings := 0 <? blen (actions st) in
  out ← (if hasFindings then applyActions data (actions st) out
         else Some (writeToOutput data out));
  Some (mkDetails hasFindings (entityMapToSlice (detectedEntities st))
          (entityMapToSlice (anonymizedEntities st)), out).

Definition noDetails : AnonymizationDetails := mkDetails false [] [].

(** [Anonymize] without a token pool. *)
Definition Anonymize {W} `{Writer W} (rules : list Rule) (data : bytes) (r : R) (out : Output W)
    : option (AnonymizationDetails * R * Output W) :=
  if blen data =? 0 then Some (noDetails, r, out) else
  if blen rules =? 0 then Some (noDetails, r, out) else
  st ← anonymizeSequential rules data (mkScan r [] ∅ ∅);
  '(details, out) ← writeResult data st out;
  Some (details, runner st, out).

(** [StringAnalyzer.Anonymize]. *)
Definition StringAnonymize (rules : list Rule) (input : string) (r : R)
    : option (string * AnonymizationDetails * R) :=
  '(details, r, out) ← Anonymize rules (of_str input) r (mkOutput (W:=Buffer) [] []);
  Some (to_str (writer out), details, r).
End Sequential.

(** ** Specification of the output *)

(** What replaces a token whose rule has these settings. *)
Definition replacement (st : RuleSettings) (content : bytes) : bytes :=
  match Strategy st with
  | REDACT => match Redact st with Some r => of_str (Placeholder r) | None => [] end
  | MASK =>
      match Mask st with
      | Some m =>
          let n := Z.to_nat (Z.min (blen content) (if MaxSize m <=? 0 then 1 else MaxSize m)) in
          concat (replicate n (of_str (MaskingChar m))) ++ drop n content
      | None => []
      end
  | OtherStrategy _ => []
  end.

(** The input from [pos] on, with every token on which [verdict] gives settings
    replaced and every other byte copied. *)
Fixpoint rewrite_tokens (verdict : bytes -> option RuleSettings) (s : bytes) (pos : Z)
    (ts : list Token) : bytes :=
  match ts with
  | [] => sub s pos (blen s)
  | t :: ts' =>
      sub s pos (Start t)
      ++ match verdict (Content t) with
         | Some st => replacement st (Content t)
         | None => Content t
         end
      ++ rewrite_tokens verdict s (End_ t) ts'
  end.

(** The same text computed from the actions. *)
Fixpoint actions_text (s : bytes) (pos : Z) (acts : list anonymizationAction) : bytes :=
  match acts with
  | [] => sub s pos (blen s)
  | a :: acts' =>
      sub s pos (Start (token a))
      ++ replacement (settings a) (Content (token a))
      ++ actions_text s (End_ (token a)) acts'
  end.

(** What a runner answered on each of some tokens. *)
Abbreviation choice := (Token * option Rule)%type.

(** The input from [pos] on with the tokens replaced as the choices say. *)
Fixpoint rewrite_choices (s : bytes) (pos : Z) (cs : list choice) : bytes :=
  match cs with
  | [] => sub s pos (blen s)
  | (t, v) :: cs' =>
      sub s pos (Start t)
      ++ match v with Some rule => replacement (Settings rule) (Content t) | None => Content t end
      ++ rewrite_choices s (End_ t) cs'
  end.

(** The actions, the entities and the finding the choices amount to. *)
Definition chosen_actions (cs : list choice) : list anonymizationAction :=
  omap (fun c => mkAction c.1 <$> (Settings <$> c.2)) cs.

Definition chosen_entities (cs : list choice) : gset Entity :=
  list_to_set (omap (fun c => entity <$> c.2) cs).

#[global] Arguments chosen_actions : simpl never.
#[global] Arguments chosen_entities : simpl never.

Definition chosen_any (cs : list choice) : bool := existsb (fun c => bool_decide (is_Some c.2)) cs.

(** What an action must satisfy for [applyActions] to run. *)
Definition action_ok (s : bytes) (a : anonymizationAction) : Prop :=
  settings_ok (settings a) /\
  Content (token a) = sub s (Start (token a)) (End_ (token a)).

(** What a rule runner promises: on the states that satisfy its invariant it
    does not panic, keeps the invariant and gives an answer that is [ok] for
    the rules and the token, one of the rules if any. *)
Class RuleRunnerSpec (R : Type) `{RuleRunner R} (inv : list Rule -> R -> Prop)
    (ok : list Rule -> bytes -> option Rule -> Prop) : Prop := {
  process_ok rules data r : inv rules r ->
    exists v r', Process rules data r = Some (v, r') /\ inv rules r' /\ ok rules data v;
  ok_in rules data rule : ok rules data (Some rule) -> rule ∈ rules
}.

(** A runner whose calls may overlap: [Begin] and [Finish] are the two parts of
    [Process] between which others may use what it shares, [J] being what a call
    holds in between.  What is [held] stays good whatever the others do. *)
Class SteppedRunner (R J : Type) `{RuleRunner R} := {
  Begin : list Rule -> bytes -> R -> option (J * R);
  Finish : list Rule -> bytes -> J -> R -> option (option Rule * R)
}.

Class SteppedRunnerSpec (R J : Type) `{SteppedRunner R J} (inv : list Rule -> R -> Prop)
    (held : list Rule -> bytes -> J -> Prop) (ok : list Rule -> bytes -> option Rule -> Prop) : Prop := {
  process_parts rules data r :
    Process rules data r = '(j, r) ← Begin rules data r; Finish rules data j r;
  begin_ok rules data r : inv rules r ->
    exists j r', Begin rules data r = Some (j, r') /\ inv rules r' /\ held rules data j;
  finish_ok rules data j r : inv rules r -> held rules data j ->
    exists v r', Finish rules data j r = Some (v, r') /\ inv rules r' /\ ok rules data v;
  stepped_in rules data rule : ok rules data (Some rule) -> rule ∈ rules
}.

(** The same when the calls on some tokens may panic. *)
Class PanickyRunnerSpec (R J : Type) `{SteppedRunner R J} (inv : list Rule -> R -> Prop)
    (held : list Rule -> bytes -> J -> Prop) (ok : list Rule -> bytes -> option Rule -> Prop)
    (panics : list Rule -> bytes -> Prop) : Prop := {
  begin_or_panic rules data r : inv rules r ->
    match Begin rules data r with
    | Some (j, r') => inv rules r' /\ held rules data j
    | None => panics rules data
    end;
  finish_or_panic rules data j r : inv rules r -> held rules data j ->
    match Finish rules data j r with
    | Some (v, r') => inv rules r' /\ ok rules data v
    | None => panics rules data
    end;
  panicky_in rules data rule : ok rules data (Some rule) -> rule ∈ rules
}.

Definition never (rules : list Rule) (data : bytes) : Prop := False.

#[export] Instance stepped_panicky {R J} `{SteppedRunner R J} inv held ok :
  SteppedRunnerSpec R J inv held ok -> PanickyRunnerSpec R J inv held ok never.
Proof.
  intros Hs. split; [| |apply stepped_in].
  - intros rules data r Hr. destruct (begin_ok rules data r Hr) as (j & r' & -> & Hr' & Hj). done.
  - intros rules data j r Hr Hj. destruct (finish_ok rules data j r Hr Hj) as (v & r' & -> & Hr' & Hv). done.
Qed.

Lemma stepped_spec {R J} `{SteppedRunner R J} inv held ok :
  SteppedRunnerSpec R J inv held ok -> RuleRunnerSpec R inv ok.
Proof.
  intros Hs. split; [|apply stepped_in].
  intros rules data r Hr. destruct (begin_ok rules data r Hr) as (j & r1 & Hb & Hr1 & Hj).
  destruct (finish_ok rules data j r1 Hr1 Hj) as (v & r' & Hf & Hr' & Hv).
  exists v, r'. by rewrite process_parts, Hb.
Qed.

Lemma stepped_weaken {R J} `{SteppedRunner R J} inv held (ok ok' : list Rule -> bytes -> option Rule -> Prop) :
  (forall rules data v, ok rules data v -> ok' rules data v) ->
  (forall rules data rule, ok' rules data (Some rule) -> rule ∈ rules) ->
  SteppedRunnerSpec R J inv held ok -> SteppedRunnerSpec R J inv held ok'.
Proof.
  intros Hok Hin [Hp Hb Hf _]. split; [done|done| |done].
  intros rules data j r Hr Hj. destruct (Hf rules data j r Hr Hj) as (v & r' & ? & ? & ?). eauto 6.
Qed.

(** A runner whose answer is a function of the rules and the token. *)
Definition gives (verdict : list Rule -> bytes -> option Rule) (rules : list Rule) (data : bytes)
    (v : option Rule) : Prop := v = verdict rules data.

Abbreviation RuleRunnerLaws R inv verdict := (RuleRunnerSpec R inv (gives verdict)).

(** Choices a runner may have made, and those of a runner that gives [verdict]. *)
Definition admissible (ok : list Rule -> bytes -> option Rule -> Prop) (rules : list Rule)
    (cs : list choice) : Prop :=
  Forall (fun c => ok rules (Content c.1) c.2) cs.

Definition choices_of (verdict : list Rule -> bytes -> option Rule) (rules : list Rule)
    (ts : list Token) : list choice :=
  map (fun t => (t, verdict rules (Content t))) ts.

Definition verdict_settings (verdict : list Rule -> bytes -> option Rule) (rules : list Rule)
    (content : bytes) : option RuleSettings :=
  Settings <$> verdict rules content.

(** ** The output of [applyActions] *)

Section ApplyActions.
Context {W : Type} `{Writer W}.

Definition write_all (chunks : list bytes) (out : Output W) : Output W :=
  foldl (fun o d => writeToOutput d o) out chunks.

Lemma applyStrategy_writes s a out :
  action_ok s a -> 0 <= Start (token a) -> Start (token a) <= End_ (token a) ->
  End_ (token a) <= blen s ->
  exists chunks, concat chunks = replacement (settings a) (Content (token a)) /\
    applyStrategy a s out = Some (write_all chunks out).
Proof.
  intros [Hok Hc] Hs Hse Hend. unfold applyStrategy, replacement, settings_ok in *.
  rewrite Hc. set (t := token a) in *.
  destruct (Strategy (settings a)).
  - destruct Hok as [r ->]. exists [of_str (Placeholder r)]. simpl.
    by rewrite app_nil_r.
  - destruct Hok as [m ->]. cbn [mbind option_bind].
    set (m0 := if MaxSize m <=? 0 then 1 else MaxSize m). assert (0 < m0) by (unfold m0; case_match; lia).
    assert ((if Len t <? m0 then Len t else m0) = Z.min (Len t) m0) as -> by (case_match; lia).
    unfold Repeat, Len. if_lia. cbn [mbind option_bind].
    rewrite length_sub by lia.
    set (n := Z.min (End_ t - Start t) m0). assert (0 <= n <= End_ t - Start t) by lia.
    rewrite slice_Some by lia. cbn [mbind option_bind].
    eexists [_; _]. split; [|done]. simpl. rewrite app_nil_r. f_equal.
    unfold sub. rewrite skipn_firstn_comm, drop_drop.
    f_equal; [lia|]. f_equal. lia.
  - exists []. done.
Qed.

Lemma applyActions_loop_writes s acts : forall pos out,
  0 <= pos -> within pos (blen s) (map token acts) -> Forall (action_ok s) acts ->
  exists chunks, concat chunks = actions_text s pos acts /\
    applyActions_loop acts s pos out = Some (write_all chunks out).
Proof.
  induction acts as [|a acts IH]; intros pos out Hpos; simpl.
  - intros Hle _. rewrite slice_Some by lia. exists [sub s pos (blen s)].
    simpl. by rewrite app_nil_r.
  - intros (Hs & Hse & Hw) [Ha Hacts]%Forall_cons.
    destruct (within_bounds _ _ _ Hw) as [Hend _].
    rewrite slice_Some by lia. cbn [mbind option_bind].
    destruct (applyStrategy_writes s a (writeToOutput (sub s pos (Start (token a))) out))
      as (cs & Hcs & ->); [done|lia..|]. cbn [mbind option_bind].
    destruct (IH (End_ (token a))
      (write_all cs (writeToOutput (sub s pos (Start (token a))) out)))
      as (cs' & Hcs' & ->); [lia|done..|].
    exists (sub s pos (Start (token a)) :: cs ++ cs'). simpl.
    rewrite concat_app, Hcs, Hcs'. split; [done|].
    unfold write_all. by rewrite foldl_app.
Qed.
(** Settings without the configuration of their strategy: a nil pointer. *)
Lemma applyStrategy_panics s a out : ~ settings_ok (settings a) -> applyStrategy a s out = None.
Proof.
  unfold applyStrategy, settings_ok. destruct (Strategy (settings a)); [..|tauto].
  - destruct (Redact (settings a)); [naive_solver|done].
  - destruct (Mask (settings a)); [naive_solver|done].
Qed.

Lemma applyActions_loop_panics s acts : forall pos out,
  0 <= pos -> within pos (blen s) (map token acts) ->
  Forall (fun a => Content (token a) = sub s (Start (token a)) (End_ (token a))) acts ->
  Exists (fun a => ~ settings_ok (settings a)) acts -> applyActions_loop acts s pos out = None.
Proof.
  induction acts as [|a acts IH]; intros pos out Hpos; simpl; [by rewrite Exists_nil|].
  intros (Hs & Hse & Hw) [Ha Hacts]%Forall_cons Hbad. destruct (within_bounds _ _ _ Hw) as [Hend _].
  rewrite slice_Some by lia. cbn [mbind option_bind].
  destruct (decide (settings_ok (settings a))) as [Hok|Hno]; [|by rewrite applyStrategy_panics].
  apply Exists_cons in Hbad as [Hno|Hbad]; [done|].
  destruct (applyStrategy_writes s a (writeToOutput (sub s pos (Start (token a))) out))
    as (cs & _ & ->); [done|lia..|]. cbn [mbind option_bind]. apply IH; [lia|done..].
Qed.
End ApplyActions.

Lemma write_all_Buffer chunks buf w :
  write_all (W:=Buffer) chunks (mkOutput buf w) = mkOutput (buf ++ concat chunks) w.
Proof.
  revert buf. induction chunks as [|c cs IH]; intros buf.
  - simpl. by rewrite app_nil_r.
  - change (write_all (W:=Buffer) cs (mkOutput (buf ++ c) w) =
            mkOutput (buf ++ concat (c :: cs)) w).
    rewrite IH. simpl. by rewrite <- app_assoc.
Qed.

(** Bytes before the first action are copied. *)
Lemma actions_text_extend s pos pos' acts :
  0 <= pos <= pos' -> within pos' (blen s) (map token acts) ->
  sub s pos pos' ++ actions_text s pos' acts = actions_text s pos acts.
Proof.
  intros Hpos. destruct acts as [|a acts]; simpl; intros Hw.
  - apply sub_app; lia.
  - by rewrite app_assoc, sub_app by lia.
Qed.

Lemma chosen_actions_cons c cs :
  chosen_actions (c :: cs) =
    match c.2 with
    | Some rule => mkAction c.1 (Settings rule) :: chosen_actions cs
    | None => chosen_actions cs
    end.
Proof. by destruct c as [t [rule|]]. Qed.

Lemma chosen_actions_app cs ds : chosen_actions (cs ++ ds) = chosen_actions cs ++ chosen_actions ds.
Proof. apply omap_app. Qed.

Lemma chosen_entities_app cs ds :
  chosen_entities (cs ++ ds) = chosen_entities cs ∪ chosen_entities ds.
Proof. unfold chosen_entities. by rewrite omap_app, list_to_set_app_L. Qed.

Lemma chosen_entities_one (t : Token) rule : chosen_entities [(t, Some rule)] = {[entity rule]}.
Proof. unfold chosen_entities. simpl. by rewrite (right_id_L ∅ (∪)). Qed.

Lemma chosen_within lo hi cs :
  within lo hi (map fst cs) -> within lo hi (map token (chosen_actions cs)).
Proof.
  revert lo. induction cs as [|[t v] cs IH]; intros lo; simpl; [done|].
  intros (H1 & H2 & H3). rewrite chosen_actions_cons. destruct v as [rule|]; simpl.
  - auto.
  - apply (within_mono (End_ t)); [lia|auto].
Qed.

Lemma rewrite_choices_actions s cs : forall pos,
  0 <= pos -> within pos (blen s) (map fst cs) ->
  Forall (fun t => Content t = sub s (Start t) (End_ t)) (map fst cs) ->
  rewrite_choices s pos cs = actions_text s pos (chosen_actions cs).
Proof.
  induction cs as [|[t v] cs IH]; intros pos Hpos; simpl; [done|].
  intros (H1 & H2 & H3) [Hc Hcs]%Forall_cons.
  rewrite IH, chosen_actions_cons by (done || lia).
  destruct v as [rule|]; simpl; [done|].
  rewrite Hc, app_assoc, sub_app by lia.
  apply actions_text_extend; [lia|]. by apply chosen_within.
Qed.

(** The choices of a runner that gives [verdict] are those of its function. *)
Lemma admissible_gives verdict rules cs :
  admissible (gives verdict) rules cs -> cs = choices_of verdict rules (map fst cs).
Proof.
  unfold admissible, gives, choices_of. induction 1 as [|[t v] cs Hv _ IH]; simpl in *; [done|].
  by rewrite <- IH, Hv.
Qed.

Lemma choices_of_fst verdict rules ts : map fst (choices_of verdict rules ts) = ts.
Proof. induction ts as [|t ts IH]; simpl; congruence. Qed.

Lemma rewrite_choices_of verdict rules s ts : forall pos,
  rewrite_choices s pos (choices_of verdict rules ts) =
    rewrite_tokens (verdict_settings verdict rules) s pos ts.
Proof.
  induction ts as [|t ts IH]; intros pos; simpl; [done|]. rewrite IH.
  unfold verdict_settings. by destruct (verdict rules (Content t)).
Qed.

Lemma elem_of_chosen_entities e cs :
  e ∈ chosen_entities cs <-> exists t rule, (t, Some rule) ∈ cs /\ entity rule = e.
Proof.
  unfold chosen_entities. rewrite elem_of_list_to_set, list_elem_of_omap. split.
  - intros ([t [rule|]] & Hc & He); simplify_eq/=. eauto.
  - intros (t & rule & Hc & <-). by exists (t, Some rule).
Qed.

(** ** Scanning the tokens *)

Lemma anonymizeSequential_tokens {R} `{RuleRunner R} rules data (st : scan R) :
  anonymizeSequential rules data st = yield_all (anonymizeToken rules) (lex_tokens data) st.
Proof.
  unfold anonymizeSequential, TokenIterator.
  pose proof (TokenIterator_loop_lex (anonymizeToken rules) data [] (S (length data)) st ltac:(lia)) as Hit.
  cbn [app] in Hit. by rewrite blen_nil in Hit.
Qed.

Section Scan.
Context {R : Type} `{RuleRunner R} (inv : list Rule -> R -> Prop)
  (ok : list Rule -> bytes -> option Rule -> Prop) `{!RuleRunnerSpec R inv ok}.

(** The choices add up to the scan. *)
Definition scanned (st : scan R) (cs : list choice) (st' : scan R) : Prop :=
  actions st' = actions st ++ chosen_actions cs /\
  detectedEntities st' = chosen_entities cs ∪ detectedEntities st /\
  anonymizedEntities st' = chosen_entities cs ∪ anonymizedEntities st.

Lemma anonymizeToken_spec rules st t :
  inv rules (runner st) ->
  exists v st', anonymizeToken rules st t = Some (st', true) /\
    inv rules (runner st') /\ ok rules (Content t) v /\ scanned st [(t, v)] st'.
Proof.
  intros Hinv. destruct (process_ok rules (Content t) (runner st) Hinv) as (v & r' & Hp & Hinv' & Hok).
  unfold anonymizeToken. rewrite Hp. exists v. unfold scanned.
  destruct v as [rule|]; eexists; (split; [done|]); simpl; (split; [done|]); (split; [done|]).
  - by rewrite chosen_entities_one.
  - rewrite app_nil_r. unfold chosen_entities. simpl. by rewrite !(left_id_L ∅ (∪)).
Qed.

Lemma scan_tokens rules ts : forall st,
  inv rules (runner st) ->
  exists cs st', yield_all (anonymizeToken rules) ts st = Some st' /\
    inv rules (runner st') /\ map fst cs = ts /\ admissible ok rules cs /\ scanned st cs st'.
Proof.
  induction ts as [|t ts IH]; intros st Hinv.
  { exists [], st. unfold scanned. rewrite app_nil_r. unfold chosen_entities. simpl.
    rewrite !(left_id_L ∅ (∪)). split_and!; try done. constructor. }
  destruct (anonymizeToken_spec rules st t Hinv) as (v & st1 & Ht & Hinv1 & Hok & Ha1 & Hd1 & Hn1).
  destruct (IH st1 Hinv1) as (cs & st' & Hts & Hinv' & Hfst & Hadm & Ha & Hd & Hn).
  exists ((t, v) :: cs), st'. cbn [yield_all]. rewrite Ht. cbn [mbind option_bind].
  split_and!; [done..|by rewrite <- Hfst|by constructor|].
  change ((t, v) :: cs) with ([(t, v)] ++ cs). unfold scanned.
  rewrite chosen_actions_app, chosen_entities_app, Ha, Hd, Hn, Ha1, Hd1, Hn1, app_assoc.
  split_and!; [done|set_solver..].
Qed.

(** The sequential path from the start. *)
Lemma anonymizeSequential_spec rules data r :
  inv rules r ->
  exists cs r', map fst cs = lex_tokens data /\ admissible ok rules cs /\ inv rules r' /\
    anonymizeSequential rules data (mkScan r [] ∅ ∅) =
      Some (mkScan r' (chosen_actions cs) (chosen_entities cs) (chosen_entities cs)).
Proof.
  intros Hinv. rewrite anonymizeSequential_tokens.
  destruct (scan_tokens rules (lex_tokens data) (mkScan r [] ∅ ∅) Hinv)
    as (cs & [r' a d n] & -> & Hinv' & Hfst & Hadm & Ha & Hd & Hn).
  simpl in *. rewrite (right_id_L ∅ (∪)) in Hd, Hn. subst. by exists cs, r'.
Qed.

End Scan.

(** Answers that are rules of the call. *)
Definition own_rules (ok : list Rule -> bytes -> option Rule -> Prop) : Prop :=
  forall rules data rule, ok rules data (Some rule) -> rule ∈ rules.

Lemma admissible_in ok rules cs t rule :
  own_rules ok -> admissible ok rules cs -> (t, Some rule) ∈ cs -> rule ∈ rules.
Proof.
  intros Hin Hadm Hc. unfold admissible in Hadm. rewrite Forall_forall in Hadm.
  by apply (Hin rules (Content t)), (Hadm _ Hc).
Qed.

(** What the actions chosen satisfy. *)
Lemma chosen_ok ok rules s cs :
  own_rules ok -> Forall (fun r => settings_ok (Settings r)) rules -> admissible ok rules cs ->
  Forall (fun t => Content t = sub s (Start t) (End_ t)) (map fst cs) ->
  Forall (action_ok s) (chosen_actions cs).
Proof.
  intros Hin' Hrules Hadm Hc. apply Forall_forall. intros a Ha.
  apply list_elem_of_omap in Ha as ([t [rule|]] & Hin & Ha); simplify_eq/=.
  rewrite Forall_forall in Hrules. split; simpl.
  - eapply Hrules, admissible_in; eauto.
  - apply (proj1 (Forall_forall _ _) Hc). by apply (list_elem_of_fmap_2' fst _ _ _ Hin).
Qed.

(** ** Writing the result *)

Lemma applyActions_Buffer s acts buf w :
  within 0 (blen s) (map token acts) -> Forall (action_ok s) acts ->
  applyActions (W:=Buffer) s acts (mkOutput buf w) =
    Some (mkOutput (buf ++ actions_text s 0 acts) w).
Proof.
  intros Hw Hok. unfold applyActions.
  destruct (applyActions_loop_writes (W:=Buffer) s acts 0 (mkOutput buf w))
    as (cs & <- & ->); [lia|done..|]. by rewrite write_all_Buffer.
Qed.

Lemma writeResult_Buffer {R} s (st : scan R) buf w :
  within 0 (blen s) (map token (actions st)) -> Forall (action_ok s) (actions st) ->
  writeResult (W:=Buffer) s st (mkOutput buf w) =
    Some (mkDetails (0 <? blen (actions st)) (entityMapToSlice (detectedEntities st))
            (entityMapToSlice (anonymizedEntities st)),
          mkOutput (buf ++ actions_text s 0 (actions st)) w).
Proof.
  intros Hw Hok. unfold writeResult. destruct (actions st) as [|a acts] eqn:E.
  - simpl. by rewrite sub_full.
  - pose proof (blen_pos (a :: acts) ltac:(done)). if_lia.
    by rewrite applyActions_Buffer.
Qed.

Lemma chosen_nonempty cs : (0 <? blen (chosen_actions cs)) = chosen_any cs.
Proof.
  induction cs as [|[t v] cs IH]; [done|]. rewrite chosen_actions_cons. destruct v as [rule|]; simpl.
  - rewrite blen_cons. pose proof (blen_nonneg (chosen_actions cs)). if_lia. done.
  - exact IH.
Qed.

Lemma elem_of_entityMapToSlice e m : e ∈ entityMapToSlice m <-> e ∈ m.
Proof. apply elem_of_elements. Qed.

(** The details reported for some choices. *)
Definition chosen_details (cs : list choice) : AnonymizationDetails :=
  mkDetails (chosen_any cs) (entityMapToSlice (chosen_entities cs))
    (entityMapToSlice (chosen_entities cs)).

(** What is written for choices on tokens of the input, in order. *)
Lemma writeResult_chosen {R} ok rules s cs (r : R) buf w :
  own_rules ok -> Forall (fun r => settings_ok (Settings r)) rules -> admissible ok rules cs ->
  map fst cs `sublist_of` lex_tokens s ->
  writeResult (W:=Buffer) s (mkScan r (chosen_actions cs) (chosen_entities cs) (chosen_entities cs))
      (mkOutput buf w) =
    Some (chosen_details cs, mkOutput (buf ++ rewrite_choices s 0 cs) w).
Proof.
  intros Hin Hrules Hadm Hsub.
  pose proof (sublist_within _ _ _ _ Hsub (lex_tokens_within s)) as Hw.
  assert (Hc : Forall (fun t => Content t = sub s (Start t) (End_ t)) (map fst cs)).
  { eapply sublist_Forall; [exact Hsub|]. apply lex_tokens_content. }
  rewrite writeResult_Buffer; cbn [actions detectedEntities anonymizedEntities].
  - by rewrite chosen_nonempty, <- rewrite_choices_actions.
  - by apply chosen_within.
  - by eapply (chosen_ok ok).
Qed.

(** ** A reference runner, for the witnesses *)

Definition Reference := unit.
#[export] Instance Reference_Runner : RuleRunner Reference :=
  fun rules data r => Some (first_match rules data, r).

#[export] Instance Reference_Laws :
  RuleRunnerLaws Reference (fun _ _ => True) first_match.
Proof.
  split.
  - intros rules data r _. by exists (first_match rules data), r.
  - intros rules data rule H. unfold gives in H. symmetry in H. by apply first_match_applies in H as [? _].
Qed.

#[export] Instance Reference_Stepped : SteppedRunner Reference unit := {
  Begin rules data r := Some (tt, r);
  Finish rules data _ r := Process rules data r
}.

#[export] Instance Reference_Stepped_Spec :
  SteppedRunnerSpec Reference unit (fun _ _ => True) (fun _ _ _ => True) (gives first_match).
Proof.
  split; [done| | |apply ok_in].
  - intros rules data r _. by exists tt, r.
  - intros rules data j r _ _. by exists (first_match rules data), r.
Qed.

(** A rule that finds one word, for the witnesses. *)
Definition word_rule (word : string) (st : RuleSettings) : Rule :=
  mkRule false word word (mkMatcher word (fun data => Some (Equal data (of_str word)))) [] st.

Definition redact_with (placeholder : string) : RuleSettings :=
  mkSettings REDACT (Some (mkRedact placeholder)) None.

(** ** Properties *)

(** [Anonymize] for any runner that keeps its promise: each token is given an
    answer the runner may give, and the output and the details are those of
    the answers. *)
Lemma Anonymize_chosen {R} `{RuleRunner R} inv ok `{!RuleRunnerSpec R inv ok} rules data (r : R) buf w :
  inv rules r -> Forall (fun r => settings_ok (Settings r)) rules ->
  data <> [] -> rules <> [] ->
  exists cs r', map fst cs = lex_tokens data /\ admissible ok rules cs /\ inv rules r' /\
    Anonymize rules data r (mkOutput (W:=Buffer) buf w) =
      Some (chosen_details cs, r', mkOutput (buf ++ rewrite_choices data 0 cs) w).
Proof.
  intros Hinv Hok Hdata Hrules. unfold Anonymize.
  pose proof (blen_pos data Hdata). pose proof (blen_pos rules Hrules). if_lia.
  destruct (anonymizeSequential_spec inv ok rules data r Hinv) as (cs & r' & Hfst & Hadm & Hinv' & ->).
  exists cs, r'. split_and!; [done..|]. cbn [mbind option_bind].
  assert (own_rules ok) by (intros ? ? ?; apply (ok_in (inv:=inv))).
  rewrite (writeResult_chosen ok rules) by (done || by rewrite Hfst). done.
Qed.

Section AnonymizeProperties.
Context {R : Type} `{RuleRunner R} (inv : list Rule -> R -> Prop)
  (verdict : list Rule -> bytes -> option Rule) `{!RuleRunnerLaws R inv verdict}.

Definition found_in (rules : list Rule) (ts : list Token) (e : Entity) : Prop :=
  exists t rule, t ∈ ts /\ verdict rules (Content t) = Some rule /\ entity rule = e.

Lemma choices_of_any rules ts :
  chosen_any (choices_of verdict rules ts) =
    existsb (fun t => bool_decide (is_Some (verdict rules (Content t)))) ts.
Proof. induction ts as [|t ts IH]; simpl; [done|]. by rewrite <- IH. Qed.

Lemma choices_of_entities rules ts e :
  e ∈ chosen_entities (choices_of verdict rules ts) <-> found_in rules ts e.
Proof.
  rewrite elem_of_chosen_entities. unfold choices_of, found_in. split.
  - intros (t & rule & (t' & Heq & Ht)%list_elem_of_fmap & He). injection Heq as -> Hv. eauto.
  - intros (t & rule & Ht & Hv & He). exists t, rule. split; [|done].
    apply list_elem_of_fmap. exists t. by rewrite Hv.
Qed.

Lemma Anonymize_spec rules data r buf w :
  inv rules r -> Forall (fun r => settings_ok (Settings r)) rules ->
  data <> [] -> rules <> [] ->
  exists r', inv rules r' /\
    Anonymize rules data r (mkOutput (W:=Buffer) buf w) =
      Some (chosen_details (choices_of verdict rules (lex_tokens data)), r', mkOutput (buf ++
        rewrite_tokens (verdict_settings verdict rules) data 0 (lex_tokens data)) w).
Proof.
  intros Hinv Hok Hdata Hrules.
  destruct (Anonymize_chosen inv (gives verdict) rules data r buf w)
    as (cs & r' & Hfst & Hadm%admissible_gives & Hinv' & ->); [done..|].
  rewrite Hadm, Hfst, rewrite_choices_of. by exists r'.
Qed.

(** The rules found on the tokens of a text. *)
Definition finds (rules : list Rule) (data : bytes) (rule : Rule) : Prop :=
  exists t, t ∈ lex_tokens data /\ verdict rules (Content t) = Some rule.

Lemma chosen_finds rules data a :
  a ∈ chosen_actions (choices_of verdict rules (lex_tokens data)) <->
    exists t rule, t ∈ lex_tokens data /\ verdict rules (Content t) = Some rule /\ a = mkAction t (Settings rule).
Proof.
  unfold chosen_actions, choices_of. rewrite list_elem_of_omap. split.
  - intros (c & (t & -> & Ht)%list_elem_of_fmap & Ha). simpl in Ha.
    destruct (verdict rules (Content t)) as [rule|] eqn:Hv; simplify_eq/=. by exists t, rule.
  - intros (t & rule & Ht & Hv & ->). exists (t, Some rule). split; [|done].
    apply list_elem_of_fmap. exists t. by rewrite Hv.
Qed.

Lemma chosen_content rules data :
  Forall (fun a => Content (token a) = sub data (Start (token a)) (End_ (token a)))
    (chosen_actions (choices_of verdict rules (lex_tokens data))).
Proof.
  apply Forall_forall. intros a (t & rule & Ht & _ & ->)%chosen_finds. simpl.
  pose proof (lex_tokens_content data) as Hc. rewrite Forall_forall in Hc. by apply Hc.
Qed.

Lemma chosen_in_range rules data :
  within 0 (blen data) (map token (chosen_actions (choices_of verdict rules (lex_tokens data)))).
Proof. apply chosen_within. rewrite choices_of_fst. apply lex_tokens_within. Qed.

(** The scan, then the writing. *)
Lemma Anonymize_parts rules data r buf w :
  inv rules r -> rules <> [] ->
  exists st, actions st = chosen_actions (choices_of verdict rules (lex_tokens data)) /\
    (data <> [] -> Anonymize rules data r (mkOutput (W:=Buffer) buf w) =
      '(details, out) ← writeResult data st (mkOutput (W:=Buffer) buf w); Some (details, runner st, out)).
Proof.
  intros Hinv Hrules.
  destruct (anonymizeSequential_spec inv (gives verdict) rules data r Hinv)
    as (cs & r' & Hfst & Hadm%admissible_gives & _ & Hs).
  rewrite Hfst in Hadm. subst cs. eexists. split; [|intros Hdata; unfold Anonymize].
  2: { pose proof (blen_pos data Hdata). pose proof (blen_pos rules Hrules). if_lia. rewrite Hs. done. }
  done.
Qed.

(** C2: [Anonymize] writes the input with every token on which the runner
    finds a rule replaced according to the settings of that rule, and every
    other byte unchanged, provided that the settings of the rules found name the
    configuration of their strategy; when those of a rule found do not, the call
    panics.  Without rules nothing at all is written. *)
Theorem Anonymize_output rules data r buf w (runner_ok : inv rules r) :
  match rules with
  | [] => Anonymize rules data r (mkOutput (W:=Buffer) buf w) = Some (noDetails, r, mkOutput buf w)
  | _ :: _ =>
      ((forall rule, finds rules data rule -> settings_ok (Settings rule)) ->
       exists details r',
         Anonymize rules data r (mkOutput (W:=Buffer) buf w) =
           Some (details, r', mkOutput (buf ++
             rewrite_tokens (verdict_settings verdict rules) data 0 (lex_tokens data)) w)) /\
      ((exists rule, finds rules data rule /\ ~ settings_ok (Settings rule)) ->
       Anonymize rules data r (mkOutput (W:=Buffer) buf w) = None)
  end.
Proof.
  destruct rules as [|rule0 rules0]; [unfold Anonymize; by destruct (blen data =? 0)|].
  set (rules := rule0 :: rules0) in *. pose proof (chosen_in_range rules data) as Hw.
  pose proof (chosen_content rules data) as Hc.
  destruct (Anonymize_parts rules data r buf w runner_ok) as (st & Ha & HA); [done|].
  rewrite <- Ha in Hw, Hc. split.
  - intros Hok. destruct (decide (data = [])) as [->|Hdata].
    { eexists _, _. change (Anonymize rules [] r (mkOutput (W:=Buffer) buf w)) with
        (Some (noDetails, r, mkOutput (W:=Buffer) buf w)). simpl. by rewrite app_nil_r. }
    assert (Hall : Forall (action_ok data) (actions st)).
    { apply Forall_and. split; [|done]. apply Forall_forall. rewrite Ha.
      intros a (t & rule & ? & ? & ->)%chosen_finds. apply Hok. by exists t. }
    rewrite HA, writeResult_Buffer, Ha by done. cbn [mbind option_bind].
    rewrite <- rewrite_choices_of, rewrite_choices_actions; rewrite ?choices_of_fst;
      [by eexists _, _|lia|apply lex_tokens_within|apply lex_tokens_content].
  - intros (rule & (t & Ht & Hv) & Hno). destruct (decide (data = [])) as [->|Hdata]; [by apply not_elem_of_nil in Ht|].
    assert (Hin : mkAction t (Settings rule) ∈ actions st) by (rewrite Ha; apply chosen_finds; by exists t, rule).
    rewrite HA by done. unfold writeResult. destruct (actions st) as [|a acts] eqn:E; [by apply not_elem_of_nil in Hin|].
    pose proof (blen_pos (a :: acts) ltac:(done)). if_lia. unfold applyActions.
    rewrite applyActions_loop_panics; [done|lia|done|done|].
    apply Exists_exists. by exists (mkAction t (Settings rule)).
Qed.

(** C35: the details report a finding exactly when the runner finds a rule for
    some token, and list exactly the entities of the rules found. *)
Theorem Anonymize_details rules data r buf w
    (runner_ok : inv rules r)
    (configured : Forall (fun r => settings_ok (Settings r)) rules)
    (some_data : data <> []) (some_rules : rules <> []) :
  exists details r' out,
    Anonymize rules data r (mkOutput (W:=Buffer) buf w) = Some (details, r', out) /\
    (HasFindings details = true <->
       exists t rule, t ∈ lex_tokens data /\ verdict rules (Content t) = Some rule) /\
    (forall e, e ∈ DetectedEntities details <->
       exists t rule, t ∈ lex_tokens data /\ verdict rules (Content t) = Some rule
                      /\ entity rule = e) /\
    (forall e, e ∈ AnonymizedEntities details <-> e ∈ DetectedEntities details).
Proof.
  destruct (Anonymize_spec rules data r buf w) as (r' & _ & HA); [done..|].
  eexists _, _, _. split; [exact HA|]. simpl. setoid_rewrite elem_of_entityMapToSlice.
  split; [|split; [intros e; apply choices_of_entities|done]].
  rewrite choices_of_any, existsb_exists. split.
  - intros (t & Ht & [rule Hv]%bool_decide_eq_true). exists t, rule. by rewrite list_elem_of_In.
  - intros (t & rule & Ht & Hv). exists t. rewrite <- list_elem_of_In. split; [done|].
    apply bool_decide_eq_true. by exists rule.
Qed.

(** [StringAnalyzer.Anonymize] returns a string on which the runner finds
    nothing exactly as it was given. *)
Theorem StringAnonymize_identity rules input r
    (runner_ok : inv rules r)
    (configured : Forall (fun r => settings_ok (Settings r)) rules)
    (some_rules : rules <> [])
    (clean : Forall (fun t => verdict rules (Content t) = None) (lex_tokens (of_str input))) :
  exists r', StringAnonymize rules input r = Some (input, mkDetails false [] [], r').
Proof.
  unfold StringAnonymize. destruct (decide (of_str input = [])) as [Hnil|Hne].
  { unfold Anonymize. rewrite Hnil. simpl. exists r.
    assert (input = EmptyString) as ->; [|done].
    unfold of_str in Hnil. by rewrite <- (string_of_list_byte_of_string input), Hnil. }
  destruct (Anonymize_spec rules (of_str input) r [] []) as (r' & _ & ->); [done..|].
  exists r'. cbn [mbind option_bind writer]. rewrite app_nil_l, <- rewrite_choices_of.
  rewrite rewrite_choices_actions; rewrite ?choices_of_fst;
    [|done|apply lex_tokens_within|apply lex_tokens_content].
  assert (Hnone : chosen_actions (choices_of verdict rules (lex_tokens (of_str input))) = [] /\
    chosen_any (choices_of verdict rules (lex_tokens (of_str input))) = false /\
    chosen_entities (choices_of verdict rules (lex_tokens (of_str input))) = ∅).
  { induction clean as [|t ts Ht _ (Ha & Hf & He)]; [done|]. unfold choices_of, chosen_entities in *. simpl.
    by rewrite Ht, chosen_actions_cons. }
  destruct Hnone as (-> & Hf & He). unfold chosen_details. rewrite Hf, He. simpl.
  rewrite sub_full. unfold to_str, of_str. by rewrite string_of_list_byte_of_string.
Qed.
End AnonymizeProperties.

(** The bytes masked and the bytes kept by MASK. *)

(** With a masking character of one byte, MASK replaces the first bytes of
    the token one for one, at least one and at most [MaxSize] of them, and
    keeps the rest of the token. *)
Theorem mask_prefix st m c content
    (is_mask : Strategy st = MASK) (configured : Mask st = Some m)
    (one_byte : of_str (MaskingChar m) = [c]) (not_empty : content <> []) :
  exists n, (1 <= n <= length content)%nat /\ Z.of_nat n <= Z.max 1 (MaxSize m) /\
    replacement st content = replicate n c ++ drop n content.
Proof.
  unfold replacement. rewrite is_mask, configured, one_byte.
  pose proof (blen_pos content not_empty).
  set (n := Z.to_nat _). exists n.
  assert (concat (replicate n [c]) = replicate n c) as ->.
  { generalize n. intros k. induction k as [|k IH]; simpl; congruence. }
  unfold n, blen in *. split_and!; try done; case_match; lia.
Qed.

Definition mask_with (c : string) (n : Z) : RuleSettings :=
  mkSettings MASK None (Some (mkMask c n)).

Lemma mask_prefix_witness :
  exists n, (1 <= n <= 6)%nat /\ Z.of_nat n <= Z.max 1 4 /\
    replacement (mask_with "*" 4) (of_str "secret") = replicate n "*"%byte ++ drop n (of_str "secret").
Proof.
  apply (mask_prefix (mask_with "*" 4) (mkMask "*" 4) "*"%byte (of_str "secret"));
    [reflexivity|reflexivity|reflexivity|discriminate].
Defined.

(** MASK counts bytes, not characters: masking one character of a word
    that starts with a letter outside ASCII leaves the last byte of that letter
    behind, and the masked word is no longer valid UTF-8. *)
Theorem mask_splits_characters :
  let word := [xc3; xa9; "d"; "i"; "t"]%byte in
  let masked := replacement (mask_with "*" 1) word in
  map fst (chunks word) = [233; 100; 105; 116] /\
  masked = ["*"; xa9; "d"; "i"; "t"]%byte /\
  map fst (chunks masked) = [42; RuneError; 100; 105; 116].
Proof. vm_compute. done. Qed.

Lemma Anonymize_output_witness :
  exists details r',
    Anonymize [word_rule "john@example.com" (redact_with "<REDACTED>")]
      (of_str "Contact: john@example.com, Bob") tt (mkOutput (W:=Buffer) [] []) =
    Some (details, r', mkOutput (of_str "Contact: <REDACTED>, Bob") []).
Proof.
  destruct (Anonymize_output (fun _ _ => True) first_match
           [word_rule "john@example.com" (redact_with "<REDACTED>")]
           (of_str "Contact: john@example.com, Bob") tt [] [] I) as [Hout _].
  apply Hout. intros rule (t & _ & Hv). apply first_match_applies in Hv as [->%list_elem_of_singleton _].
  by eexists.
Defined.

Lemma Anonymize_details_witness :
  exists details r' out,
    Anonymize [word_rule "bob" (mask_with "*" 2)] (of_str "bob, al") tt
      (mkOutput (W:=Buffer) [] []) = Some (details, r', out) /\
    HasFindings details = true.
Proof.
  destruct (Anonymize_details (fun _ _ => True) first_match
              [word_rule "bob" (mask_with "*" 2)] (of_str "bob, al") tt [] [] I
              ltac:(repeat constructor; by eexists) ltac:(done) ltac:(done))
    as (d & r' & out & HA & Hf & _).
  exists d, r', out. split; [exact HA|]. apply Hf.
  exists (mkToken 0 3 (of_str "bob")), (word_rule "bob" (mask_with "*" 2)).
  split; [|reflexivity]. by apply list_elem_of_In; left.
Defined.

Lemma StringAnonymize_identity_witness :
  exists r', StringAnonymize [word_rule "bob" (redact_with "x")] "alice, eve" tt
    = Some ("alice, eve"%string, mkDetails false [] [], r').
Proof.
  apply (StringAnonymize_identity (fun _ _ => True) first_match); [exact I| |done|].
  - repeat constructor. by eexists.
  - vm_compute. repeat constructor.
Defined.
