(* ===== verification/Pool.v ===== *)
(** * A pool of workers shared by any number of calls

    pool.go promises a bounded pool: [Submit] blocks while every worker is busy
    and fails once the pool is released.  A kind of call that submits tasks is a
    [pool_client]: a transition system that takes the number of workers it may use,
    together with what it shares with the other calls.  From its laws it
    follows that any number of its calls can run together on one pool. *)
From S2P Require Import Prelude.

(** ** Clients *)

(** [D] is what the call is given, [E] what it shares with the others, the
    pool included, and [X] its state. *)
Record pool_client (D E X : Type) := mkClient {
  launch : D -> E -> X;
  shares : X -> E;
  enter : E -> X -> X;                    (* finds what the others made of it *)
  advance : D -> nat -> X -> X -> Prop;   (* a step, with that many workers for itself *)
  occupied : X -> nat;                    (* the workers it uses *)
  over : D -> X -> Prop;
  work : X -> nat;                        (* a bound on its own steps *)
  upkeep : E -> nat                       (* and on those that what it shares can take once *)
}.
Arguments launch {D E X}.
Arguments shares {D E X}.
Arguments enter {D E X}.
Arguments advance {D E X}.
Arguments occupied {D E X}.
Arguments over {D E X}.
Arguments work {D E X}.
Arguments upkeep {D E X}.

Section Laws.
Context {D E X : Type} (c : pool_client D E X).

(** [poolSize] workers; [fit] holds of what is shared, [later] says how it
    evolves, [same] and [quiet] that nothing was cancelled or released. *)
Definition alone (poolSize : nat) (fit : E -> Prop) (d : D) (x : X) : Prop :=
  exists e, fit e /\ rtc (advance c d poolSize) (launch c d e) x.

Class PoolClientLaws (poolSize : nat) (fit : E -> Prop) (later same : relation E) (quiet : relation X) : Prop := {
  later_pre : PreOrder later;
  same_pre : PreOrder same;
  quiet_pre : PreOrder quiet;
  over_dec d x : over c d x \/ ~ over c d x;
  shares_launch d e : shares c (launch c d e) = e;
  idle_launch d e : occupied c (launch c d e) = 0%nat;
  shares_enter e x : shares c (enter c e x) = e;
  enter_enter e e' x : enter c e (enter c e' x) = enter c e x;
  occupied_enter e x : occupied c (enter c e x) = occupied c x;
  work_enter e x : work c (enter c e x) = work c x;
  over_enter d e x : over c d (enter c e x) -> over c d x;
  quiet_enter e x : quiet x (enter c e x);
  idle_over d x : over c d x -> occupied c x = 0%nat;
  advance_more d n m x x' : (n <= m)%nat -> advance c d n x x' -> advance c d m x x';
  advance_occupies d n x x' : advance c d n x x' ->
    (occupied c x' <= occupied c x \/ occupied c x' <= n)%nat;
  advance_later d n x x' : advance c d n x x' -> later (shares c x) (shares c x');
  advance_work d n x x' : advance c d n x x' ->
    (work c x' + upkeep c (shares c x') < work c x + upkeep c (shares c x))%nat \/
    x' = enter c (shares c x') x;
  enter_steps d e x : fit e -> later (shares c x) e -> rtc (advance c d poolSize) x (enter c e x);
  alone_fit d x : alone poolSize fit d x -> fit (shares c x);
  alone_moves d n e x : alone poolSize fit d x -> fit e -> later (shares c x) e -> ~ over c d x ->
    (occupied c x = 0%nat -> (0 < n)%nat) ->
    exists x', advance c d n (enter c e x) x' /\ same e (shares c x') /\ quiet x x' /\
      (work c x' + upkeep c (shares c x') < work c x + upkeep c e)%nat
}.
End Laws.

(** ** The pool *)

Record pooled (D E X : Type) := mkPooled { clients : list (D * X); common : E }.
Arguments mkPooled {D E X}.
Arguments clients {D E X}.
Arguments common {D E X}.

Lemma sum_list_with_insert {A} (f : A -> nat) l i x y :
  l !! i = Some x -> (sum_list_with f (<[i := y]> l) + f x = sum_list_with f l + f y)%nat.
Proof.
  intros Hi. rewrite insert_take_drop by (by eapply lookup_lt_Some).
  rewrite <- (take_drop_middle l i x Hi) at 3. rewrite !sum_list_with_app. simpl. lia.
Qed.

Section Pool.
Context {D E X : Type} (c : pool_client D E X) (poolSize : nat) (admits : D -> Prop).

(** The workers in use, and those left to one of the calls. *)
Definition workers_busy (cs : list (D * X)) : nat := sum_list_with (fun k => occupied c k.2) cs.

Definition room (cs : list (D * X)) (x : X) : nat := poolSize - (workers_busy cs - occupied c x).

Inductive pool_step : pooled D E X -> pooled D E X -> Prop :=
| p_call d cs e :
    admits d -> pool_step (mkPooled cs e) (mkPooled (cs ++ [(d, launch c d e)]) e)
| p_step i d x x' cs e :
    cs !! i = Some (d, x) -> advance c d (room cs x) (enter c e x) x' ->
    pool_step (mkPooled cs e) (mkPooled (<[i := (d, x')]> cs) (shares c x')).

(** What is left to do. *)
Definition backlog (F : pooled D E X) : nat :=
  sum_list_with (fun k => work c k.2) (clients F) + upkeep c (common F).

(** The steps that are not work of the calls under way: a new call, or a
    change of what they share. *)
Definition outside (F F' : pooled D E X) : Prop :=
  (exists d, F' = mkPooled (clients F ++ [(d, launch c d (common F))]) (common F)) \/
  exists i d x e, clients F !! i = Some (d, x) /\ F' = mkPooled (<[i := (d, enter c e x)]> (clients F)) e.

Context (fit : E -> Prop) (later same : relation E) (quiet : relation X)
  `{!PoolClientLaws c poolSize fit later same quiet}.

(** The same calls, undisturbed and over. *)
Definition completes (F F' : pooled D E X) : Prop :=
  same (common F) (common F') /\
  Forall2 (fun k k' => k'.1 = k.1 /\ quiet k.2 k'.2 /\ over c k'.1 k'.2) (clients F) (clients F').

Record pool_inv (F : pooled D E X) : Prop := {
  pool_fit : fit (common F);
  pool_capacity : (workers_busy (clients F) <= poolSize)%nat;
  pool_calls i d x : clients F !! i = Some (d, x) ->
    admits d /\ alone c poolSize fit d x /\ later (shares c x) (common F)
}.

Lemma pool_inv_step F F' : pool_inv F -> pool_step F F' -> pool_inv F'.
Proof.
  pose proof (later_pre c) as Hpre.
  intros [Hfit Hcap Hcalls] Hstep. destruct Hstep as [d cs e Hd|i d x x' cs e Hi Hstep]; simpl in *.
  - split; simpl; [done| |].
    + unfold workers_busy in *. rewrite sum_list_with_app. simpl. rewrite (idle_launch c). lia.
    + intros j d' x' [Hj|[_ [_ [= <- <-]]%list_lookup_singleton_Some]]%lookup_app_Some; [by eapply Hcalls|].
      split_and!; [done| |by rewrite (shares_launch c)]. by exists e.
  - destruct (Hcalls _ _ _ Hi) as (Hd & (e0 & He0 & Hrun) & Hlater).
    pose proof (sum_list_with_insert (fun k => occupied c k.2) cs i _ (d, x') Hi) as Hsum. simpl in Hsum.
    assert (Halone : alone c poolSize fit d x').
    { exists e0. split; [done|]. eapply rtc_r; [etrans; [exact Hrun|exact (enter_steps c d e x Hfit Hlater)]|].
      eapply (advance_more c); [|exact Hstep]. unfold room. lia. }
    split; simpl.
    + by eapply (alone_fit c).
    + apply (advance_occupies c) in Hstep. rewrite (occupied_enter c) in Hstep.
      unfold room, workers_busy in *. lia.
    + apply (advance_later c) in Hstep. rewrite (shares_enter c) in Hstep.
      intros j d' y [(_ & [= -> ->] & _)|[_ Hj]]%list_lookup_insert_Some; [by split_and!|].
      destruct (Hcalls _ _ _ Hj) as (? & ? & ?). split_and!; [done..|by etrans].
Qed.

Lemma pool_inv_reachable e F : fit e -> rtc pool_step (mkPooled [] e) F -> pool_inv F.
Proof.
  intros He Hr. pattern F. eapply rtc_ind_r; [|intros ? ? _ ? ?; by eapply pool_inv_step|exact Hr].
  split; simpl; [done|unfold workers_busy; simpl; lia|done].
Qed.

Lemma backlog_insert F i d x x' : clients F !! i = Some (d, x) ->
  (work c x' + upkeep c (shares c x') < work c x + upkeep c (common F))%nat ->
  (backlog (mkPooled (<[i := (d, x')]> (clients F)) (shares c x')) < backlog F)%nat.
Proof.
  intros Hi Hw. pose proof (sum_list_with_insert (fun k => work c k.2) (clients F) i _ (d, x') Hi) as Hsum.
  unfold backlog. simpl in *. lia.
Qed.

Lemma backlog_call F d :
  (backlog (mkPooled (clients F ++ [(d, launch c d (common F))]) (common F)) = backlog F + work c (launch c d (common F)))%nat.
Proof. unfold backlog. simpl. rewrite sum_list_with_app. simpl. lia. Qed.

Lemma pool_step_backlog F F' : pool_step F F' -> (backlog F' < backlog F)%nat \/ outside F F'.
Proof.
  intros [d cs e _|i d x x' cs e Hi Hstep]; [right; left; by exists d|].
  destruct (advance_work c _ _ _ _ Hstep) as [Hw|Hx].
  - left. rewrite (shares_enter c), (work_enter c) in Hw. by eapply (backlog_insert (mkPooled cs e)).
  - right. right. exists i, d, x, (shares c x'). split; [done|]. simpl. by rewrite Hx, (enter_enter c), (shares_enter c).
Qed.

Lemma over_or_not cs : Forall (fun k => over c k.1 k.2) cs \/
  exists i d x, cs !! i = Some (d, x) /\ ~ over c d x.
Proof.
  induction cs as [|[d x] cs IH]; [by left|]. destruct (over_dec c d x) as [?|Hn].
  - destruct IH as [?|(i & d' & x' & Hi & Hn)]; [left; by constructor|right; by exists (S i), d', x'].
  - right. by exists 0%nat, d, x.
Qed.

(** Some task can go on, or no task is running and every worker is free. *)
Lemma pool_moves F : (0 < poolSize)%nat -> pool_inv F ->
  Forall (fun k => over c k.1 k.2) (clients F) \/
  exists i d x x', clients F !! i = Some (d, x) /\ pool_step F (mkPooled (<[i := (d, x')]> (clients F)) (shares c x')) /\
    same (common F) (shares c x') /\ quiet x x' /\
    (work c x' + upkeep c (shares c x') < work c x + upkeep c (common F))%nat.
Proof.
  intros Hpool [Hfit Hcap Hcalls]. destruct F as [cs e]. simpl in *.
  assert (Forall (fun k => over c k.1 k.2) cs \/
    exists i d x, cs !! i = Some (d, x) /\ ~ over c d x /\ (occupied c x = 0%nat -> workers_busy cs = 0%nat))
    as [?|(i & d & x & Hi & Hn & Hfree)]; [|by left|].
  { destruct (over_or_not cs) as [Hall|(i & d & x & Hi & Hn)]; [by left|right].
    destruct (decide (Exists (fun k => occupied c k.2 <> 0%nat) cs)) as [Hbusy|Hidle].
    - apply Exists_exists in Hbusy as ([d' x'] & (j & Hj)%list_elem_of_lookup & Hx).
      exists j, d', x'. split_and!; [done| |done]. by intros ?%(idle_over c).
    - exists i, d, x. split_and!; [done..|]. intros _. rewrite <- Forall_Exists_neg in Hidle.
      unfold workers_busy. clear -Hidle. induction Hidle as [|k cs Hk _ IH]; simpl; [done|].
      rewrite IH. destruct (occupied c k.2); naive_solver. }
  destruct (Hcalls _ _ _ Hi) as (_ & Halone & Hlater).
  destruct (alone_moves c d (room cs x) e x Halone Hfit Hlater Hn) as (x' & Hstep & Hsame & Hquiet & Hw).
  - intros Hx. unfold room. rewrite (Hfree Hx). lia.
  - right. exists i, d, x, x'. split_and!; [done|by eapply p_step|done..].
Qed.
(** From every state the calls under way can all come to their end. *)
Lemma pool_completes F : (0 < poolSize)%nat -> pool_inv F -> exists F', rtc pool_step F F' /\ completes F F'.
Proof.
  pose proof (same_pre c) as Hsame. pose proof (quiet_pre c) as Hquiet.
  intros Hpool. induction F as [F IH] using (induction_ltof1 _ backlog). unfold ltof in IH. intros Hinv.
  destruct (pool_moves F Hpool Hinv) as [Hall|(i & d & x & x' & Hi & Hstep & Hs & Hq & Hw)].
  { exists F. split; [done|]. split; [done|]. apply Forall_Forall2_diag. by eapply Forall_impl. }
  edestruct IH as (F' & Hrun & Hs' & Hcs); [|by eapply pool_inv_step|].
  - by eapply backlog_insert.
  - exists F'. split; [by eapply rtc_l|]. split; [by etrans|]. simpl in Hcs.
    apply Forall2_same_length_lookup in Hcs as [Hlen Hcs]. rewrite length_insert in Hlen.
    apply Forall2_same_length_lookup. split; [done|]. intros j k k' Hk Hk'.
    destruct (decide (j = i)) as [->|Hj].
    + rewrite Hi in Hk. injection Hk as <-.
      destruct (Hcs i (d, x') k') as (? & ? & ?); [|done|].
      { apply list_lookup_insert_eq. by eapply lookup_lt_Some. }
      simpl in *. split_and!; [done|by etrans|done].
    + apply (Hcs j k k'); [|done]. by rewrite list_lookup_insert_ne.
Qed.
End Pool.
