(* ===== verification/ConcurrentTokens.v ===== *)
(** * analyzer/byte_analyzer.go: the concurrent token path

    [anonymizeConcurrent] as a transition system.  The caller walks the tokens
    and submits one task per token, waiting while every worker of the pool is
    busy; the tasks run in any order,
    call the rule runner they share and append their action under the mutex;
    the caller then waits for all of them and sorts the actions by position.
    A call of the runner is two transitions, so that the calls of different
    tasks overlap.  At any moment the context may be cancelled, the pool closed
    and the runner used by others. *)
From stdpp Require Import sorting.
From S2P Require Import Prelude GoBytes Tokenization Rules ByteAnalyzer.

(** ** State and transitions *)

Record tstate (R J : Type) := mkT {
  unsubmitted : list Token;               (* tokens the iterator has still to yield *)
  submitted : list (Token * option J);    (* tasks given to the pool and not finished,
                                             with what their call of the runner holds *)
  acts : list anonymizationAction;        (* guarded by the mutex *)
  detected : gset Entity;
  anonymized : gset Entity;
  shared : R;                             (* the rule runner *)
  ctx_done : bool;
  pool_closed : bool
}.
Arguments mkT {R J}.
Arguments unsubmitted {R J}.
Arguments submitted {R J}.
Arguments acts {R J}.
Arguments detected {R J}.
Arguments anonymized {R J}.
Arguments shared {R J}.
Arguments ctx_done {R J}.
Arguments pool_closed {R J}.

Section Steps.
Context {R J : Type} `{SteppedRunner R J} (poolSize : nat) (inv : list Rule -> R -> Prop) (rules : list Rule).

Definition initial (ts : list Token) (r : R) (closed : bool) : tstate R J :=
  mkT ts [] [] ∅ ∅ r false closed.

(** [wg.Wait()] returns. *)
Definition final (st : tstate R J) : Prop := unsubmitted st = [] /\ submitted st = [].

Inductive tstep : tstate R J -> tstate R J -> Prop :=
| t_submit t ts q a d n r ctx :                    (* pool.Submit finds a worker and returns nil *)
    (length q < poolSize)%nat ->
    tstep (mkT (t :: ts) q a d n r ctx false) (mkT ts (q ++ [(t, None)]) a d n r ctx false)
| t_rejected t ts q a d n r ctx :                  (* pool.Submit fails: break *)
    tstep (mkT (t :: ts) q a d n r ctx true) (mkT [] q a d n r ctx true)
| t_skip t ts q1 q2 a d n r closed :               (* <-ctx.Done() *)
    tstep (mkT ts (q1 ++ (t, None) :: q2) a d n r true closed)
          (mkT ts (q1 ++ q2) a d n r true closed)
| t_begin t j ts q1 q2 a d n r r' ctx closed :     (* ruleRunner.Process begins *)
    Begin rules (Content t) r = Some (j, r') ->
    tstep (mkT ts (q1 ++ (t, None) :: q2) a d n r ctx closed)
          (mkT ts (q1 ++ (t, Some j) :: q2) a d n r' ctx closed)
| t_found t j rule ts q1 q2 a d n r r' ctx closed :
    Finish rules (Content t) j r = Some (Some rule, r') ->
    tstep (mkT ts (q1 ++ (t, Some j) :: q2) a d n r ctx closed)
          (mkT ts (q1 ++ q2) (a ++ [mkAction t (Settings rule)])
             ({[entity rule]} ∪ d) ({[entity rule]} ∪ n) r' ctx closed)
| t_not_found t j ts q1 q2 a d n r r' ctx closed :
    Finish rules (Content t) j r = Some (None, r') ->
    tstep (mkT ts (q1 ++ (t, Some j) :: q2) a d n r ctx closed)
          (mkT ts (q1 ++ q2) a d n r' ctx closed)
| t_panic t j ts q1 q2 a d n r ctx closed :        (* recovered by the pool; wg.Done is deferred *)
    match j with None => Begin rules (Content t) r = None
               | Some j => Finish rules (Content t) j r = None end ->
    tstep (mkT ts (q1 ++ (t, j) :: q2) a d n r ctx closed) (mkT ts (q1 ++ q2) a d n r ctx closed)
| t_cancel ts q a d n r closed :                   (* the caller cancels ctx *)
    tstep (mkT ts q a d n r false closed) (mkT ts q a d n r true closed)
| t_close ts q a d n r ctx :                       (* Stop releases the pool *)
    tstep (mkT ts q a d n r ctx false) (mkT ts q a d n r ctx true)
| t_other ts q a d n r r' ctx closed :             (* other calls, entries that expire *)
    inv rules r' ->
    tstep (mkT ts q a d n r ctx closed) (mkT ts q a d n r' ctx closed).
End Steps.

(** [slices.SortFunc(actions, a.token.Start - b.token.Start)]. *)
Definition start_le (a b : anonymizationAction) : Prop := Start (token a) <= Start (token b).
#[export] Instance start_le_dec : RelDecision start_le := fun a b => decide (_ <= _).
#[export] Instance start_le_total : Total start_le.
Proof. intros a b. unfold start_le. lia. Qed.
#[export] Instance start_le_trans : Transitive start_le.
Proof. intros a b c. unfold start_le. lia. Qed.

Definition sortActions (l : list anonymizationAction) : list anonymizationAction :=
  merge_sort start_le l.

(** What [anonymizeConcurrent] returns from a final state, with the sets it
    filled. *)
Definition conc_result {R J} (st : tstate R J) : scan R :=
  mkScan (shared st) (sortActions (acts st)) (detected st) (anonymized st).

(** ** Invariant: what the tasks that ran chose, and the tokens skipped *)

Record tinv {R J} (inv : list Rule -> R -> Prop) (held : list Rule -> bytes -> J -> Prop)
    (ok : list Rule -> bytes -> option Rule -> Prop) (panics : list Rule -> bytes -> Prop)
    (rules : list Rule) (all : list Token) (st : tstate R J)
    (cs : list choice) (skipped : list Token) : Prop := {
  tinv_tokens : map fst cs ++ skipped ++ map fst (submitted st) ++ unsubmitted st ≡ₚ all;
  tinv_runner : inv rules (shared st);
  tinv_held : forall t j, (t, Some j) ∈ submitted st -> held rules (Content t) j;
  tinv_ok : admissible ok rules cs;
  tinv_acts : acts st = chosen_actions cs;
  tinv_detected : detected st = chosen_entities cs;
  tinv_anonymized : anonymized st = chosen_entities cs;
  tinv_complete : ctx_done st = false -> pool_closed st = false ->
    Forall (fun t => panics rules (Content t)) skipped
}.

(** The transitions a task has still to make. *)
Definition task_weight {J} (task : Token * option J) : nat :=
  match task.2 with None => 2 | Some _ => 1 end.

Definition measure {R J} (st : tstate R J) : nat :=
  3 * length (unsubmitted st) + sum_list_with task_weight (submitted st)
  + (if ctx_done st then 0 else 1) + (if pool_closed st then 0 else 1).

Section Invariant.
Context {R J : Type} `{SteppedRunner R J} (inv : list Rule -> R -> Prop)
  (held : list Rule -> bytes -> J -> Prop)
  (ok : list Rule -> bytes -> option Rule -> Prop) (panics : list Rule -> bytes -> Prop)
  `{!PanickyRunnerSpec R J inv held ok panics} (poolSize : nat) (rules : list Rule) (all : list Token).

Lemma tinv_initial r closed :
  inv rules r -> tinv inv held ok panics rules all (initial all r closed) [] [].
Proof. split; simpl; [done|done|set_solver|constructor|done..]. Qed.

(** A task whose call of the runner returned [v]. *)
Lemma tinv_answer t j v ts q1 q2 a d n r r' ctx closed cs skipped a' d' n' :
  tinv inv held ok panics rules all (mkT ts (q1 ++ (t, Some j) :: q2) a d n r ctx closed) cs skipped ->
  Finish rules (Content t) j r = Some (v, r') ->
  a' = a ++ chosen_actions [(t, v)] -> d' = chosen_entities [(t, v)] ∪ d ->
  n' = chosen_entities [(t, v)] ∪ n ->
  tinv inv held ok panics rules all (mkT ts (q1 ++ q2) a' d' n' r' ctx closed) (cs ++ [(t, v)]) skipped.
Proof.
  intros [Ht Hr Hh Hok Ha Hd Hn Hc] Hp -> -> ->. simpl in *.
  pose proof (finish_or_panic rules (Content t) j r Hr) as Hf. rewrite Hp in Hf.
  destruct Hf as [Hr' Hv]; [apply Hh; set_solver|]. split; simpl; [|done| | | | | |done].
  - rewrite !map_app in *. rewrite <- Ht. simpl. solve_Permutation.
  - intros t' j' Hin. apply Hh. set_solver.
  - unfold admissible in *. rewrite Forall_app. split; [done|]. by constructor.
  - by rewrite chosen_actions_app, Ha.
  - rewrite chosen_entities_app, Hd. set_solver.
  - rewrite chosen_entities_app, Hn. set_solver.
Qed.

Lemma tinv_step st st' cs skipped :
  tinv inv held ok panics rules all st cs skipped -> tstep poolSize inv rules st st' ->
  exists cs' skipped', tinv inv held ok panics rules all st' cs' skipped'.
Proof.
  intros Hi Hstep. destruct Hstep.
  5:{ exists (cs ++ [(t, Some rule)]), skipped.
      eapply tinv_answer; [done|done|done|by rewrite chosen_entities_one..]. }
  5:{ exists (cs ++ [(t, None)]), skipped. eapply tinv_answer; [done|done|by rewrite app_nil_r| |];
      unfold chosen_entities; simpl; by rewrite (left_id_L ∅ (∪)). }
  all: destruct Hi as [Ht Hr Hh Hok Ha Hd Hn Hc]; simpl in *; rewrite ?map_app in *; simpl in *.
  - exists cs, skipped. split; simpl; auto; [|set_solver].
    rewrite <- Ht, map_app. by rewrite <- (assoc_L (++) (map fst q)).
  - exists cs, (skipped ++ t :: ts). split; simpl; auto; try done.
    rewrite <- Ht. solve_Permutation.
  - exists cs, (t :: skipped). split; simpl; rewrite ?map_app; auto; try done; [|set_solver].
    rewrite <- Ht. solve_Permutation.
  - pose proof (begin_or_panic rules (Content t) r Hr) as Hb.
    match goal with E : Begin _ _ _ = _ |- _ => rewrite E in Hb end. destruct Hb as [Hr' Hj].
    exists cs, skipped. split; simpl; rewrite ?map_app; auto.
    intros t0 j0 [?|[[= -> ->]|?]%elem_of_cons]%elem_of_app; [apply Hh; set_solver|done|apply Hh; set_solver].
  - assert (Hpanic : panics rules (Content t)).
    { destruct j as [j|].
      - pose proof (finish_or_panic rules (Content t) j r Hr) as Hf.
        match goal with E : Finish _ _ _ _ = _ |- _ => rewrite E in Hf end. apply Hf, Hh. set_solver.
      - pose proof (begin_or_panic rules (Content t) r Hr) as Hb.
        by match goal with E : Begin _ _ _ = _ |- _ => rewrite E in Hb end. }
    exists cs, (t :: skipped). split; simpl; rewrite ?map_app; auto; [|set_solver].
    rewrite <- Ht. solve_Permutation.
  - exists cs, skipped. split; simpl; auto; done.
  - exists cs, skipped. split; simpl; auto; done.
  - exists cs, skipped. split; simpl; auto; done.
Qed.

Lemma tinv_reachable r closed st :
  inv rules r -> rtc (tstep poolSize inv rules) (initial all r closed) st ->
  exists cs skipped, tinv inv held ok panics rules all st cs skipped.
Proof.
  intros Hinv Hr. pattern st. eapply rtc_ind_r; [|intros ? ? _ ? (p & s & Hi)|exact Hr].
  - exists [], []. by apply tinv_initial.
  - by eapply tinv_step.
Qed.

End Invariant.

(** A run that nobody cancels or stops can be completed. *)
Section Undisturbed.
Context {R J : Type} `{SteppedRunner R J} (inv : list Rule -> R -> Prop)
  (held : list Rule -> bytes -> J -> Prop)
  (ok : list Rule -> bytes -> option Rule -> Prop) `{!SteppedRunnerSpec R J inv held ok} (poolSize : nat) (rules : list Rule)
  (Hpool : (0 < poolSize)%nat).

Lemma undisturbed_run ts : forall (r : R) a d n,
  inv rules r ->
  exists st, rtc (tstep poolSize inv rules) (mkT ts [] a d n r false false) st /\ final st /\
    ctx_done st = false /\ pool_closed st = false.
Proof.
  induction ts as [|t ts IH]; intros r a d n Hr.
  { eexists. split; [apply rtc_refl|done]. }
  destruct (begin_ok rules (Content t) r Hr) as (j & r1 & Hb & Hr1 & Hj).
  destruct (finish_ok rules (Content t) j r1 Hr1 Hj) as ([rule|] & r' & Hf & Hr' & _).
  - destruct (IH r' (a ++ [mkAction t (Settings rule)]) ({[entity rule]} ∪ d) ({[entity rule]} ∪ n) Hr')
      as (st & Hrun & Hst). exists st. split; [|done].
    eapply rtc_l; [by apply t_submit|]. eapply rtc_l; [by apply (t_begin _ _ _ t j ts [] [])|].
    eapply rtc_l; [by apply (t_found _ _ _ t j rule ts [] [])|]. exact Hrun.
  - destruct (IH r' a d n Hr') as (st & Hrun & Hst). exists st. split; [|done].
    eapply rtc_l; [by apply t_submit|]. eapply rtc_l; [by apply (t_begin _ _ _ t j ts [] [])|].
    eapply rtc_l; [by apply (t_not_found _ _ _ t j ts [] [])|]. exact Hrun.
Qed.
End Undisturbed.

Section Progress.
Context {R J : Type} `{SteppedRunner R J} (poolSize : nat) (inv : list Rule -> R -> Prop) (rules : list Rule).

(** What the others do to the runner is no step of the call. *)
Definition others (st st' : tstate R J) : Prop :=
  exists r', st' = mkT (unsubmitted st) (submitted st) (acts st) (detected st) (anonymized st) r'
    (ctx_done st) (pool_closed st).

Ltac decreasing :=
  unfold measure; simpl; rewrite ?sum_list_with_app; unfold task_weight; simpl; repeat case_match; lia.

Lemma tstep_measure st st' : tstep poolSize inv rules st st' -> (measure st' < measure st)%nat \/ others st st'.
Proof. intros []; [left; decreasing..|right; by eexists]. Qed.

(** Neither cancelled nor stopped meanwhile. *)
Definition quiet (st st' : tstate R J) : Prop :=
  ctx_done st' = ctx_done st /\ pool_closed st' = pool_closed st.

(** A task can go on, and without tasks the caller can, if a worker is free. *)
Lemma tstep_progress st : (submitted st = [] -> (0 < poolSize)%nat) -> ~ final st ->
  exists st', tstep poolSize inv rules st st' /\ (measure st' < measure st)%nat /\ quiet st st'.
Proof.
  intros Hpool Hn. destruct st as [ts [|[t' [j|]] q] a d n r ctx closed].
  - destruct ts as [|t ts]; [by destruct Hn|]. specialize (Hpool eq_refl).
    destruct closed; eexists; (split; [by constructor|split; [decreasing|done]]).
  - destruct (Finish rules (Content t') j r) as [[[rule|] r']|] eqn:Hf; eexists; split.
    1: exact (t_found poolSize inv rules t' j rule ts [] q a d n r r' ctx closed Hf).
    2: exact (t_not_found poolSize inv rules t' j ts [] q a d n r r' ctx closed Hf).
    3: exact (t_panic poolSize inv rules t' (Some j) ts [] q a d n r ctx closed Hf).
    all: split; [decreasing|done].
  - destruct (Begin rules (Content t') r) as [[j r']|] eqn:Hb; eexists; split.
    1: exact (t_begin poolSize inv rules t' j ts [] q a d n r r' ctx closed Hb).
    2: exact (t_panic poolSize inv rules t' None ts [] q a d n r ctx closed Hb).
    all: split; [decreasing|done].
Qed.
End Progress.

(** ** Sorting the actions *)

Lemma within_start_inj lo hi acts a b :
  within lo hi (map token acts) -> a ∈ acts -> b ∈ acts -> Start (token a) = Start (token b) -> a = b.
Proof.
  revert lo. induction acts as [|c acts IH]; intros lo; simpl; [set_solver|].
  intros (H1 & H2 & H3). destruct (within_bounds _ _ _ H3) as [_ Hb].
  rewrite Forall_forall in Hb.
  assert (Hin : forall x, x ∈ acts -> token x ∈ map token acts) by (intros x ?; by apply list_elem_of_fmap_2).
  intros [->|Ha]%elem_of_cons [->|Hb']%elem_of_cons Heq; eauto.
  - specialize (Hb (token b) (Hin _ Hb')). lia.
  - specialize (Hb (token a) (Hin _ Ha)). lia.
Qed.

Lemma actions_sorted lo hi acts :
  within lo hi (map token acts) -> StronglySorted start_le acts.
Proof.
  revert lo. induction acts as [|c acts IH]; intros lo; simpl; [constructor|].
  intros (H1 & H2 & H3). constructor; [by eapply IH|].
  apply Forall_forall. intros a Ha. destruct (within_bounds _ _ _ H3) as [_ Hb].
  rewrite Forall_forall in Hb.
  specialize (Hb (token a) (list_elem_of_fmap_2 token acts a Ha)). unfold start_le. lia.
Qed.

(** Sorting recovers the order of the tokens, whatever the order of the
    appends. *)
Lemma sortActions_within lo hi acts l :
  within lo hi (map token acts) -> l ≡ₚ acts -> sortActions l = acts.
Proof.
  intros Hw Hl. unfold sortActions.
  apply (StronglySorted_unique_strong start_le).
  - intros a b Ha Hb Hab Hba.
    rewrite merge_sort_Permutation, Hl in Ha.
    eapply within_start_inj; [exact Hw|done..|]. unfold start_le in *. lia.
  - apply StronglySorted_merge_sort; apply _.
  - by eapply actions_sorted.
  - by rewrite merge_sort_Permutation.
Qed.

(** A complete run amounts to choices on some of the tokens, in their order;
    unless somebody cancels or stops, the call of the runner panicked on the
    others. *)
Lemma reachable_choices {R J} `{SteppedRunner R J} inv held ok panics `{!PanickyRunnerSpec R J inv held ok panics}
    poolSize rules lo hi all (r : R) closed st :
  within lo hi all -> inv rules r ->
  rtc (tstep poolSize inv rules) (initial all r closed) st -> final st ->
  exists cs skipped, map fst cs `sublist_of` all /\ map fst cs ++ skipped ≡ₚ all /\
    admissible ok rules cs /\ inv rules (shared st) /\
    conc_result st = mkScan (shared st) (chosen_actions cs) (chosen_entities cs) (chosen_entities cs) /\
    (ctx_done st = false -> pool_closed st = false -> Forall (fun t => panics rules (Content t)) skipped).
Proof.
  intros Hw Hinv Hr [Hu Hs].
  destruct (tinv_reachable inv held ok panics poolSize rules all r closed st Hinv Hr)
    as (ran & skipped & [Ht Hr' _ Hok Ha Hd Hn Hc]).
  rewrite Hu, Hs, !app_nil_r in Ht.
  assert (Hsub : map fst ran ⊆+ all) by (rewrite <- Ht; apply submseteq_inserts_r; done).
  apply submseteq_sublist_r in Hsub as (ts & Hperm & Hsub).
  symmetry in Hperm. apply Permutation_map_inv in Hperm as (cs & -> & Hcs).
  exists cs, skipped. split_and!; [done| | |done| |done].
  - by rewrite <- Hcs.
  - unfold admissible. by rewrite <- Hcs.
  - unfold conc_result. rewrite Ha, Hd, Hn. f_equal.
    + eapply sortActions_within; [by apply chosen_within; eapply sublist_within|].
      unfold chosen_actions. by rewrite Hcs.
    + unfold chosen_entities. apply list_to_set_perm_L. by rewrite Hcs.
    + unfold chosen_entities. apply list_to_set_perm_L. by rewrite Hcs.
Qed.

(** All the tokens, when no call panics. *)
Lemma reachable_final {R J} `{SteppedRunner R J} inv held ok `{!SteppedRunnerSpec R J inv held ok}
    poolSize rules lo hi all (r : R) closed st :
  within lo hi all -> inv rules r ->
  rtc (tstep poolSize inv rules) (initial all r closed) st -> final st ->
  exists cs, map fst cs `sublist_of` all /\ admissible ok rules cs /\ inv rules (shared st) /\
    conc_result st = mkScan (shared st) (chosen_actions cs) (chosen_entities cs) (chosen_entities cs) /\
    (ctx_done st = false -> pool_closed st = false -> map fst cs = all).
Proof.
  intros Hw Hinv Hr Hf.
  destruct (reachable_choices inv held ok never poolSize rules lo hi all r closed st Hw Hinv Hr Hf)
    as (cs & skipped & Hsub & Hperm & Hadm & Hr' & Hres & Hall).
  exists cs. split_and!; [done..|]. intros Hctx Hclosed. specialize (Hall Hctx Hclosed).
  destruct skipped as [|t skipped]; [|by apply Forall_cons in Hall as [[] _]].
  rewrite app_nil_r in Hperm. apply sublist_eq_length; [done|]. by rewrite Hperm.
Qed.

(** ** Properties *)

(** Whatever is cancelled or stopped, a complete run never makes
    [applyActions] panic: it gives an admissible answer to some of the tokens,
    to all of them when nobody cancels or stops, and writes the input with
    these tokens replaced as their answers say and the others copied. *)
Lemma concurrent_chosen_spec {R J} `{SteppedRunner R J} inv held ok `{!SteppedRunnerSpec R J inv held ok}
    poolSize rules data (r : R) closed st buf w
    (runner_ok : inv rules r)
    (configured : Forall (fun r => settings_ok (Settings r)) rules)
    (run : rtc (tstep poolSize inv rules) (initial (lex_tokens data) r closed) st)
    (complete : final st) :
  exists cs, map fst cs `sublist_of` lex_tokens data /\ admissible ok rules cs /\
    (ctx_done st = false -> pool_closed st = false -> map fst cs = lex_tokens data) /\
    writeResult data (conc_result st) (mkOutput (W:=Buffer) buf w) =
      Some (chosen_details cs, mkOutput (buf ++ rewrite_choices data 0 cs) w).
Proof.
  destruct (reachable_final inv held ok poolSize rules _ _ _ r closed st (lex_tokens_within data) runner_ok run complete)
    as (cs & Hsub & Hadm & _ & -> & Hall).
  exists cs. split_and!; [done..|]. pose proof (stepped_spec inv held ok _).
  apply (writeResult_chosen ok rules); [intros ? ? ?; apply (stepped_in (inv:=inv) (held:=held))|done..].
Qed.

(** A call of the runner that panics in a task is recovered by the pool: the
    call of [Anonymize] goes on, the tokens whose calls return are given
    admissible answers, and the token of the panic is copied as it is; on the
    sequential path the panic is the caller's. *)
Theorem panicking_tokens_copied {R J} `{SteppedRunner R J} inv held ok panics
    `{!PanickyRunnerSpec R J inv held ok panics} poolSize rules data (r : R) st buf w
    (runner_ok : inv rules r)
    (configured : Forall (fun r => settings_ok (Settings r)) rules)
    (run : rtc (tstep poolSize inv rules) (initial (lex_tokens data) r false) st)
    (complete : final st) (not_cancelled : ctx_done st = false) (not_stopped : pool_closed st = false) :
  exists cs copied, map fst cs ++ copied ≡ₚ lex_tokens data /\ admissible ok rules cs /\
    Forall (fun t => panics rules (Content t)) copied /\
    writeResult data (conc_result st) (mkOutput (W:=Buffer) buf w) =
      Some (chosen_details cs, mkOutput (buf ++ rewrite_choices data 0 cs) w).
Proof.
  destruct (reachable_choices inv held ok panics poolSize rules _ _ _ r false st (lex_tokens_within data) runner_ok run complete)
    as (cs & copied & Hsub & Hperm & Hadm & _ & -> & Hall).
  exists cs, copied. split_and!; [done|done|by apply Hall|].
  apply (writeResult_chosen ok rules); [intros ? ? ?; apply (panicky_in (inv:=inv) (held:=held) (panics:=panics))|done..].
Qed.

Section Deterministic.
Context {R J : Type} `{SteppedRunner R J} (inv : list Rule -> R -> Prop)
  (held : list Rule -> bytes -> J -> Prop) (verdict : list Rule -> bytes -> option Rule)
  `{!SteppedRunnerSpec R J inv held (gives verdict)} {W : Type} `{Writer W}.

(** C6: when the context is not cancelled and the pool stays open, every
    complete run of the concurrent token path over a shared runner that does not
    panic and whose answers are determined by the rules and the token gives the same details and writes the
    same bytes as the sequential path, in whatever order the tasks ran, however
    their calls of the runner overlapped and whatever others did to it. *)
Theorem concurrent_equals_sequential poolSize rules data r st (out : Output W)
    (runner_ok : inv rules r)
    (run : rtc (tstep poolSize inv rules) (initial (lex_tokens data) r false) st)
    (complete : final st) (not_cancelled : ctx_done st = false)
    (not_stopped : pool_closed st = false) :
  exists seq, anonymizeSequential rules data (mkScan r [] ∅ ∅) = Some seq /\
    writeResult data (conc_result st) out = writeResult data seq out.
Proof.
  pose proof (stepped_spec inv held (gives verdict) _) as Hspec.
  destruct (anonymizeSequential_spec inv (gives verdict) rules data r runner_ok)
    as (cs & r' & Hcs & Hadm%admissible_gives & _ & Hseq).
  destruct (reachable_final inv held (gives verdict) poolSize rules _ _ _ _ _ _ (lex_tokens_within data) runner_ok run complete)
    as (cs' & _ & Hadm'%admissible_gives & _ & -> & Hall).
  rewrite (Hall not_cancelled not_stopped) in Hadm'. rewrite Hcs in Hadm. subst cs'. rewrite <- Hadm.
  eexists. split; [exact Hseq|]. done.
Qed.
End Deterministic.

(** C37: after [Stop] released the pool, no token is processed: every complete
    run ends with no action, reports no finding and writes the input as it is,
    whatever the rules find in it. *)
Theorem stopped_analyzer_copies_input {W} `{Writer W} {R J} `{SteppedRunner R J} poolSize inv rules data (r : R) (st : tstate R J)
    (out : Output W)
    (run : rtc (tstep poolSize inv rules) (initial (lex_tokens data) r true) st) (complete : final st) :
  writeResult data (conc_result st) out =
    Some (mkDetails false [] [], writeToOutput data out).
Proof.
  assert (submitted st = [] /\ acts st = [] /\ detected st = ∅ /\ anonymized st = ∅ /\
          pool_closed st = true) as (_ & Ha & Hd & Hn & _).
  { clear complete. revert st run. apply rtc_ind_r; [done|].
    intros st1 st2 _ Hstep (Hs & Ha & Hd & Hn & Hp).
    destruct Hstep; simplify_eq/=; try done; by destruct q1. }
  unfold writeResult, conc_result, sortActions. rewrite Ha, Hd, Hn. done.
Qed.

(** When the context is cancelled before the tasks run, the call still
    completes, with no finding and the input copied to the output. *)
Theorem cancelled_context_copies_input {W} `{Writer W} {R J} `{SteppedRunner R J} poolSize inv rules data (r : R)
    (out : Output W) (positive : (0 < poolSize)%nat) :
  exists st, rtc (tstep poolSize inv rules) (initial (lex_tokens data) r false) st /\ final st /\
    writeResult data (conc_result st) out =
      Some (mkDetails false [] [], writeToOutput data out).
Proof.
  exists (mkT [] [] [] ∅ ∅ r true false). split_and!; [|done|done].
  eapply rtc_l; [apply t_cancel|].
  generalize (lex_tokens data). intros ts. induction ts as [|t ts IH]; [done|].
  eapply rtc_l; [by apply t_submit|]. simpl.
  eapply rtc_l; [apply (t_skip poolSize inv rules t ts [] [])|]. exact IH.
Qed.

(** ** Witnesses *)

Definition two_words : bytes := of_str "bob al".
Definition bob_rule : list Rule := [word_rule "bob" (mask_with "*" 2)].
Definition any_state (rules : list Rule) (r : Reference) : Prop := True.
Definition two_words_end : tstate Reference unit :=
  mkT [] [] [mkAction (mkToken 0 3 (of_str "bob")) (mask_with "*" 2)]
    {["bob"%string]} {["bob"%string]} tt false false.

(** The calls of the two tasks overlap, and end in the order opposite to that
    of the tokens. *)
Lemma two_words_run :
  rtc (tstep 2 any_state bob_rule) (initial (lex_tokens two_words) tt false) two_words_end.
Proof.
  set (bob := mkToken 0 3 (of_str "bob")). set (al := mkToken 4 6 (of_str "al")).
  change (lex_tokens two_words) with [bob; al].
  eapply rtc_l; [apply t_submit; simpl; lia|]. eapply rtc_l; [apply t_submit; simpl; lia|]. simpl.
  eapply rtc_l; [apply (t_begin _ _ _ bob tt _ [] [(al, None)]); reflexivity|].
  eapply rtc_l; [apply (t_begin _ _ _ al tt _ [(bob, Some tt)] []); reflexivity|].
  eapply rtc_l; [apply (t_not_found _ _ _ al tt [] [(bob, Some tt)] []); reflexivity|].
  eapply rtc_l; [apply (t_found _ _ _ bob tt (word_rule "bob" (mask_with "*" 2)) [] [] []); reflexivity|].
  simpl. rewrite !(right_id_L ∅ (∪)). reflexivity.
Qed.

Lemma concurrent_equals_sequential_witness :
  exists seq, anonymizeSequential bob_rule two_words (mkScan tt [] ∅ ∅) = Some seq /\
    writeResult two_words (conc_result two_words_end) (mkOutput (W:=Buffer) [] []) =
    writeResult two_words seq (mkOutput (W:=Buffer) [] []).
Proof.
  apply (concurrent_equals_sequential any_state (fun _ _ _ => True) first_match 2 bob_rule two_words tt).
  - exact I.
  - exact two_words_run.
  - split; reflexivity.
  - reflexivity.
  - reflexivity.
Defined.

Lemma stopped_analyzer_copies_input_witness :
  writeResult two_words (conc_result (mkT [] [] [] ∅ ∅ (tt : Reference) false true : tstate Reference unit))
    (mkOutput (W:=Buffer) [] []) =
  Some (mkDetails false [] [], writeToOutput two_words (mkOutput (W:=Buffer) [] [])).
Proof.
  apply (stopped_analyzer_copies_input 2 any_state bob_rule two_words (tt : Reference)
           (mkT [] [] [] ∅ ∅ (tt : Reference) false true) (mkOutput (W:=Buffer) [] [])).
  - change (lex_tokens two_words) with [mkToken 0 3 (of_str "bob"); mkToken 4 6 (of_str "al")].
    eapply rtc_l; [apply t_rejected|]. reflexivity.
  - split; reflexivity.
Defined.
