(* ===== verification/SharedPool.v ===== *)
(** * Anonymizations that share an analyzer

    Any number of goroutines call [Anonymize] with the same rules on one
    analyzer that has a token pool (byte_analyzer.go).  Each call is the
    transition system of ConcurrentTokens.v; here they run together, on one
    rule runner and one pool, whose workers take the tasks of all of them, so
    that a call waits also for the tasks of the others. *)
From S2P Require Import Prelude GoBytes Tokenization Rules ByteAnalyzer Pool ConcurrentTokens.

(** ** Calls of [Anonymize] as clients of the pool *)

(** A call that finds the runner and the pool as the others left them. *)
Definition seen {R J} (e : R * bool) (st : tstate R J) : tstate R J :=
  mkT (unsubmitted st) (submitted st) (acts st) (detected st) (anonymized st) e.1 (ctx_done st) e.2.

(** [Anonymize] does not return early. *)
Definition anonymizable (rules : list Rule) (data : bytes) : Prop := data <> [] /\ rules <> [].

Section Anonymizations.
Context {R J : Type} `{SteppedRunner R J} (poolSize : nat) (inv : list Rule -> R -> Prop) (rules : list Rule).

(** They share the runner and whether [Stop] has released the pool. *)
Definition anonymization : pool_client bytes (R * bool) (tstate R J) := {|
  launch data e := initial (lex_tokens data) e.1 e.2;
  shares st := (shared st, pool_closed st);
  enter := seen;
  advance _ n := tstep n inv rules;
  occupied st := length (submitted st);
  over _ := final;
  work st := measure (seen (shared st, true) st);
  upkeep e := (if e.2 then 0 else 1)%nat
|}.

Definition anonymizations : relation (pooled bytes (R * bool) (tstate R J)) :=
  pool_step anonymization poolSize (anonymizable rules).

Definition new_analyzer (r : R) : pooled bytes (R * bool) (tstate R J) := mkPooled [] (r, false).

(** ** Their laws *)

Definition runner_fit (e : R * bool) : Prop := inv rules e.1.
Definition stays_released (e e' : R * bool) : Prop := e.2 = true -> e'.2 = true.
Definition as_released (e e' : R * bool) : Prop := e'.2 = e.2.
Definition as_cancelled (st st' : tstate R J) : Prop := ctx_done st' = ctx_done st.

Lemma measure_work st :
  measure st = (work anonymization st + upkeep anonymization (shares anonymization st))%nat.
Proof. unfold measure. simpl. unfold measure. simpl. lia. Qed.

Lemma tstep_more_workers n m st st' : (n <= m)%nat -> tstep n inv rules st st' -> tstep m inv rules st st'.
Proof. intros Hn []; constructor; try done. lia. Qed.

Lemma tstep_workers n st st' : tstep n inv rules st st' ->
  (length (submitted st') <= length (submitted st) \/ length (submitted st') <= n)%nat.
Proof. intros []; simpl; rewrite ?length_app; simpl; lia. Qed.

(** What the others do to the runner and the pool are steps of the call. *)
Lemma seen_steps e st : runner_fit e -> stays_released (shared st, pool_closed st) e ->
  rtc (tstep poolSize inv rules) st (seen e st).
Proof.
  destruct st as [u q a d n r0 ctx c], e as [r closed].
  unfold seen, runner_fit, stays_released. simpl. intros Hr Hc. eapply rtc_l; [by apply t_other|].
  destruct c, closed; [done|by specialize (Hc eq_refl)|apply rtc_once, t_close|done].
Qed.

Context (held : list Rule -> bytes -> J -> Prop) (ok : list Rule -> bytes -> option Rule -> Prop)
  (panics : list Rule -> bytes -> Prop) `{!PanickyRunnerSpec R J inv held ok panics}.

#[export] Instance anonymization_laws :
  PoolClientLaws anonymization poolSize runner_fit stays_released as_released as_cancelled.
Proof.
  split; simpl; try done.
  - unfold stays_released. split; [by intros ?|intros ???; auto].
  - unfold as_released. split; [by intros ?|intros ???; congruence].
  - unfold as_cancelled. split; [by intros ?|intros ???; congruence].
  - intros _ st. destruct (decide (final st)); auto.
  - by intros _ [].
  - by intros [].
  - by intros _ st [_ ->].
  - intros _ n m st st'. apply tstep_more_workers.
  - intros _ n st st'. apply tstep_workers.
  - unfold stays_released. by intros _ n st st' [].
  - intros _ n st st' Hstep. destruct (tstep_measure _ _ _ _ _ Hstep) as [Hm|(r' & ->)]; [left|by right].
    by rewrite !measure_work in Hm.
  - intros _. apply seen_steps.
  - intros data st ([r0 closed0] & Hr0 & Hrun).
    destruct (tinv_reachable inv held ok panics poolSize rules _ r0 closed0 st Hr0 Hrun) as (? & ? & Hi). apply Hi.
  - intros _ n [r closed] st _ _ _ Hn Hfree.
    destruct (tstep_progress n inv rules (seen (r, closed) st)) as (st' & Hstep & Hm & Hctx & Hcl); [|done|].
    { intros Hs. simpl in Hs. apply Hfree. by rewrite Hs. }
    exists st'. split_and!; [done|done|done|]. by rewrite !measure_work in Hm.
Qed.

(** What a call that has returned wrote. *)
Lemma finished_call F i data st buf w :
  Forall (fun r => settings_ok (Settings r)) rules ->
  pool_inv anonymization poolSize (anonymizable rules) runner_fit stays_released F ->
  clients F !! i = Some (data, st) -> final st ->
  exists cs copied, map fst cs `sublist_of` lex_tokens data /\ map fst cs ++ copied ≡ₚ lex_tokens data /\
    admissible ok rules cs /\ (pool_closed st = true -> (common F).2 = true) /\
    (ctx_done st = false -> pool_closed st = false -> Forall (fun t => panics rules (Content t)) copied) /\
    writeResult data (conc_result st) (mkOutput (W:=Buffer) buf w) =
      Some (chosen_details cs, mkOutput (buf ++ rewrite_choices data 0 cs) w).
Proof.
  intros Hset [_ _ Hc] Hi Hfin.
  destruct (Hc _ _ _ Hi) as ([Hd Hrules] & ([r0 closed0] & Hr0 & Hrun) & Hcl).
  destruct (reachable_choices inv held ok panics poolSize rules _ _ _ r0 closed0 st (lex_tokens_within data) Hr0 Hrun Hfin)
    as (cs & copied & Hsub & Hperm & Hadm & _ & -> & Hall).
  exists cs, copied. split_and!; [done..|].
  apply (writeResult_chosen ok rules); [intros ? ? ?; apply (panicky_in (inv:=inv) (held:=held) (panics:=panics))|done..].
Qed.
End Anonymizations.

(** ** Property *)

(** C29: anonymizations that overlap on one analyzer, sharing its rule runner
    and the workers of its token pool, all come right and all come to an end.
    Whatever the interleaving of the calls and their tasks, of cancellations,
    of [Stop] and of other uses of the runner, no more tasks run than the pool
    has workers; a call that has returned wrote its text with some of its
    tokens replaced as admissible answers say and the others copied, and
    unless it was cancelled or stopped it copied those only on which the
    runner panics.  Every step decreases what is left to do, new calls and
    other uses of the runner aside, and from every state all the calls under
    way can return, none being cancelled or stopped for it: no call waits for
    ever for a worker, as long as the runner returns or panics. *)
Theorem overlapping_anonymizations {R J} `{SteppedRunner R J} inv held ok panics
    `{!PanickyRunnerSpec R J inv held ok panics} poolSize rules (r : R) F
    (positive : (0 < poolSize)%nat) (configured : Forall (fun r => settings_ok (Settings r)) rules)
    (fit : inv rules r) (run : rtc (anonymizations poolSize inv rules) (new_analyzer r) F) :
  (workers_busy (anonymization inv rules) (clients F) <= poolSize)%nat /\
  (forall i data st buf w, clients F !! i = Some (data, st) -> final st ->
     exists cs copied, map fst cs `sublist_of` lex_tokens data /\ map fst cs ++ copied ≡ₚ lex_tokens data /\
       admissible ok rules cs /\
       (pool_closed st = true -> (common F).2 = true) /\
       (ctx_done st = false -> pool_closed st = false -> Forall (fun t => panics rules (Content t)) copied) /\
       writeResult data (conc_result st) (mkOutput (W:=Buffer) buf w) =
         Some (chosen_details cs, mkOutput (buf ++ rewrite_choices data 0 cs) w)) /\
  (forall F', anonymizations poolSize inv rules F F' ->
     (backlog (anonymization inv rules) F' < backlog (anonymization inv rules) F)%nat \/
     outside (anonymization inv rules) F F') /\
  exists F', rtc (anonymizations poolSize inv rules) F F' /\ (common F').2 = (common F).2 /\
    Forall2 (fun k k' => k'.1 = k.1 /\ ctx_done k'.2 = ctx_done k.2 /\ final k'.2) (clients F) (clients F').
Proof.
  pose proof (anonymization_laws poolSize inv rules held ok panics) as Hlaws.
  pose proof (pool_inv_reachable _ _ _ (runner_fit inv rules) _ _ _ (r, false) F fit run) as Hp.
  split_and!; [apply Hp| | |exact (pool_completes _ _ _ _ _ _ _ F positive Hp)].
  - intros i data st buf w. by apply (finished_call poolSize inv rules held ok panics).
  - intros F'. by eapply pool_step_backlog.
Qed.

(** ** Witness *)

(** Two calls and a single worker. *)
Definition two_calls : pooled bytes (Reference * bool) (tstate Reference unit) :=
  mkPooled [(two_words, initial (lex_tokens two_words) tt false); (two_words, initial (lex_tokens two_words) tt false)] (tt, false).

Lemma two_calls_run : rtc (anonymizations 1 any_state bob_rule) (new_analyzer (tt : Reference)) two_calls.
Proof.
  eapply rtc_l; [by apply (p_call (anonymization any_state bob_rule) 1 _ two_words [] (tt, false))|].
  apply rtc_once. by apply (p_call (anonymization any_state bob_rule) 1 _ two_words [_] (tt, false)).
Qed.

(** The answers leave no choice. *)
Lemma bob_choices cs copied : map fst cs ++ copied ≡ₚ lex_tokens two_words -> map fst cs `sublist_of` lex_tokens two_words ->
  Forall (fun t => never bob_rule (Content t)) copied -> admissible (gives first_match) bob_rule cs ->
  rewrite_choices two_words 0 cs = of_str "**b al".
Proof.
  intros Hperm Hsub Hcop Hadm. destruct copied as [|t copied]; [|by apply Forall_cons in Hcop as [[] _]].
  rewrite app_nil_r in Hperm. assert (Hfst : map fst cs = lex_tokens two_words)
    by (apply sublist_eq_length; [done|by rewrite Hperm]).
  change (lex_tokens two_words) with [mkToken 0 3 (of_str "bob"); mkToken 4 6 (of_str "al")] in Hfst.
  destruct cs as [|[t1 v1] [|[t2 v2] [|]]]; simplify_eq/=. unfold admissible, gives in Hadm.
  apply Forall_cons in Hadm as [H1 [H2 _]%Forall_cons]. simpl in H1, H2. subst. vm_compute. reflexivity.
Qed.

Lemma overlapping_anonymizations_witness :
  exists F, rtc (anonymizations 1 any_state bob_rule) two_calls F /\
    length (clients F) = 2%nat /\ (workers_busy (anonymization any_state bob_rule) (clients F) <= 1)%nat /\
    Forall (fun c => exists details, writeResult c.1 (conc_result c.2) (mkOutput (W:=Buffer) [] []) =
      Some (details, mkOutput (of_str "**b al") [])) (clients F).
Proof.
  assert (Hset : Forall (fun r => settings_ok (Settings r)) bob_rule) by (repeat constructor; by eexists).
  pose proof (overlapping_anonymizations any_state (fun _ _ _ => True) (gives first_match) never 1 bob_rule) as Hthm.
  destruct (Hthm (tt : Reference) two_calls ltac:(lia) Hset I two_calls_run) as (_ & _ & _ & F & Hrun & Hcl & Hall).
  exists F. split; [exact Hrun|].
  destruct (Hthm (tt : Reference) F ltac:(lia) Hset I ltac:(etrans; [exact two_calls_run|exact Hrun]))
    as (Hw & Hout & _ & _).
  split_and!; [by apply Forall2_length in Hall|exact Hw|].
  apply Forall_lookup. intros i [data st] Hi.
  destruct (Forall2_lookup_r _ _ _ _ _ Hall Hi) as ([data0 st0] & Hi0 & Hd & Hctx & Hfin). simpl in *.
  assert (data0 = two_words /\ ctx_done st0 = false) as [-> Hctx0]
    by (destruct i as [|[|]]; simpl in Hi0; simplify_eq; done).
  subst data. destruct (Hout i two_words st [] [] Hi Hfin) as (cs & copied & Hsub & Hperm & Hadm & Hrel & Hcop & ->).
  exists (chosen_details cs). simpl. do 2 f_equal. f_equal.
  apply (bob_choices cs copied Hperm Hsub); [|exact Hadm].
  apply Hcop; [congruence|].
  destruct (pool_closed st); [|done]. specialize (Hrel eq_refl). rewrite Hcl in Hrel. discriminate Hrel.
Defined.
