(* ===== verification/CacheStore.v ===== *)
(** * analyzer/cache/store.go and noop.go: the cache of matching results

    [CacheStore] is the Go interface; a call returns the new state of the store
    and [None] when it panics.  [CacheStoreLaws] is what the rule runners rely
    on: a store never invents an entry.  It may lose entries at any time, so
    expiry, eviction and failed writes satisfy the laws. *)
From S2P Require Import Prelude Rules.

(** The matching results of one token. *)
Abbreviation results := (gmap Entity bool).

Class CacheStore (C : Type) := {
  GetMatches : bytes -> C -> option ((results + string) * C);
  SaveMatches : bytes -> results -> C -> option (option string * C)
}.

(** [view c data]: the results the store holds for a token. *)
Class CacheStoreLaws (C : Type) `{CacheStore C} (view : C -> bytes -> results) : Prop := {
  get_total data c : is_Some (GetMatches data c);
  save_total data m c : is_Some (SaveMatches data m c);
  get_sound data c m c' : GetMatches data c = Some (inl m, c') -> m ⊆ view c data;
  get_keeps data c got c' : GetMatches data c = Some (got, c') ->
    forall data', view c' data' ⊆ view c data';
  save_sound data m c err c' : SaveMatches data m c = Some (err, c') ->
    forall data' e v, view c' data' !! e = Some v ->
      view c data' !! e = Some v \/ (data' = data /\ m !! e = Some v)
}.

(** ** NoopRuleMatchingCache *)

Definition Noop := unit.

#[export] Instance Noop_Store : CacheStore Noop := {
  GetMatches _ c := Some (inl ∅, c);
  SaveMatches _ _ c := Some (None, c)
}.

#[export] Instance Noop_Laws : CacheStoreLaws Noop (fun _ _ => ∅).
Proof. split; intros; simplify_eq/=; eauto. Qed.

(** ** A nil CacheStore: calling a method of a nil interface panics. *)

Definition NilStore := unit.

Definition Nil_Store : CacheStore NilStore := {|
  GetMatches _ _ := None;
  SaveMatches _ _ _ := None
|}.

(** ** A store that keeps everything, for the witnesses *)

Abbreviation MapStore := (gmap bytes results).

#[export] Instance Map_Store : CacheStore MapStore := {
  GetMatches data c := Some (inl (default ∅ (c !! data)), c);
  SaveMatches data m c := Some (None, <[data := m ∪ default ∅ (c !! data)]> c)
}.

Definition map_view (c : MapStore) (data : bytes) : results := default ∅ (c !! data).

#[export] Instance Map_Laws : CacheStoreLaws MapStore map_view.
Proof.
  split; unfold map_view; simpl; [by eauto|by eauto|by intros; simplify_eq|by intros; simplify_eq|].
  intros data m c err c' [= _ <-] data' e v.
  destruct (decide (data = data')) as [->|Hne].
  - rewrite lookup_insert_eq. simpl. intros [?|[_ ?]]%lookup_union_Some_raw; eauto.
  - rewrite lookup_insert_ne by done. eauto.
Qed.
