(* ===== verification/GoFloat.v ===== *)
(** * Go's float64 and time.Duration

    A [float64] is a [spec_float] of binary64; the operations are the IEEE ones
    of the Standard Library.  Conversions to [int64] truncate; a value out of
    range converts to whatever the processor gives, the parameter [oor]. *)
From S2P Require Import Prelude.
From Stdlib Require Export SpecFloat.

Definition prec : Z := 53.
Definition emax : Z := 1024.

Definition fadd := SFadd prec emax.
Definition fsub := SFsub prec emax.
Definition fmul := SFmul prec emax.
Definition fdiv := SFdiv prec emax.

(** [float64(n)] for an integer, and a dyadic constant [m * 2^e]. *)
Definition of_int (n : Z) : spec_float := binary_normalize prec emax n 0 false.
Definition dyadic (m e : Z) : spec_float := binary_normalize prec emax m e false.

Definition fpos (x : spec_float) : bool := SFltb (of_int 0) x.

(** The sign, numerator and denominator of a finite value. *)
Definition as_ratio (x : spec_float) : option (Z * Z) :=
  match x with
  | S754_zero _ => Some (0, 1)
  | S754_finite sgn m e =>
      let v := if sgn then Z.neg m else Z.pos m in
      Some (if 0 <=? e then (v * 2 ^ e, 1) else (v, 2 ^ (- e)))
  | _ => None
  end.

Definition ratio_floor (nd : Z * Z) : Z := nd.1 / nd.2.
Definition ratio_ceil (nd : Z * Z) : Z := - (- nd.1 / nd.2).
Definition ratio_trunc (nd : Z * Z) : Z := Z.quot nd.1 nd.2.
(** Half away from zero, as [math.Round]. *)
Definition ratio_round (nd : Z * Z) : Z :=
  if 0 <=? nd.1 then (2 * nd.1 + nd.2) / (2 * nd.2) else - ((- 2 * nd.1 + nd.2) / (2 * nd.2)).

Definition min_int64 : Z := - 2 ^ 63.
Definition max_int64 : Z := 2 ^ 63 - 1.

(** The wrap-around of [int64] arithmetic. *)
Definition wrap64 (z : Z) : Z := (z + 2 ^ 63) mod 2 ^ 64 - 2 ^ 63.

Section Conversions.
Context (oor : spec_float -> Z).

Definition in_int64 (z : Z) : bool := (min_int64 <=? z) && (z <=? max_int64).

Definition convert (f : Z * Z -> Z) (x : spec_float) : Z :=
  match as_ratio x with
  | Some nd => if in_int64 (f nd) then f nd else oor x
  | None => oor x
  end.

(** [int64(x)], [int64(math.Round(x))], [int64(math.Ceil(x))] and
    [int64(math.Floor(x))]. *)
Definition int64_of := convert ratio_trunc.
Definition int64_round := convert ratio_round.
Definition int64_ceil := convert ratio_ceil.
Definition int64_floor := convert ratio_floor.
End Conversions.

(** [time.Duration] in nanoseconds. *)
Definition Second : Z := 1000000000.

(** [d.Seconds()]. *)
Definition Seconds (d : Z) : spec_float :=
  fadd (of_int (Z.quot d Second)) (fdiv (of_int (Z.rem d Second)) (of_int Second)).

Lemma wrap64_small z : min_int64 <= z <= max_int64 -> wrap64 z = z.
Proof. unfold wrap64, min_int64, max_int64. intros H. rewrite Z.mod_small; lia. Qed.
