(* ===== verification/ValkeyCache.v ===== *)
(** * analyzer/cache/valkey.go: the cache on a Valkey server

    The client library and the server are parameters: the operations [Do],
    [DoCache] and [DoMulti] of the client, with the laws in [ClientLaws] of
    what a reply may say.  The fields of a hash are read and written in the
    order Go's map iteration happens to give, here that of [map_to_list]. *)
From S2P Require Import Prelude Rules CacheStore GoFloat.

(** ** Commands and replies *)

Inductive command :=
| HGETALL (key : string)
| HSET (key : string) (fields : list (string * string))
| EXPIRE_NX (key : string) (seconds : Z).

(** A message of a map reply is a string or cannot be read as one. *)
Inductive reply :=
| RError (err : string)
| RMap (fields : gmap string (string + string))
| ROther.

Definition AsMap (r : reply) : gmap string (string + string) + string :=
  match r with
  | RMap m => inl m
  | RError e => inr e
  | ROther => inr "not a map"%string
  end.

Definition Error (r : reply) : option string := match r with RError e => Some e | _ => None end.

Class Client (S : Type) := {
  Do : command -> S -> reply * S;
  DoCache : command -> Z -> S -> reply * S;
  DoMulti : list command -> S -> list reply * S
}.

(** [visible s key]: the fields a read of the hash may return.  A read shows
    visible fields and makes none visible; a write makes visible at most the
    fields it carries, whether or not it reports an error; replies are one per
    command. *)
Class ClientLaws (S : Type) `{Client S} (visible : S -> string -> gmap string string) : Prop := {
  do_read key s r s' : Do (HGETALL key) s = (r, s') ->
    (forall m f v, r = RMap m -> m !! f = Some (inl v) -> visible s key !! f = Some v) /\
    forall key', visible s' key' ⊆ visible s key';
  do_cache key ttl s r s' : DoCache (HGETALL key) ttl s = (r, s') ->
    (forall m f v, r = RMap m -> m !! f = Some (inl v) -> visible s key !! f = Some v) /\
    forall key', visible s' key' ⊆ visible s key';
  do_write key fields s r s' : Do (HSET key fields) s = (r, s') ->
    forall key' f v, visible s' key' !! f = Some v ->
      visible s key' !! f = Some v \/ (key' = key /\ (f, v) ∈ fields);
  multi_write key fields secs s rs s' : DoMulti [HSET key fields; EXPIRE_NX key secs] s = (rs, s') ->
    length rs = 2%nat /\
    forall key' f v, visible s' key' !! f = Some v ->
      visible s key' !! f = Some v \/ (key' = key /\ (f, v) ∈ fields)
}.

(** ** RuleMatchingCache *)

Record RuleMatchingCache := mkCache {
  cacheTTL : Z;
  jitterPct : spec_float;
  disableCSC : bool
}.

Definition matchKeyNamespace : string := "leakspok:m:".

Definition matchKey (data : bytes) : string := matchKeyNamespace ++ to_str data.

(** The client, and the generator behind [rand.Float64]. *)
Record vstate (S G : Type) := mkV { client : S; rng : G }.
Arguments mkV {S G}.
Arguments client {S G}.
Arguments rng {S G}.

Section Valkey.
Context {S G : Type} `{Client S} (Float64 : G -> spec_float * G) (oor : spec_float -> Z).
Context (r : RuleMatchingCache).

(** [time.Duration(float64(ttl) * pct * (2*rand.Float64() - 1))] is added to
    the base when jitter is enabled. *)
Definition jitteredTTL (g : G) : Z * G :=
  if negb (fpos (jitterPct r)) then (cacheTTL r, g)
  else
    let '(x, g) := Float64 g in
    let delta := int64_of oor
      (fmul (fmul (of_int (cacheTTL r)) (jitterPct r)) (fsub (fmul (of_int 2) x) (of_int 1))) in
    (wrap64 (cacheTTL r + delta), g).

Definition useClientSideCache : bool := negb (disableCSC r) && (0 <? cacheTTL r).

Definition expireSeconds (g : G) : Z * G :=
  let '(ttl, g) := jitteredTTL g in
  let seconds := int64_round oor (Seconds ttl) in
  let base := of_int (cacheTTL r) in
  let one := of_int 1 in
  let lower := int64_ceil oor (fdiv (fmul base (fsub one (jitterPct r))) (of_int Second)) in
  let upper := int64_floor oor (fdiv (fmul base (fadd one (jitterPct r))) (of_int Second)) in
  let seconds := if seconds <? lower then lower else seconds in
  let seconds := if upper <? seconds then upper else seconds in
  let seconds := if seconds <? 1 then 1 else seconds in
  (seconds, g).

(** The loop over the fields of the reply. *)
Fixpoint read_fields (fields : list (string * (string + string))) (acc : results)
    : results + string :=
  match fields with
  | [] => inl acc
  | (field, message) :: rest =>
      match message with
      | inr convErr => inr convErr
      | inl value => read_fields rest (<[field := String.eqb value "1"]> acc)
      end
  end.

Definition ValkeyGetMatches (data : bytes) (c : vstate S G) : option ((results + string) * vstate S G) :=
  let key := matchKey data in
  let '(result, c) :=
    if negb useClientSideCache then
      let '(result, s) := Do (HGETALL key) (client c) in (result, mkV s (rng c))
    else
      let '(ttl, g) := jitteredTTL (rng c) in
      let '(result, s) := DoCache (HGETALL key) ttl (client c) in (result, mkV s g) in
  match AsMap result with
  | inr err => Some (inr err, c)
  | inl fields => Some (read_fields (map_to_list fields) ∅, c)
  end.

Definition field_value (em : Entity * bool) : string * string :=
  (em.1, if em.2 then "1" else "0")%string.

Definition ValkeySaveMatches (data : bytes) (m : results) (c : vstate S G)
    : option (option string * vstate S G) :=
  if decide (size m = 0%nat) then Some (None, c) else
  let key := matchKey data in
  let hset := HSET key (map field_value (map_to_list m)) in
  if cacheTTL r =? 0 then
    let '(result, s) := Do hset (client c) in Some (Error result, mkV s (rng c))
  else
    let '(secs, g) := expireSeconds (rng c) in
    let '(resp, s) := DoMulti [hset; EXPIRE_NX key secs] (client c) in
    r0 ← idx resp 0;
    match Error r0 with
    | Some err => Some (Some err, mkV s g)
    | None => r1 ← idx resp 1; Some (Error r1, mkV s g)
    end.

Definition Valkey_Store : CacheStore (vstate S G) := {|
  GetMatches := ValkeyGetMatches;
  SaveMatches := ValkeySaveMatches
|}.
End Valkey.

(** ** Lemmas *)

Lemma string_app_inj (p a b : string) : (p ++ a = p ++ b -> a = b)%string.
Proof. induction p as [|c p IH]; simpl; [done|]. intros [= ?]. auto. Qed.

Lemma matchKey_inj a b : matchKey a = matchKey b -> a = b.
Proof. intros H%string_app_inj. by apply to_str_inj. Qed.

(** What [GetMatches] makes of the visible fields of the token's hash. *)
Definition decode (fields : gmap string string) : results := (fun v => String.eqb v "1") <$> fields.

Lemma read_fields_sound fields : forall acc res, read_fields fields acc = inl res ->
  forall e v, res !! e = Some v ->
    acc !! e = Some v \/ exists value, (e, inl value) ∈ fields /\ v = String.eqb value "1".
Proof.
  induction fields as [|[f [value|err]] rest IH]; intros acc res Hr e v Hv; simpl in Hr.
  - simplify_eq. by left.
  - destruct (IH _ _ Hr e v Hv) as [Ha|(w & Hw & ->)].
    + apply lookup_insert_Some in Ha as [[<- <-]|[_ ?]]; [|by left]. right. exists value.
      split; [apply list_elem_of_here|done].
    + right. exists w. split; [by apply list_elem_of_further|done].
  - done.
Qed.

Section ValkeyLaws.
Context {S G : Type} `{Client S} (visible : S -> string -> gmap string string)
  `{!ClientLaws S visible} (Float64 : G -> spec_float * G) (oor : spec_float -> Z)
  (r : RuleMatchingCache).

Definition valkey_view (c : vstate S G) (data : bytes) : results :=
  decode (visible (client c) (matchKey data)).

Lemma get_reply data c got c' :
  ValkeyGetMatches Float64 oor r data c = Some (got, c') ->
  exists result,
    (forall m f v, result = RMap m -> m !! f = Some (inl v) ->
       visible (client c) (matchKey data) !! f = Some v) /\
    (forall key', visible (client c') key' ⊆ visible (client c) key') /\
    got = match AsMap result with inr err => inr err | inl fields => read_fields (map_to_list fields) ∅ end.
Proof.
  unfold ValkeyGetMatches. destruct (negb (useClientSideCache r)).
  - destruct (Do _ _) as [result s] eqn:Hd. apply do_read in Hd as [H1 H2].
    intros Heq. exists result. destruct (AsMap result); simplify_eq; by split_and!.
  - destruct (jitteredTTL _ _ _ _) as [ttl g]. destruct (DoCache _ _ _) as [result s] eqn:Hd.
    apply do_cache in Hd as [H1 H2].
    intros Heq. exists result. destruct (AsMap result); simplify_eq; by split_and!.
Qed.

Lemma decode_fields (m : results) e v value :
  (e, value) ∈ map field_value (map_to_list m) -> v = String.eqb value "1" -> m !! e = Some v.
Proof.
  intros ([e' b] & Heq & Hin)%list_elem_of_fmap ->. apply elem_of_map_to_list in Hin.
  unfold field_value in Heq. simpl in Heq. simplify_eq. by destruct b.
Qed.

Lemma Valkey_Laws : @CacheStoreLaws (vstate S G) (Valkey_Store Float64 oor r) valkey_view.
Proof.
  split; simpl.
  - intros data c. unfold ValkeyGetMatches.
    destruct (if negb (useClientSideCache r) then _ else _) as [result c']. destruct (AsMap result); by eexists.
  - intros data m c. unfold ValkeySaveMatches. case_decide; [by eexists|].
    destruct (cacheTTL r =? 0); [destruct (Do _ _); by eexists|].
    destruct (expireSeconds _ _ _ _) as [secs g]. destruct (DoMulti _ _) as [resp s] eqn:Hd.
    apply multi_write in Hd as [Hl _]. destruct resp as [|r0 [|r1 [|? ?]]]; try done.
    change (idx [r0; r1] 0) with (Some r0). simpl. destruct (Error r0); [by eexists|].
    change (idx [r0; r1] 1) with (Some r1). simpl. by eexists.
  - intros data c m c' Hg. apply get_reply in Hg as (result & Hs & _ & Heq).
    destruct (AsMap result) as [fields|] eqn:Hm; [|done].
    assert (result = RMap fields) as -> by (destruct result; simpl in Hm; congruence).
    apply map_subseteq_spec. intros e v Hv.
    destruct (read_fields_sound _ _ _ (eq_sym Heq) e v Hv) as [?|(value & Hin & ->)];
      [by rewrite lookup_empty in *|].
    apply elem_of_map_to_list in Hin. unfold valkey_view, decode.
    by rewrite lookup_fmap, (Hs fields e value eq_refl Hin).
  - intros data c got c' Hg data'. apply get_reply in Hg as (_ & _ & Hk & _).
    unfold valkey_view, decode. by apply map_fmap_mono.
  - intros data m c err c' Hs data' e v Hv. unfold valkey_view, decode in *.
    rewrite lookup_fmap in Hv |- *.
    destruct (visible (client c') (matchKey data') !! e) as [value|] eqn:Hval; [|done].
    simpl in Hv. simplify_eq.
    assert (Hw : visible (client c) (matchKey data') !! e = Some value \/
      (matchKey data' = matchKey data /\ (e, value) ∈ map field_value (map_to_list m))).
    { unfold ValkeySaveMatches in Hs. case_decide; [simplify_eq; by left|].
      destruct (cacheTTL r =? 0).
      - destruct (Do _ _) as [result s] eqn:Hd. simplify_eq. by eapply do_write.
      - destruct (expireSeconds _ _ _ _) as [secs g]. destruct (DoMulti _ _) as [resp s] eqn:Hd.
        apply multi_write in Hd as [Hl Hw].
        destruct resp as [|r0 [|r1 [|? ?]]]; try done.
        change (idx [r0; r1] 0) with (Some r0) in Hs. change (idx [r0; r1] 1) with (Some r1) in Hs.
        simpl in Hs. destruct (Error r0); simplify_eq; by apply Hw. }
    destruct Hw as [->|[Hk%matchKey_inj Hin]]; [by left|right]. split; [done|].
    by eapply decode_fields.
Qed.
End ValkeyLaws.

(** ** A server in memory, for round trips and witnesses *)

Abbreviation MemServer := (gmap string (gmap string string)).

Definition hash (s : MemServer) (key : string) : gmap string string := default ∅ (s !! key).

Definition mem_do (c : command) (s : MemServer) : reply * MemServer :=
  match c with
  | HGETALL key => (RMap (inl <$> hash s key), s)
  | HSET key fields => (ROther, <[key := list_to_map fields ∪ hash s key]> s)
  | EXPIRE_NX _ _ => (ROther, s)
  end.

Fixpoint mem_multi (cs : list command) (s : MemServer) : list reply * MemServer :=
  match cs with
  | [] => ([], s)
  | c :: cs' => let '(r, s) := mem_do c s in let '(rs, s) := mem_multi cs' s in (r :: rs, s)
  end.

#[export] Instance Mem_Client : Client MemServer := {
  Do := mem_do;
  DoCache c _ s := mem_do c s;
  DoMulti := mem_multi
}.

Lemma mem_hset key fields s key' f v :
  hash (<[key := list_to_map fields ∪ hash s key]> s) key' !! f = Some v ->
  hash s key' !! f = Some v \/ (key' = key /\ (f, v) ∈ fields).
Proof.
  unfold hash at 1. destruct (decide (key' = key)) as [->|Hne].
  - rewrite lookup_insert_eq. simpl. intros [Hf|[_ ?]]%lookup_union_Some_raw; [right|by left].
    split; [done|]. by apply elem_of_list_to_map_2.
  - rewrite lookup_insert_ne by done. by left.
Qed.

#[export] Instance Mem_ClientLaws : ClientLaws MemServer hash.
Proof.
  split; simpl.
  - intros key s r s' [= <- <-]. split; [|done]. intros m f v [= <-].
    rewrite lookup_fmap. destruct (hash s key !! f); simpl; congruence.
  - intros key _ s r s' [= <- <-]. split; [|done]. intros m f v [= <-].
    rewrite lookup_fmap. destruct (hash s key !! f); simpl; congruence.
  - intros key fields s r s' [= <- <-] key' f v. apply mem_hset.
  - intros key fields secs s rs s' [= <- <-]. split; [done|]. intros key' f v. apply mem_hset.
Qed.

Lemma read_fields_map (m : gmap string string) : forall l acc,
  NoDup l.*1 -> (forall f v, (f, v) ∈ l -> acc !! f = None) ->
  read_fields (map (fun fv : string * string => (fv.1, inl fv.2)) l) acc =
    inl (list_to_map (map (fun fv : string * string => (fv.1, String.eqb fv.2 "1")) l) ∪ acc).
Proof.
  induction l as [|[f v] l IH]; intros acc Hnd Hacc; simpl; [by rewrite (left_id_L ∅ (∪))|].
  apply NoDup_cons in Hnd as [Hf Hnd]. rewrite IH; [|done|].
  - f_equal. rewrite <- insert_union_l. rewrite insert_union_r; [done|].
    apply not_elem_of_list_to_map_1. intros ([f' v'] & Hff & Hin)%list_elem_of_fmap. simpl in Hff.
    subst f'. apply list_elem_of_fmap in Hin as ([f' v''] & Heq & Hin). simplify_eq/=.
    apply Hf. apply list_elem_of_fmap. by exists (f', v'').
  - intros f' v' Hin. rewrite lookup_insert_ne.
    + apply (Hacc f' v'). by apply list_elem_of_further.
    + intros ->. apply Hf. apply list_elem_of_fmap. by exists (f', v').
Qed.

Lemma read_fields_decode (m : gmap string string) :
  read_fields (map_to_list (inl <$> m : gmap string (string + string))) ∅ = inl (decode m).
Proof.
  rewrite map_to_list_fmap.
  change (prod_map id (inl : string -> string + string) <$> map_to_list m)
    with (map (prod_map id (inl : string -> string + string)) (map_to_list m)).
  rewrite (map_ext _ (fun fv : string * string => (fv.1, inl fv.2))) by by intros [].
  rewrite (read_fields_map m) by (apply NoDup_fst_map_to_list || by intros; rewrite lookup_empty).
  f_equal. rewrite (right_id_L ∅ (∪)). unfold decode.
  rewrite <- (list_to_map_to_list ((fun v => String.eqb v "1") <$> m)), map_to_list_fmap.
  done.
Qed.

Lemma decode_saved (m : results) :
  decode (list_to_map (map field_value (map_to_list m))) = m.
Proof.
  unfold decode. rewrite <- list_to_map_fmap. rewrite <- (list_to_map_to_list m) at 2. f_equal.
  change (map (prod_map id (fun v => String.eqb v "1")) (map field_value (map_to_list m)) = map_to_list m).
  rewrite map_map. rewrite <- (map_id (map_to_list m)) at 2. apply map_ext. by intros [e []].
Qed.

(** ** Properties *)

(** C12: refinement: over any client whose replies show visible fields only,
    [RuleMatchingCache] keeps the contract of [CacheStore], whatever its
    expiry, its jitter and its client-side cache: it never panics, invents no
    entry, and makes visible at most the batch it is given, under the token it
    is given for, also when it reports an error. *)
Theorem valkey_implements_CacheStore {S G : Type} `{Client S}
    (visible : S -> string -> gmap string string) `{!ClientLaws S visible}
    (Float64 : G -> spec_float * G) oor r :
  @CacheStoreLaws (vstate S G) (Valkey_Store Float64 oor r)
    (fun c data => decode (visible (client c) (matchKey data))).
Proof. apply Valkey_Laws. apply _. Qed.

(** C31: round trip: what [SaveMatches] stores, [GetMatches] reads back, over
    what was stored before; the results of other tokens are not touched. *)
Theorem save_then_get {G : Type} (Float64 : G -> spec_float * G) oor r data m (c : vstate MemServer G) :
  exists c', ValkeySaveMatches Float64 oor r data m c = Some (None, c') /\
    (exists c2, ValkeyGetMatches Float64 oor r data c' =
       Some (inl (m ∪ decode (hash (client c) (matchKey data))), c2)) /\
    forall data', data' <> data -> exists c2, ValkeyGetMatches Float64 oor r data' c' =
       Some (inl (decode (hash (client c) (matchKey data'))), c2).
Proof.
  assert (Hget : forall data (c : vstate MemServer G), exists c2,
    ValkeyGetMatches Float64 oor r data c = Some (inl (decode (hash (client c) (matchKey data))), c2)).
  { intros d c0. unfold ValkeyGetMatches. destruct (negb _); simpl.
    - rewrite read_fields_decode. by eexists.
    - destruct (jitteredTTL _ _ _ _) as [ttl g]. simpl. rewrite read_fields_decode. by eexists. }
  unfold ValkeySaveMatches. case_decide as Hm.
  { apply map_size_empty_inv in Hm as ->. exists c. split; [done|]. rewrite (left_id_L ∅ (∪)).
    split; [apply Hget|]. intros d _. apply Hget. }
  set (s' := <[matchKey data := list_to_map (map field_value (map_to_list m)) ∪
                hash (client c) (matchKey data)]> (client c)).
  assert (Hs : forall g, (exists c2, ValkeyGetMatches Float64 oor r data (mkV s' g) =
       Some (inl (m ∪ decode (hash (client c) (matchKey data))), c2)) /\
    forall data', data' <> data -> exists c2, ValkeyGetMatches Float64 oor r data' (mkV s' g) =
       Some (inl (decode (hash (client c) (matchKey data'))), c2)).
  { intros g. split.
    - destruct (Hget data (mkV s' g)) as [c2 ->]. exists c2. do 3 f_equal. simpl.
      unfold s'. unfold hash at 1. rewrite lookup_insert_eq. simpl.
      unfold decode. rewrite map_fmap_union. f_equal. apply decode_saved.
    - intros d Hd. destruct (Hget d (mkV s' g)) as [c2 ->]. exists c2. do 3 f_equal. simpl.
      unfold s', hash at 1. rewrite lookup_insert_ne; [done|]. by intros ?%matchKey_inj. }
  destruct (cacheTTL r =? 0).
  - eexists. split; [reflexivity|]. apply Hs.
  - destruct (expireSeconds _ _ _ _) as [secs g]. eexists. split; [reflexivity|]. apply Hs.
Qed.

(** C32: the expiry is never zero or negative, never above the end of the band
    [base * (1 + P)] unless that is below one second, and not below its start
    when the band holds a whole second. *)
Theorem expireSeconds_band {G : Type} (Float64 : G -> spec_float * G) oor r g :
  let secs := (expireSeconds Float64 oor r g).1 in
  let base := of_int (cacheTTL r) in
  let lower := int64_ceil oor (fdiv (fmul base (fsub (of_int 1) (jitterPct r))) (of_int Second)) in
  let upper := int64_floor oor (fdiv (fmul base (fadd (of_int 1) (jitterPct r))) (of_int Second)) in
  1 <= secs /\ secs <= Z.max 1 upper /\ (lower <= upper -> lower <= secs \/ upper < 1).
Proof.
  unfold expireSeconds. destruct (jitteredTTL _ _ _ _) as [ttl g']. cbn [fst].
  generalize (int64_round oor (Seconds ttl)). intros secs.
  match goal with |- context [int64_ceil ?o ?x] => generalize (int64_ceil o x) end. intros lower.
  match goal with |- context [int64_floor ?o ?x] => generalize (int64_floor o x) end. intros upper.
  destruct (Z.ltb_spec secs lower), (Z.ltb_spec upper lower), (Z.ltb_spec upper secs),
    (Z.ltb_spec lower 1), (Z.ltb_spec upper 1), (Z.ltb_spec secs 1); cbn zeta; lia.
Qed.

(** A generator that always draws the same number. *)
Definition draws (x : spec_float) : unit -> spec_float * unit := fun g => (x, g).

Definition no_jitter (seconds : Z) : RuleMatchingCache := mkCache (seconds * Second) (of_int 0) false.

Lemma no_jitter_checked oor x :
  forallb (fun n => (expireSeconds (draws x) oor (no_jitter (Z.of_nat n)) tt).1 =? Z.of_nat n)
    (List.seq 1 3600) = true.
Proof. vm_compute. reflexivity. Qed.

(** Without jitter the expiry sent is the configured number of seconds,
    for every whole number of seconds up to an hour. *)
Theorem expireSeconds_exact oor x (n : nat) (an_hour : (1 <= n <= 3600)%nat) :
  (expireSeconds (draws x) oor (no_jitter (Z.of_nat n)) tt).1 = Z.of_nat n.
Proof.
  pose proof (no_jitter_checked oor x) as H. rewrite forallb_forall in H.
  apply Z.eqb_eq, H, in_seq. lia.
Qed.

Lemma expireSeconds_exact_witness :
  (expireSeconds (draws (of_int 0)) (fun _ => 0) (no_jitter 60) tt).1 = 60.
Proof. apply (expireSeconds_exact (fun _ => 0) (of_int 0) 60). lia. Defined.

(** The fraction -0.2, as the nearest float64. *)
Definition minus_fifth : spec_float := dyadic (-3602879701896397) (-54).

(** A negative jitter percentage does not disable jitter for [EXPIRE]: the
    base expiry stays 100 s, as documented, but the band is reversed and the
    command is clamped down to 80 s. *)
Theorem negative_jitter oor x :
  let r := mkCache (100 * Second) minus_fifth false in
  (jitteredTTL (draws x) oor r tt).1 = 100 * Second /\
  (expireSeconds (draws x) oor r tt).1 = 80.
Proof. vm_compute. split; reflexivity. Qed.

Lemma valkey_implements_CacheStore_witness :
  @CacheStoreLaws (vstate MemServer unit)
    (Valkey_Store (draws (of_int 0)) (fun _ => 0) (no_jitter 60))
    (fun c data => decode (hash (client c) (matchKey data))).
Proof.
  exact (valkey_implements_CacheStore hash (draws (of_int 0)) (fun _ => 0) (no_jitter 60)).
Defined.
