(* ===== verification/SerialRunner.v ===== *)
(** * analyzer/serial_runner.go: rules evaluated in order, with a cache

    [Process] reads the cache once, classifies the rules, evaluates the missing
    entities through the coalescer and picks the first rule whose entity has a
    positive result.  What the coalescer does with one caller is its
    [flight] value: the caller leads the flight, shares the outcome of another
    leader, or is cancelled (Singleflight.v shows that these are the outcomes a
    flight can have).  [None] is a panic of the call, that of a matcher it
    calls: the coalescer does not recover it, and when it happens in a flight,
    which runs in a goroutine of the group, it ends the program. *)
From S2P Require Import Prelude Rules CacheStore ByteAnalyzer.

(** ** Data *)

(** [missingEvaluation]: an entity with the first rule claiming it. *)
Record missingEvaluation := mkMissing { mentity : Entity; mrule : Rule }.

Record ruleView := mkView {
  vrule : Rule;
  ventity : Entity;
  vcached : bool;
  vresult : bool;
  vexcepted : bool
}.

(** The store and the error messages logged by the runner. *)
Record env (C : Type) := mkEnv { cache : C; errors : list string }.
Arguments mkEnv {C}.
Arguments cache {C}.
Arguments errors {C}.

Definition log_error {C} (msg : string) (e : env C) : env C := mkEnv (cache e) (errors e ++ [msg]).

(** What [doToken] makes of one caller.  A cancelled caller may be the leader
    of a flight that goes on without it. *)
Variant flight :=
| Lead
| Shared (shared : results) (err : option string)
| Cancelled (err : string) (leading : bool).

(** ** Classification *)

Fixpoint classifyRules_loop (rules : list Rule) (data : bytes) (cached : results)
    (views : list ruleView) (missing : list missingEvaluation) (queued : gset Entity)
    : option (list ruleView * list missingEvaluation) :=
  match rules with
  | [] => Some (views, missing)
  | rule :: rules' =>
      if Disable rule then classifyRules_loop rules' data cached views missing queued
      else
        let view := mkView rule (entity rule) in
        match cached !! entity rule with
        | Some result =>
            classifyRules_loop rules' data cached
              (views ++ [view true result false]) missing queued
        | None =>
            excepted ← isException data (Exceptions rule);
            if (excepted : bool)
            then classifyRules_loop rules' data cached
                   (views ++ [view false false true]) missing queued
            else if decide (entity rule ∈ queued)
            then classifyRules_loop rules' data cached
                   (views ++ [view false false false]) missing queued
            else classifyRules_loop rules' data cached
                   (views ++ [view false false false])
                   (missing ++ [mkMissing (entity rule) rule])
                   ({[entity rule]} ∪ queued)
        end
  end.

Definition classifyRules (rules : list Rule) (data : bytes) (cached : results)
    : option (list ruleView * list missingEvaluation) :=
  classifyRules_loop rules data cached [] [] ∅.

(** ** Evaluation *)

Fixpoint matchMissing_loop (data : bytes) (missing : list missingEvaluation) (res : results)
    : option results :=
  match missing with
  | [] => Some res
  | m :: missing' =>
      matched ← Match (RMatcher (mrule m)) data;
      matchMissing_loop data missing' (<[mentity m := matched]> res)
  end.

Definition matchMissing (data : bytes) (missing : list missingEvaluation) : option results :=
  matchMissing_loop data missing ∅.

Definition negatives (res : results) : results := filter (fun kv => kv.2 = false) res.

Section WithStore.
Context {C : Type} `{CacheStore C}.

Definition saveNegatives (data : bytes) (res : results) (e : env C)
    : option (option string * env C) :=
  if decide (size (negatives res) = 0%nat) then Some (None, e)
  else '(err, c) ← SaveMatches data (negatives res) (cache e);
       Some (err, mkEnv c (errors e)).

(** The closure given to [doToken]: evaluate and persist the negatives. *)
Definition leaderPath (data : bytes) (missing : list missingEvaluation) (e : env C)
    : option (results * option string * env C) :=
  res ← matchMissing data missing;
  '(err, e) ← saveNegatives data res e;
  Some (res, err, e).

(** [doToken] of [disabledSingleflightCoalescer]. *)
Definition disabledDoToken (fn : env C -> option (results * option string * env C)) (e : env C)
    : option (option results * option string * env C) :=
  '(res, err, e) ← fn e; Some (Some res, err, e).

(** [s.coalescer.doToken(ctx, tokenFlightKey(data), fn)], a caller that leads
    having what it would have without coalescing: [None] results are the nil map
    of a cancelled caller. *)
Definition doToken (f : flight) (fn : env C -> option (results * option string * env C))
    (e : env C) : option (option results * option string * env C) :=
  match f with
  | Lead => disabledDoToken fn e
  | Shared res err => Some (Some res, err, e)
  | Cancelled err leading =>
      if leading then '(_, _, e) ← fn e; Some (None, Some err, e)
      else Some (None, Some err, e)
  end.

Definition log_opt (err : option string) (e : env C) : env C :=
  match err with Some msg => log_error msg e | None => e end.

Definition residual (missing : list missingEvaluation) (res : results)
    : list missingEvaluation :=
  List.filter (fun m => bool_decide (res !! mentity m = None)) missing.

Definition evaluateMissing (f : flight) (data : bytes) (missing : list missingEvaluation)
    (e : env C) : option (results * env C) :=
  '(res, flightErr, e) ← doToken f (leaderPath data missing) e;
  match res with
  | None => Some (∅, log_opt flightErr e)
  | Some res =>
      let e := log_opt flightErr e in
      let rest := residual missing res in
      if blen rest =? 0 then Some (res, e)
      else
        residualResults ← matchMissing data rest;
        '(saveErr, e) ← saveNegatives data residualResults e;
        Some (residualResults ∪ res, log_opt saveErr e)
  end.

(** The final in-order pass. *)
Fixpoint pick (views : list ruleView) (evaluated : results) : option Rule :=
  match views with
  | [] => None
  | view :: views' =>
      if vcached view then
        if vresult view then Some (vrule view) else pick views' evaluated
      else if vexcepted view then pick views' evaluated
      else if default false (evaluated !! ventity view) then Some (vrule view)
      else pick views' evaluated
  end.

Definition SerialProcess (f : flight) (rules : list Rule) (data : bytes) (e : env C)
    : option (option Rule * env C) :=
  '(got, c) ← GetMatches data (cache e);
  let '(cached, e) :=
    match got with
    | inl cached => (cached, mkEnv c (errors e))
    | inr err => (∅, log_error err (mkEnv c (errors e)))
    end in
  '(views, missing) ← classifyRules rules data cached;
  '(evaluated, e) ← (if 0 <? blen missing then evaluateMissing f data missing e
                     else Some (∅, e));
  Some (pick views evaluated, e).

(** The two parts of [Process] between which other calls may use the store:
    the read, and the rest, which saves once at most. *)
Definition readCache (data : bytes) (e : env C) : option (results * env C) :=
  '(got, c) ← GetMatches data (cache e);
  Some match got with
       | inl cached => (cached, mkEnv c (errors e))
       | inr err => (∅, log_error err (mkEnv c (errors e)))
       end.

Definition SerialAnswer (f : flight) (rules : list Rule) (data : bytes) (cached : results) (e : env C)
    : option (option Rule * env C) :=
  '(views, missing) ← classifyRules rules data cached;
  '(evaluated, e) ← (if 0 <? blen missing then evaluateMissing f data missing e
                     else Some (∅, e));
  Some (pick views evaluated, e).

Lemma SerialProcess_parts f rules data e :
  SerialProcess f rules data e = '(cached, e) ← readCache data e; SerialAnswer f rules data cached e.
Proof. unfold SerialProcess, readCache. by destruct (GetMatches data (cache e)) as [[[] ]|]. Qed.

(** The entries read. *)
Definition cached_of (data : bytes) (e : env C) : results :=
  match GetMatches data (cache e) with Some (inl m, _) => m | _ => ∅ end.

Lemma cached_of_read data (e : env C) cached e1 :
  readCache data e = Some (cached, e1) -> cached_of data e = cached.
Proof. unfold cached_of, readCache. destruct (GetMatches data (cache e)) as [[[] ]|]; by intros; simplify_eq/=. Qed.
End WithStore.

(** ** Specification *)

(** The rules that take part in the evaluation of a token. *)
Definition eligible (data : bytes) (r : Rule) : bool :=
  negb (Disable r) && negb (excepted data (Exceptions r)).

(** The outcome of an entity: that of the first eligible rule claiming it. *)
Definition entity_outcome (rules : list Rule) (data : bytes) (e : Entity) : bool :=
  match List.find (fun r => eligible data r && bool_decide (entity r = e)) rules with
  | Some r => matches r data
  | None => false
  end.

(** The first eligible rule whose entity has a positive outcome. *)
Definition first_by_entity (rules : list Rule) (data : bytes) : option Rule :=
  List.find (fun r => eligible data r && entity_outcome rules data (entity r)) rules.

(** Eligible rules that claim the same entity agree on the token. *)
Definition coherent (rules : list Rule) (data : bytes) : Prop :=
  forall r1 r2, r1 ∈ rules -> r2 ∈ rules ->
    eligible data r1 = true -> eligible data r2 = true -> entity r1 = entity r2 ->
    matches r1 data = matches r2 data.

(** A rule that takes part in the evaluation claims the entity. *)
Definition claimed (rules : list Rule) (data : bytes) (e : Entity) : Prop :=
  exists r, r ∈ rules /\ eligible data r = true /\ entity r = e.

(** Results that hold for the rules, on the entities they claim: what another
    flight may share. *)
Definition truthful (rules : list Rule) (data : bytes) (res : results) : Prop :=
  forall e v, res !! e = Some v -> claimed rules data e -> v = entity_outcome rules data e.

(** Results a store may hold: negative and true. *)
Definition sound_negatives (rules : list Rule) (data : bytes) (res : results) : Prop :=
  forall e v, res !! e = Some v -> v = false /\ entity_outcome rules data e = false.

(** A flight that serves its caller. *)
Definition flight_ok (rules : list Rule) (data : bytes) (f : flight) : Prop :=
  match f with
  | Lead => True
  | Shared res _ => truthful rules data res
  | Cancelled _ _ => False
  end.

(** The same of a flight that may leave its caller without results. *)
Definition honest (rules : list Rule) (data : bytes) (f : flight) : Prop :=
  match f with Shared res _ => truthful rules data res | _ => True end.

(** A store that counts the calls made to it. *)
Record counted (C : Type) := mkCounted { inner : C; reads : nat; saves : nat }.
Arguments mkCounted {C}.
Arguments inner {C}.
Arguments reads {C}.
Arguments saves {C}.

#[export] Instance counted_Store {C} `{CacheStore C} : CacheStore (counted C) := {
  GetMatches data c :=
    '(got, c') ← GetMatches data (inner c); Some (got, mkCounted c' (S (reads c)) (saves c));
  SaveMatches data m c :=
    '(err, c') ← SaveMatches data m (inner c); Some (err, mkCounted c' (reads c) (S (saves c)))
}.

(** ** The classification of the rules *)

Section Classification.
Context (data : bytes) (cached : results).

Definition view_of (r : Rule) : ruleView :=
  match cached !! entity r with
  | Some v => mkView r (entity r) true v false
  | None => mkView r (entity r) false false (excepted data (Exceptions r))
  end.

(** The exceptions of the rule, if they are looked at, do not panic. *)
Definition classifiable (r : Rule) : bool :=
  Disable r || bool_decide (is_Some (cached !! entity r)) || bool_decide (is_Some (isException data (Exceptions r))).

(** The entities queued by [classifyRules_loop]. *)
Fixpoint queue (rules : list Rule) (queued : gset Entity) : list missingEvaluation :=
  match rules with
  | [] => []
  | r :: rules' =>
      if eligible data r && bool_decide (cached !! entity r = None)
           && bool_decide (entity r ∉ queued)
      then mkMissing (entity r) r :: queue rules' ({[entity r]} ∪ queued)
      else queue rules' queued
  end.

Lemma classifyRules_loop_eq rules : forall V M Q,
  classifyRules_loop rules data cached V M Q =
    if forallb classifiable rules
    then Some (V ++ map view_of (List.filter (fun r => negb (Disable r)) rules), M ++ queue rules Q)
    else None.
Proof.
  induction rules as [|r rules IH]; intros V M Q; simpl; [by rewrite !app_nil_r|].
  unfold eligible, classifiable at 1. destruct (Disable r); simpl; [apply IH|].
  unfold view_of at 1. destruct (cached !! entity r) as [v|] eqn:Hc.
  { rewrite IH, <- app_assoc. by destruct (excepted data (Exceptions r)). }
  simpl. destruct (isException data (Exceptions r)) as [b|] eqn:He; simpl.
  2: done.
  rewrite (isException_excepted _ _ _ He). simpl.
  destruct b; simpl; [by rewrite IH, <- app_assoc|].
  destruct (decide (entity r ∈ Q)).
  - rewrite bool_decide_eq_false_2 by tauto. by rewrite IH, <- app_assoc.
  - rewrite bool_decide_eq_true_2 by done. by rewrite IH, <- !app_assoc.
Qed.

Lemma classifyRules_eq rules :
  classifyRules rules data cached =
    if forallb classifiable rules
    then Some (map view_of (List.filter (fun r => negb (Disable r)) rules), queue rules ∅)
    else None.
Proof. unfold classifyRules. by rewrite classifyRules_loop_eq. Qed.

Lemma exceptions_classifiable rules : exceptions_return data rules -> forallb classifiable rules = true.
Proof.
  intros He. apply forallb_iff, Forall_forall. intros r Hr. unfold classifiable.
  destruct (Disable r) eqn:Hd; [done|]. rewrite (bool_decide_eq_true_2 (is_Some (isException _ _))) by auto.
  by rewrite !orb_true_r.
Qed.

Definition claims (e : Entity) (r : Rule) : bool := eligible data r && bool_decide (entity r = e).

Lemma claims_other e r : entity r <> e -> claims e r = false.
Proof. intros H. unfold claims. rewrite (bool_decide_eq_false_2 _ H). apply andb_false_r. Qed.

(** A queued entity is not cached, and is queued with the first rule claiming it. *)
Lemma queue_first rules : forall Q m, m ∈ queue rules Q ->
  cached !! mentity m = None /\ (mentity m ∉ Q) /\
  List.find (claims (mentity m)) rules = Some (mrule m).
Proof.
  induction rules as [|r rules IH]; intros Q m Hm; simpl in *; [by apply not_elem_of_nil in Hm|].
  destruct (eligible data r) eqn:He; simpl in Hm.
  2:{ apply IH in Hm as (?&?&?). unfold claims at 1. rewrite He. done. }
  case_bool_decide as Hc; simpl in Hm; [case_bool_decide as HQ|].
  - apply elem_of_cons in Hm as [->|Hm].
    + simpl. unfold claims. rewrite He, bool_decide_eq_true_2 by done. done.
    + apply IH in Hm as (?&?&?). rewrite claims_other by set_solver. split_and!; set_solver.
  - apply IH in Hm as (?&?&?). rewrite claims_other; [done|]. intros Heq. rewrite Heq in *. tauto.
  - apply IH in Hm as (?&?&?). rewrite claims_other; [done|]. intros Heq. rewrite Heq in *. done.
Qed.

Lemma queue_complete rules : forall Q r, r ∈ rules -> eligible data r = true ->
  cached !! entity r = None -> entity r ∉ Q ->
  exists m, m ∈ queue rules Q /\ mentity m = entity r.
Proof.
  induction rules as [|r0 rules IH]; intros Q r Hr He Hc HQ; [by apply not_elem_of_nil in Hr|].
  simpl. destruct (eligible data r0 && _ && _) eqn:Hq.
  - destruct (decide (entity r = entity r0)) as [Heq|Hne].
    { eexists. split; [by apply list_elem_of_here|done]. }
    apply elem_of_cons in Hr as [->|Hr]; [done|].
    destruct (IH ({[entity r0]} ∪ Q) r) as (m & Hm & ?); [done..|set_solver|].
    exists m. split; [by apply list_elem_of_further|done].
  - apply elem_of_cons in Hr as [->|Hr]; [|by eauto].
    rewrite He, !bool_decide_eq_true_2 in Hq by done. done.
Qed.

(** The final pass returns the first enabled rule with a positive outcome. *)
Definition hit (evaluated : results) (r : Rule) : bool :=
  negb (Disable r) &&
  match cached !! entity r with
  | Some v => v
  | None => negb (excepted data (Exceptions r)) && default false (evaluated !! entity r)
  end.

Lemma pick_find evaluated rules :
  pick (map view_of (List.filter (fun r => negb (Disable r)) rules)) evaluated =
    List.find (hit evaluated) rules.
Proof.
  induction rules as [|r rules IH]; simpl; [done|].
  unfold hit at 1. destruct (Disable r); simpl; [done|]. rewrite IH.
  unfold view_of. destruct (cached !! entity r) as [[]|]; simpl; [done..|].
  destruct (excepted data (Exceptions r)); simpl; done.
Qed.
End Classification.

(** ** Evaluations *)

Definition evaluates (rules : list Rule) (data : bytes) (m : missingEvaluation) : Prop :=
  matches (mrule m) data = entity_outcome rules data (mentity m).

Lemma queue_evaluates data cached rules :
  Forall (evaluates rules data) (queue data cached rules ∅).
Proof.
  apply Forall_forall. intros m (_ & _ & Hf)%queue_first.
  unfold evaluates, entity_outcome. unfold claims in Hf. by rewrite Hf.
Qed.

(** The results of an evaluation in which no matcher panics. *)
Fixpoint outcomes_loop (data : bytes) (missing : list missingEvaluation) (res : results) : results :=
  match missing with
  | [] => res
  | m :: missing' => outcomes_loop data missing' (<[mentity m := matches (mrule m) data]> res)
  end.

Definition outcomes (data : bytes) (missing : list missingEvaluation) : results :=
  outcomes_loop data missing ∅.

Definition evaluable (data : bytes) (m : missingEvaluation) : bool :=
  bool_decide (is_Some (Match (RMatcher (mrule m)) data)).

Lemma matchMissing_eq data missing :
  matchMissing data missing = if forallb (evaluable data) missing then Some (outcomes data missing) else None.
Proof.
  unfold matchMissing, outcomes. generalize (∅ : results). induction missing as [|m missing IH]; intros res; simpl; [done|].
  unfold evaluable at 1, matches at 1. destruct (Match (RMatcher (mrule m)) data) as [b|]; simpl.
  - by rewrite IH.
  - done.
Qed.

Lemma evaluable_Some data m : evaluable data m = true ->
  Match (RMatcher (mrule m)) data = Some (matches (mrule m) data).
Proof. unfold evaluable, matches. intros [b ->]%bool_decide_eq_true. done. Qed.

(** The entities that wait for evaluation belong to enabled rules. *)
Lemma queue_evaluable data cached rules : matchers_return data rules ->
  forallb (evaluable data) (queue data cached rules ∅) = true.
Proof.
  intros Hm. apply forallb_iff, Forall_forall. intros m (_ & _ & Hf)%queue_first.
  apply List.find_some in Hf as [Hin Hc]. unfold claims, eligible in Hc. bsplit.
  apply bool_decide_eq_true. apply Hm; [by apply list_elem_of_In|done].
Qed.

Lemma outcomes_loop_truthful rules data missing : forall acc,
  Forall (evaluates rules data) missing -> truthful rules data acc ->
  truthful rules data (outcomes_loop data missing acc).
Proof.
  induction missing as [|m missing IH]; intros acc Hm Hacc; simpl; [done|].
  apply Forall_cons in Hm as [Hm Hms]. apply IH; [done|].
  intros e v [[<- <-]|[_ ?]]%lookup_insert_Some Hc; [done|by apply Hacc].
Qed.

Lemma outcomes_loop_dom data missing : forall acc e,
  is_Some (outcomes_loop data missing acc !! e) <->
    (exists m, m ∈ missing /\ mentity m = e) \/ is_Some (acc !! e).
Proof.
  induction missing as [|m missing IH]; intros acc e; simpl.
  - set_solver.
  - rewrite IH, lookup_insert_is_Some'. set_solver.
Qed.

Lemma outcomes_truthful rules data missing :
  Forall (evaluates rules data) missing -> truthful rules data (outcomes data missing).
Proof. intros H. apply outcomes_loop_truthful; [done|]. intros e v. by rewrite lookup_empty. Qed.

Lemma outcomes_dom data missing e :
  is_Some (outcomes data missing !! e) <-> exists m, m ∈ missing /\ mentity m = e.
Proof.
  unfold outcomes. rewrite outcomes_loop_dom, lookup_empty, is_Some_alt. tauto.
Qed.

(** The result of an evaluation is that of one of the rules evaluated. *)
Definition outcome_of (data : bytes) (missing : list missingEvaluation) (e : Entity) (v : bool) : Prop :=
  exists m, m ∈ missing /\ mentity m = e /\ Match (RMatcher (mrule m)) data = Some v.

Lemma outcomes_outcome data missing e v : forallb (evaluable data) missing = true ->
  outcomes data missing !! e = Some v -> outcome_of data missing e v.
Proof.
  unfold outcomes. enough (forall acc, forallb (evaluable data) missing = true ->
    outcomes_loop data missing acc !! e = Some v -> outcome_of data missing e v \/ acc !! e = Some v) as Hloop.
  { intros Hm Hv. destruct (Hloop ∅ Hm Hv) as [?|Hv']; [done|]. by rewrite lookup_empty in Hv'. }
  induction missing as [|m missing IH]; intros acc Hm Hv; simpl in *; [by right|]. bsplit.
  apply IH in Hv as [(m' & ? & ?)|[[<- <-]|[_ ?]]%lookup_insert_Some]; [| |by right|done].
  - left. exists m'. split; [by apply list_elem_of_further|done].
  - left. exists m. split_and!; [by apply list_elem_of_here|done|by apply evaluable_Some].
Qed.

Lemma truthful_union rules data m1 m2 :
  truthful rules data m1 -> truthful rules data m2 -> truthful rules data (m1 ∪ m2).
Proof. intros H1 H2 e v [?|[_ ?]]%lookup_union_Some_raw Hc; eauto. Qed.

Lemma elem_of_residual missing res m :
  m ∈ residual missing res <-> m ∈ missing /\ res !! mentity m = None.
Proof.
  unfold residual. rewrite list_elem_of_In, filter_In, bool_decide_eq_true, <- list_elem_of_In. done.
Qed.

Lemma residual_self data missing : residual missing (outcomes data missing) = [].
Proof.
  destruct (residual missing (outcomes data missing)) as [|m ms] eqn:Hr; [done|].
  assert (m ∈ residual missing (outcomes data missing)) as Hm by (rewrite Hr; set_solver).
  apply elem_of_residual in Hm as [Hm Hn].
  destruct (proj2 (outcomes_dom data missing (mentity m))) as [v Hv]; [by exists m|].
  by rewrite Hv in Hn.
Qed.

(** ** Evaluation against a lawful store *)

Lemma residual_evaluable data missing res : forallb (evaluable data) missing = true ->
  forallb (evaluable data) (residual missing res) = true.
Proof.
  rewrite !forallb_iff. intros Hm. apply Forall_forall. intros m [Hin _]%elem_of_residual.
  rewrite Forall_forall in Hm. by apply Hm.
Qed.

Lemma negatives_Some res e v : negatives res !! e = Some v <-> res !! e = Some v /\ v = false.
Proof. unfold negatives. by rewrite map_lookup_filter_Some. Qed.

Section Store.
Context {C : Type} (view : C -> bytes -> results) `{CacheStoreLaws C view}.

(** Every entry of [c'] is an entry of [c] or a negative result of [data]
    with the property [P]. *)
Definition extends (P : Entity -> Prop) (data : bytes) (c c' : C) : Prop :=
  forall data' e v, view c' data' !! e = Some v ->
    view c data' !! e = Some v \/ (data' = data /\ v = false /\ P e).

Lemma extends_refl P data c : extends P data c c.
Proof. intros data' e v Hv. by left. Qed.

Lemma extends_trans P data c1 c2 c3 :
  extends P data c1 c2 -> extends P data c2 c3 -> extends P data c1 c3.
Proof. intros H1 H2 data' e v [Hv|?]%H2; [by apply H1|by right]. Qed.

Lemma extends_weaken (P Q : Entity -> Prop) data c c' :
  (forall e, P e -> Q e) -> extends P data c c' -> extends Q data c c'.
Proof. intros HPQ He data' e v [?|(?&?&?)]%He; auto. Qed.

Lemma saveNegatives_extends data res (e : env C) :
  exists err e', saveNegatives data res e = Some (err, e') /\
    extends (fun ent => res !! ent = Some false) data (cache e) (cache e').
Proof.
  unfold saveNegatives. case_decide as Hs; [exists None, e; split; [done|apply extends_refl]|].
  destruct (save_total (view:=view) data (negatives res) (cache e)) as [[err c] Hc]. rewrite Hc.
  eexists _, _. split; [done|]. intros data' ent v Hv. simpl in Hv.
  destruct (save_sound data _ _ _ _ Hc data' ent v Hv) as [?|[-> [Hr ->]%negatives_Some]]; auto.
Qed.

Lemma saveNegatives_spec data missing (e : env C) : forallb (evaluable data) missing = true ->
  exists err e', saveNegatives data (outcomes data missing) e = Some (err, e') /\
    extends (fun ent => outcome_of data missing ent false) data (cache e) (cache e').
Proof.
  intros Hm. destruct (saveNegatives_extends data (outcomes data missing) e) as (err & e' & -> & He).
  exists err, e'. split; [done|]. eapply extends_weaken; [|exact He].
  intros ent. by apply outcomes_outcome.
Qed.

Lemma cache_log_opt err (e : env C) : cache (log_opt err e) = cache e.
Proof. by destruct err. Qed.

(** What the flight makes the program evaluate. *)
Definition evaluated_in (f : flight) (missing : list missingEvaluation) : list missingEvaluation :=
  match f with
  | Lead | Cancelled _ true => missing
  | Shared shared _ => residual missing shared
  | Cancelled _ false => []
  end.

Definition results_in (f : flight) (data : bytes) (missing : list missingEvaluation) : results :=
  match f with
  | Lead => outcomes data missing
  | Shared shared _ => outcomes data (residual missing shared) ∪ shared
  | Cancelled _ _ => ∅
  end.

(** The evaluation of the missing entities in the three kinds of flight. *)
Lemma evaluateMissing_spec f data missing (e : env C) :
  if forallb (evaluable data) (evaluated_in f missing)
  then exists e', evaluateMissing f data missing e = Some (results_in f data missing, e') /\
    extends (fun ent => outcome_of data missing ent false) data (cache e) (cache e')
  else evaluateMissing f data missing e = None.
Proof.
  unfold evaluateMissing, doToken, disabledDoToken, leaderPath.
  destruct f as [|shared err|err [|]]; unfold evaluated_in, results_in; rewrite ?matchMissing_eq.
  - destruct (forallb _ _) eqn:Hm; [|done].
    destruct (saveNegatives_spec data missing e Hm) as (err & e' & He' & He). simpl. rewrite He'. simpl.
    rewrite residual_self. eexists. by rewrite cache_log_opt.
  - cbn [mbind option_bind]. destruct (residual missing shared) as [|m ms] eqn:Hr.
    { eexists. rewrite cache_log_opt. unfold outcomes. simpl. rewrite (left_id_L ∅ (∪)).
      split; [done|apply extends_refl]. }
    rewrite <- Hr. assert ((blen (residual missing shared) =? 0) = false) as ->.
    { apply Z.eqb_neq. rewrite Hr, blen_cons. pose proof (blen_nonneg ms). lia. }
    rewrite matchMissing_eq. destruct (forallb _ (residual _ _)) eqn:Hm; [|done].
    destruct (saveNegatives_spec data (residual missing shared) (log_opt err e) Hm)
      as (err' & e' & He' & He). simpl. rewrite He'. simpl.
    eexists. rewrite cache_log_opt. split; [done|].
    rewrite cache_log_opt in He. eapply extends_weaken; [|exact He].
    intros ent (m' & [??]%elem_of_residual & ?). by exists m'.
  - destruct (forallb _ _) eqn:Hm; [|done].
    destruct (saveNegatives_spec data missing e Hm) as (err' & e' & He' & He). simpl. rewrite He'. simpl.
    by exists (log_error err e').
  - simpl. exists (log_error err e). split; [done|apply extends_refl].
Qed.

(** The read. *)
Lemma readCache_spec data (e : env C) :
  exists cached e1, readCache data e = Some (cached, e1) /\ cached ⊆ view (cache e) data /\
    forall data', view (cache e1) data' ⊆ view (cache e) data'.
Proof.
  unfold readCache. destruct (get_total (view:=view) data (cache e)) as [[got c] Hg]. rewrite Hg.
  destruct got as [cached|err]; eexists _, _; (split; [done|]); simpl; (split; [|by eapply get_keeps]).
  - by eapply get_sound.
  - apply map_empty_subseteq.
Qed.

(** The matchers that a call calls do not panic, the entries read being [cached]. *)
Definition returns (f : flight) (rules : list Rule) (data : bytes) (cached : results) : bool :=
  forallb (classifiable data cached) rules &&
  forallb (evaluable data) (evaluated_in f (queue data cached rules ∅)).

(** What [Process] answers, given the entries read. *)
Lemma SerialAnswer_spec f rules data cached (e : env C) :
  if returns f rules data cached
  then exists e', SerialAnswer f rules data cached e =
      Some (List.find (hit data cached (results_in f data (queue data cached rules ∅))) rules, e') /\
    extends (fun ent => outcome_of data (queue data cached rules ∅) ent false) data
      (cache e) (cache e')
  else SerialAnswer f rules data cached e = None.
Proof.
  unfold SerialAnswer, returns. rewrite classifyRules_eq. destruct (forallb (classifiable _ _) _); [|done].
  cbn [mbind option_bind andb].
  pose proof (evaluateMissing_spec f data (queue data cached rules ∅) e) as Hev.
  destruct (Z.ltb_spec 0 (blen (queue data cached rules ∅))) as [Hpos|Hzero].
  - destruct (forallb (evaluable data) _); [|by rewrite Hev].
    destruct Hev as (e' & -> & Hext). exists e'. cbn [mbind option_bind]. by rewrite pick_find.
  - assert (queue data cached rules ∅ = []) as Hq.
    { apply blen_zero. pose proof (blen_nonneg (queue data cached rules ∅)). lia. }
    assert (forallb (evaluable data) (evaluated_in f (queue data cached rules ∅)) = true) as ->
      by (rewrite Hq; by destruct f as [| |? []]).
    exists e. cbn [mbind option_bind]. rewrite pick_find. split; [|apply extends_refl]. do 2 f_equal. apply find_ext. intros r Hr.
    unfold hit. destruct (Disable r) eqn:Hd; [done|]. destruct (cached !! entity r) as [v|] eqn:Hc; [done|].
    destruct (excepted data (Exceptions r)) eqn:He; [done|]. exfalso.
    destruct (queue_complete data cached rules ∅ r) as (m & Hm & _); [done| |done|set_solver|].
    + unfold eligible. by rewrite Hd, He.
    + rewrite Hq in Hm. by apply not_elem_of_nil in Hm.
Qed.

(** One call of [Process]. *)
Lemma SerialProcess_spec f rules data (e : env C) :
  cached_of data e ⊆ view (cache e) data /\
  if returns f rules data (cached_of data e)
  then exists e', SerialProcess f rules data e =
      Some (List.find (hit data (cached_of data e)
        (results_in f data (queue data (cached_of data e) rules ∅))) rules, e') /\
    extends (fun ent => outcome_of data (queue data (cached_of data e) rules ∅) ent false) data
      (cache e) (cache e')
  else SerialProcess f rules data e = None.
Proof.
  destruct (readCache_spec data e) as (cached & e1 & Hr & Hsub & Hkeep).
  rewrite (cached_of_read data e cached e1 Hr), SerialProcess_parts, Hr. split; [done|].
  pose proof (SerialAnswer_spec f rules data cached e1) as Ha. cbn [mbind option_bind].
  destruct (returns _ _ _ _); [|done]. destruct Ha as (e' & -> & Hext). exists e'. split; [done|].
  intros data' ent v [Hv|?]%Hext; [left|by right]. by eapply lookup_weaken.
Qed.
End Store.

(** ** The verdict *)

Lemma hit_outcome rules data cached evaluated r :
  sound_negatives rules data cached -> truthful rules data evaluated ->
  (forall m, m ∈ queue data cached rules ∅ -> is_Some (evaluated !! mentity m)) ->
  r ∈ rules ->
  hit data cached evaluated r = eligible data r && entity_outcome rules data (entity r).
Proof.
  intros Hc Ht Hm Hr. unfold hit, eligible.
  destruct (Disable r) eqn:Hd; simpl; [done|].
  destruct (cached !! entity r) as [v|] eqn:Hv.
  { destruct (Hc _ _ Hv) as [-> ->]. by rewrite andb_false_r. }
  destruct (excepted data (Exceptions r)) eqn:He; simpl; [done|].
  destruct (queue_complete data cached rules ∅ r) as (m & Hin & Hme); [done| |done|set_solver|].
  { unfold eligible. by rewrite Hd, He. }
  destruct (Hm m Hin) as [v Hv']. rewrite Hme in Hv'. rewrite Hv'. apply Ht; [done|].
  exists r. unfold eligible. by rewrite Hd, He.
Qed.

(** The results of a flight are true, and none is missing. *)
Lemma results_in_ok f rules data cached :
  flight_ok rules data f ->
  let missing := queue data cached rules ∅ in
  truthful rules data (results_in f data missing) /\
  forall m, m ∈ missing -> is_Some (results_in f data missing !! mentity m).
Proof.
  intros Hf missing. pose proof (queue_evaluates data cached rules) as Hq. fold missing in Hq.
  destruct f as [|shared err|]; simpl in *; [| |done].
  - split; [by apply outcomes_truthful|]. intros m Hm. apply outcomes_dom. by exists m.
  - split.
    + apply truthful_union; [|done]. apply outcomes_truthful. apply Forall_forall.
      intros m [Hm _]%elem_of_residual. rewrite Forall_forall in Hq. by apply Hq.
    + intros m Hm. destruct (shared !! mentity m) as [v|] eqn:Hs.
      * apply lookup_union_is_Some. right. by rewrite Hs.
      * apply lookup_union_is_Some. left. apply outcomes_dom. exists m.
        by rewrite elem_of_residual.
Qed.

Lemma returns_all f rules data cached :
  matchers_return data rules -> exceptions_return data rules -> returns f rules data cached = true.
Proof.
  intros Hm He. unfold returns. rewrite exceptions_classifiable by done.
  pose proof (queue_evaluable data cached rules Hm) as Hq.
  destruct f as [|shared err|err []]; simpl; [done| |done|done]. by apply residual_evaluable.
Qed.

Lemma panic_free_returns f rules data cached : panic_free rules -> returns f rules data cached = true.
Proof. intros Hp. destruct (Hp data). by apply returns_all. Qed.

(** A matcher of an enabled rule panics on the token, or one of an exception. *)
Definition may_panic (rules : list Rule) (data : bytes) : Prop :=
  exists r, r ∈ rules /\ Disable r = false /\
    (Match (RMatcher r) data = None \/ isException data (Exceptions r) = None).

Lemma returns_false f rules data cached : returns f rules data cached = false -> may_panic rules data.
Proof.
  unfold returns. intros [Hx|Hx]%andb_false_iff; apply forallb_false_iff in Hx as (x & Hx & Hno).
  - exists x. unfold classifiable in Hno. apply orb_false_iff in Hno as [[? _]%orb_false_iff Hno].
    split_and!; [done..|right]. by apply eq_None_not_Some; apply bool_decide_eq_false in Hno.
  - assert (Hq : x ∈ queue data cached rules ∅).
    { destruct f as [|shared err|err []]; simpl in Hx; [done|by apply elem_of_residual in Hx as [? _]|done|].
      by apply not_elem_of_nil in Hx. }
    apply queue_first in Hq as (_ & _ & Hf). apply List.find_some in Hf as [Hin Hc].
    unfold claims, eligible in Hc. bsplit. exists (mrule x).
    split_and!; [by apply list_elem_of_In|done|left]. by apply eq_None_not_Some; apply bool_decide_eq_false in Hno.
Qed.

(** The store keeps only true negatives of the rules. *)
Definition sound {C} (view : C -> bytes -> results) (rules : list Rule) (c : C) : Prop :=
  forall data, sound_negatives rules data (view c data).

Lemma first_by_entity_in rules data r : first_by_entity rules data = Some r -> r ∈ rules.
Proof. unfold first_by_entity. intros [Hin _]%List.find_some. by apply list_elem_of_In. Qed.

Section Verdict.
Context {C : Type} (view : C -> bytes -> results) `{CacheStoreLaws C view}.

Lemma extends_sound rules data cached c c' :
  extends view (fun ent => outcome_of data (queue data cached rules ∅) ent false) data c c' ->
  sound view rules c -> sound view rules c'.
Proof.
  intros He Hs data' e v Hv. apply He in Hv as [Hv|(-> & -> & (m & Hm & <- & Ho))];
    [by eapply Hs|]. split; [done|].
  pose proof (queue_evaluates data cached rules) as Hq. rewrite Forall_forall in Hq.
  rewrite <- (Hq m Hm). by apply matches_Some.
Qed.

Lemma sound_negatives_weaken rules data cached res :
  cached ⊆ res -> sound_negatives rules data res -> sound_negatives rules data cached.
Proof. intros Hsub Hs e v Hv. eapply Hs. by eapply lookup_weaken. Qed.

Lemma sound_shrinks rules c c' :
  (forall data, view c' data ⊆ view c data) -> sound view rules c -> sound view rules c'.
Proof. intros Hk Hs data. eapply sound_negatives_weaken; [apply Hk|apply Hs]. Qed.

Lemma SerialAnswer_verdict f rules data cached (e : env C) :
  sound view rules (cache e) -> sound_negatives rules data cached -> flight_ok rules data f ->
  returns f rules data cached = true ->
  exists e', SerialAnswer f rules data cached e = Some (first_by_entity rules data, e') /\
    sound view rules (cache e').
Proof.
  intros Hs Hc Hf Hret. pose proof (SerialAnswer_spec view f rules data cached e) as Ha.
  rewrite Hret in Ha. destruct Ha as (e' & -> & Hext). exists e'. split; [|by eapply extends_sound].
  destruct (results_in_ok f rules data cached Hf) as [Ht Hm].
  do 2 f_equal. apply find_ext. intros r Hr. by apply hit_outcome.
Qed.

Lemma SerialProcess_verdict f rules data (e : env C) :
  sound view rules (cache e) -> flight_ok rules data f -> returns f rules data (cached_of data e) = true ->
  exists e', SerialProcess f rules data e = Some (first_by_entity rules data, e') /\
    sound view rules (cache e').
Proof.
  intros Hs Hf Hret. destruct (readCache_spec view data e) as (cached & e1 & Hr & Hsub & Hk).
  rewrite (cached_of_read data e cached e1 Hr) in Hret.
  rewrite SerialProcess_parts, Hr. apply SerialAnswer_verdict; [by eapply sound_shrinks| |done..].
  by eapply sound_negatives_weaken; [exact Hsub|].
Qed.

(** A caller that is cancelled while it waits finds nothing: the entries of the
    store are negative. *)
Lemma SerialProcess_gives_up err leading rules data (e : env C) :
  sound view rules (cache e) -> returns (Cancelled err leading) rules data (cached_of data e) = true ->
  exists e', SerialProcess (Cancelled err leading) rules data e = Some (None, e') /\
    sound view rules (cache e').
Proof.
  intros Hs Hret. destruct (SerialProcess_spec view (Cancelled err leading) rules data e) as [Hsub Hp].
  rewrite Hret in Hp. destruct Hp as (e' & -> & Hext). exists e'. split; [|by eapply extends_sound].
  do 2 f_equal. apply find_None_forallb. apply forallb_iff, Forall_forall.
  intros r _. apply negb_true_iff. unfold hit. destruct (Disable r); simpl; [done|].
  destruct (cached_of data e !! entity r) as [v|] eqn:Hv.
  - by destruct (Hs data (entity r) v (lookup_weaken _ _ _ _ Hv Hsub)).
  - by rewrite lookup_empty, andb_false_r.
Qed.

Lemma coherent_first_match rules data :
  coherent rules data -> first_by_entity rules data = first_match rules data.
Proof.
  intros Hco. apply find_ext. intros r Hr. unfold applies.
  fold (eligible data r). destruct (eligible data r) eqn:He; simpl; [|done].
  unfold entity_outcome.
  destruct (List.find _ rules) as [r0|] eqn:Hf.
  - apply List.find_some in Hf as [Hin Hb]. bsplit.
    apply Hco; [by apply list_elem_of_In|done|done|done|by eapply bool_decide_eq_true_1].
  - apply list_elem_of_In in Hr. apply (List.find_none _ _ Hf) in Hr. by rewrite He, bool_decide_eq_true_2 in Hr.
Qed.
End Verdict.

(** Rules with different entities agree. *)
Lemma distinct_coherent rules data : NoDup (map entity rules) -> coherent rules data.
Proof.
  intros Hn r1 r2 H1 H2 _ _ He. f_equal.
  apply list_elem_of_lookup in H1 as [i Hi], H2 as [j Hj].
  assert (i = j) as ->; [|congruence].
  apply (NoDup_lookup (entity <$> rules) i j (entity r1) Hn); rewrite list_lookup_fmap; [by rewrite Hi|].
  by rewrite Hj, He.
Qed.

(** The serial runner with singleflight disabled ([disabledSingleflightCoalescer]:
    every call leads its own flight) is a rule runner. *)
Section Runner.
Context {C : Type} (view : C -> bytes -> results) `{HL : CacheStoreLaws C view}.

#[export] Instance Serial_Runner : RuleRunner (env C) :=
  fun rules data e => SerialProcess Lead rules data e.

#[export] Instance Serial_Laws :
  RuleRunnerLaws (env C) (fun rules e => sound view rules (cache e) /\ panic_free rules) first_by_entity.
Proof.
  split; [|intros rules data rule Hv; by apply (first_by_entity_in rules data)].
  intros rules data e [Hs Hp]. exists (first_by_entity rules data).
  destruct (SerialProcess_verdict view Lead rules data e Hs I) as (e' & HP & Hs');
    [by apply panic_free_returns|]. by exists e'.
Qed.
End Runner.

(** ** Properties *)

(** C5: the cache and the coalescer are transparent.  Whatever true negatives
    the store holds, whether or not its reads and writes fail, and whether the
    caller leads a flight or shares the outcome of another that holds for the
    rules, [Process] answers the first enabled rule that matches and is not
    excepted; a caller whose context is cancelled while it waits is answered
    with no rule.  The rules claiming one entity agree on the token and no
    matcher called panics; the store still holds true negatives only. *)
Theorem SerialProcess_first_match {C} (view : C -> bytes -> results) `{CacheStoreLaws C view}
    f rules data (e : env C)
    (true_negatives : sound view rules (cache e)) (shared_true : honest rules data f)
    (no_panic : returns f rules data (cached_of data e) = true) (agreement : coherent rules data) :
  exists e',
    SerialProcess f rules data e =
      Some (match f with Cancelled _ _ => None | _ => first_match rules data end, e') /\
    sound view rules (cache e').
Proof.
  destruct f as [|shared err|err leading].
  1-2: edestruct (SerialProcess_verdict view) as (e' & -> & ?); [exact true_negatives| |exact no_panic|];
    [done|exists e'; by rewrite coherent_first_match].
  by apply (SerialProcess_gives_up view).
Qed.

(** Without that agreement, the rules that claim one entity share the
    outcome of the first of them that takes part in the evaluation. *)
Theorem SerialProcess_by_entity {C} (view : C -> bytes -> results) `{CacheStoreLaws C view}
    f rules data (e : env C)
    (true_negatives : sound view rules (cache e)) (served : flight_ok rules data f)
    (no_panic : returns f rules data (cached_of data e) = true) :
  exists e', SerialProcess f rules data e = Some (first_by_entity rules data, e') /\
    sound view rules (cache e').
Proof. by apply SerialProcess_verdict. Qed.

(** A call panics exactly when a matcher that it calls does: that of an
    exception of an enabled rule whose entity is not cached, or the one that
    evaluates a missing entity, although a rule before it may match; a caller
    that shares the results of another evaluates what these lack only. *)
Theorem SerialProcess_panics {C} (view : C -> bytes -> results) `{CacheStoreLaws C view}
    f rules data (e : env C) :
  SerialProcess f rules data e = None <->
    (exists r, r ∈ rules /\ Disable r = false /\ cached_of data e !! entity r = None /\
       isException data (Exceptions r) = None) \/
    (exists m, m ∈ evaluated_in f (queue data (cached_of data e) rules ∅) /\
       Match (RMatcher (mrule m)) data = None).
Proof.
  transitivity (returns f rules data (cached_of data e) = false).
  { destruct (SerialProcess_spec view f rules data e) as [_ Hp]. destruct (returns _ _ _ _); [|done].
    destruct Hp as (e' & -> & _). done. }
  unfold returns. rewrite andb_false_iff, !forallb_false_iff. f_equiv; f_equiv; intros x; f_equiv.
  - unfold classifiable. rewrite !orb_false_iff, !bool_decide_eq_false, <- !eq_None_not_Some. tauto.
  - unfold evaluable. by rewrite bool_decide_eq_false, <- eq_None_not_Some.
Qed.

(** C13: positive results are never persisted.  For any lawful store, any
    flight and any rules, a call panics, because a matcher of an enabled rule
    does, or it returns and an entry of the store after it was there before, or
    is a negative answer on this token of the matcher of a rule of the call,
    enabled and not excepted. *)
Theorem SerialProcess_persists_negatives {C} (view : C -> bytes -> results)
    `{CacheStoreLaws C view} f rules data (e : env C) :
  match SerialProcess f rules data e with
  | Some (_, e') =>
      forall data' ent v, view (cache e') data' !! ent = Some v ->
        view (cache e) data' !! ent = Some v \/
        data' = data /\ v = false /\
        exists r, r ∈ rules /\ entity r = ent /\ eligible data r = true /\
          Match (RMatcher r) data = Some false
  | None => may_panic rules data
  end.
Proof.
  destruct (SerialProcess_spec view f rules data e) as [_ Hp].
  destruct (returns f rules data (cached_of data e)) eqn:Hret.
  - destruct Hp as (e' & -> & Hext). intros data' ent v [?|(-> & -> & m & Hm & <- & Ho)]%Hext; [auto|].
    right. split_and!; [done..|]. apply queue_first in Hm as (_ & _ & Hf).
    apply List.find_some in Hf as [Hin Hc]. unfold claims in Hc. bsplit.
    exists (mrule m). split_and!; [by apply list_elem_of_In|by eapply bool_decide_eq_true_1|done|done].
  - rewrite Hp. by eapply returns_false.
Qed.

Lemma saveNegatives_counted {C} `{CacheStore C} data res (e e' : env (counted C)) err :
  saveNegatives data res e = Some (err, e') ->
  reads (cache e') = reads (cache e) /\ (saves (cache e') <= S (saves (cache e)))%nat.
Proof.
  unfold saveNegatives. case_decide; [by intros [= _ <-]; auto|].
  simpl. destruct (SaveMatches data _ (inner _)) as [[err' c]|]; simpl; [|done].
  intros [= _ <-]. simpl. lia.
Qed.

(** One read and at most one write: a call of [Process] reads the store
    once and saves at most one batch of negatives, in every flight. *)
Theorem SerialProcess_store_calls {C} `{CacheStore C} f rules data verdict
    (e e' : env (counted C))
    (returned : SerialProcess f rules data e = Some (verdict, e')) :
  reads (cache e') = S (reads (cache e)) /\ (saves (cache e') <= S (saves (cache e)))%nat.
Proof.
  unfold SerialProcess in returned. simpl in returned.
  destruct (GetMatches data (inner (cache e))) as [[got c]|] eqn:Hg; simpl in returned; [|done].
  set (e1 := match got with inl m => mkEnv (mkCounted c (S (reads (cache e))) (saves (cache e))) (errors e)
             | inr err => log_error err (mkEnv (mkCounted c (S (reads (cache e))) (saves (cache e))) (errors e)) end).
  set (cached := match got with inl m => m | inr _ => ∅ end).
  assert (Hr : reads (cache e1) = S (reads (cache e)) /\ saves (cache e1) = saves (cache e))
    by (unfold e1; by destruct got).
  assert (returned' : ('(views, missing) ← classifyRules rules data cached;
    '(evaluated, e) ← (if 0 <? blen missing then evaluateMissing f data missing e1
                       else Some (∅, e1));
    Some (pick views evaluated, e)) = Some (verdict, e')) by (by destruct got).
  clear returned. destruct (classifyRules rules data cached) as [[views missing]|]; simpl in returned'; [|done].
  destruct (0 <? blen missing); [|simpl in returned'; simplify_eq; lia].
  destruct (evaluateMissing f data missing e1) as [[ev e2]|] eqn:Hev; simpl in returned'; [|done].
  simplify_eq. enough (reads (cache e') = reads (cache e1) /\
    (saves (cache e') <= S (saves (cache e1)))%nat) by lia.
  clear -Hev. unfold evaluateMissing, doToken, disabledDoToken, leaderPath in Hev.
  rewrite ?matchMissing_eq in Hev. destruct f as [|shared err|err []]; simpl in Hev.
  - destruct (forallb _ _); simpl in Hev; [|done].
    destruct (saveNegatives _ _ _) as [[err e2]|] eqn:Hs; simpl in Hev; [|done].
    rewrite residual_self in Hev. simpl in Hev. simplify_eq.
    rewrite cache_log_opt. by eapply saveNegatives_counted.
  - case_match; simplify_eq; [rewrite cache_log_opt; lia|].
    destruct (matchMissing _ _); simpl in Hev; [|done].
    destruct (saveNegatives _ _ _) as [[err' e2]|] eqn:Hs; simpl in Hev; [|done].
    simplify_eq. rewrite cache_log_opt. apply saveNegatives_counted in Hs.
    by rewrite cache_log_opt in Hs.
  - destruct (forallb _ _); simpl in Hev; [|done].
    destruct (saveNegatives _ _ _) as [[err' e2]|] eqn:Hs; simpl in Hev; [|done].
    simplify_eq. by eapply saveNegatives_counted in Hs.
  - simplify_eq. simpl. lia.
Qed.

(** A rule whose entity is claimed by an earlier rule that takes part in
    the evaluation and does not match is never found, whatever it matches. *)
Theorem SerialProcess_shadows {C} (view : C -> bytes -> results) `{CacheStoreLaws C view}
    f pre r1 rest r2 data (e : env C)
    (true_negatives : sound view (pre ++ r1 :: rest) (cache e))
    (served : flight_ok (pre ++ r1 :: rest) data f)
    (no_panic : returns f (pre ++ r1 :: rest) data (cached_of data e) = true)
    (same : entity r2 = entity r1) (evaluated : eligible data r1 = true)
    (first : Forall (fun r => entity r <> entity r1) pre)
    (negative : matches r1 data = false) :
  exists verdict e', SerialProcess f (pre ++ r1 :: rest) data e = Some (verdict, e') /\
    verdict <> Some r2.
Proof.
  destruct (SerialProcess_verdict view f _ data e true_negatives served no_panic) as (e' & -> & _).
  eexists _, e'. split; [done|]. unfold first_by_entity. intros [_ Hh]%List.find_some.
  apply andb_true_iff in Hh as [_ Hh]. rewrite same in Hh.
  enough (entity_outcome (pre ++ r1 :: rest) data (entity r1) = false) by congruence.
  unfold entity_outcome. clear -first evaluated negative.
  induction first as [|r pre Hr _ IH]; simpl.
  - by rewrite evaluated, bool_decide_eq_true_2.
  - by rewrite (bool_decide_eq_false_2 _ Hr), andb_false_r.
Qed.

(** A caller whose context is cancelled while it waits finds nothing: with
    a store of true negatives the answer is no rule at all, whatever the token. *)
Theorem SerialProcess_cancelled {C} (view : C -> bytes -> results) `{CacheStoreLaws C view}
    err leading rules data (e : env C)
    (true_negatives : sound view rules (cache e))
    (no_panic : returns (Cancelled err leading) rules data (cached_of data e) = true) :
  exists e', SerialProcess (Cancelled err leading) rules data e = Some (None, e').
Proof.
  destruct (SerialProcess_gives_up view err leading rules data e true_negatives no_panic) as (e' & He & _).
  by exists e'.
Qed.

(** A runner built with a nil store, as in the quick start of the README,
    panics on every token. *)
Theorem SerialProcess_nil_store f rules data (e : env NilStore) :
  @SerialProcess NilStore Nil_Store f rules data e = None.
Proof. done. Qed.

(** ** Witnesses *)

Definition demo_rules : list Rule :=
  [word_rule "alice" (redact_with "A"); word_rule "bob" (redact_with "B")].

Lemma empty_map_sound rules : sound map_view rules (∅ : MapStore).
Proof. intros data e v. unfold map_view. by rewrite lookup_empty. Qed.

Lemma word_rules_coherent (ws : list string) data st :
  coherent (map (fun w => word_rule w st) ws) data.
Proof.
  intros r1 r2 [w1 [-> _]]%list_elem_of_fmap [w2 [-> _]]%list_elem_of_fmap _ _.
  unfold entity, word_rule. simpl. by intros ->.
Qed.

Lemma demo_coherent data : coherent demo_rules data.
Proof.
  intros r1 r2 H1 H2 _ _ He. unfold demo_rules in H1, H2.
  repeat (apply elem_of_cons in H1 as [->|H1]); repeat (apply elem_of_cons in H2 as [->|H2]);
    try done; by apply not_elem_of_nil in H1 || apply not_elem_of_nil in H2.
Qed.

Lemma demo_panic_free : panic_free demo_rules.
Proof. apply panic_free_all. by repeat constructor. Qed.

Lemma SerialProcess_first_match_witness :
  exists e', SerialProcess Lead demo_rules (of_str "bob") (mkEnv (∅ : MapStore) []) =
      Some (Some (word_rule "bob" (redact_with "B")), e') /\
    sound map_view demo_rules (cache e').
Proof.
  exact (SerialProcess_first_match map_view Lead demo_rules (of_str "bob")
    (mkEnv (∅ : MapStore) []) (empty_map_sound demo_rules) I eq_refl (demo_coherent _)).
Defined.

Lemma SerialProcess_by_entity_witness :
  exists e', SerialProcess (Shared {["alice" := false]} None) demo_rules (of_str "bob")
      (mkEnv (∅ : MapStore) []) =
      Some (Some (word_rule "bob" (redact_with "B")), e') /\
    sound map_view demo_rules (cache e').
Proof.
  refine (SerialProcess_by_entity map_view (Shared {["alice" := false]} None) demo_rules
    (of_str "bob") (mkEnv (∅ : MapStore) []) (empty_map_sound demo_rules) _ eq_refl).
  simpl. intros e v. rewrite lookup_singleton_Some. intros [<- <-] _. reflexivity.
Defined.

Lemma SerialProcess_store_calls_witness :
  exists e', SerialProcess Lead demo_rules (of_str "eve")
      (mkEnv (mkCounted (∅ : MapStore) 0 0) []) = Some (None, e') /\
    reads (cache e') = 1%nat /\ (saves (cache e') <= 1)%nat.
Proof.
  eexists. split; [reflexivity|].
  eapply (SerialProcess_store_calls Lead demo_rules (of_str "eve") None
    (mkEnv (mkCounted (∅ : MapStore) 0 0) [])). reflexivity.
Defined.

Lemma SerialProcess_shadows_witness :
  let r1 := word_rule "alice" (redact_with "A") in
  let r2 := mkRule false "other" "other" (mkMatcher "alice" (fun _ => Some true)) [] (redact_with "B") in
  exists verdict e', SerialProcess Lead [r1; r2] (of_str "bob") (mkEnv (∅ : MapStore) []) =
      Some (verdict, e') /\ verdict <> Some r2.
Proof.
  intros r1 r2.
  exact (SerialProcess_shadows map_view Lead [] r1 [r2] r2 (of_str "bob")
    (mkEnv (∅ : MapStore) []) (empty_map_sound _) I eq_refl eq_refl eq_refl (List.Forall_nil _) eq_refl).
Defined.

Lemma SerialProcess_cancelled_witness :
  exists e', SerialProcess (Cancelled "context canceled" false) demo_rules (of_str "bob")
    (mkEnv (∅ : MapStore) []) = Some (None, e').
Proof.
  exact (SerialProcess_cancelled map_view "context canceled" false demo_rules (of_str "bob")
    (mkEnv (∅ : MapStore) []) (empty_map_sound demo_rules) eq_refl).
Defined.

Lemma SerialProcess_persists_negatives_witness :
  match SerialProcess Lead demo_rules (of_str "bob") (mkEnv (∅ : MapStore) []) with
  | Some (_, e') => forall data' ent v, map_view (cache e') data' !! ent = Some v -> v = false
  | None => False
  end.
Proof.
  pose proof (SerialProcess_persists_negatives map_view Lead demo_rules (of_str "bob")
    (mkEnv (∅ : MapStore) [])) as Hp.
  destruct (SerialProcess_verdict map_view Lead demo_rules (of_str "bob") (mkEnv (∅ : MapStore) [])
    (empty_map_sound demo_rules) I (panic_free_returns _ _ _ _ demo_panic_free)) as (e' & He & _). rewrite He in Hp |- *.
  intros data' ent v Hin.
  destruct (Hp data' ent v Hin) as [Hold|(_ & Hf & _)]; [|exact Hf].
  unfold map_view in Hold. simpl in Hold. rewrite lookup_empty in Hold. simpl in Hold.
  rewrite lookup_empty in Hold. discriminate Hold.
Defined.

(** A matcher that panics, behind a rule that matches. *)
Definition panicking_rule : Rule :=
  mkRule false "broken" "broken" (mkMatcher "broken" (fun _ => None)) [] (redact_with "C").

Example later_panic :
  SerialProcess Lead (demo_rules ++ [panicking_rule]) (of_str "bob") (mkEnv (∅ : MapStore) []) = None.
Proof. reflexivity. Qed.
