(* ===== verification/ConcurrentRunner.v ===== *)
(** * analyzer/concurrent_runner.go: rules evaluated on a worker pool

    [collectEvaluations] is a transition system: the caller submits one task
    per missing entity to a pool of [poolSize] workers, the workers check the
    cancellation of [matchCtx], evaluate and send on a buffered channel, the
    collector receives, and at any moment the caller's context may be cancelled
    and the pool closed.  What the collection returns is an [outcome]; the rest
    of [Process] is a function of the outcome and of the flight the call is in.
    Classification, inline evaluation and the batched save are methods that
    the source repeats from the serial runner. *)
From S2P Require Import Prelude Rules CacheStore ByteAnalyzer SerialRunner.

(** ** The collection *)

(** [resultItem]; a worker that bails out sends the zero item. *)
Record resultItem := mkItem {
  item_rule : option Rule;
  item_entity : Entity;
  matched : bool;
  evaluated : bool
}.

Definition zeroItem : resultItem := mkItem None EmptyString false false.

(** What the worker of [m] sends once it has called the matcher, if that
    returns. *)
Definition item_of (data : bytes) (m : missingEvaluation) : option resultItem :=
  matched ← Match (RMatcher (mrule m)) data;
  Some (mkItem (Some (mrule m)) (mentity m) matched true).

(** What [collectEvaluations] returns: nil results for a closed pool, the
    results collected when the caller's context is done, all of them without a
    match, or those of the completed workers with the matching rule.  The last
    two are persisted. *)
Inductive outcome :=
| Aborted
| Interrupted (res : results)
| Complete (res : results)
| Matched (res : results) (rule : Rule).

(** Where the caller is: [submitted] tasks so far, receptions left in the
    loop, draining after the match of a rule, or back with an outcome. *)
Inductive phase :=
| Submitting (count : nat)
| Collecting (left : nat)
| Draining (rule : Rule)
| Returned (o : outcome).

Record cstate := mkC {
  to_submit : list missingEvaluation;   (* the rest of the submission loop *)
  queued : list missingEvaluation;      (* tasks given to the pool, not started *)
  started : list missingEvaluation;     (* tasks past the check of matchCtx *)
  resultCh : list resultItem;           (* the buffer of the channel *)
  acc : results;                        (* the map of the collector *)
  ctx_done : bool;                      (* the caller's context *)
  stopped : bool;                       (* cancel() has been called *)
  closed : bool;                        (* the pool *)
  at_ : phase
}.

Definition cinitial (missing : list missingEvaluation) (is_closed : bool) : cstate :=
  mkC missing [] [] [] ∅ false false is_closed (Submitting 0).

(** The collector and [drainCompleted] on one item. *)
Definition absorb (item : resultItem) (res : results) : results :=
  if evaluated item then <[item_entity item := matched item]> res else res.

Section Collection.
Context (poolSize cap : nat) (data : bytes).

Inductive cstep : cstate -> cstate -> Prop :=
(* the caller *)
| c_submit m ts q s ch res ctx st n :
    (length q + length s < poolSize)%nat ->
    cstep (mkC (m :: ts) q s ch res ctx st false (Submitting n))
          (mkC ts (q ++ [m]) s ch res ctx st false (Submitting (S n)))
| c_rejected m ts q s ch res ctx st n :
    cstep (mkC (m :: ts) q s ch res ctx st true (Submitting n))
          (mkC (m :: ts) q s ch res ctx true true (Returned Aborted))
| c_collect q s ch res ctx st cl n :
    cstep (mkC [] q s ch res ctx st cl (Submitting n))
          (mkC [] q s ch res ctx st cl (Collecting n))
| c_receive ts q s item ch res ctx st cl n :
    evaluated item && matched item = false ->
    cstep (mkC ts q s (item :: ch) res ctx st cl (Collecting (S n)))
          (mkC ts q s ch (absorb item res) ctx st cl (Collecting n))
| c_match ts q s item ch res ctx st cl n r :
    evaluated item && matched item = true -> item_rule item = Some r ->
    cstep (mkC ts q s (item :: ch) res ctx st cl (Collecting (S n)))
          (mkC ts q s ch (absorb item res) ctx true cl (Draining r))
| c_interrupt ts q s ch res ctx st cl n :
    ctx || st = true ->
    cstep (mkC ts q s ch res ctx st cl (Collecting (S n)))
          (mkC ts q s ch res ctx true cl (Returned (Interrupted res)))
| c_complete ts q s ch res ctx st cl :
    cstep (mkC ts q s ch res ctx st cl (Collecting 0))
          (mkC ts q s ch res ctx true cl (Returned (Complete res)))
| c_drain ts q s item ch res ctx st cl r :
    cstep (mkC ts q s (item :: ch) res ctx st cl (Draining r))
          (mkC ts q s ch (absorb item res) ctx st cl (Draining r))
| c_drained ts q s res ctx st cl r :
    cstep (mkC ts q s [] res ctx st cl (Draining r))
          (mkC ts q s [] res ctx true cl (Returned (Matched res r)))
(* the workers *)
| c_start m ts q1 q2 s ch res cl p :
    cstep (mkC ts (q1 ++ m :: q2) s ch res false false cl p)
          (mkC ts (q1 ++ q2) (s ++ [m]) ch res false false cl p)
| c_bail m ts q1 q2 s ch res ctx st cl p :
    ctx || st = true -> (length ch < cap)%nat ->
    cstep (mkC ts (q1 ++ m :: q2) s ch res ctx st cl p)
          (mkC ts (q1 ++ q2) s (ch ++ [zeroItem]) res ctx st cl p)
| c_send m item ts q s1 s2 ch res ctx st cl p :
    item_of data m = Some item -> (length ch < cap)%nat ->
    cstep (mkC ts q (s1 ++ m :: s2) ch res ctx st cl p)
          (mkC ts q (s1 ++ s2) (ch ++ [item]) res ctx st cl p)
| c_panic m ts q s1 s2 ch res ctx st cl p :      (* recovered by the handler of the pool: nothing is sent *)
    item_of data m = None ->
    cstep (mkC ts q (s1 ++ m :: s2) ch res ctx st cl p)
          (mkC ts q (s1 ++ s2) ch res ctx st cl p)
(* the environment *)
| c_cancel ts q s ch res st cl p :
    cstep (mkC ts q s ch res false st cl p) (mkC ts q s ch res true st cl p)
| c_close ts q s ch res ctx st p :
    cstep (mkC ts q s ch res ctx st false p) (mkC ts q s ch res ctx st true p).
End Collection.

(** A run of [collectEvaluations]: the channel holds one item per entity. *)
Definition collects (poolSize : nat) (data : bytes) (missing : list missingEvaluation)
    (is_closed : bool) (st : cstate) : Prop :=
  rtc (cstep poolSize (length missing) data) (cinitial missing is_closed) st.

(** ** The runner *)

(** What [doToken] makes of one caller: it leads a collection with this
    outcome, shares what another leader returned, or is cancelled, possibly
    while the collection it leads goes on. *)
Inductive cflight :=
| CLead (o : outcome)
| CShared (shared : option results) (err : option string)
| CCancelled (err : string) (leading : option outcome).

Definition errPoolClosed : string := "analyzer: worker pool closed".

(** The methods repeated in concurrent_runner.go, statement by statement. *)
Definition concurrentClassifyRules (rules : list Rule) (data : bytes) (cached : results)
    : option (list ruleView * list missingEvaluation) := classifyRules rules data cached.

Definition concurrentMatchMissing (data : bytes) (missing : list missingEvaluation) : option results :=
  matchMissing data missing.

Section WithStore.
Context {C : Type} `{CacheStore C}.

Definition concurrentSaveNegatives (data : bytes) (res : results) (e : env C)
    : option (option string * env C) := saveNegatives data res e.

(** The results, the matching rule and the error of [collectEvaluations]. *)
Definition collectEvaluations (data : bytes) (o : outcome) (e : env C)
    : option (option results * option Rule * option string * env C) :=
  match o with
  | Aborted => Some (None, None, Some errPoolClosed, e)
  | Interrupted res => Some (Some res, None, None, e)
  | Complete res => '(err, e) ← concurrentSaveNegatives data res e; Some (Some res, None, err, e)
  | Matched res rule => '(err, e) ← concurrentSaveNegatives data res e; Some (Some res, Some rule, err, e)
  end.

(** The results, the error and the winner its closure leaves to the caller. *)
Definition doFlight (f : cflight) (data : bytes) (e : env C)
    : option (option results * option Rule * option string * env C) :=
  match f with
  | CLead o => collectEvaluations data o e
  | CShared shared err => Some (shared, None, err, e)
  | CCancelled err None => Some (None, None, Some err, e)
  | CCancelled err (Some o) =>
      '(_, winner, _, e) ← collectEvaluations data o e; Some (None, winner, Some err, e)
  end.

(** [evaluateMissing]; [ctxErr] is [ctx.Err() != nil] after the flight. *)
Definition evaluateMissing_concurrent (f : cflight) (ctxErr : bool) (data : bytes)
    (missing : list missingEvaluation) (e : env C)
    : option (results * option Rule * env C) :=
  '(res, winner, flightErr, e) ← doFlight f data e;
  match res with
  | None => Some (∅, None, log_opt flightErr e)
  | Some res =>
      let e := log_opt flightErr e in
      match winner with
      | Some rule => Some (res, Some rule, e)
      | None =>
          if ctxErr then Some (res, None, e)
          else
            let rest := residual missing res in
            if blen rest =? 0 then Some (res, None, e)
            else
              residualResults ← concurrentMatchMissing data rest;
              '(saveErr, e) ← concurrentSaveNegatives data residualResults e;
              Some (residualResults ∪ res, None, log_opt saveErr e)
      end
  end.

Definition ConcurrentProcess (f : cflight) (ctxErr : bool) (rules : list Rule) (data : bytes)
    (e : env C) : option (option Rule * env C) :=
  if blen rules =? 0 then Some (None, e)
  else
    '(got, c) ← GetMatches data (cache e);
    let '(cached, e) :=
      match got with
      | inl cached => (cached, mkEnv c (errors e))
      | inr err => (∅, log_error err (mkEnv c (errors e)))
      end in
    '(views, missing) ← concurrentClassifyRules rules data cached;
    '(evaluated, found, e) ← (if 0 <? blen missing
                              then evaluateMissing_concurrent f ctxErr data missing e
                              else Some (∅, None, e));
    match found with
    | Some winner => Some (Some winner, e)
    | None => Some (pick views evaluated, e)
    end.

(** What follows the read. *)
Definition ConcurrentAnswer (f : cflight) (ctxErr : bool) (rules : list Rule) (data : bytes)
    (cached : results) (e : env C) : option (option Rule * env C) :=
  '(views, missing) ← concurrentClassifyRules rules data cached;
  '(evaluated, found, e) ← (if 0 <? blen missing
                            then evaluateMissing_concurrent f ctxErr data missing e
                            else Some (∅, None, e));
  match found with
  | Some winner => Some (Some winner, e)
  | None => Some (pick views evaluated, e)
  end.

Lemma ConcurrentProcess_parts f ctxErr rules data e : rules <> [] ->
  ConcurrentProcess f ctxErr rules data e =
    '(cached, e) ← readCache data e; ConcurrentAnswer f ctxErr rules data cached e.
Proof.
  intros Hne. unfold ConcurrentProcess, readCache. pose proof (blen_pos rules Hne). if_lia.
  by destruct (GetMatches data (cache e)) as [[[] ]|].
Qed.
End WithStore.

(** ** Invariant of the collection *)

Definition all_negative (res : results) : Prop := forall e v, res !! e = Some v -> v = false.

Definition covers (missing : list missingEvaluation) (res : results) : Prop :=
  forall m, m ∈ missing -> is_Some (res !! mentity m).

Definition true_outcomes (data : bytes) (missing : list missingEvaluation) (res : results) : Prop :=
  forall e v, res !! e = Some v -> outcome_of data missing e v.

(** The matcher of the entity panics. *)
Definition panics (data : bytes) (m : missingEvaluation) : bool := negb (evaluable data m).

(** The item of an entity whose matcher returns. *)
Definition item_for (data : bytes) (m : missingEvaluation) : resultItem :=
  mkItem (Some (mrule m)) (mentity m) (matches (mrule m) data) true.

Lemma item_of_eq data m : item_of data m = if panics data m then None else Some (item_for data m).
Proof. unfold item_of, panics, evaluable, item_for, matches. by destruct (Match (RMatcher (mrule m)) data). Qed.

Lemma item_of_Some data m item : item_of data m = Some item ->
  panics data m = false /\ item = item_for data m /\ evaluated item = true /\
  Match (RMatcher (mrule m)) data = Some (matched item).
Proof.
  rewrite item_of_eq. unfold panics. destruct (evaluable data m) eqn:He; [|done]. intros [= <-].
  split_and!; [done..|]. by apply evaluable_Some.
Qed.

Lemma item_of_None data m : item_of data m = None -> panics data m = true.
Proof. rewrite item_of_eq. by destruct (panics data m). Qed.

Lemma panics_iff data m : panics data m = true <-> Match (RMatcher (mrule m)) data = None.
Proof. unfold panics, evaluable. by destruct (Match (RMatcher (mrule m)) data). Qed.

Definition winner_of (data : bytes) (missing : list missingEvaluation) (rule : Rule) : Prop :=
  exists m, m ∈ missing /\ mrule m = rule /\ matches rule data = true.

(** What a caller that is back with an outcome may rely on. *)
Definition outcome_ok (data : bytes) (missing : list missingEvaluation)
    (ctx cl : bool) (o : outcome) : Prop :=
  match o with
  | Aborted => cl = true
  | Interrupted res => ctx = true /\ true_outcomes data missing res /\ all_negative res
  | Complete res => true_outcomes data missing res /\ all_negative res /\
      (ctx = false -> covers missing res /\ forall m, m ∈ missing -> panics data m = false)
  | Matched res rule => true_outcomes data missing res /\ winner_of data missing rule
  end.

(** The tasks that have not reported: the receptions the loop still expects. *)
Definition outstanding (st : cstate) : nat :=
  length (queued st) + length (started st) + length (resultCh st).

(** An entity is accounted for until somebody cancels. *)
Definition accounted (data : bytes) (st : cstate) (m : missingEvaluation) : Prop :=
  m ∈ to_submit st ++ queued st ++ started st \/ item_for data m ∈ resultCh st \/
  is_Some (acc st !! mentity m).

(** The loop has [n] receptions left, for the tasks that have not reported and
    for those that never will, [lost], whose matcher panicked. *)
Definition expects (data : bytes) (missing : list missingEvaluation)
    (st : cstate) (n : nat) : Prop :=
  exists lost, n = (outstanding st + length lost)%nat /\
    Forall (fun m => m ∈ missing /\ panics data m = true) lost /\
    (ctx_done st = false -> forall m, m ∈ missing ->
       if panics data m then m ∈ to_submit st ++ queued st ++ started st \/ m ∈ lost else accounted data st m).

Definition phase_ok (data : bytes) (missing : list missingEvaluation)
    (st : cstate) : Prop :=
  match at_ st with
  | Submitting n => stopped st = false /\ all_negative (acc st) /\ expects data missing st n
  | Collecting n => to_submit st = [] /\ stopped st = false /\ all_negative (acc st) /\
      expects data missing st n
  | Draining rule => winner_of data missing rule
  | Returned o => outcome_ok data missing (ctx_done st) (closed st) o
  end.

Record cinv (data : bytes) (missing : list missingEvaluation)
    (st : cstate) : Prop := {
  ci_room : (length (to_submit st) + outstanding st <= length missing)%nat;
  ci_tasks : forall m, m ∈ to_submit st ++ queued st ++ started st -> m ∈ missing;
  ci_items : forall item, item ∈ resultCh st -> evaluated item = true ->
    exists m, m ∈ missing /\ item_of data m = Some item;
  ci_acc : true_outcomes data missing (acc st);
  ci_phase : phase_ok data missing st
}.

Section Invariant.
Context (poolSize : nat) (data : bytes) (missing : list missingEvaluation).

Lemma absorb_true item res :
  (evaluated item = true -> exists m, m ∈ missing /\ item_of data m = Some item) ->
  true_outcomes data missing res -> true_outcomes data missing (absorb item res).
Proof.
  intros Hi Hr. unfold absorb. destruct (evaluated item); [|done].
  destruct Hi as (m & Hm & (_ & Hi & _ & Hv)%item_of_Some); [done|].
  intros e v [[<- <-]|[_ ?]]%lookup_insert_Some; [|by apply Hr]. exists m. by rewrite Hv, Hi.
Qed.

Lemma absorb_negative item res :
  evaluated item && matched item = false -> all_negative res -> all_negative (absorb item res).
Proof.
  intros Hi Hr. unfold absorb. destruct (evaluated item); [|done].
  intros e v [[_ <-]|[_ ?]]%lookup_insert_Some; [done|by eapply Hr].
Qed.

Lemma absorb_covers item res e :
  (exists m, item = item_for data m /\ mentity m = e) \/ is_Some (res !! e) ->
  is_Some (absorb item res !! e).
Proof.
  unfold absorb. intros [(m & -> & <-)|?]; simpl; [by rewrite lookup_insert_eq|].
  destruct (evaluated item); [|done]. apply lookup_insert_is_Some'. by right.
Qed.

Lemma cinv_initial cl : cinv data missing (cinitial missing cl).
Proof.
  split; simpl; unfold outstanding, phase_ok; simpl; try lia.
  - intros m. by rewrite !app_nil_r.
  - intros item []%not_elem_of_nil.
  - intros e v. by rewrite lookup_empty.
  - split_and!; [done..| |].
    + intros e v. by rewrite lookup_empty.
    + exists []. split_and!; [done|done|]. intros _ m Hm. unfold accounted. simpl. rewrite app_nil_r.
      destruct (panics data m); by left.
Qed.

Lemma outcome_ok_mono ctx ctx' cl cl' o :
  (ctx = true -> ctx' = true) -> (cl = true -> cl' = true) ->
  outcome_ok data missing ctx cl o -> outcome_ok data missing ctx' cl' o.
Proof.
  intros Hctx Hcl. destruct o; simpl; [auto|naive_solver| |done].
  intros (? & ? & Hc). split_and!; [done..|]. intros ->. apply Hc. destruct ctx; [by specialize (Hctx eq_refl)|done].
Qed.

(** Steps of the workers and of the environment. *)
Lemma phase_ok_mono st st' :
  phase_ok data missing st -> at_ st' = at_ st -> to_submit st' = to_submit st ->
  acc st' = acc st -> stopped st' = stopped st ->
  (ctx_done st = true -> ctx_done st' = true) -> (closed st = true -> closed st' = true) ->
  (stopped st = false -> forall n, expects data missing st n -> expects data missing st' n) ->
  phase_ok data missing st'.
Proof.
  unfold phase_ok. intros Hp -> Hts Hacc -> Hctx Hcl Hmono. rewrite Hts, Hacc.
  destruct (at_ st).
  - destruct Hp as (? & ? & Ha). split_and!; eauto.
  - destruct Hp as (? & ? & ? & Ha). split_and!; eauto.
  - done.
  - by eapply outcome_ok_mono.
Qed.

(** Those in which no matcher panics. *)
Lemma expects_mono st st' n :
  outstanding st' = outstanding st -> (ctx_done st = true -> ctx_done st' = true) ->
  (ctx_done st' = false -> forall m,
     (panics data m = true -> m ∈ to_submit st ++ queued st ++ started st ->
        m ∈ to_submit st' ++ queued st' ++ started st') /\
     (panics data m = false -> accounted data st m -> accounted data st' m)) ->
  expects data missing st n -> expects data missing st' n.
Proof.
  intros Ho Hctx Hmono (lost & -> & Hl & Ha). exists lost. rewrite Ho. split_and!; [done..|].
  intros Hd m Hm. destruct (Hmono Hd m) as [Ht Hf].
  assert (Hd' : ctx_done st = false) by (destruct (ctx_done st); [by rewrite Hctx in Hd|done]).
  specialize (Ha Hd' m Hm). destruct (panics data m); [|by apply Hf]. destruct Ha; [left; by apply Ht|by right].
Qed.

Ltac room := unfold outstanding in *; simpl in *; rewrite ?length_app in *; simpl in *; lia.

Lemma cinv_step st st' :
  cinv data missing st -> cstep poolSize (length missing) data st st' ->
  cinv data missing st'.
Proof.
  intros [Hroom Htasks Hitems Hacc Hphase] Hstep. destruct Hstep; simpl in *;
    try match goal with
    | H : item_of data _ = Some _ |- _ =>
        apply item_of_Some in H as (Hpanic & -> & _ & _)
    | H : item_of data _ = None |- _ => apply item_of_None in H
    end;
    (split; simpl; [room|intros m'; specialize (Htasks m'); clear -Htasks; set_solver| | |]); try done;
    try (intros item' Hi; apply Hitems; clear -Hi; set_solver);
    try (apply absorb_true; [apply Hitems; set_solver|done]).
  all: try (apply (phase_ok_mono _ _ Hphase); simpl; [done..|]; intros Hst n').
  all: try (apply expects_mono; simpl; [room|done|]; unfold accounted; simpl;
    intros Hd' m'; rewrite ?elem_of_app, ?elem_of_cons; try done; subst; try done;
    by split; intros ? ?; destruct_or?; subst; try congruence; tauto).
  all: unfold phase_ok, expects, accounted in Hphase |- *; simpl in *.
  - destruct Hphase as (? & ? & lost & -> & Hl & Ha). split_and!; [done..|]. exists lost.
    split_and!; [room|done|]. intros Hc m' Hm'. specialize (Ha Hc m' Hm'). destruct (panics data m'); set_solver.
  - destruct Hphase as (? & ? & ? & lost & Ho & Hl & Ha). split_and!; [done|done|by apply absorb_negative|].
    exists lost. split_and!; [room|done|].
    intros Hc m' Hm'. specialize (Ha Hc m' Hm'). destruct (panics data m'); [done|].
    destruct Ha as [?|[[Hi|?]%elem_of_cons|?]];
      [by left| |by right; left|]; right; right; apply absorb_covers; eauto.
  - destruct (Hitems item) as (m & Hm & (_ & -> & _ & _)%item_of_Some); [set_solver|by destruct (evaluated item)|].
    simpl in *. exists m. simplify_eq. done.
  - destruct Hphase as (? & -> & ? & _). rewrite orb_false_r in *. done.
  - destruct Hphase as (-> & -> & ? & lost & Ho & Hl & Ha). split_and!; [done..|].
    intros Hc. unfold outstanding in Ho. simpl in Ho.
    destruct q, s, ch, lost; simpl in Ho; try lia. split.
    + intros m Hm. specialize (Ha Hc m Hm). destruct (panics data m); set_solver.
    + intros m Hm. specialize (Ha Hc m Hm). destruct (panics data m); set_solver.
  - intros item [?| ->%list_elem_of_singleton]%elem_of_app; [by apply Hitems|done].
  - intros item [?| ->%list_elem_of_singleton]%elem_of_app; [by apply Hitems|].
    intros _. exists m. split; [apply Htasks; set_solver|by rewrite item_of_eq, Hpanic].
  - intros (lost & -> & Hl & Ha). exists (m :: lost). split_and!; [room| |].
    { constructor; [|done]. split; [apply Htasks; set_solver|done]. }
    intros Hc m' Hm'. specialize (Ha Hc m' Hm').
    destruct (panics data m') eqn:Hp; rewrite ?elem_of_app, ?elem_of_cons in *; destruct_or?; subst; try congruence; tauto.
Qed.

Lemma cinv_reachable cl st : collects poolSize data missing cl st -> cinv data missing st.
Proof.
  unfold collects. intros Hr. pattern st.
  eapply rtc_ind_r; [apply cinv_initial| |exact Hr]. intros ? ? _ Hs Hi. by eapply cinv_step.
Qed.
End Invariant.

(** ** Progress and termination *)

Definition weight (p : phase) : nat :=
  match p with Submitting _ => 3 | Collecting _ => 2 | Draining _ => 1 | Returned _ => 0 end.

Definition cmeasure (st : cstate) : nat :=
  4 * length (to_submit st) + 3 * length (queued st) + 2 * length (started st)
  + length (resultCh st) + weight (at_ st)
  + (if ctx_done st then 0 else 1) + (if closed st then 0 else 1).

(** The caller is back and no worker of the token is left. *)
Definition settled (st : cstate) : Prop :=
  (exists o, at_ st = Returned o) /\ queued st = [] /\ started st = [].

(** The collector waits for a result that no task will send. *)
Definition stuck (st : cstate) : Prop :=
  (exists n, at_ st = Collecting (S n)) /\ queued st = [] /\ started st = [] /\ resultCh st = [] /\
  ctx_done st = false.

Section Progress.
Context (poolSize : nat) (data : bytes) (missing : list missingEvaluation).
Let step := cstep poolSize (length missing) data.

Lemma cstep_measure st st' : step st st' -> (cmeasure st' < cmeasure st)%nat.
Proof.
  intros []; unfold cmeasure; simpl; rewrite ?length_app; simpl; try lia; repeat case_match; lia.
Qed.

Definition internal (st st' : cstate) : Prop :=
  step st st' /\ ctx_done st' = ctx_done st /\ closed st' = closed st.

Lemma worker_progress st : cinv data missing st -> queued st ++ started st <> [] ->
  exists st', internal st st'.
Proof.
  intros [Hroom _ _ _ _]. destruct st as [ts q s ch res ctx st cl p]. unfold outstanding in Hroom.
  simpl in *. destruct s as [|m s].
  - destruct q as [|m q]; [done|]. intros _. destruct (ctx || st) eqn:Hd.
    + eexists. split; [apply (c_bail _ _ _ m ts [] q); [done|simpl in *; lia]|done].
    + apply orb_false_iff in Hd as [-> ->].
      eexists. split; [apply (c_start _ _ _ m ts [] q)|done].
  - intros _. destruct (item_of data m) as [item|] eqn:Hi.
    + eexists. split; [apply (c_send _ _ _ m item ts q [] s); [done|simpl in *; lia]|done].
    + eexists. split; [by apply (c_panic _ _ _ m ts q [] s)|done].
Qed.

Lemma collection_progress st : (0 < poolSize)%nat -> cinv data missing st -> ~ settled st ->
  (exists st', internal st st') \/ (stuck st /\ exists m, m ∈ missing /\ panics data m = true).
Proof.
  intros Hpool Hi Hn. destruct (decide (queued st ++ started st = [])) as [Hnil|Hne];
    [|left; by apply worker_progress].
  apply app_eq_nil in Hnil as [Hq Hs]. destruct Hi as [_ _ Hitems _ Hphase].
  unfold phase_ok, expects, outstanding in Hphase. unfold settled in Hn.
  destruct st as [ts q s ch res ctx st cl p]; simpl in *; subst q s. destruct p as [n|n|r|o].
  - left. destruct ts as [|m ts]; [eexists; split; [apply c_collect|done]|].
    destruct cl; [eexists; split; [apply c_rejected|done]|].
    eexists; split; [apply c_submit; simpl; lia|done].
  - destruct Hphase as (_ & _ & _ & lost & Hlen & Hl & _).
    destruct n as [|n]; [left; eexists; split; [apply c_complete|done]|].
    destruct ch as [|item ch].
    + destruct lost as [|m lost]; [done|]. apply Forall_cons in Hl as [Hm _].
      destruct ctx eqn:Hctx; [left; eexists; split; [by apply c_interrupt|done]|].
      right. split; [by split_and!; [exists n|..]|by exists m].
    + left. destruct (evaluated item && matched item) eqn:Hm.
      * destruct (Hitems item) as (m & _ & (_ & -> & _ & _)%item_of_Some); [set_solver|by destruct (evaluated item)|].
        eexists; split; [by eapply c_match|done].
      * eexists; split; [by apply c_receive|done].
  - left. destruct ch as [|item ch]; eexists; (split; [constructor|done]).
  - destruct Hn. split_and!; [by exists o|done..].
Qed.

(** From a stuck state nothing happens until the caller's context is done. *)
Lemma stuck_step st st' : cinv data missing st -> stuck st -> step st st' ->
  ctx_done st' = true \/ stuck st' /\ closed st' = true /\ closed st = false.
Proof.
  intros [_ _ _ _ Hp] ((n & Hat) & Hq & Hs & Hch & Hctx) Hstep.
  destruct Hstep; simpl in *; simplify_eq/=; try (by destruct q1); try (by destruct s1); try done; auto.
  - destruct Hp as (_ & Hst & _). simpl in Hst. by subst.
  - right. split_and!; [|done..]. by split_and!; [exists n|..].
Qed.
End Progress.

(** ** What a caller obtains *)

(** The entities left to evaluate after the read. *)
Definition missing_of {C} `{CacheStore C} (rules : list Rule) (data : bytes) (e : env C)
    : list missingEvaluation := queue data (cached_of data e) rules ∅.

(** [o] is an outcome of a run; [ctxErr] and [cl] are the context and the pool
    as the caller sees them after it. *)
Definition led (poolSize : nat) (data : bytes) (missing : list missingEvaluation)
    (is_closed ctxErr : bool) (o : outcome) : Prop :=
  exists st, collects poolSize data missing is_closed st /\ at_ st = Returned o /\
    (ctx_done st = true -> ctxErr = true).

Definition cflight_ok (poolSize : nat) (rules : list Rule) (data : bytes)
    (missing : list missingEvaluation) (is_closed ctxErr : bool) (f : cflight) : Prop :=
  match f with
  | CLead o => led poolSize data missing is_closed ctxErr o
  | CShared (Some res) _ => truthful rules data res
  | CShared None _ => True
  | CCancelled _ None => True
  | CCancelled _ (Some o) => exists ctxErr', led poolSize data missing is_closed ctxErr' o
  end.

(** The entities a call evaluates itself: in a collection a matcher that panics
    panics in a worker. *)
Definition evaluated_inline (f : cflight) (missing : list missingEvaluation) : list missingEvaluation :=
  match f with CShared (Some shared) _ => residual missing shared | _ => [] end.

(** The matchers called outside the workers do not panic. *)
Definition inline_returns (f : cflight) (rules : list Rule) (data : bytes) (cached : results) : bool :=
  forallb (classifiable data cached) rules &&
  forallb (evaluable data) (evaluated_inline f (queue data cached rules ∅)).

Lemma panic_free_inline f rules data cached : panic_free rules -> inline_returns f rules data cached = true.
Proof.
  intros Hp. destruct (Hp data) as [Hm He]. unfold inline_returns. rewrite exceptions_classifiable by done.
  destruct f as [|[shared|]|]; simpl; [done| |done|done]. by apply residual_evaluable, queue_evaluable.
Qed.

(** Neither the context nor the pool cut the evaluation short. *)
Definition undisturbed (f : cflight) (ctxErr : bool) : bool :=
  negb ctxErr &&
  match f with
  | CLead Aborted => false
  | CLead _ => true
  | CShared shared _ => match shared with Some _ => true | None => false end
  | CCancelled _ _ => false
  end.

Lemma led_ok poolSize data missing cl ctxErr o :
  led poolSize data missing cl ctxErr o ->
  match o with
  | Aborted => True
  | Interrupted res => true_outcomes data missing res /\ ctxErr = true
  | Complete res => true_outcomes data missing res /\ (ctxErr = false -> covers missing res)
  | Matched res rule => true_outcomes data missing res /\ winner_of data missing rule
  end.
Proof.
  intros (st & Hr & Ho & Hc). apply cinv_reachable in Hr as [_ _ _ _ Hp].
  unfold phase_ok in Hp. rewrite Ho in Hp. destruct o; simpl in Hp; try tauto.
  destruct Hp as (? & ? & Hcov). split; [done|]. intros ->. apply Hcov.
  destruct (ctx_done st); [|done]. by specialize (Hc eq_refl).
Qed.

Section Evaluation.
Context {C : Type} (view : C -> bytes -> results) `{CacheStoreLaws C view}.

Lemma true_outcomes_truthful rules data cached res :
  true_outcomes data (queue data cached rules ∅) res -> truthful rules data res.
Proof.
  intros Ht e v (m & Hm & <- & Hv)%Ht _. pose proof (queue_evaluates data cached rules) as Hq.
  rewrite Forall_forall in Hq. rewrite <- (Hq m Hm). symmetry. by apply matches_Some.
Qed.

Lemma save_outcomes data missing res (e : env C) : true_outcomes data missing res ->
  exists err e', saveNegatives data res e = Some (err, e') /\
    extends view (fun ent => outcome_of data missing ent false) data (cache e) (cache e').
Proof.
  intros Ht. destruct (saveNegatives_extends view data res e) as (err & e' & Hs & He).
  exists err, e'. split; [done|]. eapply extends_weaken; [|exact He]. intros ent. apply Ht.
Qed.

Lemma collectEvaluations_spec poolSize data missing cl ctxErr o (e : env C) :
  led poolSize data missing cl ctxErr o ->
  exists res winner err e', collectEvaluations data o e = Some (res, winner, err, e') /\
    extends view (fun ent => outcome_of data missing ent false) data (cache e) (cache e') /\
    match o with
    | Aborted => res = None /\ winner = None
    | Interrupted r | Complete r => res = Some r /\ winner = None
    | Matched r rule => res = Some r /\ winner = Some rule
    end.
Proof.
  intros Hl%led_ok. unfold collectEvaluations, concurrentSaveNegatives.
  destruct o as [|res|res|res rule]; simpl.
  - eexists _, _, _, _. split; [done|]. split; [apply extends_refl|done].
  - eexists _, _, _, _. split; [done|]. split; [apply extends_refl|done].
  - destruct (save_outcomes data missing res e) as (err & e' & -> & He); [apply Hl|].
    eexists _, _, _, _. by split; [done|].
  - destruct (save_outcomes data missing res e) as (err & e' & -> & He); [apply Hl|].
    eexists _, _, _, _. by split; [done|].
Qed.

(** The residual misses, evaluated inline. *)
Lemma residual_spec rules data cached res err (e : env C) :
  let missing := queue data cached rules ∅ in
  truthful rules data res -> forallb (evaluable data) (residual missing res) = true ->
  exists res' e',
    (let rest := residual missing res in
     if blen rest =? 0 then Some (res, None, log_opt err e)
     else
       residualResults ← matchMissing data rest;
       '(saveErr, e) ← saveNegatives data residualResults (log_opt err e);
       Some (residualResults ∪ res, @None Rule, log_opt saveErr e)) = Some (res', None, e') /\
    extends view (fun ent => outcome_of data missing ent false) data (cache e) (cache e') /\
    truthful rules data res' /\ covers missing res'.
Proof.
  intros missing Ht Hev. cbv zeta.
  assert (Hcov : forall m, m ∈ missing -> is_Some (res !! mentity m) \/ m ∈ residual missing res).
  { intros m Hm. destruct (res !! mentity m) eqn:E; [by left|]. right. by apply elem_of_residual. }
  destruct (Z.eqb_spec (blen (residual missing res)) 0) as [Hz|_].
  - eexists _, _. rewrite cache_log_opt. split_and!; [done|apply extends_refl|done|].
    intros m [?|Hm]%Hcov; [done|]. apply blen_zero in Hz. rewrite Hz in Hm. by apply not_elem_of_nil in Hm.
  - rewrite matchMissing_eq, Hev. cbn [mbind option_bind].
    destruct (saveNegatives_spec view data (residual missing res) (log_opt err e) Hev) as (err' & e' & -> & He).
    simpl. eexists _, _. split; [done|]. rewrite !cache_log_opt in *. split_and!.
    + eapply extends_weaken; [|exact He]. intros ent (m' & [??]%elem_of_residual & ?). by exists m'.
    + apply truthful_union; [|done]. apply outcomes_truthful, Forall_forall.
      intros m [Hm _]%elem_of_residual. pose proof (queue_evaluates data cached rules) as Hq.
      rewrite Forall_forall in Hq. by apply Hq.
    + intros m Hm. apply lookup_union_is_Some. destruct (Hcov m Hm) as [?|Hr]; [by right|].
      left. apply outcomes_dom. by exists m.
Qed.

Lemma covers_residual missing res : covers missing res -> residual missing res = [].
Proof.
  intros Hc. destruct (residual missing res) as [|m ms] eqn:Hr; [done|].
  assert (m ∈ residual missing res) as [Hm Hn]%elem_of_residual by (rewrite Hr; apply list_elem_of_here).
  destruct (Hc m Hm) as [v Hv]. congruence.
Qed.

Definition evaluation (rules : list Rule) (data : bytes) (missing : list missingEvaluation)
    (e : env C) (res : results) (winner : option Rule) (complete : bool) (e' : env C) : Prop :=
  extends view (fun ent => outcome_of data missing ent false) data (cache e) (cache e') /\
  truthful rules data res /\
  (forall r, winner = Some r -> winner_of data missing r) /\
  (complete = true -> winner = None -> covers missing res).

Lemma evaluateMissing_concurrent_spec poolSize rules data cached cl f ctxErr (e : env C) :
  let missing := queue data cached rules ∅ in
  cflight_ok poolSize rules data missing cl ctxErr f ->
  forallb (evaluable data) (evaluated_inline f missing) = true ->
  exists res winner e', evaluateMissing_concurrent f ctxErr data missing e = Some (res, winner, e') /\
    evaluation rules data missing e res winner (undisturbed f ctxErr) e' /\
    (f = CLead Aborted -> res = ∅ /\ winner = None) /\
    (forall w, winner = Some w -> exists res, f = CLead (Matched res w)).
Proof.
  intros missing Hf Hinl. unfold evaluateMissing_concurrent, concurrentMatchMissing, concurrentSaveNegatives, evaluation.
  assert (Hempty : truthful rules data ∅) by (intros ? v; by rewrite lookup_empty).
  destruct f as [o|[shared|] err|err [o|]]; simpl in Hf |- *.
  - destruct (collectEvaluations_spec _ _ _ _ _ o e Hf) as (res & winner & err & e1 & -> & He & Hw).
    apply led_ok in Hf. cbn [mbind option_bind]. destruct o as [|r|r|r rule]; destruct Hw as [-> ->].
    + eexists _, _, _. rewrite cache_log_opt. by split_and!; try by destruct ctxErr.
    + destruct Hf as [Hf ->]. apply true_outcomes_truthful in Hf.
      eexists _, _, _. rewrite cache_log_opt. by split_and!.
    + destruct Hf as [Hf Hcov]. apply true_outcomes_truthful in Hf. destruct ctxErr.
      { eexists _, _, _. rewrite cache_log_opt. by split_and!. }
      destruct (residual_spec rules data cached r err e1 Hf) as (res' & e' & Hr & He' & Ht' & Hc');
        [by rewrite covers_residual by auto|].
      cbv zeta in Hr |- *. unfold missing. rewrite Hr.
      eexists _, _, _. split; [done|]. split_and!; try done. by eapply extends_trans.
    + destruct Hf as [Hf Hwin]. apply true_outcomes_truthful in Hf.
      eexists _, _, _. rewrite cache_log_opt. split_and!; try done; intros ? [= <-]; [done|by eexists].
  - destruct ctxErr.
    { eexists _, _, _. rewrite cache_log_opt. by split_and!; try apply extends_refl. }
    destruct (residual_spec rules data cached shared err e Hf Hinl) as (res' & e' & Hr & He' & Ht' & Hc').
      cbv zeta in Hr |- *. unfold missing. rewrite Hr.
    by eexists _, _, _.
  - eexists _, _, _. rewrite cache_log_opt. split_and!; try done; try apply extends_refl.
    by destruct ctxErr.
  - destruct Hf as [ctxErr' Hf].
    destruct (collectEvaluations_spec _ _ _ _ _ o e Hf) as (res & winner & err' & e1 & -> & He & _).
    simpl. eexists _, _, _. split_and!; try done. by destruct ctxErr.
  - eexists _, _, _. split_and!; try done; try apply extends_refl. by destruct ctxErr.
Qed.
End Evaluation.

Section Verdict.
Context {C : Type} (view : C -> bytes -> results) `{CacheStoreLaws C view}.

Lemma ConcurrentAnswer_spec poolSize rules data cached cl f ctxErr (e : env C) :
  cflight_ok poolSize rules data (queue data cached rules ∅) cl ctxErr f ->
  inline_returns f rules data cached = true ->
  exists evaluated winner e',
    ConcurrentAnswer f ctxErr rules data cached e =
      Some (match winner with
            | Some w => Some w
            | None => List.find (hit data cached evaluated) rules
            end, e') /\
    evaluation view rules data (queue data cached rules ∅) e evaluated winner (undisturbed f ctxErr) e' /\
    (f = CLead Aborted -> evaluated = ∅ /\ winner = None) /\
    (forall w, winner = Some w -> exists res, f = CLead (Matched res w)).
Proof.
  intros Hf [Hcl Hinl]%andb_true_iff. unfold ConcurrentAnswer, concurrentClassifyRules.
  rewrite classifyRules_eq, Hcl. cbn [mbind option_bind].
  destruct (Z.ltb_spec 0 (blen (queue data cached rules ∅))) as [Hpos|Hzero].
  - destruct (evaluateMissing_concurrent_spec view poolSize rules data cached cl f ctxErr e Hf Hinl)
      as (res & winner & e' & -> & Hev & Hab & Hwin).
    exists res, winner, e'. cbn [mbind option_bind]. rewrite pick_find.
    split_and!; [by destruct winner|done..].
  - assert (queue data cached rules ∅ = []) as Hq.
    { apply blen_zero. pose proof (blen_nonneg (queue data cached rules ∅)). lia. }
    exists ∅, None, e. cbn [mbind option_bind]. rewrite pick_find, Hq. unfold evaluation. split_and!; try done.
    + apply extends_refl.
    + intros _ _ m Hm. by apply not_elem_of_nil in Hm.
Qed.

Lemma ConcurrentProcess_spec poolSize rules data cl f ctxErr (e : env C) :
  cflight_ok poolSize rules data (missing_of rules data e) cl ctxErr f ->
  inline_returns f rules data (cached_of data e) = true ->
  exists evaluated winner e1 e',
    ConcurrentProcess f ctxErr rules data e =
      Some (match winner with
            | Some w => Some w
            | None => List.find (hit data (cached_of data e) evaluated) rules
            end, e') /\
    cached_of data e ⊆ view (cache e) data /\
    (forall data', view (cache e1) data' ⊆ view (cache e) data') /\
    evaluation view rules data (queue data (cached_of data e) rules ∅) e1 evaluated winner
      (undisturbed f ctxErr) e' /\
    (f = CLead Aborted -> evaluated = ∅ /\ winner = None) /\
    (forall w, winner = Some w -> exists res, f = CLead (Matched res w)).
Proof.
  unfold missing_of. intros Hf Hinl.
  destruct (readCache_spec view data e) as (cached & e1 & Hr & Hsub & Hk).
  rewrite (cached_of_read data e cached e1 Hr) in *. destruct (decide (rules = [])) as [->|Hne].
  { exists ∅, None, e, e. unfold evaluation. split_and!; try done.
    - apply extends_refl.
    - intros _ _ m Hm. by apply not_elem_of_nil in Hm. }
  rewrite ConcurrentProcess_parts, Hr by done. cbn [mbind option_bind].
  destruct (ConcurrentAnswer_spec poolSize rules data cached cl f ctxErr e1 Hf Hinl)
    as (evaluated & winner & e' & -> & Hrest). by exists evaluated, winner, e1, e'.
Qed.

(** The final pass without a winner agrees with the specification. *)
Lemma hit_true rules data cached evaluated r :
  sound_negatives rules data cached -> truthful rules data evaluated ->
  r ∈ rules -> hit data cached evaluated r = true ->
  eligible data r = true /\ entity_outcome rules data (entity r) = true.
Proof.
  intros Hc Ht Hr. unfold hit, eligible. destruct (Disable r) eqn:Hd; simpl; [done|].
  destruct (cached !! entity r) as [v|] eqn:Hv; [intros ->; by destruct (Hc _ _ Hv)|].
  destruct (excepted data (Exceptions r)) eqn:He; simpl; [done|].
  destruct (evaluated !! entity r) as [v|] eqn:Hv'; simpl; [|done].
  intros ->. split; [done|]. symmetry. apply Ht; [done|]. exists r. unfold eligible. by rewrite Hd, He.
Qed.

Lemma winner_outcome rules data cached r :
  winner_of data (queue data cached rules ∅) r ->
  r ∈ rules /\ eligible data r = true /\ entity_outcome rules data (entity r) = true.
Proof.
  intros (m & Hm & <- & Hw). pose proof (queue_first _ _ _ _ _ Hm) as (_ & _ & Hf).
  pose proof (queue_evaluates data cached rules) as Hq. rewrite Forall_forall in Hq.
  specialize (Hq m Hm). unfold evaluates in Hq. apply List.find_some in Hf as [Hin Hc].
  unfold claims in Hc. bsplit.
  split; [by apply list_elem_of_In|]. split; [done|].
  assert (entity (mrule m) = mentity m) as -> by (by eapply bool_decide_eq_true_1). congruence.
Qed.
End Verdict.

Lemma sound_extends {C} view rules data cached (c c' : C) :
  extends view (fun ent => outcome_of data (queue data cached rules ∅) ent false) data c c' ->
  sound view rules c -> sound view rules c'.
Proof. apply extends_sound. Qed.

(** A collection that starts on a closed pool is aborted at its first entity. *)
Lemma closed_collection poolSize data missing st o :
  missing <> [] -> collects poolSize data missing true st -> at_ st = Returned o -> o = Aborted.
Proof.
  intros Hne Hr Ho.
  assert (Hi : closed st = true /\ to_submit st = missing /\ queued st = [] /\ started st = [] /\
    (at_ st = Submitting 0 \/ at_ st = Returned Aborted)).
  { clear Ho. unfold collects in Hr. pattern st. eapply rtc_ind_r; [|clear st Hr|exact Hr].
    { simpl. auto 6. }
    intros st st' _ Hs (Hc & Hm & Hq & Hst & Hp). destruct Hs; simpl in *; subst; try done;
      try (by destruct q1); try (by destruct s1); try (by destruct Hp); auto 6. }
  destruct Hi as (_ & _ & _ & _ & Hp). rewrite Ho in Hp. by destruct Hp; simplify_eq.
Qed.

(** What [Process] answers in any flight, from the entries it has read. *)
Lemma ConcurrentAnswer_answers {C} (view : C -> bytes -> results) `{CacheStoreLaws C view}
    poolSize cl f ctxErr rules data cached (e : env C) :
  sound view rules (cache e) -> sound_negatives rules data cached ->
  cflight_ok poolSize rules data (queue data cached rules ∅) cl ctxErr f ->
  inline_returns f rules data cached = true ->
  exists verdict e', ConcurrentAnswer f ctxErr rules data cached e = Some (verdict, e') /\
    sound view rules (cache e') /\
    match verdict with
    | Some r => r ∈ rules /\ eligible data r = true /\ entity_outcome rules data (entity r) = true
    | None => undisturbed f ctxErr = true -> first_by_entity rules data = None
    end.
Proof.
  intros Hs Hc Hf Hinl. destruct (ConcurrentAnswer_spec view _ _ _ _ _ _ _ e Hf Hinl)
    as (ev & winner & e' & -> & (Hext & Ht & Hw & Hcov) & _).
  eexists _, e'. split; [done|]. split; [by eapply sound_extends|].
  destruct winner as [w|]; [by eapply winner_outcome, Hw|].
  destruct (List.find _ rules) as [r|] eqn:Hfind.
  - apply List.find_some in Hfind as [Hin Hh]. apply list_elem_of_In in Hin. split; [done|]. by eapply hit_true.
  - intros Hu. rewrite <- Hfind. apply find_ext. intros r Hr. symmetry.
    apply hit_outcome; [done|done|by apply Hcov|done].
Qed.

Lemma ConcurrentProcess_answers {C} (view : C -> bytes -> results) `{CacheStoreLaws C view}
    poolSize cl f ctxErr rules data (e : env C)
    (true_negatives : sound view rules (cache e))
    (served : cflight_ok poolSize rules data (missing_of rules data e) cl ctxErr f)
    (no_panic : inline_returns f rules data (cached_of data e) = true) :
  exists verdict e', ConcurrentProcess f ctxErr rules data e = Some (verdict, e') /\
    sound view rules (cache e') /\
    match verdict with
    | Some r => r ∈ rules /\ eligible data r = true /\ entity_outcome rules data (entity r) = true
    | None => undisturbed f ctxErr = true -> first_by_entity rules data = None
    end.
Proof.
  destruct (decide (rules = [])) as [->|Hne]; [by exists None, e|].
  destruct (readCache_spec view data e) as (cached & e1 & Hr & Hsub & Hk).
  unfold missing_of in served. rewrite (cached_of_read data e cached e1 Hr) in served, no_panic.
  rewrite ConcurrentProcess_parts, Hr by done. eapply (ConcurrentAnswer_answers view); [by eapply sound_shrinks| |done..].
  by eapply sound_negatives_weaken; [exact Hsub|].
Qed.

(** ** Properties *)

(** C9: no wrong rule and no missed rule.  Over a store of true negatives, in
    every flight and for every interleaving of the workers, cancellations and
    a closing pool: a rule that [Process] answers is an enabled rule of the
    list, not excepted, whose entity matches the token; and unless the caller
    was cancelled or the pool was closed, [Process] answers some rule whenever
    one applies, even when matchers panic in the workers.  The store still holds
    true negatives only. *)
Theorem ConcurrentProcess_verdict {C} (view : C -> bytes -> results) `{CacheStoreLaws C view}
    poolSize cl f ctxErr rules data (e : env C)
    (true_negatives : sound view rules (cache e))
    (served : cflight_ok poolSize rules data (missing_of rules data e) cl ctxErr f)
    (no_panic : inline_returns f rules data (cached_of data e) = true) :
  exists verdict e', ConcurrentProcess f ctxErr rules data e = Some (verdict, e') /\
    sound view rules (cache e') /\
    match verdict with
    | Some r => r ∈ rules /\ eligible data r = true /\ entity_outcome rules data (entity r) = true
    | None => undisturbed f ctxErr = true -> first_by_entity rules data = None
    end.
Proof. by eapply ConcurrentProcess_answers. Qed.

(** A caller that shares the results of another one's flight answers the
    first rule in order, as the serial runner does, whatever part of its
    entities the shared results cover: the results of a leader that was
    interrupted or found a match early are completed inline. *)
Theorem ConcurrentProcess_waiter {C} (view : C -> bytes -> results) `{CacheStoreLaws C view}
    shared err rules data (e : env C)
    (true_negatives : sound view rules (cache e)) (shared_true : truthful rules data shared)
    (no_panic : inline_returns (CShared (Some shared) err) rules data (cached_of data e) = true) :
  exists e', ConcurrentProcess (CShared (Some shared) err) false rules data e =
      Some (first_by_entity rules data, e') /\ sound view rules (cache e').
Proof.
  destruct (ConcurrentProcess_spec view 0 rules data false (CShared (Some shared) err) false e shared_true no_panic)
    as (ev & winner & e1 & e' & -> & Hsub & He1 & (Hext & Ht & Hw & Hcov) & _ & Hwin).
  assert (winner = None) as -> by (destruct winner as [w|]; [by destruct (Hwin w eq_refl)|done]).
  exists e'. split.
  - do 2 f_equal. apply find_ext. intros r Hr. apply hit_outcome; [|done|by apply Hcov|done].
    intros ent v Hv. eapply true_negatives. by eapply lookup_weaken.
  - eapply sound_extends; [exact Hext|]. by eapply sound_shrinks.
Qed.

(** After Stop nothing is found: a call that starts on a closed pool
    answers no rule, whatever the token. *)
Theorem stopped_runner {C} (view : C -> bytes -> results) `{CacheStoreLaws C view}
    poolSize o ctxErr rules data (e : env C)
    (true_negatives : sound view rules (cache e))
    (served : led poolSize data (missing_of rules data e) true ctxErr o)
    (no_panic : inline_returns (CLead o) rules data (cached_of data e) = true) :
  exists e', ConcurrentProcess (CLead o) ctxErr rules data e = Some (None, e').
Proof.
  destruct (ConcurrentProcess_spec view poolSize rules data true (CLead o) ctxErr e served no_panic)
    as (ev & winner & e1 & e' & -> & Hsub & _ & (_ & Ht & Hw & _) & Hab & _).
  exists e'. do 2 f_equal.
  assert (Hev : winner = None /\ forall m, m ∈ queue data (cached_of data e) rules ∅ -> ev = ∅).
  { destruct served as (st & Hr & Ho & _). unfold missing_of in Hr.
    destruct (queue data (cached_of data e) rules ∅) as [|m ms] eqn:Hm.
    - split; [|by intros m Hm'%not_elem_of_nil].
      destruct winner; [|done]. destruct (Hw _ eq_refl) as (m & Hm' & _). by apply not_elem_of_nil in Hm'.
    - destruct Hab as [-> ->]; [|done]. f_equal. by eapply (closed_collection poolSize data (m :: ms)). }
  destruct Hev as [-> Hev]. apply find_None_forallb, forallb_iff, Forall_forall. intros r Hr.
  apply negb_true_iff. destruct (hit data (cached_of data e) ev r) eqn:Hh; [|done].
  assert (Hc : sound_negatives rules data (cached_of data e)).
  { intros ent v Hv. eapply true_negatives. by eapply lookup_weaken. }
  destruct (hit_true _ _ _ _ _ Hc Ht Hr Hh) as [He Ho']. unfold hit in Hh.
  destruct (cached_of data e !! entity r) as [v|] eqn:Hv.
  { destruct (Hc _ _ Hv) as [-> _]. by rewrite andb_false_r in Hh. }
  destruct (queue_complete data (cached_of data e) rules ∅ r) as (m & Hm & _); [done..|set_solver|].
  rewrite (Hev m Hm), lookup_empty in Hh. simpl in Hh. by rewrite !andb_false_r in Hh.
Qed.

(** A call in which a matcher panics comes back, the context not done and the
    pool open, only with the match of another one. *)
Lemma panicked_match poolSize data missing cl st o :
  collects poolSize data missing cl st -> at_ st = Returned o ->
  ctx_done st = false -> closed st = false ->
  (exists m, m ∈ missing /\ Match (RMatcher (mrule m)) data = None) ->
  exists res rule, o = Matched res rule.
Proof.
  intros Hr%cinv_reachable Ho Hctx Hcl (m & Hm & Hp%panics_iff). destruct Hr as [_ _ _ _ Hph].
  unfold phase_ok in Hph. rewrite Ho in Hph. destruct o as [|res|res|res rule]; simpl in Hph; [congruence|..].
  - destruct Hph as [? _]. congruence.
  - destruct Hph as (_ & _ & Hcov). destruct (Hcov Hctx) as [_ Hno]. by rewrite Hno in Hp.
  - by eexists _, _.
Qed.

(** A token with one rule, whose matcher panics: the call that nobody
    cancels waits for ever. *)
Theorem panicking_matcher_blocks data m (panic : Match (RMatcher (mrule m)) data = None) :
  exists st, collects 1 data [m] false st /\ stuck st /\
    forall st', cstep 1 1 data st st' -> ctx_done st' = true \/ stuck st' /\ closed st' = true.
Proof.
  exists (mkC [] [] [] [] ∅ false false false (Collecting 1)).
  assert (Hr : collects 1 data [m] false (mkC [] [] [] [] ∅ false false false (Collecting 1))).
  { unfold collects, cinitial. eapply rtc_l; [by apply c_submit; simpl; lia|]. simpl app.
    eapply rtc_l; [apply (c_start _ _ _ m [] [] [])|]. simpl app.
    eapply rtc_l; [apply (c_panic _ _ _ m [] [] [] []); unfold item_of; by rewrite panic|]. simpl app.
    eapply rtc_once, c_collect. }
  assert (Hst : stuck (mkC [] [] [] [] ∅ false false false (Collecting 1))) by (by split_and!; [exists 0%nat|..]).
  split_and!; [done|done|]. intros st' Hs.
  destruct (stuck_step 1 data [m] _ st' (cinv_reachable _ _ _ _ _ Hr) Hst Hs) as [?|(? & ? & _)]; auto.
Qed.

(** Either of two tasks may be the first to report. *)
Lemma early_report data m1 m2 m :
  m ∈ [m1; m2] -> matches (mrule m) data = true ->
  led 2 data [m1; m2] false false (Matched {[mentity m := true]} (mrule m)).
Proof.
  intros Hin Hm. assert (Hsplit : exists q1 q2, [m1; m2] = q1 ++ m :: q2).
  { apply list_elem_of_split in Hin as (q1 & q2 & ?). by exists q1, q2. }
  destruct Hsplit as (q1 & q2 & Hq).
  exists (mkC [] (q1 ++ q2) [] [] {[mentity m := true]} false true false
    (Returned (Matched {[mentity m := true]} (mrule m)))). split_and!; [|done|done].
  unfold collects, cinitial. simpl length.
  eapply rtc_l; [by apply c_submit; simpl; lia|].
  eapply rtc_l; [by apply c_submit; simpl; lia|].
  eapply rtc_l; [by apply c_collect|]. simpl app. rewrite Hq.
  eapply rtc_l; [by apply c_start|]. simpl app.
  eapply rtc_l; [apply (c_send _ _ _ m (item_for data m) [] _ [] []); [|simpl; lia]|].
  { apply matches_true in Hm. unfold item_of, item_for, matches. by rewrite Hm. }
  simpl app. eapply rtc_l; [eapply c_match; simpl; [by rewrite Hm|done]|]. unfold absorb. simpl. rewrite Hm.
  eapply rtc_l; [apply c_drained|]. rewrite insert_empty. apply rtc_refl.
Qed.

(** C36: the rule answered need not be the first: when two rules with
    different entities apply to a token, two workers can make either of them
    the answer of [Process], the serial runner always answering the first. *)
Theorem second_rule_may_win r1 r2 data (e : env Noop)
    (distinct : entity r1 <> entity r2)
    (no_panic : exceptions_return data [r1; r2])
    (applies1 : applies data r1 = true) (applies2 : applies data r2 = true) :
  first_match [r1; r2] data = Some r1 /\
  forall r, r ∈ [r1; r2] -> exists o, led 2 data (missing_of [r1; r2] data e) false false o /\
    exists e', ConcurrentProcess (CLead o) false [r1; r2] data e = Some (Some r, e').
Proof.
  split; [unfold first_match; simpl; by rewrite applies1|].
  set (ms := [mkMissing (entity r1) r1; mkMissing (entity r2) r2]).
  assert (Hq : queue data ∅ [r1; r2] ∅ = ms).
  { unfold applies in *. simpl. fold (eligible data r1) (eligible data r2) in *. bsplit.
    rewrite !bool_decide_eq_true_2 by (rewrite ?lookup_empty; set_solver). by rewrite H, H1. }
  assert (Hc : classifyRules [r1; r2] data ∅ =
    Some (map (view_of data ∅) (List.filter (fun r => negb (Disable r)) [r1; r2]), ms)).
  { by rewrite classifyRules_eq, Hq, (exceptions_classifiable data ∅ [r1; r2] no_panic). }
  unfold missing_of, cached_of. simpl. fold ms in Hq. simpl in Hq. rewrite Hq. intros r Hr.
  assert (Hm : matches r data = true).
  { unfold applies in *. bsplit. set_solver. }
  assert (Hl : led 2 data ms false false (Matched {[entity r := true]} r)).
  { apply (early_report data _ _ (mkMissing (entity r) r)); [set_solver|done]. }
  exists (Matched {[entity r := true]} r). split; [done|].
  unfold ConcurrentProcess, concurrentClassifyRules. simpl. rewrite Hc. simpl.
  unfold evaluateMissing_concurrent, doFlight, collectEvaluations, concurrentSaveNegatives.
  destruct (saveNegatives_extends (fun _ _ => ∅) data {[entity r := true]} (mkEnv (cache e) (errors e)))
    as (err & e' & -> & _). simpl. by eexists.
Qed.

(** ** Witnesses *)

Definition alice : Rule := word_rule "alice" (redact_with "A").
Definition bob : Rule := word_rule "bob" (redact_with "B").
Definition anybody : Rule := mkRule false "any" "any" (mkMatcher "any" (fun _ => Some true)) [] (redact_with "C").

Lemma people_panic_free : panic_free [alice; bob; anybody].
Proof. apply panic_free_all. by repeat constructor. Qed.

Definition empty_env : env MapStore := mkEnv ∅ [].

Lemma ConcurrentProcess_verdict_witness :
  let f := CLead (Matched {["bob" := true]} bob) in
  cflight_ok 2 demo_rules (of_str "bob") (missing_of demo_rules (of_str "bob") empty_env) false false f /\
  exists verdict e', ConcurrentProcess f false demo_rules (of_str "bob") empty_env = Some (verdict, e') /\
    verdict = Some bob /\ sound map_view demo_rules (cache e').
Proof.
  intros f.
  assert (Hf : cflight_ok 2 demo_rules (of_str "bob")
    (missing_of demo_rules (of_str "bob") empty_env) false false f).
  { exact (early_report (of_str "bob") (mkMissing "alice" alice) (mkMissing "bob" bob)
      (mkMissing "bob" bob) ltac:(set_solver) eq_refl). }
  split; [exact Hf|].
  destruct (ConcurrentProcess_verdict map_view 2 false f false demo_rules (of_str "bob") empty_env
    (empty_map_sound demo_rules) Hf (panic_free_inline _ _ _ _ demo_panic_free)) as (verdict & e' & He & Hs & _).
  exists verdict, e'. split; [exact He|]. split; [|exact Hs].
  assert (Hv : fst <$> ConcurrentProcess f false demo_rules (of_str "bob") empty_env = Some (Some bob))
    by reflexivity.
  rewrite He in Hv. by injection Hv.
Defined.

Lemma ConcurrentProcess_waiter_witness :
  exists e', ConcurrentProcess (CShared (Some {["any" := true]}) None) false [alice; bob; anybody]
      (of_str "bob") empty_env = Some (Some bob, e') /\ sound map_view [alice; bob; anybody] (cache e').
Proof.
  refine (ConcurrentProcess_waiter map_view {["any" := true]} None [alice; bob; anybody] (of_str "bob")
    empty_env (empty_map_sound _) _ (panic_free_inline _ _ _ _ people_panic_free)).
  intros e v. rewrite lookup_singleton_Some. intros [<- <-]. reflexivity.
Defined.

Lemma stopped_runner_witness :
  exists e', ConcurrentProcess (CLead Aborted) false demo_rules (of_str "bob") empty_env = Some (None, e').
Proof.
  refine (stopped_runner map_view 2 Aborted false demo_rules (of_str "bob") empty_env
    (empty_map_sound demo_rules) _ (panic_free_inline _ _ _ _ demo_panic_free)).
  eexists. split; [eapply rtc_once; apply c_rejected|split; [reflexivity|discriminate]].
Defined.

Lemma two_panic_free : panic_free [bob; anybody].
Proof. apply panic_free_all. by repeat constructor. Qed.

Lemma second_rule_may_win_witness :
  exists o e', led 2 (of_str "bob") (missing_of [bob; anybody] (of_str "bob") (mkEnv tt [])) false false o /\
    ConcurrentProcess (CLead o) false [bob; anybody] (of_str "bob") (mkEnv (tt : Noop) []) =
      Some (Some anybody, e').
Proof.
  destruct (proj2 (second_rule_may_win bob anybody (of_str "bob") (mkEnv tt [])
    ltac:(discriminate) (proj2 (two_panic_free _)) eq_refl eq_refl) anybody ltac:(set_solver)) as (o & Ho & e' & He).
  by exists o, e'.
Defined.
