(* ===== verification/RunnerPool.v ===== *)
(** * Collections that share the pool of the concurrent runner

    Any number of goroutines evaluate tokens on one [ConcurrentRulesRunner]
    (concurrent_runner.go), and its pool has one set of workers for the tasks
    of all their collections. *)
From S2P Require Import Prelude Rules CacheStore SerialRunner Pool ConcurrentRunner.

(** ** Collections as clients of the pool *)

(** What is left of a token and what is missing of it. *)
Abbreviation evaluation := (bytes * list missingEvaluation)%type.

(** The collection finds the pool as the others left it. *)
Definition with_pool (is_closed : bool) (st : cstate) : cstate :=
  mkC (to_submit st) (queued st) (started st) (resultCh st) (acc st) (ctx_done st) (stopped st) is_closed (at_ st).

Definition collection : pool_client evaluation bool cstate := {|
  launch d := cinitial d.2;
  shares := closed;
  enter := with_pool;
  advance d n := cstep n (length d.2) d.1;
  occupied st := (length (queued st) + length (started st))%nat;
  over _ st := settled st \/ stuck st;
  work st := cmeasure (with_pool true st);
  upkeep cl := (if cl then 0 else 1)%nat
|}.

(** [evaluateMissing] is called for the entities that are missing, if any. *)
Definition some_missing (d : evaluation) : Prop := d.2 <> [].

Definition collections (poolSize : nat) : relation (pooled evaluation bool cstate) :=
  pool_step collection poolSize some_missing.

(** ** Their laws *)

#[export] Instance settled_dec st : Decision (settled st).
Proof.
  unfold settled. destruct (at_ st) as [| | |o]; [right; by intros [[? ?] _]..|].
  destruct (queued st); [|right; by intros (_ & ? & _)]. destruct (started st); [|right; by intros (_ & _ & ?)].
  left. split_and!; [by exists o|done..].
Defined.

#[export] Instance stuck_dec st : Decision (stuck st).
Proof.
  unfold stuck. destruct (at_ st) as [|[|n]| |]; try (right; by intros [[? ?] _]).
  destruct (queued st); [|right; naive_solver]. destruct (started st); [|right; naive_solver].
  destruct (resultCh st); [|right; naive_solver]. destruct (ctx_done st); [right; naive_solver|].
  left. split_and!; [by exists n|done..].
Defined.

Definition stays_closed (cl cl' : bool) : Prop := cl = true -> cl' = true.
Definition as_closed (cl cl' : bool) : Prop := cl' = cl.
Definition same_context (st st' : cstate) : Prop := ctx_done st' = ctx_done st.

Lemma cmeasure_work st : cmeasure st = (work collection st + upkeep collection (shares collection st))%nat.
Proof. unfold cmeasure. simpl. unfold cmeasure. simpl. lia. Qed.

Lemma cstep_more_workers n m cap data st st' : (n <= m)%nat -> cstep n cap data st st' -> cstep m cap data st st'.
Proof. intros Hn []; econstructor; eauto. lia. Qed.

Lemma cstep_workers n cap data st st' : cstep n cap data st st' ->
  (occupied collection st' <= occupied collection st \/ occupied collection st' <= n)%nat.
Proof. intros []; simpl; rewrite ?length_app; simpl; rewrite ?length_app; simpl; lia. Qed.

Lemma with_pool_steps n cap data cl st : stays_closed (closed st) cl ->
  rtc (cstep n cap data) st (with_pool cl st).
Proof.
  destruct st as [ts q s ch res ctx stp c p]. unfold stays_closed, with_pool. simpl. intros Hc.
  destruct c, cl; [done|by specialize (Hc eq_refl)|apply rtc_once, c_close|done].
Qed.

Lemma alone_collects poolSize d st :
  alone collection poolSize (fun _ => True) d st -> exists cl, collects poolSize d.1 d.2 cl st.
Proof. intros (cl & _ & Hr). by exists cl. Qed.

(** A collector that is stuck waits for a task whose matcher panicked. *)
Lemma stuck_panicked data missing st : cinv data missing st -> stuck st ->
  exists m, m ∈ missing /\ Match (RMatcher (mrule m)) data = None.
Proof.
  intros [_ _ _ _ Hph] ((n & Hat) & Hq & Hs & Hch & _). unfold phase_ok in Hph. rewrite Hat in Hph.
  destruct Hph as (_ & _ & _ & lost & Hlen & Hl & _). unfold outstanding in Hlen. rewrite Hq, Hs, Hch in Hlen.
  destruct lost as [|m lost]; [done|]. apply Forall_cons in Hl as [[Hm Hp%panics_iff] _]. by exists m.
Qed.

#[export] Instance collection_laws poolSize :
  PoolClientLaws collection poolSize (fun _ => True) stays_closed as_closed same_context.
Proof.
  split; simpl; try done.
  - unfold stays_closed. split; [by intros ?|intros ???; auto].
  - unfold as_closed. split; [by intros ?|intros ???; congruence].
  - unfold same_context. split; [by intros ?|intros ???; congruence].
  - intros _ st. destruct (decide (settled st)), (decide (stuck st)); naive_solver.
  - intros _ st [(_ & -> & ->)|(_ & -> & -> & _)]; done.
  - intros d n m st st'. apply cstep_more_workers.
  - intros d n st st'. apply cstep_workers.
  - unfold stays_closed. by intros d n st st' [].
  - intros d n st st' Hstep%cstep_measure. left. by rewrite !cmeasure_work in Hstep.
  - intros d cl st _. apply with_pool_steps.
  - intros d n cl st (cl0 & _ & Hr) _ Hcl Hn Hfree.
    assert (Hinv : cinv d.1 d.2 (with_pool cl st)).
    { apply (cinv_reachable poolSize _ _ cl0). unfold collects. etrans; [exact Hr|by apply with_pool_steps]. }
    assert (exists st', internal n d.1 d.2 (with_pool cl st) st') as (st' & Hstep & Hctx & Hc).
    { destruct (decide (queued st ++ started st = [])) as [Hidle|Hbusy]; [|by apply worker_progress].
      apply app_eq_nil in Hidle as [Hq Hs].
      destruct (collection_progress n d.1 d.2 (with_pool cl st)) as [?|[Hst _]];
        [apply Hfree; by rewrite Hq, Hs|done| |done|].
      - intros Hset. apply Hn. by left.
      - destruct Hn. by right. }
    exists st'. split_and!; [done|done|done|].
    apply cstep_measure in Hstep. by rewrite !cmeasure_work in Hstep.
Qed.

(** ** Property *)

Lemma collections_backlog poolSize F F' : collections poolSize F F' ->
  (backlog collection F' < backlog collection F)%nat \/
  exists data missing, clients F' = clients F ++ [((data, missing), cinitial missing (common F))] /\
    (backlog collection F' = backlog collection F + 4 * length missing + 4)%nat.
Proof.
  intros [[data missing] cs e _|i d x x' cs e Hi Hstep%cstep_measure].
  - right. exists data, missing. split; [done|].
    etrans; [exact (backlog_call collection (mkPooled cs e) (data, missing))|].
    simpl. unfold cmeasure. simpl. lia.
  - left. rewrite !cmeasure_work in Hstep. by eapply (backlog_insert collection (mkPooled cs e)).
Qed.

(** C27: how collections end, any number of them sharing the pool of the
    runner and matchers that panic included.  Whatever the interleaving, no
    more tasks run than the pool has workers; each collection runs as it could
    alone, and as no more items are sent than its channel holds, no send
    blocks.  A collection for n entities adds 4n + 4 to a number that every
    other step decreases, so nothing goes on for ever; and from every state
    the collections, nobody cancelling or stopping them, can all be brought to
    their end: the caller is back and no worker is left, or the collector waits
    for the result of a task whose matcher panicked, since the pool recovers
    the panic and the task sends nothing.  So a call in which some matcher
    panics comes back, the context not done and the pool open, only with the
    match of another one. *)
Theorem overlapping_collections poolSize F (positive : (0 < poolSize)%nat)
    (run : rtc (collections poolSize) (mkPooled [] false) F) :
  (workers_busy collection (clients F) <= poolSize)%nat /\
  (forall i data missing st, clients F !! i = Some ((data, missing), st) ->
     (exists cl, collects poolSize data missing cl st) /\
     (length (queued st) + length (started st) + length (resultCh st) <= length missing)%nat /\
     (forall o, at_ st = Returned o -> ctx_done st = false -> closed st = false ->
        (exists m, m ∈ missing /\ Match (RMatcher (mrule m)) data = None) ->
        exists res rule, o = Matched res rule)) /\
  (forall F', collections poolSize F F' ->
     (backlog collection F' < backlog collection F)%nat \/
     exists data missing, clients F' = clients F ++ [((data, missing), cinitial missing (common F))] /\
       (backlog collection F' = backlog collection F + 4 * length missing + 4)%nat) /\
  exists F', rtc (collections poolSize) F F' /\ common F' = common F /\
    Forall2 (fun k k' => k'.1 = k.1 /\ ctx_done k'.2 = ctx_done k.2 /\
      (settled k'.2 \/ stuck k'.2 /\ exists m, m ∈ k'.1.2 /\ Match (RMatcher (mrule m)) k'.1.1 = None))
      (clients F) (clients F').
Proof.
  pose proof (pool_inv_reachable collection poolSize _ _ _ _ _ false F I run) as Hp.
  split_and!; [apply Hp| |apply collections_backlog|].
  - intros i data missing st Hi.
    destruct (pool_calls _ _ _ _ _ _ Hp i (data, missing) st Hi) as (_ & [cl Hr]%alone_collects & _). simpl in Hr.
    split_and!; [by exists cl| |].
    + destruct (cinv_reachable _ _ _ _ _ Hr) as [Hroom _ _ _ _]. unfold outstanding in Hroom. lia.
    + intros o. by apply (panicked_match poolSize data missing cl).
  - destruct (pool_completes _ _ _ _ _ _ _ F positive Hp) as (F' & Hrun & Hsame & Hover).
    exists F'. split_and!; [done|done|]. apply Forall2_same_length_lookup in Hover as [Hlen Hover].
    apply Forall2_same_length_lookup. split; [done|]. intros i k [d st] Hk Hk'.
    destruct (Hover i k (d, st) Hk Hk') as (Hd & Hctx & Hset). split_and!; [done|done|].
    destruct Hset as [?|Hst]; [by left|right]. split; [done|].
    assert (Hp' : pool_inv collection poolSize some_missing (fun _ => True) stays_closed F')
      by (eapply pool_inv_reachable; [apply _|exact I|by etrans]).
    destruct (pool_calls _ _ _ _ _ _ Hp' i d st Hk') as (_ & [cl Hr%cinv_reachable]%alone_collects & _).
    by eapply stuck_panicked.
Qed.

(** ** Witness *)

(** Two collections and a single worker. *)
Definition two_collections : pooled evaluation bool cstate :=
  let k := ((of_str "bob", [mkMissing "bob" bob]), cinitial [mkMissing "bob" bob] false) in mkPooled [k; k] false.

Lemma overlapping_collections_witness :
  exists F, rtc (collections 1) two_collections F /\ common F = false /\ length (clients F) = 2%nat /\
    Forall (fun k => settled k.2) (clients F).
Proof.
  destruct (overlapping_collections 1 two_collections ltac:(lia)) as (_ & _ & _ & F & Hrun & Hcl & Hall).
  { eapply rtc_l; [by apply (p_call collection 1 some_missing (of_str "bob", [mkMissing "bob" bob]) [] false)|].
    apply rtc_once. by apply (p_call collection 1 some_missing (of_str "bob", [mkMissing "bob" bob]) [_] false). }
  exists F. split_and!; [exact Hrun|exact Hcl|by apply Forall2_length in Hall|].
  apply Forall_lookup. intros i k' Hk'.
  destruct (Forall2_lookup_r _ _ _ _ _ Hall Hk') as (k & Hk & Hd & _ & [Hset|(_ & m & Hin & Hm)]); [exact Hset|].
  assert (k.1 = (of_str "bob", [mkMissing "bob" bob])) as Hk1 by (destruct i as [|[|]]; simpl in Hk; by simplify_eq).
  rewrite Hd, Hk1 in Hin, Hm. apply list_elem_of_singleton in Hin as ->. discriminate Hm.
Defined.
