(* ===== verification/Runners.v ===== *)
(** * analyzer/serial_runner.go and concurrent_runner.go: the runners seen by the byte analyzer

    The order in which a pool of one worker evaluates, the outcomes every pool
    can produce, and both runners behind the interface [RuleRunner]: each call
    is served by the flight that a schedule, unknown to the caller, gives it. *)
From S2P Require Import Prelude Rules CacheStore ByteAnalyzer SerialRunner ConcurrentRunner.

(** ** The first missing entity that matches *)

Definition first_matching (data : bytes) (missing : list missingEvaluation) : option missingEvaluation :=
  List.find (fun m => matches (mrule m) data) missing.

(** Not cached, and not queued before. *)
Definition pending (data : bytes) (cached : results) (queued : gset Entity) (r : Rule) : bool :=
  eligible data r && bool_decide (cached !! entity r = None) && bool_decide (entity r ∉ queued).

Section FirstMatching.
Context (data : bytes) (cached : results).

Lemma entity_outcome_cons r rules e :
  entity_outcome (r :: rules) data e =
    if eligible data r && bool_decide (entity r = e) then matches r data
    else entity_outcome rules data e.
Proof. unfold entity_outcome. simpl. by destruct (_ && _). Qed.

(** The queue keeps the order of the rules. *)
Lemma queue_first_matching rules : forall Q,
  mrule <$> first_matching data (queue data cached rules Q) =
    List.find (fun r => pending data cached Q r && entity_outcome rules data (entity r)) rules.
Proof.
  induction rules as [|r rules IH]; intros Q; [done|]. cbn [queue List.find].
  fold (pending data cached Q r). rewrite entity_outcome_cons.
  rewrite (bool_decide_eq_true_2 (entity r = entity r)) by done. rewrite andb_true_r.
  destruct (pending data cached Q r) eqn:Hp.
  - unfold first_matching. cbn [List.find]. cbn [mrule].
    assert (eligible data r = true) as He by (unfold pending in Hp; by bsplit). rewrite He. cbn [andb].
    destruct (matches r data) eqn:Hm; [done|]. fold (first_matching data (queue data cached rules ({[entity r]} ∪ Q))).
    rewrite IH. apply find_ext. intros r' _. rewrite entity_outcome_cons, Hm.
    unfold pending. destruct (decide (entity r' ∈ Q)) as [Hin|Hin].
    { rewrite !(bool_decide_eq_false_2 (entity r' ∉ _)) by set_solver. by rewrite !andb_false_r. }
    destruct (decide (entity r = entity r')) as [Heq|Hne].
    + rewrite <- Heq, (bool_decide_eq_false_2 (entity r ∉ _)) by set_solver.
      rewrite (bool_decide_eq_true_2 (entity r = entity r)), andb_true_r by done.
      rewrite He. simpl. by rewrite !andb_false_r.
    + rewrite !(bool_decide_eq_true_2 (entity r' ∉ _)) by set_solver.
      rewrite (bool_decide_eq_false_2 (entity r = entity r') Hne), andb_false_r. done.
  - cbn [andb]. rewrite IH. apply find_ext. intros r' _. rewrite entity_outcome_cons.
    destruct (eligible data r && bool_decide (entity r = entity r')) eqn:Hc; [|done]. bsplit.
    match goal with H : bool_decide (entity r = entity r') = true |- _ => apply bool_decide_eq_true in H; rename H into Heq end.
    assert (pending data cached Q r' = false) as ->; [|done].
    unfold pending in *. rewrite Heq in Hp.
    match goal with H : eligible data r = true |- _ => rewrite H in Hp end. cbn [andb] in Hp.
    rewrite <- andb_assoc, Hp. apply andb_false_r.
Qed.

Lemma first_matching_by_entity rules :
  sound_negatives rules data cached ->
  mrule <$> first_matching data (queue data cached rules ∅) = first_by_entity rules data.
Proof.
  intros Hs. rewrite queue_first_matching. unfold first_by_entity. apply find_ext. intros r _.
  unfold pending. rewrite (bool_decide_eq_true_2 (entity r ∉ ∅)) by set_solver. rewrite andb_true_r.
  destruct (cached !! entity r) as [v|] eqn:Hc.
  - destruct (Hs _ _ Hc) as [_ ->]. by rewrite !andb_false_r.
  - rewrite bool_decide_eq_true_2 by done. by rewrite andb_true_r.
Qed.
End FirstMatching.

(** ** A pool of one worker *)

(** Those that have an item to send. *)
Definition reporting (data : bytes) (ms : list missingEvaluation) : list missingEvaluation :=
  List.filter (fun m => negb (panics data m)) ms.

(** Until somebody cancels, the tasks end in the order of the entities: those
    received did not match, the items of the next ones that returned are in the
    channel, and the rest is with the worker and still to be submitted. *)
Definition in_order (data : bytes) (missing : list missingEvaluation) (st : cstate) : Prop :=
  exists received sent,
    missing = received ++ sent ++ started st ++ queued st ++ to_submit st /\
    resultCh st = map (item_for data) (reporting data sent) /\
    Forall (fun m => matches (mrule m) data = false) received /\
    (length (queued st) + length (started st) <= 1)%nat /\ stopped st = false.

Definition oinv (data : bytes) (missing : list missingEvaluation) (st : cstate) : Prop :=
  ctx_done st = false ->
  match at_ st with
  | Submitting _ | Collecting _ => in_order data missing st
  | Draining r | Returned (Matched _ r) => mrule <$> first_matching data missing = Some r
  | Returned _ => True
  end.

Lemma first_matching_split data pre m post :
  Forall (fun m => matches (mrule m) data = false) pre -> matches (mrule m) data = true ->
  first_matching data (pre ++ m :: post) = Some m.
Proof.
  intros Hpre Hm. apply find_Some_split. exists pre, post. split_and!; [done..|].
  apply forallb_forall. intros x Hx. rewrite Forall_forall in Hpre.
  rewrite Hpre; [done|by apply list_elem_of_In].
Qed.

(** The worker holds one task at most. *)
Lemma one_task {A} (q1 q2 s : list A) m :
  (length (q1 ++ m :: q2) + length s <= 1)%nat -> q1 = [] /\ q2 = [] /\ s = [].
Proof. rewrite length_app. simpl. destruct q1, q2, s; simpl; intros; try lia; done. Qed.

Lemma filter_cons_split {A} (f : A -> bool) l x l' : List.filter f l = x :: l' ->
  exists l1 l2, l = l1 ++ x :: l2 /\ Forall (fun y => f y = false) l1 /\ l' = List.filter f l2.
Proof.
  induction l as [|y l IH]; simpl; [done|]. destruct (f y) eqn:Hy.
  - intros [= <- <-]. by exists [], l.
  - intros (l1 & l2 & -> & Hl & ->)%IH. exists (y :: l1), l2. split_and!; [done|by constructor|done].
Qed.

Lemma panics_no_match data m : panics data m = true -> matches (mrule m) data = false.
Proof. intros Hp%panics_iff. unfold matches. by rewrite Hp. Qed.

Lemma in_order_receive data missing ts q s item ch res ctx st cl n :
  in_order data missing (mkC ts q s (item :: ch) res ctx st cl (Collecting n)) ->
  exists received m sent, missing = (received ++ [m]) ++ sent ++ s ++ q ++ ts /\
    item = item_for data m /\ ch = map (item_for data) (reporting data sent) /\
    Forall (fun m => matches (mrule m) data = false) received /\
    (length q + length s <= 1)%nat /\ st = false.
Proof.
  intros (received & sent & -> & Hch & Hrec & Hlen & Hst). simpl in *.
  destruct (reporting data sent) as [|m rest] eqn:Hs; simpl in Hch; simplify_eq.
  apply filter_cons_split in Hs as (pre & sent' & -> & Hpre & ->).
  exists (received ++ pre), m, sent'. split_and!; [by rewrite <- !app_assoc|done|done| |done|done].
  apply Forall_app. split; [done|]. eapply Forall_impl; [exact Hpre|].
  intros m' Hm'%negb_false_iff. by apply panics_no_match.
Qed.

(** The steps of the worker. *)
Lemma in_order_start data missing ts q1 m q2 s ch res ctx st cl p :
  in_order data missing (mkC ts (q1 ++ m :: q2) s ch res ctx st cl p) ->
  in_order data missing (mkC ts (q1 ++ q2) (s ++ [m]) ch res ctx st cl p).
Proof.
  intros (rec & sent & Hm & Hch & Hrec & Hlen & Hst). simpl in *.
  destruct (one_task q1 q2 s m) as (-> & -> & ->); [done|]. exists rec, sent. by split_and!.
Qed.

Lemma in_order_end data missing ts q s1 m s2 ch res ctx st cl p :
  in_order data missing (mkC ts q (s1 ++ m :: s2) ch res ctx st cl p) ->
  in_order data missing (mkC ts q (s1 ++ s2) (ch ++ map (item_for data) (reporting data [m])) res ctx st cl p).
Proof.
  intros (rec & sent & Hm & Hch & Hrec & Hlen & Hst). simpl in *. subst ch.
  destruct (one_task s1 s2 q m) as (-> & -> & ->); [lia|]. exists rec, (sent ++ [m]). simpl in *.
  unfold reporting. rewrite List.filter_app, map_app. split_and!; [|done|done|lia|done]. by rewrite <- app_assoc.
Qed.

Lemma in_order_bail data missing ts q ch ch' q' s res st cl p p' :
  in_order data missing (mkC ts q s ch res false st cl p) -> false || st = true ->
  in_order data missing (mkC ts q' s ch' res false st cl p').
Proof. intros (? & ? & _ & _ & _ & _ & Hst) Hd. simpl in *. congruence. Qed.

Lemma oinv_step data missing st st' :
  oinv data missing st -> cstep 1 (length missing) data st st' -> oinv data missing st'.
Proof.
  unfold oinv. intros Hi Hstep. destruct Hstep; simpl in *; intros Hctx; try discriminate Hctx;
    try specialize (Hi Hctx); try done.
  - destruct Hi as (rec & sent & Hm & Hch & Hrec & _ & Hst). simpl in *.
    assert (q = [] /\ s = []) as [-> ->] by (destruct q, s; simpl in *; try lia; done).
    exists rec, sent. split_and!; simpl; [done..|lia|done].
  - apply (in_order_receive data missing) in Hi as (rec & m & sent & -> & -> & -> & Hrec & Hlen & ->).
    exists (rec ++ [m]), sent. split_and!; [done..| |done|done]. rewrite Forall_app. split; [done|].
    by constructor.
  - apply (in_order_receive data missing) in Hi as (rec & m & sent & -> & -> & -> & Hrec & Hlen & _).
    simpl in *. simplify_eq. rewrite <- app_assoc. simpl. by rewrite first_matching_split.
  - destruct p; try done; apply in_order_start; exact Hi.
  - destruct p; try done; rewrite Hctx in *; by eapply in_order_bail.
  - match goal with H : item_of _ _ = Some _ |- _ => apply item_of_Some in H as (Hpanic & -> & _ & _) end.
    destruct p; try done; apply in_order_end in Hi; unfold reporting in Hi; simpl in Hi; by rewrite Hpanic in Hi.
  - match goal with H : item_of _ _ = None |- _ => apply item_of_None in H as Hpanic end.
    destruct p; try done; apply in_order_end in Hi; unfold reporting in Hi; simpl in Hi;
      by rewrite Hpanic, app_nil_r in Hi.
Qed.

Lemma one_worker_led data missing cl res rule :
  led 1 data missing cl false (Matched res rule) -> mrule <$> first_matching data missing = Some rule.
Proof.
  intros (st & Hr & Ho & Hc).
  assert (Hi : oinv data missing st).
  { unfold collects in Hr. pattern st. eapply rtc_ind_r; [|intros ? ? _ Hs Hi; by eapply oinv_step|exact Hr].
    intros _. exists [], []. simpl. split_and!; [done..|lia|done]. }
  unfold oinv in Hi. rewrite Ho in Hi. apply Hi. destruct (ctx_done st); [|done]. by specialize (Hc eq_refl).
Qed.

Lemma one_worker_answers {C} (view : C -> bytes -> results) `{CacheStoreLaws C view}
    cl f rules data (e : env C)
    (true_negatives : sound view rules (cache e))
    (served : cflight_ok 1 rules data (missing_of rules data e) cl false f)
    (not_disturbed : undisturbed f false = true)
    (no_panic : inline_returns f rules data (cached_of data e) = true) :
  exists e', ConcurrentProcess f false rules data e = Some (first_by_entity rules data, e') /\
    sound view rules (cache e').
Proof.
  destruct (ConcurrentProcess_spec view 1 rules data cl f false e served no_panic)
    as (ev & winner & e1 & e' & -> & Hsub & He1 & (Hext & Ht & Hw & Hcov) & _ & Hwin).
  assert (Hc : sound_negatives rules data (cached_of data e)).
  { intros ent v Hv. eapply true_negatives. by eapply lookup_weaken. }
  exists e'. split.
  - f_equal. f_equal. destruct winner as [w|].
    + destruct (Hwin w eq_refl) as [res ->]. simpl in served.
      apply one_worker_led in served. unfold missing_of in served.
      by rewrite <- (first_matching_by_entity data (cached_of data e)), served.
    + apply find_ext. intros r Hr. apply hit_outcome; [done|done|by apply Hcov|done].
  - eapply sound_extends; [exact Hext|]. by eapply sound_shrinks.
Qed.

(** ** An outcome every pool can produce *)

(** All the workers report before the caller collects, no matcher panicking. *)
Definition eager_outcome (data : bytes) (missing : list missingEvaluation) : outcome :=
  match first_matching data missing with
  | Some m => Matched (outcomes data missing) (mrule m)
  | None => Complete (outcomes data missing)
  end.

Section Eager.
Context (poolSize cap : nat) (data : bytes) (Hpool : (0 < poolSize)%nat).
Let step := cstep poolSize cap data.

Lemma item_of_evaluable m : evaluable data m = true -> item_of data m = Some (item_for data m).
Proof. intros Hm. rewrite item_of_eq. unfold panics. by rewrite Hm. Qed.

Lemma eager_submit ts : forall ch n, (length ch + length ts <= cap)%nat -> forallb (evaluable data) ts = true ->
  rtc step (mkC ts [] [] ch ∅ false false false (Submitting n))
    (mkC [] [] [] (ch ++ map (item_for data) ts) ∅ false false false (Submitting (length ts + n))).
Proof.
  induction ts as [|m ts IH]; intros ch n Hcap Hev; simpl in *; [by rewrite app_nil_r|]. bsplit.
  eapply rtc_l; [by apply c_submit; simpl; lia|]. eapply rtc_l; [apply (c_start _ _ _ m _ [] [])|].
  eapply rtc_l; [apply (c_send _ _ _ m (item_for data m) _ [] [] []); [by apply item_of_evaluable|lia]|].
  replace (S (length ts + n)) with (length ts + S n)%nat by lia.
  specialize (IH (ch ++ [item_for data m]) (S n)). rewrite <- app_assoc in IH.
  apply IH; [rewrite length_app; simpl; lia|done].
Qed.

Lemma eager_drain ms r : forall res,
  rtc step (mkC [] [] [] (map (item_for data) ms) res false true false (Draining r))
    (mkC [] [] [] [] (outcomes_loop data ms res) false true false
       (Returned (Matched (outcomes_loop data ms res) r))).
Proof.
  induction ms as [|m ms IH]; intros res; simpl; [eapply rtc_once, c_drained|].
  eapply rtc_l; [apply c_drain|]. apply IH.
Qed.

Lemma eager_collect ms : forall res, exists st',
  rtc step (mkC [] [] [] (map (item_for data) ms) res false false false (Collecting (length ms))) st' /\
  ctx_done st' = false /\
  at_ st' = Returned match first_matching data ms with
                     | Some m => Matched (outcomes_loop data ms res) (mrule m)
                     | None => Complete (outcomes_loop data ms res)
                     end.
Proof.
  induction ms as [|m ms IH]; intros res.
  { eexists. split; [eapply rtc_once, c_complete|]. done. }
  unfold first_matching. cbn [List.find map length]. destruct (matches (mrule m) data) eqn:Hm.
  - exists (mkC [] [] [] [] (outcomes_loop data (m :: ms) res) false true false
      (Returned (Matched (outcomes_loop data (m :: ms) res) (mrule m)))). split; [|done].
    eapply rtc_l; [by eapply c_match|]. simpl. apply eager_drain.
  - destruct (IH (<[mentity m := false]> res)) as (st' & Hr & Hc & Ho). exists st'. simpl. rewrite Hm.
    split; [|done]. eapply rtc_l; [by apply c_receive|]. unfold absorb. simpl. by rewrite Hm.
Qed.

Lemma eager_led missing : (length missing = cap) -> forallb (evaluable data) missing = true ->
  led poolSize data missing false false (eager_outcome data missing).
Proof.
  intros Hcap Hev. destruct (eager_collect missing ∅) as (st' & Hr & Hc & Ho). exists st'.
  split; [|split; [|by rewrite Hc]].
  - unfold collects, cinitial. rewrite Hcap.
    etrans; [apply (eager_submit missing [] 0); [simpl; lia|done]|]. rewrite Nat.add_0_r.
    eapply rtc_l; [apply c_collect|]. exact Hr.
  - rewrite Ho. unfold eager_outcome, outcomes. by destruct (first_matching data missing).
Qed.
End Eager.

(** ** The runners behind the interface *)

(** A runner with the flights its next calls will be in: the schedule says
    what the other callers, the workers and the context do. *)
Record scheduled (F C : Type) := mkScheduled {
  senv : env C;
  schedule : nat -> bytes -> list missingEvaluation -> F;
  calls : nat
}.
Arguments mkScheduled {F C}.
Arguments senv {F C}.
Arguments schedule {F C}.
Arguments calls {F C}.

(** What the next call is served by. *)
Definition serves {F C} `{CacheStore C} (rules : list Rule) (data : bytes) (c : scheduled F C) : F :=
  schedule c (calls c) data (missing_of rules data (senv c)).

Definition served {F C} (c : scheduled F C) (e : env C) : scheduled F C :=
  mkScheduled e (schedule c) (S (calls c)).

#[export] Instance Scheduled_Serial {C} `{CacheStore C} : RuleRunner (scheduled flight C) :=
  fun rules data c =>
    '(verdict, e) ← SerialProcess (serves rules data c) rules data (senv c);
    Some (verdict, served c e).

(** A concurrent flight, and whether the context is done after it. *)
#[export] Instance Scheduled_Concurrent {C} `{CacheStore C} : RuleRunner (scheduled (cflight * bool) C) :=
  fun rules data c =>
    '(verdict, e) ← ConcurrentProcess (serves rules data c).1 (serves rules data c).2 rules data (senv c);
    Some (verdict, served c e).

(** The parts of a call: the read, and the rest, once served. *)
Definition with_env {F C} (c : scheduled F C) (e : env C) : scheduled F C :=
  mkScheduled e (schedule c) (calls c).

Definition served_after {F C} (rules : list Rule) (data : bytes) (cached : results) (c : scheduled F C) : F :=
  schedule c (calls c) data (queue data cached rules ∅).

#[export] Instance Stepped_Serial {C} `{CacheStore C} : SteppedRunner (scheduled flight C) results := {
  Begin rules data c := '(cached, e) ← readCache data (senv c); Some (cached, with_env c e);
  Finish rules data cached c :=
    '(verdict, e) ← SerialAnswer (served_after rules data cached c) rules data cached (senv c);
    Some (verdict, served c e)
}.

(** The concurrent runner reads nothing when there are no rules. *)
#[export] Instance Stepped_Concurrent {C} `{CacheStore C} :
    SteppedRunner (scheduled (cflight * bool) C) (option results) := {
  Begin rules data c :=
    if blen rules =? 0 then Some (None, c)
    else '(cached, e) ← readCache data (senv c); Some (Some cached, with_env c e);
  Finish rules data j c :=
    match j with
    | None => Some (None, served c (senv c))
    | Some cached =>
        let fl := served_after rules data cached c in
        '(verdict, e) ← ConcurrentAnswer fl.1 fl.2 rules data cached (senv c);
        Some (verdict, served c e)
    end
}.

(** What a runner may answer: a rule that applies, and none only if none does. *)
Definition may_answer (rules : list Rule) (data : bytes) (v : option Rule) : Prop :=
  match v with
  | Some r => r ∈ rules /\ eligible data r = true /\ entity_outcome rules data (entity r) = true
  | None => first_by_entity rules data = None
  end.

Lemma by_entity_may_answer rules data : may_answer rules data (first_by_entity rules data).
Proof.
  unfold may_answer. destruct (first_by_entity rules data) as [r|] eqn:Hf; [|done].
  apply List.find_some in Hf as [Hin He]. bsplit. split_and!; [by apply list_elem_of_In|done|done].
Qed.

Section Scheduled.
Context {C : Type} (view : C -> bytes -> results) `{HL : CacheStoreLaws C view}.

(** The store holds true negatives, no matcher panics and no call is cut short;
    without a coalescer every call leads its own flight. *)
Definition serial_ok (coalesced : bool) (rules : list Rule) (c : scheduled flight C) : Prop :=
  sound view rules (cache (senv c)) /\ panic_free rules /\
  forall n data missing, flight_ok rules data (schedule c n data missing) /\
    (coalesced = false -> schedule c n data missing = Lead).

Definition concurrent_ok (coalesced : bool) (poolSize : nat) (rules : list Rule)
    (c : scheduled (cflight * bool) C) : Prop :=
  sound view rules (cache (senv c)) /\ panic_free rules /\
  forall n data cached, let missing := queue data cached rules ∅ in
    let '(f, ctxErr) := schedule c n data missing in
    (exists cl, cflight_ok poolSize rules data missing cl ctxErr f) /\
    undisturbed f ctxErr = true /\
    (coalesced = false -> exists o, f = CLead o).

Lemma serial_ok_env coalesced rules c e n :
  sound view rules (cache e) -> serial_ok coalesced rules c ->
  serial_ok coalesced rules (mkScheduled e (schedule c) n).
Proof. intros Hs (_ & Hp & Hf). by split_and!. Qed.

Lemma concurrent_ok_env coalesced poolSize rules c e n :
  sound view rules (cache e) -> concurrent_ok coalesced poolSize rules c ->
  concurrent_ok coalesced poolSize rules (mkScheduled e (schedule c) n).
Proof. intros Hs (_ & Hp & Hf). by split_and!. Qed.

(** The read keeps the store sound, and what it returns. *)
Lemma readCache_sound rules data (e : env C) : sound view rules (cache e) ->
  exists cached e1, readCache data e = Some (cached, e1) /\ sound view rules (cache e1) /\
    sound_negatives rules data cached.
Proof.
  intros Hs. destruct (readCache_spec view data e) as (cached & e1 & Hr & Hsub & Hk).
  exists cached, e1. split_and!; [done|by eapply sound_shrinks|by eapply sound_negatives_weaken].
Qed.

Definition holds_negatives (rules : list Rule) (data : bytes) (j : option results) : Prop :=
  match j with None => rules = [] | Some cached => sound_negatives rules data cached end.

#[export] Instance Stepped_Serial_Spec coalesced :
  SteppedRunnerSpec (scheduled flight C) results (serial_ok coalesced) sound_negatives (gives first_by_entity).
Proof.
  split.
  - intros rules data c. unfold Process, Scheduled_Serial, Begin, Finish, Stepped_Serial, serves, served_after, missing_of.
    rewrite SerialProcess_parts. destruct (readCache data (senv c)) as [[cached e]|] eqn:Hr; simpl; [|done].
    by rewrite (cached_of_read data (senv c) cached e Hr).
  - intros rules data c Hok. destruct (readCache_sound rules data (senv c)) as (cached & e & Hr & Hs & Hc); [apply Hok|].
    exists cached, (with_env c e). simpl. rewrite Hr. split_and!; [done|by apply serial_ok_env|done].
  - intros rules data cached c Hok Hc. simpl.
    destruct Hok as (Hs0 & Hp & Hsch). destruct (Hsch (calls c) data (queue data cached rules ∅)) as [Hf _].
    destruct (SerialAnswer_verdict view (served_after rules data cached c) rules data cached (senv c))
      as (e & Ha & Hs); [done|done|done|by apply panic_free_returns|].
    rewrite Ha. exists (first_by_entity rules data), (served c e).
    split_and!; [done|by apply serial_ok_env|done].
  - intros rules data rule Hv. by apply (first_by_entity_in rules data).
Qed.

#[export] Instance Stepped_Concurrent_Spec coalesced poolSize :
  SteppedRunnerSpec (scheduled (cflight * bool) C) (option results) (concurrent_ok coalesced poolSize)
    holds_negatives may_answer.
Proof.
  split.
  - intros rules data c. unfold Process, Scheduled_Concurrent, Begin, Finish, Stepped_Concurrent, serves, served_after, missing_of.
    destruct (decide (rules = [])) as [->|Hne]; [done|].
    pose proof (blen_pos rules Hne). rewrite ConcurrentProcess_parts by done. if_lia.
    destruct (readCache data (senv c)) as [[cached e]|] eqn:Hr; simpl; [|done].
    by rewrite (cached_of_read data (senv c) cached e Hr).
  - intros rules data c Hok. simpl. destruct (Z.eqb_spec (blen rules) 0) as [Hz%blen_zero|_].
    { exists None, c. by split_and!. }
    destruct (readCache_sound rules data (senv c)) as (cached & e & Hr & Hs & Hc); [apply Hok|].
    exists (Some cached), (with_env c e). rewrite Hr. split_and!; [done|by apply concurrent_ok_env|done].
  - intros rules data [cached|] c Hok Hc; simpl in *.
    + pose proof (proj2 (proj2 Hok) (calls c) data cached) as Hf. cbv zeta in Hf.
      unfold served_after. destruct (schedule c _ _ _) as [f ctxErr]. destruct Hf as ([cl Hf] & Hu & _). simpl in *.
      destruct (ConcurrentAnswer_answers view poolSize cl f ctxErr rules data cached (senv c))
        as (v & e & Ha & Hs & Hv); [apply Hok|done|done|by apply panic_free_inline, Hok|].
      rewrite Ha. exists v, (served c e). split_and!; [done|by apply concurrent_ok_env|].
      destruct v as [r|]; [exact Hv|by apply Hv].
    + subst rules. exists None, (served c (senv c)). split_and!; [done|apply concurrent_ok_env; [apply Hok|done]|done].
  - by intros rules data rule (? & _).
Qed.

(** With one worker the answer is determined. *)
#[export] Instance One_Worker_Laws coalesced :
  RuleRunnerLaws (scheduled (cflight * bool) C) (concurrent_ok coalesced 1) first_by_entity.
Proof.
  split; [|intros rules data rule Hv; by apply (first_by_entity_in rules data)].
  intros rules data c (Hs & Hp & Hf). unfold Process, Scheduled_Concurrent, serves, missing_of.
  specialize (Hf (calls c) data (cached_of data (senv c))) as Hc. cbv zeta in Hc.
  destruct (schedule c _ _ _) as [f ctxErr]. destruct Hc as ([cl Hserved] & Hu & _).
  assert (ctxErr = false) as -> by (unfold undisturbed in Hu; by destruct ctxErr).
  destruct (one_worker_answers view cl f rules data (senv c) Hs Hserved Hu) as (e' & HP & Hs');
    [by apply panic_free_inline|].
  simpl. rewrite HP. exists (first_by_entity rules data), (served c e'). by split.
Qed.

(** Schedules in which every call leads its flight, and waits for its workers. *)
Definition lead_schedule (n : nat) (data : bytes) (missing : list missingEvaluation) : flight := Lead.

Definition eager_schedule (n : nat) (data : bytes) (missing : list missingEvaluation) : cflight * bool :=
  (CLead (eager_outcome data missing), false).

Lemma lead_serial_ok coalesced rules (e : env C) :
  panic_free rules -> sound view rules (cache e) -> serial_ok coalesced rules (mkScheduled e lead_schedule 0).
Proof. by intros Hp Hs. Qed.

Lemma eager_concurrent_ok coalesced poolSize rules (e : env C) :
  (0 < poolSize)%nat -> panic_free rules -> sound view rules (cache e) ->
  concurrent_ok coalesced poolSize rules (mkScheduled e eager_schedule 0).
Proof.
  intros Hpool Hp Hs. split_and!; [done..|]. intros n data cached. simpl. split_and!.
  - exists false. apply (eager_led poolSize (length (queue data cached rules ∅))); [done..|].
    apply queue_evaluable, Hp.
  - unfold eager_outcome. by destruct (first_matching data _).
  - by eexists.
Qed.
End Scheduled.

(** ** Properties *)

(** C26: a pool of one worker answers the first rule in order, as the serial
    runner does: over a store of true negatives and for every interleaving of
    the worker with its caller, [Process] returns the rule the serial runner
    returns unless the caller was cancelled or the pool was closed, or a matcher
    that the caller itself calls panics. *)
Theorem one_worker_first_rule {C} (view : C -> bytes -> results) `{CacheStoreLaws C view}
    cl f rules data (e : env C)
    (true_negatives : sound view rules (cache e))
    (served : cflight_ok 1 rules data (missing_of rules data e) cl false f)
    (not_disturbed : undisturbed f false = true)
    (no_panic : inline_returns f rules data (cached_of data e) = true) :
  exists e', ConcurrentProcess f false rules data e = Some (first_by_entity rules data, e') /\
    sound view rules (cache e').
Proof. by eapply one_worker_answers. Qed.

(** ** Witnesses *)

Lemma one_worker_first_rule_witness :
  exists e', ConcurrentProcess (CLead (eager_outcome (of_str "bob")
      (missing_of [alice; bob; anybody] (of_str "bob") empty_env))) false
      [alice; bob; anybody] (of_str "bob") empty_env = Some (Some bob, e') /\
    sound map_view [alice; bob; anybody] (cache e').
Proof.
  refine (one_worker_first_rule map_view false _ [alice; bob; anybody] (of_str "bob") empty_env
    (empty_map_sound _) _ _ _); [apply (eager_led 1 3); [lia|reflexivity|reflexivity]|reflexivity|].
  apply panic_free_inline, people_panic_free.
Defined.
