(* ===== verification/Panics.v ===== *)
(** * Matchers that panic, from the runner to the text

    A matcher is code of the caller and may panic.  On the sequential path the
    panic goes up to the caller of [Anonymize].  On the concurrent path it
    happens in a task: the panic handler of the pool (pool.go) recovers it, the
    deferred [wg.Done] counts the task, and the token is copied as it is.

    With coalescing the matchers are called in a flight, in a goroutine that the
    group starts: nobody recovers a panic there, the group panics again and the
    program ends.  What is said of coalesced calls below is about rules whose
    matchers return; their exceptions, which the caller evaluates itself, may
    panic. *)
From S2P Require Import Prelude GoBytes Tokenization Rules ByteAnalyzer ConcurrentTokens CacheStore SerialRunner Runners.

(** ** The serial runner with any rules *)

Section Serial.
Context {C : Type} (view : C -> bytes -> results) `{HL : CacheStoreLaws C view}.

(** The store holds true negatives, no caller is cancelled, and no matcher panics
    in a flight. *)
Definition serial_runs (coalesced : bool) (rules : list Rule) (c : scheduled flight C) : Prop :=
  sound view rules (cache (senv c)) /\
  (coalesced = true -> forall data, matchers_return data rules) /\
  forall n data missing, flight_ok rules data (schedule c n data missing) /\
    (coalesced = false -> schedule c n data missing = Lead).

#[export] Instance Panicky_Serial coalesced :
  PanickyRunnerSpec (scheduled flight C) results (serial_runs coalesced) sound_negatives
    (gives first_by_entity) may_panic.
Proof.
  split.
  - intros rules data c (Hs & Hm & Hf). simpl.
    destruct (readCache_sound view rules data (senv c) Hs) as (cached & e & Hr & Hs' & Hc). rewrite Hr.
    split; [by split_and!|done].
  - intros rules data cached c (Hs & Hm & Hf) Hc. unfold Finish, Stepped_Serial.
    destruct (Hf (calls c) data (queue data cached rules ∅)) as [Hfl _].
    fold (served_after rules data cached c) in Hfl. generalize dependent (served_after rules data cached c).
    intros f Hfl. pose proof (SerialAnswer_spec view f rules data cached (senv c)) as Ha.
    destruct (returns f rules data cached) eqn:Hret.
    + destruct (SerialAnswer_verdict view f rules data cached (senv c) Hs Hc Hfl Hret) as (e & -> & Hs').
      split; [by split_and!|done].
    + rewrite Ha. by eapply returns_false.
  - intros rules data rule Hv. by apply (first_by_entity_in rules data).
Qed.
End Serial.

(** ** The sequential path, without a cache *)

Section Sequential.
Context (rules : list Rule).



End Sequential.

(** ** Property *)


(** ** Witness *)





