(* ===== verification/Interleaving.v ===== *)
(** * Overlapping calls of Process on one runner

    Any number of goroutines call [Process] on the same runner, on any tokens
    and beginning at any moment, and the parts of their calls interleave with
    each other and with whatever else uses what the runner shares, such as
    entries of the cache that expire.  The runner enters through the interface
    [SteppedRunner]; Runners.v gives both runners, System.v those the factory
    builds. *)
From S2P Require Import Prelude Rules ByteAnalyzer.

(** ** Goroutines *)

Inductive goroutine (J : Type) :=
| Called
| Holding (j : J)                  (* between the two parts of the call *)
| Answered (v : option Rule).
Arguments Called {J}.
Arguments Holding {J}.
Arguments Answered {J}.

Record istate (R J : Type) := mkI { jobs : list (bytes * goroutine J); runner_at : R }.
Arguments mkI {R J}.
Arguments jobs {R J}.
Arguments runner_at {R J}.

Section Interleaving.
Context {R J : Type} `{SteppedRunner R J} (inv : list Rule -> R -> Prop) (rules : list Rule).

Inductive istep : istate R J -> istate R J -> Prop :=
| i_call data js r :
    istep (mkI js r) (mkI (js ++ [(data, Called)]) r)
| i_begin i data js r j r' :
    js !! i = Some (data, Called) -> Begin rules data r = Some (j, r') ->
    istep (mkI js r) (mkI (<[i := (data, Holding j)]> js) r')
| i_finish i data j js r v r' :
    js !! i = Some (data, Holding j) -> Finish rules data j r = Some (v, r') ->
    istep (mkI js r) (mkI (<[i := (data, Answered v)]> js) r')
| i_other js r r' :                                   (* anything that keeps the invariant *)
    inv rules r' -> istep (mkI js r) (mkI js r').

Definition start (r : R) : istate R J := mkI [] r.

Context (held : list Rule -> bytes -> J -> Prop) (ok : list Rule -> bytes -> option Rule -> Prop)
  `{!SteppedRunnerSpec R J inv held ok}.

(** What is known of a goroutine. *)
Definition job_ok (data : bytes) (g : goroutine J) : Prop :=
  match g with
  | Called => True
  | Holding j => held rules data j
  | Answered v => ok rules data v
  end.

Definition iinv (st : istate R J) : Prop :=
  inv rules (runner_at st) /\ forall i data g, jobs st !! i = Some (data, g) -> job_ok data g.

Lemma jobs_insert (js : list (bytes * goroutine J)) (i : nat) data g :
  (forall j data' g', js !! j = Some (data', g') -> job_ok data' g') -> job_ok data g ->
  forall j data' g', <[i := (data, g)]> js !! j = Some (data', g') -> job_ok data' g'.
Proof.
  intros Hjs Hg j data' g' Hj. apply list_lookup_insert_Some in Hj as [(<- & [= -> ->] & _)|[_ ?]];
    [done|by eapply Hjs].
Qed.

Lemma istep_inv st st' : iinv st -> istep st st' -> iinv st'.
Proof.
  intros [Hs Hj] Hstep.
  destruct Hstep as [data js r|i data js r j r' Hi Hb|i data j js r v r' Hi Hf|js r r' Hr]; simpl in *.
  - split; [done|]. intros k data' g Hk. apply lookup_app_Some in Hk as [?|[_ Hk]]; [by eapply Hj|].
    apply list_lookup_singleton_Some in Hk as [_ [= <- <-]]. done.
  - destruct (begin_ok rules data r Hs) as (j' & r1 & Hb' & Hs' & Hheld). simplify_eq.
    split; [done|]. by apply jobs_insert.
  - destruct (finish_ok rules data j r Hs (Hj _ _ _ Hi)) as (v' & r1 & Hf' & Hs' & Hv). simplify_eq.
    split; [done|]. by apply jobs_insert.
  - by split.
Qed.

Lemma iinv_reachable r st : inv rules r -> rtc istep (start r) st -> iinv st.
Proof.
  intros Hs Hr. pattern st. eapply rtc_ind_r; [|intros ? ? _ ? ?; by eapply istep_inv|exact Hr].
  split; [done|]. intros i data g Hi. simpl in Hi. by rewrite lookup_nil in Hi.
Qed.

(** A goroutine that has not answered can make its next step. *)
Lemma job_progress st i data g :
  iinv st -> jobs st !! i = Some (data, g) -> (forall v, g <> Answered v) ->
  exists st', istep st st' /\ exists g', jobs st' !! i = Some (data, g') /\
    match g with Called => exists j, g' = Holding j | _ => exists v, g' = Answered v end.
Proof.
  intros [Hs Hj] Hi Hg. destruct st as [js r]. simpl in *. pose proof (lookup_lt_Some _ _ _ Hi) as Hlt.
  destruct g as [|j|v]; [| |by destruct (Hg v)].
  - destruct (begin_ok rules data r Hs) as (j & r' & Hb & _ & _).
    eexists. split; [by eapply i_begin|]. eexists. simpl. rewrite list_lookup_insert_eq by done. eauto.
  - destruct (finish_ok rules data j r Hs (Hj _ _ _ Hi)) as (v & r' & Hf & _ & _).
    eexists. split; [by eapply i_finish|]. eexists. simpl. rewrite list_lookup_insert_eq by done. eauto.
Qed.
End Interleaving.
