(* ===== verification/Singleflight.v ===== *)
(** * analyzer/singleflight_coalescer.go: one computation per token in flight

    [doShared] on one key, for any number of concurrent callers, as a
    transition system.  The group is [singleflight.Group]: [DoChan] joins the
    call registered under the key or registers a new one and runs it in a
    goroutine of its own, [Forget] removes the key, and a finished call sends
    its result to the channel of every caller that joined it.  A caller waits
    for the result or for its own context. *)
From S2P Require Import Prelude Rules CacheStore ByteAnalyzer SerialRunner.

(** [tokenFlightKey]: one key per token. *)
Definition tokenFlightKey (data : bytes) : string := to_str data.

Lemma tokenFlightKey_inj a b : tokenFlightKey a = tokenFlightKey b -> a = b.
Proof. apply to_str_inj. Qed.

(** ** State *)

(** The goroutine of a call: not yet running [fn], inside it, back with a
    value and about to run the deferred [Forget], about to send, and done. *)
Variant progress (T : Type) :=
| Spawned
| Running
| Computed (v : T)
| Forgotten (v : T)
| Published (v : T).
Arguments Spawned {T}.
Arguments Running {T}.
Arguments Computed {T}.
Arguments Forgotten {T}.
Arguments Published {T}.

Record call (T : Type) := mkCall { leader : nat; chans : list nat; status : progress T }.
Arguments mkCall {T}.
Arguments leader {T}.
Arguments chans {T}.
Arguments status {T}.

(** A caller in the [select] of [doShared], and after it. *)
Variant caller (T : Type) :=
| Waiting (k : nat)
| Got (k : nat) (v : T)
| Abandoned (k : nat).
Arguments Waiting {T}.
Arguments Got {T}.
Arguments Abandoned {T}.

Record group (St T : Type) := mkGroup {
  m_key : option nat;              (* the call registered under the key *)
  calls : list (call T);
  callers : gmap nat (caller T);   (* the callers that have called DoChan *)
  ran : list nat;                  (* the calls that have run fn, in order *)
  shared_state : St                 (* what fn works on *)
}.
Arguments mkGroup {St T}.
Arguments m_key {St T}.
Arguments calls {St T}.
Arguments callers {St T}.
Arguments ran {St T}.
Arguments shared_state {St T}.

Definition idle {St T} (s : St) : group St T := mkGroup None [] ∅ [] s.

Definition set_status {T} (cl : call T) (p : progress T) : call T :=
  mkCall (leader cl) (chans cl) p.

(** ** Transitions *)

Section Flights.
Context {St T : Type} (fn : nat -> St -> option (T * St)) (clients : gset nat).

Inductive gstep : group St T -> group St T -> Prop :=
| g_lead c cs ws rs s :                               (* DoChan, no call registered *)
    c ∈ clients -> ws !! c = None ->
    gstep (mkGroup None cs ws rs s)
          (mkGroup (Some (length cs)) (cs ++ [mkCall c [c] Spawned])
             (<[c := Waiting (length cs)]> ws) rs s)
| g_join c k cl cs ws rs s :                          (* DoChan, a duplicate *)
    c ∈ clients -> ws !! c = None -> cs !! k = Some cl ->
    gstep (mkGroup (Some k) cs ws rs s)
          (mkGroup (Some k) (<[k := mkCall (leader cl) (chans cl ++ [c]) (status cl)]> cs)
             (<[c := Waiting k]> ws) rs s)
| g_start k cl m cs ws rs s :
    cs !! k = Some cl -> status cl = Spawned ->
    gstep (mkGroup m cs ws rs s) (mkGroup m (<[k := set_status cl Running]> cs) ws rs s)
| g_compute k cl v m cs ws rs s s' :                  (* fn() of the leader *)
    cs !! k = Some cl -> status cl = Running -> fn (leader cl) s = Some (v, s') ->
    gstep (mkGroup m cs ws rs s)
          (mkGroup m (<[k := set_status cl (Computed v)]> cs) ws (rs ++ [k]) s')
| g_forget k cl v m cs ws rs s :                      (* defer group.Forget(key) *)
    cs !! k = Some cl -> status cl = Computed v ->
    gstep (mkGroup m cs ws rs s)
          (mkGroup None (<[k := set_status cl (Forgotten v)]> cs) ws rs s)
| g_publish k cl v m cs ws rs s :                     (* doCall sends to c.chans *)
    cs !! k = Some cl -> status cl = Forgotten v ->
    gstep (mkGroup m cs ws rs s)
          (mkGroup (if decide (m = Some k) then None else m)
             (<[k := set_status cl (Published v)]> cs) ws rs s)
| g_receive c k cl v m cs ws rs s :                   (* case res := <-ch *)
    ws !! c = Some (Waiting k) -> cs !! k = Some cl -> status cl = Published v ->
    gstep (mkGroup m cs ws rs s) (mkGroup m cs (<[c := Got k v]> ws) rs s)
| g_abandon c k m cs ws rs s :                        (* case <-ctx.Done() *)
    ws !! c = Some (Waiting k) ->
    gstep (mkGroup m cs ws rs s) (mkGroup m cs (<[c := Abandoned k]> ws) rs s).

(** The call is registered under the key: from [DoChan] to [Forget]. *)
Definition registered (p : progress T) : bool :=
  match p with Spawned | Running | Computed _ => true | _ => false end.

Definition value_of (p : progress T) : option T :=
  match p with Computed v | Forgotten v | Published v => Some v | _ => None end.

Definition joined (w : caller T) : nat :=
  match w with Waiting k | Got k _ | Abandoned k => k end.

Definition is_waiting (w : caller T) : bool := match w with Waiting _ => true | _ => false end.
End Flights.

(** ** Invariant *)

(** [P c v]: what is known of a value computed by [fn c]; [I]: of the state. *)
Record ginv {St T} (clients : gset nat) (I : St -> Prop) (P : nat -> T -> Prop) (st : group St T)
    : Prop := {
  gi_registered k cl : calls st !! k = Some cl -> registered (status cl) = true -> m_key st = Some k;
  gi_key k : m_key st = Some k -> exists cl, calls st !! k = Some cl /\ registered (status cl) = true;
  gi_callers c w : callers st !! c = Some w -> c ∈ clients /\
    exists cl, calls st !! joined w = Some cl /\ c ∈ chans cl;
  gi_got c k v : callers st !! c = Some (Got k v) ->
    exists cl, calls st !! k = Some cl /\ status cl = Published v;
  gi_leader k cl : calls st !! k = Some cl -> leader cl ∈ chans cl;
  gi_value k cl v : calls st !! k = Some cl -> value_of (status cl) = Some v -> P (leader cl) v;
  gi_ran_once : NoDup (ran st);
  gi_ran k : k ∈ ran st <-> exists cl, calls st !! k = Some cl /\ is_Some (value_of (status cl));
  gi_state : I (shared_state st)
}.

Section Invariant.
Context {St T : Type} (fn : nat -> St -> option (T * St)) (clients : gset nat).
Context (I : St -> Prop) (P : nat -> T -> Prop).
Context (fn_ok : forall c s v s', I s -> fn c s = Some (v, s') -> P c v /\ I s').

Lemma ginv_idle s : I s -> ginv clients I P (idle s).
Proof. intros Hs. split; simpl; try done; try (by constructor); set_solver. Qed.

(** A call that only changes its status, towards [p]. *)
Lemma lookup_status (cs : list (call T)) k cl p k' cl' :
  cs !! k = Some cl -> <[k := set_status cl p]> cs !! k' = Some cl' ->
  (k' = k /\ cl' = set_status cl p) \/ (k' <> k /\ cs !! k' = Some cl').
Proof. intros Hk [(-> & <- & _)|[? ?]]%list_lookup_insert_Some; [by left|right; auto]. Qed.

Lemma status_lookup (cs : list (call T)) k cl p k' cl' :
  cs !! k = Some cl -> cs !! k' = Some cl' -> exists cl'',
    <[k := set_status cl p]> cs !! k' = Some cl'' /\ chans cl'' = chans cl' /\
    (k' <> k -> cl'' = cl').
Proof.
  intros Hk Hk'. destruct (decide (k' = k)) as [->|Hne].
  - assert (cl' = cl) as -> by congruence. exists (set_status cl p). rewrite list_lookup_insert_eq; [done|].
    by eapply lookup_lt_Some.
  - exists cl'. by rewrite list_lookup_insert_ne.
Qed.

(** Steps of the goroutine of a call. *)
Lemma ginv_progress m m' cs ws rs rs' (s s' : St) k cl p :
  ginv clients I P (mkGroup m cs ws rs s) -> cs !! k = Some cl ->
  (forall v, status cl <> Published v) ->
  (registered p = true -> m' = m /\ registered (status cl) = true) ->
  (registered p = false -> m' = if decide (m = Some k) then None else m) ->
  (forall v, value_of p = Some v -> P (leader cl) v) ->
  (rs' = rs \/ rs' = rs ++ [k] /\ value_of (status cl) = None) ->
  (is_Some (value_of p) <-> is_Some (value_of (status cl)) \/ rs' <> rs) ->
  I s' ->
  ginv clients I P (mkGroup m' (<[k := set_status cl p]> cs) ws rs' s').
Proof.
  intros [Hreg Hkey Hcal Hgot Hlead Hval Hnd Hran _] Hk Hnp Hr1 Hr2 Hp Hrs Hmono Hs'.
  split; simpl in *; [| | | | | | | |done].
  - intros k' cl' [[-> ->]|[Hne Hk']]%(lookup_status _ _ _ _ _ _ Hk) Hr; simpl in Hr.
    + destruct (Hr1 Hr) as [-> ?]. by eapply Hreg.
    + specialize (Hreg _ _ Hk' Hr). destruct (registered p) eqn:E; [by destruct (Hr1 eq_refl) as [-> _]|].
      rewrite (Hr2 eq_refl). case_decide; congruence.
  - intros k' Hm. assert (Hm' : m = Some k').
    { destruct (registered p) eqn:E; [by destruct (Hr1 eq_refl) as [<- _]|].
      rewrite (Hr2 eq_refl) in Hm. by case_decide. }
    destruct (Hkey _ Hm') as (cl' & Hk' & Hr'). destruct (decide (k' = k)) as [->|Hne].
    + exists (set_status cl p). rewrite list_lookup_insert_eq by (by eapply lookup_lt_Some).
      split; [done|]. simpl. destruct (registered p) eqn:E; [done|].
      rewrite (Hr2 eq_refl), decide_True in Hm by done. done.
    + exists cl'. by rewrite list_lookup_insert_ne.
  - intros c w Hw. destruct (Hcal _ _ Hw) as (? & cl' & Hk' & Hc).
    destruct (status_lookup cs k cl p _ _ Hk Hk') as (cl'' & -> & Hch & _).
    split; [done|]. exists cl''. by rewrite Hch.
  - intros c k' v Hw. destruct (Hgot _ _ _ Hw) as (cl' & Hk' & Hv).
    destruct (decide (k' = k)) as [->|Hne]; [simplify_eq; by destruct (Hnp v)|].
    exists cl'. by rewrite list_lookup_insert_ne.
  - intros k' cl' [[-> ->]|[Hne Hk']]%(lookup_status _ _ _ _ _ _ Hk); simpl; eauto.
  - intros k' cl' v [[-> ->]|[Hne Hk']]%(lookup_status _ _ _ _ _ _ Hk); simpl; eauto.
  - destruct Hrs as [->|[-> Hnone]]; [done|]. apply NoDup_app. split; [done|]. split.
    + intros k' Hk' ->%list_elem_of_singleton. destruct (proj1 (Hran _) Hk') as (cl' & ? & Hv).
      simplify_eq. rewrite Hnone in Hv. by destruct Hv.
    + apply NoDup_singleton.
  - intros k'. destruct (decide (k' = k)) as [->|Hne].
    + rewrite list_lookup_insert_eq by (by eapply lookup_lt_Some).
      transitivity (is_Some (value_of p)); [|naive_solver]. rewrite Hmono.
      assert (k ∈ rs <-> is_Some (value_of (status cl))) as Hold.
      { rewrite Hran. split; [intros (cl' & ? & ?)|]; [by simplify_eq|by exists cl]. }
      destruct Hrs as [->|[-> _]]; [naive_solver|]. split; [|set_solver]. intros _. right.
      intros E. apply (f_equal length) in E. rewrite length_app in E. simpl in E. lia.
    + rewrite list_lookup_insert_ne by done. rewrite <- Hran.
      destruct Hrs as [->|[-> _]]; [done|]. set_solver.
Qed.

(** A caller that leaves the [select]. *)
Lemma ginv_leave m cs ws rs s c k w :
  ginv clients I P (mkGroup m cs ws rs s) -> ws !! c = Some (Waiting k) -> joined w = k ->
  (forall k' v, w = Got k' v -> exists cl, cs !! k' = Some cl /\ status cl = Published v) ->
  ginv clients I P (mkGroup m cs (<[c := w]> ws) rs s).
Proof.
  intros [Hreg Hkey Hcal Hgot Hlead Hval Hnd Hran HI] Hc Hw Hg. split; simpl in *; try done.
  - intros c' w' [[<- <-]|[? ?]]%lookup_insert_Some; [|by apply Hcal].
    rewrite Hw. by apply (Hcal c (Waiting k)).
  - intros c' k' v [[<- Hgw]|[? ?]]%lookup_insert_Some; [by apply Hg|by eapply Hgot].
Qed.

Lemma ginv_lead cs ws rs s c :
  ginv clients I P (mkGroup None cs ws rs s) -> c ∈ clients ->
  ginv clients I P (mkGroup (Some (length cs)) (cs ++ [mkCall c [c] Spawned])
    (<[c := Waiting (length cs)]> ws) rs s).
Proof.
  intros [Hreg Hkey Hcal Hgot Hlead Hval Hnd Hran HI] Hc.
  assert (Hold : forall k cl, cs !! k = Some cl -> (cs ++ [mkCall c [c] Spawned]) !! k = Some cl)
    by (intros; by apply lookup_app_l_Some).
  assert (Hnew : (cs ++ [mkCall c [c] (@Spawned T)]) !! length cs = Some (mkCall c [c] Spawned))
    by (by apply list_lookup_middle).
  assert (Hinv : forall k cl, (cs ++ [mkCall c [c] Spawned]) !! k = Some cl ->
    cs !! k = Some cl \/ k = length cs /\ cl = mkCall c [c] Spawned).
  { intros k cl [?|[? Hk]]%lookup_app_Some; [by left|right].
    destruct (k - length cs)%nat eqn:E; simpl in Hk; simplify_eq; split; [lia|done]. }
  split; simpl in *; try done.
  - intros k cl [Hk|[-> ->]]%Hinv Hr; [|done]. by specialize (Hreg _ _ Hk Hr).
  - intros k [= <-]. by eexists.
  - intros c' w [[<- <-]|[? Hw]]%lookup_insert_Some; simpl.
    + split; [done|]. eexists. split; [done|]. simpl. set_solver.
    + destruct (Hcal _ _ Hw) as (? & cl & ? & ?). eauto.
  - intros c' k v [[<- ?]|[? Hw]]%lookup_insert_Some; [done|].
    destruct (Hgot _ _ _ Hw) as (cl & ? & ?). eauto.
  - intros k cl [Hk|[-> ->]]%Hinv; [by apply (Hlead k)|]. simpl. set_solver.
  - intros k cl v [Hk|[-> ->]]%Hinv; [by apply (Hval k)|]. done.
  - intros k. rewrite Hran. split; intros (cl & Hk & Hv); [by eauto|].
    apply Hinv in Hk as [?|[-> ->]]; [by eauto|by destruct Hv].
Qed.

Lemma ginv_join cs ws rs s c k cl :
  ginv clients I P (mkGroup (Some k) cs ws rs s) -> c ∈ clients -> cs !! k = Some cl ->
  ginv clients I P (mkGroup (Some k) (<[k := mkCall (leader cl) (chans cl ++ [c]) (status cl)]> cs)
    (<[c := Waiting k]> ws) rs s).
Proof.
  intros [Hreg Hkey Hcal Hgot Hlead Hval Hnd Hran HI] Hc Hk. set (cl0 := mkCall _ _ _).
  assert (Hinv : forall k' cl', <[k := cl0]> cs !! k' = Some cl' ->
    exists cl1, cs !! k' = Some cl1 /\ status cl' = status cl1 /\ leader cl' = leader cl1 /\
      (forall x, x ∈ chans cl1 -> x ∈ chans cl')).
  { intros k' cl' [(-> & <- & _)|[? ?]]%list_lookup_insert_Some; [exists cl|by exists cl'].
    split_and!; try done. unfold cl0. simpl. set_solver. }
  assert (Hold : forall k' cl', cs !! k' = Some cl' -> exists cl1, <[k := cl0]> cs !! k' = Some cl1 /\
      status cl1 = status cl' /\ (forall x, x ∈ chans cl' -> x ∈ chans cl1)).
  { intros k' cl' Hk'. destruct (decide (k' = k)) as [->|Hne].
    - assert (cl' = cl) as -> by congruence. exists cl0.
      rewrite list_lookup_insert_eq by (by eapply lookup_lt_Some). unfold cl0. simpl.
      split_and!; [done..|set_solver].
    - exists cl'. by rewrite list_lookup_insert_ne. }
  split; simpl in *; try done.
  - intros k' cl' (cl1 & Hk' & -> & _)%Hinv Hr. by eapply Hreg.
  - intros k' (cl' & Hk' & Hr)%Hkey. destruct (Hold _ _ Hk') as (cl1 & ? & E & _). exists cl1. by rewrite E.
  - intros c' w [[<- <-]|[? Hw]]%lookup_insert_Some; simpl.
    + split; [done|]. exists cl0. rewrite list_lookup_insert_eq by (by eapply lookup_lt_Some).
      split; [done|]. simpl. set_solver.
    + destruct (Hcal _ _ Hw) as (? & cl' & Hk' & ?).
      destruct (Hold _ _ Hk') as (cl1 & ? & _ & ?). eauto.
  - intros c' k' v [[<- ?]|[? Hw]]%lookup_insert_Some; [done|].
    destruct (Hgot _ _ _ Hw) as (cl' & Hk' & <-). destruct (Hold _ _ Hk') as (cl1 & ? & ? & _). eauto.
  - intros k' cl' (cl1 & Hk' & _ & -> & Hx)%Hinv. apply Hx. by apply (Hlead k').
  - intros k' cl' v (cl1 & Hk' & -> & -> & Hx)%Hinv. by apply (Hval k').
  - intros k'. rewrite Hran. split; intros (cl' & Hk' & Hv).
    + destruct (Hold _ _ Hk') as (cl1 & ? & E & _). exists cl1. by rewrite E.
    + apply Hinv in Hk' as (cl1 & ? & E & _). exists cl1. by rewrite <- E.
Qed.

Ltac close Hi :=
  first [done|by rewrite decide_True|by left|by right|apply Hi|naive_solver].

Lemma ginv_step st st' : ginv clients I P st -> gstep fn clients st st' -> ginv clients I P st'.
Proof.
  intros Hi Hstep.
  destruct Hstep as [c cs ws rs s Hc _|c k cl cs ws rs s Hc _ Hk|k cl m cs ws rs s Hk Hp
    |k cl v m cs ws rs s s' Hk Hp Hf|k cl v m cs ws rs s Hk Hp|k cl v m cs ws rs s Hk Hp
    |c k cl v m cs ws rs s Hw Hk Hp|c k m cs ws rs s Hw].
  - by apply ginv_lead.
  - by apply ginv_join.
  - eapply ginv_progress; [exact Hi|done|..]; rewrite ?Hp; simpl; close Hi.
  - destruct (fn_ok _ _ _ _ (gi_state _ _ _ _ Hi) Hf) as [HP HI].
    eapply ginv_progress; [exact Hi|done|..]; rewrite ?Hp; simpl; try close Hi.
    split; [|naive_solver]. intros _. right. intros E. apply (f_equal length) in E.
    rewrite length_app in E. simpl in E. lia.
  - pose proof (gi_value _ _ _ _ Hi _ _ v Hk) as HP. rewrite Hp in HP.
    pose proof (gi_registered _ _ _ _ Hi _ _ Hk) as Hreg. rewrite Hp in Hreg. specialize (Hreg eq_refl).
    simpl in Hreg. subst m.
    eapply ginv_progress; [exact Hi|done|..]; rewrite ?Hp; simpl; close Hi.
  - pose proof (gi_value _ _ _ _ Hi _ _ v Hk) as HP. rewrite Hp in HP.
    eapply ginv_progress; [exact Hi|done|..]; rewrite ?Hp; simpl; close Hi.
  - eapply ginv_leave; [done..|]. intros k' v' [= <- <-]. eauto.
  - by eapply ginv_leave.
Qed.

Lemma ginv_reachable s st :
  I s -> rtc (gstep fn clients) (idle s) st -> ginv clients I P st.
Proof.
  intros Hs Hr. pattern st. eapply rtc_ind_r; [by apply ginv_idle| |exact Hr].
  intros ? ? _ Hstep Hi. by eapply ginv_step.
Qed.
End Invariant.

(** ** Progress and termination *)

Definition callCost {T} (cl : call T) : nat :=
  match status cl with
  | Spawned => 5 | Running => 4 | Computed _ => 3 | Forgotten _ => 2 | Published _ => 1
  end.

Definition callerCost {T} (w : option (caller T)) : nat :=
  match w with None => 8 | Some (Waiting _) => 1 | Some _ => 0 end.

Fixpoint total {A} (f : A -> nat) (l : list A) : nat :=
  match l with [] => 0 | x :: l => f x + total f l end.

Definition gmeasure {St T} (clients : gset nat) (st : group St T) : nat :=
  total (fun c => callerCost (callers st !! c)) (elements clients) + total callCost (calls st).

Definition published {T} (p : progress T) : bool :=
  match p with Published _ => true | _ => false end.

Definition served {T} (w : option (caller T)) : bool :=
  match w with Some w => negb (is_waiting w) | None => false end.

Definition finished {St T} (clients : gset nat) (st : group St T) : Prop :=
  (forall c, c ∈ clients -> exists w, callers st !! c = Some w /\ is_waiting w = false) /\
  (forall k cl, calls st !! k = Some cl -> exists v, status cl = Published v).

Lemma total_insert {A} (f : A -> nat) (l : list A) k x y :
  l !! k = Some x -> (total f (<[k := y]> l) + f x = total f l + f y)%nat.
Proof.
  revert k. induction l as [|z l IH]; intros [|k] Hk; simpl in *; simplify_eq; [lia|].
  specialize (IH _ Hk). lia.
Qed.

Lemma total_app {A} (f : A -> nat) l1 l2 : total f (l1 ++ l2) = (total f l1 + total f l2)%nat.
Proof. induction l1; simpl; lia. Qed.

Lemma total_ext {A} (f g : A -> nat) l : (forall x, x ∈ l -> g x = f x) -> total g l = total f l.
Proof.
  induction l as [|x l IH]; intros He; simpl; [done|].
  rewrite IH by (intros y Hy; apply He; set_solver). rewrite He by set_solver. done.
Qed.

Lemma total_update (f g : nat -> nat) (X : gset nat) c :
  c ∈ X -> (forall x, x <> c -> g x = f x) ->
  (total g (elements X) + f c = total f (elements X) + g c)%nat.
Proof.
  intros Hc He. apply elem_of_elements in Hc. pose proof (NoDup_elements X) as Hn.
  induction (elements X) as [|x l IH]; simpl; [by apply not_elem_of_nil in Hc|].
  apply NoDup_cons in Hn as [Hx Hn]. destruct (decide (x = c)) as [->|Hne].
  - rewrite (total_ext f g l); [lia|]. intros y Hy. apply He. by intros ->.
  - rewrite He by done. apply elem_of_cons in Hc as [->|Hc]; [done|]. specialize (IH Hc Hn). lia.
Qed.

Lemma gmeasure_idle {St T} (clients : gset nat) (s : St) :
  gmeasure clients (idle (T:=T) s) = (8 * size clients)%nat.
Proof.
  unfold gmeasure. simpl. change (size clients) with (length (elements clients)).
  induction (elements clients) as [|c l IH]; simpl; [done|]. rewrite lookup_empty. simpl. lia.
Qed.

Section Progress.
Context {St T : Type} (fn : nat -> St -> option (T * St)) (clients : gset nat).

Lemma caller_moves (ws : gmap nat (caller T)) c w :
  c ∈ clients ->
  (total (fun x => callerCost (<[c := w]> ws !! x)) (elements clients) + callerCost (ws !! c) =
   total (fun x => callerCost (ws !! x)) (elements clients) + callerCost (Some w))%nat.
Proof.
  intros Hc. pose proof (total_update (fun x => callerCost (ws !! x))
    (fun x => callerCost (<[c := w]> ws !! x)) clients c Hc) as Ht.
  cbv beta in Ht. rewrite lookup_insert_eq in Ht. apply Ht. intros x Hx. by rewrite lookup_insert_ne.
Qed.

Lemma gstep_measure I P st st' :
  ginv clients I P st -> gstep fn clients st st' -> (gmeasure clients st' < gmeasure clients st)%nat.
Proof.
  intros Hi Hstep.
  destruct Hstep as [c cs ws rs s Hc Hw|c k cl cs ws rs s Hc Hw Hk|k cl m cs ws rs s Hk Hp
    |k cl v m cs ws rs s s' Hk Hp Hf|k cl v m cs ws rs s Hk Hp|k cl v m cs ws rs s Hk Hp
    |c k cl v m cs ws rs s Hw Hk Hp|c k m cs ws rs s Hw]; unfold gmeasure; simpl.
  3-6: match goal with |- context [@insert _ _ _ _ _ ?y _] =>
         pose proof (total_insert callCost _ _ _ y Hk) as Ht end;
       unfold callCost at 2 4 in Ht; simpl in Ht; rewrite Hp in Ht; lia.
  - pose proof (caller_moves ws c (Waiting (length cs)) Hc) as Ht. rewrite Hw in Ht.
    rewrite total_app. simpl in *. lia.
  - pose proof (caller_moves ws c (Waiting k) Hc) as Ht. rewrite Hw in Ht.
    pose proof (total_insert callCost cs k cl (mkCall (leader cl) (chans cl ++ [c]) (status cl)) Hk) as Ht'.
    unfold callCost at 2 4 in Ht'. simpl in *. lia.
  - destruct (gi_callers _ _ _ _ Hi _ _ Hw) as [Hc _].
    pose proof (caller_moves ws c (Got k v) Hc) as Ht. rewrite Hw in Ht. simpl in *. lia.
  - destruct (gi_callers _ _ _ _ Hi _ _ Hw) as [Hc _].
    pose proof (caller_moves ws c (Abandoned k) Hc) as Ht. rewrite Hw in Ht. simpl in *. lia.
Qed.

(** A step that is not a cancellation. *)
Definition serves (st st' : group St T) : Prop :=
  gstep fn clients st st' /\
  forall c k, callers st' !! c = Some (Abandoned k) -> callers st !! c = Some (Abandoned k).

Lemma call_progress (I : St -> Prop) P st k cl :
  (forall c s, I s -> is_Some (fn c s)) -> ginv clients I P st ->
  calls st !! k = Some cl -> (forall v, status cl <> Published v) -> exists st', serves st st'.
Proof.
  intros Hfn Hi Hk Hp. pose proof (gi_state _ _ _ _ Hi) as HI.
  destruct st as [m cs ws rs s]; simpl in *. destruct (status cl) as [| |v|v|v] eqn:Hs.
  - eexists. split; [by eapply g_start|done].
  - destruct (Hfn (leader cl) s HI) as [[v s'] Hf]. eexists. split; [by eapply g_compute|done].
  - eexists. split; [by eapply g_forget|done].
  - eexists. split; [by eapply g_publish|done].
  - by destruct (Hp v).
Qed.

Lemma caller_progress (I : St -> Prop) P st c :
  ginv clients I P st -> (forall k cl, calls st !! k = Some cl -> exists v, status cl = Published v) ->
  c ∈ clients -> (forall w, callers st !! c = Some w -> is_waiting w = true) ->
  exists st', serves st st'.
Proof.
  intros Hi Hpub Hc Hw. destruct (callers st !! c) as [w|] eqn:Hcw.
  - specialize (Hw w eq_refl). destruct w as [k| |]; try done.
    destruct (gi_callers _ _ _ _ Hi _ _ Hcw) as (_ & cl & Hk & _). simpl in Hk.
    destruct (Hpub _ _ Hk) as [v Hv]. destruct st as [m cs ws rs s]; simpl in *.
    eexists. split; [by eapply g_receive|]. simpl. intros c' k' [[_ ?]|[_ ?]]%lookup_insert_Some; done.
  - pose proof (gi_key _ _ _ _ Hi) as Hkey. destruct st as [[k|] cs ws rs s]; simpl in *.
    + destruct (Hkey k eq_refl) as (cl & Hk & Hr). destruct (Hpub _ _ Hk) as [v Hv]. by rewrite Hv in Hr.
    + eexists. split; [by apply g_lead|]. simpl.
      intros c' k' [[_ ?]|[_ ?]]%lookup_insert_Some; done.
Qed.

Lemma flights_progress (I : St -> Prop) P st :
  (forall c s, I s -> is_Some (fn c s)) -> ginv clients I P st -> ~ finished clients st ->
  exists st', serves st st'.
Proof.
  intros Hfn Hi Hn.
  destruct (decide (Forall (fun cl => published (status cl) = true) (calls st))) as [Hall|Hex].
  - assert (Hpub : forall k cl, calls st !! k = Some cl -> exists v, status cl = Published v).
    { intros k cl Hk. rewrite Forall_lookup in Hall. specialize (Hall k cl Hk).
      destruct (status cl); try done. by eexists. }
    destruct (decide (Forall (fun c => served (callers st !! c) = true) (elements clients))) as [Hs|Hns].
    + destruct Hn. split; [|done]. intros c Hc. rewrite Forall_forall in Hs.
      specialize (Hs c (proj2 (elem_of_elements _ _) Hc)). unfold served in Hs.
      destruct (callers st !! c) as [w|]; [|done]. exists w. by rewrite negb_true_iff in Hs.
    + apply not_Forall_Exists in Hns; [|apply _]. apply Exists_exists in Hns as (c & Hc & Hs).
      apply (caller_progress I P st c Hi Hpub); [by apply elem_of_elements|].
      intros w Hw. change (served (callers st !! c) <> true) in Hs. rewrite Hw in Hs. simpl in Hs. by destruct (is_waiting w).
  - apply not_Forall_Exists in Hex; [|apply _]. apply Exists_exists in Hex as (cl & Hcl & Hp).
    apply list_elem_of_lookup in Hcl as [k Hk]. eapply call_progress; [done..|].
    change (published (status cl) <> true) in Hp. intros v Hv. by rewrite Hv in Hp.
Qed.
End Progress.

(** ** The computation the serial runner gives to [doToken] *)

Definition leaderFn {C} `{CacheStore C} (data : bytes) (missing : nat -> list missingEvaluation)
    (c : nat) (e : env C) : option (results * option string * env C) :=
  leaderPath data (missing c) e.

Lemma leaderFn_ok {C} (view : C -> bytes -> results) `{CacheStoreLaws C view} rules data cached c
    (e : env C) :
  if forallb (evaluable data) (queue data (cached c) rules ∅)
  then exists err e', leaderFn data (fun c => queue data (cached c) rules ∅) c e =
      Some (outcomes data (queue data (cached c) rules ∅), err, e') /\
    extends view (fun ent => outcome_of data (queue data (cached c) rules ∅) ent false) data
      (cache e) (cache e')
  else leaderFn data (fun c => queue data (cached c) rules ∅) c e = None.
Proof.
  unfold leaderFn, leaderPath. rewrite matchMissing_eq. destruct (forallb _ _) eqn:Hm; [|done].
  cbn [mbind option_bind].
  destruct (saveNegatives_spec view data (queue data (cached c) rules ∅) e Hm) as (err & e' & -> & He).
  by exists err, e'.
Qed.

(** ** Callers with rules of their own

    A flight is keyed by the token alone and the rules are an argument of the
    call: callers with different rules share a flight. *)

(** Two callers that claim one entity have the same outcome for it. *)
Definition agreeing (rules : nat -> list Rule) (data : bytes) : Prop :=
  forall c1 c2 ent, claimed (rules c1) data ent -> claimed (rules c2) data ent ->
    entity_outcome (rules c1) data ent = entity_outcome (rules c2) data ent.

Lemma unclaimed_outcome rules data ent :
  entity_outcome rules data ent = true -> claimed rules data ent.
Proof.
  unfold entity_outcome. destruct (List.find _ rules) as [r|] eqn:Hf; [|done]. intros _.
  apply List.find_some in Hf as [Hin Hc]. bsplit. exists r.
  split_and!; [by apply list_elem_of_In|done|by eapply bool_decide_eq_true_1].
Qed.

Lemma queue_claimed data cached rules m : m ∈ queue data cached rules ∅ -> claimed rules data (mentity m).
Proof.
  intros (_ & _ & Hf)%queue_first. apply List.find_some in Hf as [Hin Hc]. unfold claims in Hc. bsplit.
  exists (mrule m). split_and!; [by apply list_elem_of_In|done|by eapply bool_decide_eq_true_1].
Qed.

Section Agreement.
Context {C : Type} (view : C -> bytes -> results) `{CacheStoreLaws C view}.
Context (rules : nat -> list Rule) (data : bytes) (agreement : agreeing rules data).

(** What one caller evaluates holds for the others, and may be kept. *)
Lemma outcomes_agree c c' cached :
  truthful (rules c') data (outcomes data (queue data cached (rules c) ∅)).
Proof.
  intros ent v Hv Hc'. destruct (proj1 (outcomes_dom _ _ _) (ex_intro _ _ Hv)) as (m & Hm & <-).
  rewrite <- (agreement c c' _ (queue_claimed _ _ _ _ Hm) Hc').
  apply (outcomes_truthful (rules c) data (queue data cached (rules c) ∅) (queue_evaluates _ _ _) _ _ Hv).
  by eapply queue_claimed.
Qed.

Lemma extends_agree c c' cached x x' :
  extends view (fun ent => outcome_of data (queue data cached (rules c) ∅) ent false) data x x' ->
  sound view (rules c') x -> sound view (rules c') x'.
Proof.
  intros He Hs data' ent v [Hv|(-> & -> & m & Hm & <- & Ho)]%He; [by eapply Hs|]. split; [done|].
  apply not_true_iff_false. intros Ht. pose proof (unclaimed_outcome _ _ _ Ht) as Hc'.
  rewrite <- (agreement c c' _ (queue_claimed _ _ _ _ Hm) Hc') in Ht.
  pose proof (queue_evaluates data cached (rules c)) as Hq. rewrite Forall_forall in Hq.
  rewrite <- (Hq m Hm) in Ht. unfold matches in Ht. by rewrite Ho in Ht.
Qed.
End Agreement.

(** ** Properties *)

(** C14: one computation per token at a time.  However the callers arrive,
    leave and are cancelled, no two calls are between [DoChan] and [Forget] at
    once, every call runs its function at most once, and every caller that is
    answered has the value of a call it joined, whose function has run. *)
Theorem flights_exclusive {St T} (fn : nat -> St -> option (T * St)) clients s st
    (reachable : rtc (gstep fn clients) (idle s) st) :
  (forall k1 k2 cl1 cl2, calls st !! k1 = Some cl1 -> calls st !! k2 = Some cl2 ->
     registered (status cl1) = true -> registered (status cl2) = true -> k1 = k2) /\
  NoDup (ran st) /\
  (forall c k v, callers st !! c = Some (Got k v) -> k ∈ ran st /\
     exists cl, calls st !! k = Some cl /\ c ∈ chans cl /\ value_of (status cl) = Some v).
Proof.
  assert (Hi : ginv clients (fun _ => True) (fun _ _ => True) st) by (eapply ginv_reachable; eauto).
  destruct Hi as [Hreg _ Hcal Hgot _ _ Hnd Hran _]. split_and!; [|done|].
  - intros k1 k2 cl1 cl2 H1 H2 Hr1 Hr2. apply (Hreg _ _ H1) in Hr1. apply (Hreg _ _ H2) in Hr2. congruence.
  - intros c k v Hc. destruct (Hgot _ _ _ Hc) as (cl & Hk & Hv).
    destruct (Hcal _ _ Hc) as (_ & cl' & Hk' & Hin). simpl in Hk'.
    assert (cl' = cl) as -> by congruence.
    split; [rewrite Hran|]; exists cl; rewrite Hv; [by eauto|done].
Qed.

(** C10: coalescing preserves the verdict.  Callers with one token, each with
    its rules and the entries it has read itself, lead or join flights over one
    store of true negatives.  When the callers agree on the entities that several
    of them claim, and no matcher that a call evaluates panics, [Process] goes on
    from whatever results its caller is handed to answer what the caller would
    have answered alone with its own rules, and the store holds true negatives
    throughout, for the rules of every caller. *)
Theorem coalesced_answers {C} (view : C -> bytes -> results) `{CacheStoreLaws C view}
    (rules : nat -> list Rule) data (cached : nat -> results) clients (e0 : env C) st c k res err
    (agreement : agreeing rules data)
    (true_negatives : forall c, sound view (rules c) (cache e0))
    (reachable : rtc (gstep (leaderFn data (fun c => queue data (cached c) (rules c) ∅)) clients) (idle e0) st)
    (answered : callers st !! c = Some (Got k (res, err)))
    (no_panic : returns (Shared res err) (rules c) data (cached_of data (shared_state st)) = true) :
  (forall c, sound view (rules c) (cache (shared_state st))) /\
  exists e', SerialProcess (Shared res err) (rules c) data (shared_state st) =
    Some (first_by_entity (rules c) data, e').
Proof.
  assert (Hi : ginv clients (fun e => forall c, sound view (rules c) (cache e))
    (fun _ v => forall c, truthful (rules c) data v.1) st).
  { eapply ginv_reachable; [|exact true_negatives|exact reachable].
    intros l s v s' Hs Hf. pose proof (leaderFn_ok view (rules l) data cached l s) as Hl.
    unfold leaderFn in *. destruct (forallb _ _); [|congruence]. destruct Hl as (err' & e' & Hl & He).
    rewrite Hl in Hf. simplify_eq. simpl.
    split; intros c'; [by apply outcomes_agree|]. by eapply (extends_agree view rules data agreement l). }
  pose proof (gi_state _ _ _ _ Hi) as Hs. split; [done|].
  destruct (gi_got _ _ _ _ Hi _ _ _ answered) as (cl & Hk & Hv).
  assert (Ht : truthful (rules c) data res).
  { apply (gi_value _ _ _ _ Hi _ _ (res, err) Hk). by rewrite Hv. }
  destruct (SerialProcess_verdict view (Shared res err) (rules c) data (shared_state st) (Hs c) Ht no_panic)
    as (e' & He & _). by exists e'.
Qed.

(** C28: every caller is served.  With functions that return, no run has more
    than 8n steps for n callers; and until all of them are answered and all
    calls are over, something other than a cancellation can happen: neither a
    cancelled caller nor a cancelled leader blocks the others. *)
Theorem flights_finish {St T} (fn : nat -> St -> option (T * St)) clients s
    (returns : forall c s, is_Some (fn c s)) :
  (forall n st, nsteps (gstep fn clients) n (idle s) st -> (n <= 8 * size clients)%nat) /\
  (forall st, rtc (gstep fn clients) (idle s) st -> ~ finished clients st ->
     exists st', gstep fn clients st st' /\
       forall c k, callers st' !! c = Some (Abandoned k) -> callers st !! c = Some (Abandoned k)).
Proof.
  assert (Hreach : forall st, rtc (gstep fn clients) (idle s) st ->
    ginv clients (fun _ => True) (fun _ _ => True) st).
  { intros st Hr. eapply ginv_reachable; eauto. }
  split.
  - enough (forall n x y, nsteps (gstep fn clients) n x y -> rtc (gstep fn clients) (idle s) x ->
      (n + gmeasure clients y <= gmeasure clients x)%nat) as Hn.
    { intros n st Hst. specialize (Hn n _ _ Hst (rtc_refl _ _)).
      rewrite gmeasure_idle in Hn. lia. }
    intros n x y Hst Hx. induction Hst as [|n x y z Hs _ IH]; [lia|].
    pose proof (gstep_measure fn clients _ _ _ _ (Hreach _ Hx) Hs).
    specialize (IH (rtc_r _ _ _ Hx Hs)). lia.
  - intros st Hr Hn. by eapply flights_progress; eauto.
Qed.

(** ** Witnesses: two callers, one of which joins the flight of the other *)

(** Caller 1 joins the flight of caller 0, which is then cancelled; caller 1 is
    answered with what the function of caller 0 has computed. *)
Definition two_callers {St T} (v : T) (s' : St) : group St T :=
  mkGroup None [mkCall 0 [0; 1]%nat (Published v)]
    (<[1%nat := Got 0 v]> (<[0%nat := Abandoned 0]> (<[1%nat := Waiting 0]> (<[0%nat := Waiting 0]> ∅)))) [0%nat] s'.

Lemma two_callers_reachable {St T} (fn : nat -> St -> option (T * St)) s v s' :
  fn 0%nat s = Some (v, s') -> rtc (gstep fn {[0%nat; 1%nat]}) (idle s) (two_callers v s').
Proof.
  intros Hf. unfold two_callers.
  eapply rtc_l; [apply (g_lead _ _ 0%nat); [set_solver|done]|]. simpl.
  eapply rtc_l; [eapply (g_join _ _ 1%nat 0%nat); [set_solver|done|done]|]. simpl.
  eapply rtc_l; [by eapply (g_start _ _ 0%nat)|]. simpl.
  eapply rtc_l; [by eapply (g_abandon _ _ 0%nat 0%nat)|].
  eapply rtc_l; [by eapply (g_compute _ _ 0%nat)|]. simpl.
  eapply rtc_l; [by eapply (g_forget _ _ 0%nat)|]. simpl.
  eapply rtc_l; [by eapply (g_publish _ _ 0%nat)|]. simpl.
  eapply rtc_l; [by eapply (g_receive _ _ 1%nat 0%nat)|]. apply rtc_refl.
Qed.

Definition count (c : nat) (n : Z) : option (Z * Z) := Some (n, n + 1).

Lemma flights_exclusive_witness :
  rtc (gstep count {[0%nat; 1%nat]}) (idle 0) (two_callers 0 1) /\
  0%nat ∈ ran (two_callers 0 1) /\ NoDup (ran (two_callers 0 1)).
Proof.
  assert (Hr : rtc (gstep count {[0%nat; 1%nat]}) (idle 0) (two_callers 0 1))
    by (by apply two_callers_reachable).
  split; [exact Hr|].
  destruct (flights_exclusive count {[0%nat; 1%nat]} 0 (two_callers 0 1) Hr) as (_ & Hnd & Hgot).
  split; [|exact Hnd]. by destruct (Hgot 1%nat 0%nat 0 eq_refl).
Defined.

(** Caller 0 looks for two words, caller 1 for the second of them. *)
Definition two_rule_lists (c : nat) : list Rule :=
  if Nat.eqb c 0 then demo_rules else [word_rule "bob" (redact_with "B")].

Lemma two_rule_lists_agree data : agreeing two_rule_lists data.
Proof.
  intros c1 c2 ent (r1 & H1 & _ & He1) (r2 & H2 & _ & He2). unfold two_rule_lists in *.
  destruct (Nat.eqb c1 0), (Nat.eqb c2 0); try done.
  - apply list_elem_of_singleton in H2 as ->. clear He1. subst ent. reflexivity.
  - apply list_elem_of_singleton in H1 as ->. clear He2. subst ent. reflexivity.
Qed.

Lemma coalesced_answers_witness :
  exists res err e, sound map_view (two_rule_lists 1) (cache e) /\ exists e',
    SerialProcess (Shared res err) (two_rule_lists 1) (of_str "bob") e =
      Some (first_by_entity (two_rule_lists 1) (of_str "bob"), e').
Proof.
  pose proof (leaderFn_ok map_view demo_rules (of_str "bob") (fun _ => ∅) 0 (mkEnv ∅ [])) as Hl.
  change (forallb _ _) with true in Hl. destruct Hl as (err & e' & Hl & _).
  exists (outcomes (of_str "bob") (queue (of_str "bob") ∅ demo_rules ∅)), err, e'.
  destruct (coalesced_answers map_view two_rule_lists (of_str "bob") (fun _ => ∅) {[0%nat; 1%nat]}
    (mkEnv ∅ []) (two_callers (outcomes (of_str "bob") (queue (of_str "bob") ∅ demo_rules ∅), err) e')
    1 0 (outcomes (of_str "bob") (queue (of_str "bob") ∅ demo_rules ∅)) err (two_rule_lists_agree _)
    (fun _ => empty_map_sound _)) as [Hs Ha]; [|reflexivity|apply panic_free_returns, panic_free_all; by repeat constructor|].
  2: { split; [apply Hs|exact Ha]. }
  apply two_callers_reachable. exact Hl.
Defined.

(** Without that agreement a caller is given the answer of another: caller 1 has
    a rule for the same entity that matches nothing, and finds it. *)
Definition opposed_rules (c : nat) : list Rule :=
  [mkRule false "word" "word" (mkMatcher "word" (fun data => Some (Nat.eqb c 0))) [] (redact_with "W")].

Example other_rules_answer : exists res err (e : env MapStore) rule e',
  rtc (gstep (leaderFn (of_str "bob") (fun c => queue (of_str "bob") ∅ (opposed_rules c) ∅)) {[0%nat; 1%nat]})
    (idle (mkEnv ∅ [])) (two_callers (res, err) e) /\
  SerialProcess (Shared res err) (opposed_rules 1) (of_str "bob") e = Some (Some rule, e') /\
  first_by_entity (opposed_rules 1) (of_str "bob") = None.
Proof.
  pose (word := mkRule false "word" "word" (mkMatcher "word" (fun _ => Some false)) [] (redact_with "W")).
  pose (res := insert "word"%string true ∅ : results).
  exists res, None, (mkEnv ∅ []), word, (mkEnv ∅ []).
  split_and!; [apply two_callers_reachable|..]; reflexivity.
Qed.

Lemma flights_finish_witness :
  exists st', gstep count {[0%nat; 1%nat]} (idle 0) st' /\
    forall c k, callers st' !! c = Some (Abandoned k) -> callers (idle (T:=Z) 0) !! c = Some (Abandoned k).
Proof.
  apply (proj2 (flights_finish count {[0%nat; 1%nat]} 0 (fun c s => ex_intro _ _ eq_refl)));
    [apply rtc_refl|].
  intros [Hc _]. destruct (Hc 0%nat) as (w & Hw & _); [set_solver|]. discriminate Hw.
Defined.
