(* ===== verification/Factory.v ===== *)
(** * analyzer/factory.go, analyzer/pool.go and the constructors they call

    Building an analyzer from its options: the Valkey client and its
    configuration, the worker pools, the choice of the store, of the runner and
    of the coalescer.  The client library and the pool library are parameters;
    the resources that are open when a constructor returns, whether or not it
    fails, are a list.  [Singleflight.v], [ConcurrentRunner.v],
    [ConcurrentTokens.v] and [CacheTracer.v] model what is built here. *)
From S2P Require Import Prelude GoBytes ValkeyCache GoFloat.

(** ** Options *)

(** The fields of [valkey.ClientOption] the program sets; the others are zero. *)
Record ClientOption := mkClientOption {
  InitAddress : list bytes;
  OUsername : string;
  OPassword : string;
  ForceSingleClient : bool;
  DisableCache : bool;
  DialerTimeout : Z;
  ConnWriteTimeout : Z;
  BlockingPoolSize : Z;
  TLSConfig : option bool          (* InsecureSkipVerify; TLS 1.2 at least *)
}.

Record RedisOptions := mkRedis {
  Addr : bytes;
  DisableClusterMode : bool;
  Username : string;
  Password : string;
  DialTimeout : Z;
  ReadTimeout : Z;
  WriteTimeout : Z;
  PoolSize : Z;
  MinIdleConns : Z;
  InsecureSkipVerify : bool;
  PingOnConnect : bool
}.

Record RuleMatchingCacheOptions := mkRMCOptions {
  CacheTTL : Z;
  TTLJitterPercentage : spec_float;
  DisableInMemoryCache : bool;
  ValkeyConfigMutator : option (ClientOption -> ClientOption);
  Redis : RedisOptions
}.

(** [CacheOptions]; the names the two packages share have a [C] in front. *)
Record CacheOptions := mkCacheOptions {
  CEnabled : bool;
  TTL : Z;
  CTTLJitterPercentage : spec_float;
  SingleflightEnabled : bool;
  CDisableInMemoryCache : bool;
  RedisAddr : bytes;
  RedisDisableClusterMode : bool;
  RedisUsername : string;
  RedisPassword : string;
  RedisDialTimeout : Z;
  RedisReadTimeout : Z;
  RedisWriteTimeout : Z;
  RedisPoolSize : Z;
  RedisMinIdleConns : Z;
  RedisInsecureSkipVerify : bool;
  RedisPingOnConnect : bool;
  CValkeyConfigMutator : option (ClientOption -> ClientOption);
  TracingEnabled : bool
}.

Record ConcurrencyOptions := mkConcurrency {
  Enabled : bool;
  ConcurrentTokenProcessing : bool;
  ConcurrentRuleProcessing : bool;
  RuleRunnerPoolSize : Z;
  TokenPoolSize : Z;
  MaxGoroutineIdleTimeout : Z
}.

Record RunnerOptions := mkRunnerOptions { Cache : CacheOptions; Concurrency : ConcurrencyOptions }.

(** ** What is built *)

Inductive resource :=
| ValkeyClient (opt : ClientOption)
| AntsPool (size : Z) (expiry : option Z).

(** A computation that opens and closes resources and may fail. *)
Abbreviation builds A := (list resource -> (A + string) * list resource).

Definition ok {A} (a : A) : builds A := fun live => (inl a, live).
Definition error {A} (msg : string) : builds A := fun live => (inr msg, live).

Definition andThen {A B} (m : builds A) (f : A -> builds B) : builds B :=
  fun live => match m live with
              | (inl a, live) => f a live
              | (inr err, live) => (inr err, live)
              end.

Notation "'try' x := m 'in' k" := (andThen m (fun x => k))
  (at level 10, x name, m at level 100, k at level 200) : go_scope.

Inductive Store :=
| NoopRuleMatchingCache
| ValkeyRuleMatchingCache (c : RuleMatchingCache) (client : resource)
| TracedStore (underlying : Store).

Variant Runner :=
| SerialRulesRunner (coalesced : bool) (store : Store)
| ConcurrentRulesRunner (coalesced : bool) (store : Store) (pool : option resource).

Record ByteAnalyzer := mkByteAnalyzer { ruleRunner : Runner; tokenPool : option resource }.

(** A string analyzer holds a byte analyzer. *)
Definition StringAnalyzer := ByteAnalyzer.

(** ** NewRuleMatchingCache *)

Definition clientOption (options : RuleMatchingCacheOptions) : ClientOption :=
  let r := Redis options in
  let opt := mkClientOption (Split (Addr r) x2c) (Username r) (Password r)
    (DisableClusterMode r) (DisableInMemoryCache options) (DialTimeout r)
    (if 0 <? WriteTimeout r then WriteTimeout r else 0)
    (if 0 <? PoolSize r then PoolSize r else 0)
    (if String.eqb (Password r) EmptyString then None else Some (InsecureSkipVerify r)) in
  match ValkeyConfigMutator options with Some f => f opt | None => opt end.

Section Build.
Context (NewClient : ClientOption -> option string) (Ping : ClientOption -> option string).
Context (NewPool : Z -> option Z -> option string).

Definition openClient (opt : ClientOption) : builds resource := fun live =>
  match NewClient opt with
  | Some err => (inr ("failed to create valkey client: " ++ err)%string, live)
  | None => (inl (ValkeyClient opt), live ++ [ValkeyClient opt])
  end.

(** [client.Close()] of the client just created. *)
Definition closeLast : builds unit := fun live => (inl tt, removelast live).

Definition NewRuleMatchingCache (options : RuleMatchingCacheOptions) : builds Store :=
  let opt := clientOption options in
  try client := openClient opt in
  try _ := (if PingOnConnect (Redis options) then
              match Ping opt with
              | Some err => try _ := closeLast in error ("valkey connection check failed: " ++ err)%string
              | None => ok tt
              end
            else ok tt) in
  ok (ValkeyRuleMatchingCache
    (mkCache (CacheTTL options) (TTLJitterPercentage options) (DisableInMemoryCache options)) client).

(** ** buildCacheStore *)

Definition cacheOptions (o : CacheOptions) : RuleMatchingCacheOptions :=
  mkRMCOptions (TTL o) (CTTLJitterPercentage o) (CDisableInMemoryCache o) (CValkeyConfigMutator o)
    (mkRedis (RedisAddr o) (RedisDisableClusterMode o) (RedisUsername o) (RedisPassword o)
       (RedisDialTimeout o) (RedisReadTimeout o) (RedisWriteTimeout o) (RedisPoolSize o)
       (RedisMinIdleConns o) (RedisInsecureSkipVerify o) (RedisPingOnConnect o)).

Definition wrap {A} (msg : string) (m : builds A) : builds A := fun live =>
  match m live with
  | (inr err, live) => (inr (msg ++ err)%string, live)
  | built => built
  end.

Definition buildCacheStore (o : CacheOptions) : builds Store :=
  if negb (CEnabled o) then ok NoopRuleMatchingCache
  else
    try c := wrap "failed to create cache: " (NewRuleMatchingCache (cacheOptions o)) in
    if TracingEnabled o then ok (TracedStore c) else ok c.

(** ** The pools *)

(** [poolOptions]: an expiry duration when the timeout is positive. *)
Definition poolOptions (o : ConcurrencyOptions) : option Z :=
  if 0 <? MaxGoroutineIdleTimeout o then Some (MaxGoroutineIdleTimeout o) else None.

Definition NewAntsWorkerPool (size : Z) (expiry : option Z) : builds resource := fun live =>
  match NewPool size expiry with
  | Some err => (inr err, live)
  | None => (inl (AntsPool size expiry), live ++ [AntsPool size expiry])
  end.

Definition createRunnerPool (o : ConcurrencyOptions) : builds resource :=
  wrap "failed to create rule runner pool: " (NewAntsWorkerPool (RuleRunnerPoolSize o) (poolOptions o)).

Definition createTokenPool (o : ConcurrencyOptions) : builds resource :=
  wrap "failed to create token pool: " (NewAntsWorkerPool (TokenPoolSize o) (poolOptions o)).

(** ** The runners *)

Definition coalesced (options : RunnerOptions) : bool :=
  CEnabled (Cache options) && SingleflightEnabled (Cache options).

Definition NewSerialRulesRuner (options : RunnerOptions) (store : Store) : Runner :=
  SerialRulesRunner (coalesced options) store.

Definition NewConcurrentRulesRunner (options : RunnerOptions) (store : Store) (pool : option resource) : Runner :=
  ConcurrentRulesRunner (coalesced options) store pool.

(** ** The analyzers *)

Definition NewByteAnalyzer (runner : Runner) : ByteAnalyzer := mkByteAnalyzer runner None.

Definition NewStringAnalyzer (runner : Runner) : StringAnalyzer := NewByteAnalyzer runner.

(** The common part: the pool of the runner, when rules run concurrently. *)
Definition runnerPool (concurrency : ConcurrencyOptions) : builds (option resource) :=
  if Enabled concurrency && ConcurrentRuleProcessing concurrency then
    if RuleRunnerPoolSize concurrency <=? 0
    then error "RuleRunnerPoolSize must be > 0 when ConcurrentRuleProcessing is enabled"
    else try pool := createRunnerPool concurrency in ok (Some pool)
  else ok None.

Definition tokensPool (concurrency : ConcurrencyOptions) : builds (option resource) :=
  if Enabled concurrency && ConcurrentTokenProcessing concurrency then
    if TokenPoolSize concurrency <=? 0
    then error "TokenPoolSize must be > 0 when ConcurrentTokenProcessing is enabled"
    else try pool := createTokenPool concurrency in ok (Some pool)
  else ok None.

Definition selectRunner (options : RunnerOptions) (store : Store) (pool : option resource) : Runner :=
  if Enabled (Concurrency options) && ConcurrentRuleProcessing (Concurrency options)
  then NewConcurrentRulesRunner options store pool
  else NewSerialRulesRuner options store.

Definition MakeByteAnalyzer (options : RunnerOptions) : builds ByteAnalyzer :=
  try cache := buildCacheStore (Cache options) in
  let concurrency := Concurrency options in
  try rpool := runnerPool concurrency in
  try tpool := tokensPool concurrency in
  let runner := selectRunner options cache rpool in
  let ba := NewByteAnalyzer runner in
  ok (if Enabled concurrency && ConcurrentTokenProcessing concurrency
      then mkByteAnalyzer (ruleRunner ba) tpool else ba).

Definition MakeStringAnalyzer (options : RunnerOptions) : builds StringAnalyzer :=
  try cache := buildCacheStore (Cache options) in
  let concurrency := Concurrency options in
  try rpool := runnerPool concurrency in
  ok (NewStringAnalyzer (selectRunner options cache rpool)).
End Build.

(** ** Stop *)

#[export] Instance ClientOption_eq_dec : EqDecision ClientOption.
Proof. solve_decision. Defined.

#[export] Instance resource_eq_dec : EqDecision resource.
Proof. solve_decision. Defined.

(** [ReleaseContext] with a context already cancelled: the pool is closed at
    once, and a pool that is closed stays so. *)
Fixpoint ReleaseContext (pool : resource) (live : list resource) : list resource :=
  match live with
  | [] => []
  | r :: live' => if decide (r = pool) then live' else r :: ReleaseContext pool live'
  end.

(** [Stop] of the runners: nothing for the serial one; the concurrent one
    panics on a nil pool. *)
Definition RunnerStop (r : Runner) (live : list resource) : option (list resource) :=
  match r with
  | SerialRulesRunner _ _ => Some live
  | ConcurrentRulesRunner _ _ pool => pool ← pool; Some (ReleaseContext pool live)
  end.

(** [Stop] of an analyzer: its runner is never nil. *)
Definition Stop (a : ByteAnalyzer) (live : list resource) : option (list resource) :=
  live ← RunnerStop (ruleRunner a) live;
  Some match tokenPool a with Some pool => ReleaseContext pool live | None => live end.

Definition StringStop (a : StringAnalyzer) (live : list resource) : option (list resource) := Stop a live.

(** The pools of an analyzer. *)
Definition pools (a : ByteAnalyzer) : list resource :=
  match ruleRunner a with ConcurrentRulesRunner _ _ (Some pool) => [pool] | _ => [] end ++
  match tokenPool a with Some pool => [pool] | None => [] end.

(** ** Specification *)

Definition rules_concurrent (o : RunnerOptions) : bool :=
  Enabled (Concurrency o) && ConcurrentRuleProcessing (Concurrency o).

Definition tokens_concurrent (o : RunnerOptions) : bool :=
  Enabled (Concurrency o) && ConcurrentTokenProcessing (Concurrency o).

Definition clientOption_of (o : RunnerOptions) : ClientOption := clientOption (cacheOptions (Cache o)).

Definition clients_of (o : RunnerOptions) : list resource :=
  if CEnabled (Cache o) then [ValkeyClient (clientOption_of o)] else [].

(** The store, the runner and the pool the options ask for. *)
Definition expected_store (o : RunnerOptions) : Store :=
  if CEnabled (Cache o) then
    let store := ValkeyRuleMatchingCache
      (mkCache (TTL (Cache o)) (CTTLJitterPercentage (Cache o)) (CDisableInMemoryCache (Cache o)))
      (ValkeyClient (clientOption_of o)) in
    if TracingEnabled (Cache o) then TracedStore store else store
  else NoopRuleMatchingCache.

Definition expected (o : RunnerOptions) : ByteAnalyzer :=
  let c := Concurrency o in
  mkByteAnalyzer
    (if rules_concurrent o
     then ConcurrentRulesRunner (coalesced o) (expected_store o) (Some (AntsPool (RuleRunnerPoolSize c) (poolOptions c)))
     else SerialRulesRunner (coalesced o) (expected_store o))
    (if tokens_concurrent o then Some (AntsPool (TokenPoolSize c) (poolOptions c)) else None).

Definition succeeds (r : option string) : bool := match r with None => true | Some _ => false end.

Section Properties.
Context (NewClient Ping : ClientOption -> option string) (NewPool : Z -> option Z -> option string).

Definition cache_ok (o : RunnerOptions) : bool :=
  negb (CEnabled (Cache o)) ||
  succeeds (NewClient (clientOption_of o)) &&
    (negb (RedisPingOnConnect (Cache o)) || succeeds (Ping (clientOption_of o))).

Definition pool_ok (concurrent : bool) (size : Z) (c : ConcurrencyOptions) : bool :=
  negb concurrent || (0 <? size) && succeeds (NewPool size (poolOptions c)).

Definition rules_ok (o : RunnerOptions) : bool :=
  pool_ok (rules_concurrent o) (RuleRunnerPoolSize (Concurrency o)) (Concurrency o).

Definition tokens_ok (o : RunnerOptions) : bool :=
  pool_ok (tokens_concurrent o) (TokenPoolSize (Concurrency o)) (Concurrency o).

Definition buildable (o : RunnerOptions) : bool := cache_ok o && rules_ok o && tokens_ok o.
End Properties.

(** ** The constructors against the specification *)

Lemma andThen_inl {A B} (m : builds A) (f : A -> builds B) live a live' :
  m live = (inl a, live') -> andThen m f live = f a live'.
Proof. unfold andThen. by intros ->. Qed.

Lemma andThen_inr {A B} (m : builds A) (f : A -> builds B) live err live' :
  m live = (inr err, live') -> andThen m f live = (inr err, live').
Proof. unfold andThen. by intros ->. Qed.

Lemma andThen_ext {A B} (m : builds A) (f g : A -> builds B) live :
  (forall a live', f a live' = g a live') -> andThen m f live = andThen m g live.
Proof. intros He. unfold andThen. destruct (m live) as [[a|err] live']; auto. Qed.



Section Lemmas.
Context (NewClient Ping : ClientOption -> option string) (NewPool : Z -> option Z -> option string).

Lemma buildCacheStore_spec o live :
  if cache_ok NewClient Ping o
  then buildCacheStore NewClient Ping (Cache o) live = (inl (expected_store o), live ++ clients_of o)
  else exists err, buildCacheStore NewClient Ping (Cache o) live = (inr err, live).
Proof.
  unfold cache_ok, buildCacheStore, expected_store, clients_of, clientOption_of.
  destruct (CEnabled (Cache o)); simpl; [|by rewrite app_nil_r].
  unfold andThen, wrap, NewRuleMatchingCache, openClient, andThen. simpl.
  destruct (NewClient _) as [err|]; simpl; [by eexists|].
  destruct (RedisPingOnConnect (Cache o)); simpl.
  - destruct (Ping _) as [err|]; simpl.
    + eexists. by rewrite removelast_last.
    + by destruct (TracingEnabled (Cache o)).
  - by destruct (TracingEnabled (Cache o)).
Qed.

(** The two pools are built alike. *)
Lemma pool_spec msg msg' (concurrent : bool) size c live :
  let build : builds (option resource) := if concurrent then
      if size <=? 0 then error msg
      else andThen (wrap msg' (NewAntsWorkerPool NewPool size (poolOptions c))) (fun p => ok (Some p))
    else ok None in
  if pool_ok NewPool concurrent size c
  then build live = (inl (if concurrent then Some (AntsPool size (poolOptions c)) else None),
                     live ++ (if concurrent then [AntsPool size (poolOptions c)] else []))
  else exists err, build live = (inr err, live) /\ (size <= 0 -> err = msg).
Proof.
  unfold pool_ok, error, ok. destruct concurrent; simpl; [|by rewrite app_nil_r].
  destruct (Z.ltb_spec 0 size) as [Hp|Hp]; simpl.
  - rewrite (proj2 (Z.leb_gt _ _)) by lia. unfold andThen, wrap, NewAntsWorkerPool.
    destruct (NewPool size _); simpl; [|done]. eexists. split; [done|lia].
  - rewrite (proj2 (Z.leb_le _ _)) by lia. by eexists.
Qed.

Lemma runnerPool_spec o live :
  if rules_ok NewPool o
  then runnerPool NewPool (Concurrency o) live =
    (inl (if rules_concurrent o then Some (AntsPool (RuleRunnerPoolSize (Concurrency o)) (poolOptions (Concurrency o))) else None),
     live ++ (if rules_concurrent o then [AntsPool (RuleRunnerPoolSize (Concurrency o)) (poolOptions (Concurrency o))] else []))
  else exists err, runnerPool NewPool (Concurrency o) live = (inr err, live) /\
    (RuleRunnerPoolSize (Concurrency o) <= 0 ->
     err = "RuleRunnerPoolSize must be > 0 when ConcurrentRuleProcessing is enabled"%string).
Proof. apply pool_spec. Qed.

Lemma tokensPool_spec o live :
  if tokens_ok NewPool o
  then tokensPool NewPool (Concurrency o) live =
    (inl (if tokens_concurrent o then Some (AntsPool (TokenPoolSize (Concurrency o)) (poolOptions (Concurrency o))) else None),
     live ++ (if tokens_concurrent o then [AntsPool (TokenPoolSize (Concurrency o)) (poolOptions (Concurrency o))] else []))
  else exists err, tokensPool NewPool (Concurrency o) live = (inr err, live) /\
    (TokenPoolSize (Concurrency o) <= 0 ->
     err = "TokenPoolSize must be > 0 when ConcurrentTokenProcessing is enabled"%string).
Proof. apply pool_spec. Qed.

Lemma selectRunner_spec o :
  selectRunner o (expected_store o)
    (if rules_concurrent o then Some (AntsPool (RuleRunnerPoolSize (Concurrency o)) (poolOptions (Concurrency o))) else None) =
  ruleRunner (expected o).
Proof. unfold selectRunner, expected, rules_concurrent. simpl. by case_match. Qed.

Lemma pools_expected o :
  pools (expected o) =
    (if rules_concurrent o then [AntsPool (RuleRunnerPoolSize (Concurrency o)) (poolOptions (Concurrency o))] else []) ++
    (if tokens_concurrent o then [AntsPool (TokenPoolSize (Concurrency o)) (poolOptions (Concurrency o))] else []).
Proof. unfold pools, expected. simpl. by destruct (rules_concurrent o), (tokens_concurrent o). Qed.

End Lemmas.

Lemma ReleaseContext_app pool l1 l2 : (pool ∉ l1) -> ReleaseContext pool (l1 ++ pool :: l2) = l1 ++ l2.
Proof.
  induction l1 as [|r l1 IH]; simpl; intros Hp; [by rewrite decide_True|].
  rewrite decide_False by set_solver. f_equal. apply IH. set_solver.
Qed.

Lemma Stop_expected o : Stop (expected o) (clients_of o ++ pools (expected o)) = Some (clients_of o).
Proof.
  assert (Hc : forall size expiry, AntsPool size expiry ∉ clients_of o)
    by (intros size expiry; unfold clients_of; destruct (CEnabled _); set_solver).
  rewrite pools_expected. unfold Stop, RunnerStop, expected. simpl.
  destruct (rules_concurrent o), (tokens_concurrent o); simpl;
    rewrite ?ReleaseContext_app by apply Hc; by rewrite ?app_nil_r.
Qed.

(** What [MakeByteAnalyzer] builds. *)
Lemma MakeByteAnalyzer_built NewClient Ping NewPool o :
  if buildable NewClient Ping NewPool o
  then MakeByteAnalyzer NewClient Ping NewPool o [] = (inl (expected o), clients_of o ++ pools (expected o)) /\
    Stop (expected o) (clients_of o ++ pools (expected o)) = Some (clients_of o)
  else exists err live, MakeByteAnalyzer NewClient Ping NewPool o [] = (inr err, live).
Proof.
  unfold buildable, MakeByteAnalyzer.
  pose proof (buildCacheStore_spec NewClient Ping o []) as Hc.
  destruct (cache_ok NewClient Ping o); simpl; [|destruct Hc as [err Hc]; eexists _, _; by apply andThen_inr].
  rewrite (andThen_inl _ _ _ _ _ Hc). simpl.
  pose proof (runnerPool_spec NewPool o (clients_of o)) as Hr.
  destruct (rules_ok NewPool o); simpl; [|destruct Hr as (err & Hr & _); eexists _, _; by apply andThen_inr].
  rewrite (andThen_inl _ _ _ _ _ Hr).
  match type of Hr with _ = (_, ?l) => pose proof (tokensPool_spec NewPool o l) as Ht end.
  destruct (tokens_ok NewPool o); simpl; [|destruct Ht as (err & Ht & _); eexists _, _; by apply andThen_inr].
  split; [|apply Stop_expected].
  rewrite (andThen_inl _ _ _ _ _ Ht). unfold ok. rewrite selectRunner_spec, pools_expected, app_assoc.
  unfold NewByteAnalyzer, expected, tokens_concurrent. simpl.
  by destruct (Enabled _ && ConcurrentTokenProcessing _).
Qed.

(** ** Properties *)

(** C33: [MakeByteAnalyzer] succeeds exactly for the options that can be built
    (the client connects when the cache is on, a concurrent level has a positive
    pool size and its pool), and then it returns the analyzer the options ask
    for, with a client and the pools of the analyzer open and nothing else;
    otherwise it returns an error.  Stopping the analyzer releases the pools and
    leaves the client open. *)
Theorem MakeByteAnalyzer_spec NewClient Ping NewPool o :
  if buildable NewClient Ping NewPool o
  then MakeByteAnalyzer NewClient Ping NewPool o [] = (inl (expected o), clients_of o ++ pools (expected o)) /\
    Stop (expected o) (clients_of o ++ pools (expected o)) = Some (clients_of o)
  else exists err live, MakeByteAnalyzer NewClient Ping NewPool o [] = (inr err, live).
Proof. apply MakeByteAnalyzer_built. Qed.

(** A failing constructor leaves its resources open.  When the token pool
    size is rejected, the client and the pool of the rule runner have already
    been opened, and the caller has no analyzer to stop. *)
Theorem invalid_token_pool_leaks NewClient Ping NewPool o
    (cache_works : cache_ok NewClient Ping o = true) (rules_work : rules_ok NewPool o = true)
    (concurrent : tokens_concurrent o = true) (invalid : TokenPoolSize (Concurrency o) <= 0) :
  exists leaked, MakeByteAnalyzer NewClient Ping NewPool o [] =
      (inr "TokenPoolSize must be > 0 when ConcurrentTokenProcessing is enabled"%string, leaked) /\
    leaked = clients_of o ++
      (if rules_concurrent o then [AntsPool (RuleRunnerPoolSize (Concurrency o)) (poolOptions (Concurrency o))] else []).
Proof.
  unfold MakeByteAnalyzer. eexists. split; [|reflexivity].
  pose proof (buildCacheStore_spec NewClient Ping o []) as Hc. rewrite cache_works in Hc.
  rewrite (andThen_inl _ _ _ _ _ Hc). simpl.
  pose proof (runnerPool_spec NewPool o (clients_of o)) as Hr. rewrite rules_work in Hr.
  rewrite (andThen_inl _ _ _ _ _ Hr).
  match type of Hr with _ = (_, ?l) => pose proof (tokensPool_spec NewPool o l) as Ht end.
  unfold tokens_ok, pool_ok in Ht. rewrite concurrent, (proj2 (Z.ltb_ge _ _)) in Ht by lia. simpl in Ht.
  destruct Ht as (err & Ht & He). rewrite He in Ht by lia. by apply andThen_inr.
Qed.

(** A string analyzer is the byte analyzer without token concurrency: the
    token options of the configuration have no effect on it, not even their
    validation. *)
Theorem MakeStringAnalyzer_no_tokens NewClient Ping NewPool o live :
  let c := Concurrency o in
  MakeStringAnalyzer NewClient Ping NewPool o live =
  MakeByteAnalyzer NewClient Ping NewPool
    (mkRunnerOptions (Cache o)
       (mkConcurrency (Enabled c) false (ConcurrentRuleProcessing c) (RuleRunnerPoolSize c)
          (TokenPoolSize c) (MaxGoroutineIdleTimeout c))) live.
Proof.
  apply andThen_ext. intros store live1. apply andThen_ext. intros rp live2.
  unfold tokensPool. simpl. by rewrite !andb_false_r.
Qed.

(** The read timeout and the minimum of idle connections of the cache
    options are accepted and ignored. *)
Theorem unused_redis_options NewClient Ping NewPool c o readTimeout minIdle live :
  let with_unused readTimeout minIdle :=
    mkRunnerOptions
      (mkCacheOptions (CEnabled o) (TTL o) (CTTLJitterPercentage o) (SingleflightEnabled o)
         (CDisableInMemoryCache o) (RedisAddr o) (RedisDisableClusterMode o) (RedisUsername o)
         (RedisPassword o) (RedisDialTimeout o) readTimeout (RedisWriteTimeout o) (RedisPoolSize o)
         minIdle (RedisInsecureSkipVerify o) (RedisPingOnConnect o) (CValkeyConfigMutator o)
         (TracingEnabled o)) c in
  MakeByteAnalyzer NewClient Ping NewPool (with_unused readTimeout minIdle) live =
  MakeByteAnalyzer NewClient Ping NewPool (with_unused 0 0) live.
Proof. done. Qed.

(** ** Witness *)

Definition demo_options : RunnerOptions :=
  mkRunnerOptions
    (mkCacheOptions true Second (of_int 0) true false (of_str "localhost:6379") true EmptyString EmptyString
       0 0 0 0 0 false false None false)
    (mkConcurrency true true true 4 0 0).

Lemma invalid_token_pool_leaks_witness :
  exists leaked, MakeByteAnalyzer (fun _ => None) (fun _ => None) (fun _ _ => None) demo_options [] =
      (inr "TokenPoolSize must be > 0 when ConcurrentTokenProcessing is enabled"%string, leaked) /\
    length leaked = 2%nat.
Proof.
  destruct (invalid_token_pool_leaks (fun _ => None) (fun _ => None) (fun _ _ => None) demo_options
    eq_refl eq_refl eq_refl ltac:(done)) as (leaked & Hm & Hl).
  exists leaked. split; [exact Hm|]. rewrite Hl. reflexivity.
Defined.
