(* ===== verification/Regex.v ===== *)
(** * The regular expressions of pattern/regex.go

    The syntax of Go's [regexp] that the program's patterns use, a parser for
    it ([Compile]), the meaning of an expression on the runes of a text
    ([Matches], a relation between two positions) and an executable matcher
    ([ends], the positions a match from a given position can end at).
    [MatchBytes_iff] relates the two.  [regexp.Match] answers whether a match
    exists anywhere in the text, so the choice among several matches
    (leftmost-first, lazy operators) does not show.

    Inputs are the runes of the text, an invalid byte counting as [RuneError].
    Under [(?i)] a rune matches when one of the runes it folds with does; the
    patterns are ASCII, so only the orbits with an ASCII member are listed. *)
From S2P Require Import Prelude GoBytes.

(** ** Syntax *)

(** Inclusive ranges of runes. *)
Abbreviation ranges := (list (Z * Z)).

Definition in_ranges (rs : ranges) (r : Z) : bool :=
  existsb (fun lh : Z * Z => (lh.1 <=? r) && (r <=? lh.2)) rs.

(** A character class: negated or not, a list of items that are ranges or the
    complements of ranges ([\W] inside brackets). *)
Record class := mkClass { cfold : bool; cneg : bool; citems : list (bool * ranges) }.

Inductive regex :=
| Eps
| Bol
| Eol
| WordB
| Class (c : class)
| Cat (a b : regex)
| Alt (a b : regex)
| Rep (a : regex) (lo : nat) (hi : option nat).

(** The runes that fold with a rune ([unicode.SimpleFold] orbits with an ASCII
    member): K and k with the Kelvin sign, S and s with the long s. *)
Definition orbit (r : Z) : list Z :=
  if (65 <=? r) && (r <=? 90) then
    r :: r + 32 :: (if r =? 75 then [8490] else if r =? 83 then [383] else [])
  else if (97 <=? r) && (r <=? 122) then
    r :: r - 32 :: (if r =? 107 then [8490] else if r =? 115 then [383] else [])
  else if r =? 8490 then [r; 75; 107]
  else if r =? 383 then [r; 83; 115]
  else [r].

Definition in_class (c : class) (r : Z) : bool :=
  let rs := if cfold c then orbit r else [r] in
  xorb (cneg c)
    (existsb (fun item : bool * ranges => xorb item.1 (existsb (in_ranges item.2) rs)) (citems c)).

Definition isWordChar (r : Z) : bool := in_ranges [(48, 57); (65, 90); (95, 95); (97, 122)] r.

(** ** Meaning *)

Section Matching.
Context (s : list Z).

Definition wordAt (i : nat) : bool := match s !! i with Some r => isWordChar r | None => false end.

Definition boundary (i : nat) : bool :=
  xorb (match i with O => false | S k => wordAt k end) (wordAt i).

(** [Matches r i j]: the runes from position [i] to position [j] match [r]. *)
Fixpoint Matches (r : regex) (i j : nat) : Prop :=
  match r with
  | Eps => i = j
  | Bol => i = 0%nat /\ i = j
  | Eol => i = length s /\ i = j
  | WordB => boundary i = true /\ i = j
  | Class c => j = S i /\ exists x, s !! i = Some x /\ in_class c x = true
  | Cat a b => exists k, Matches a i k /\ Matches b k j
  | Alt a b => Matches a i j \/ Matches b i j
  | Rep a lo hi =>
      exists n, (lo <= n)%nat /\ match hi with Some m => (n <= m)%nat | None => True end /\
        nsteps (Matches a) n i j
  end.

(** ** Execution *)

Definition union_nat (l k : list nat) : list nat :=
  l ++ List.filter (fun i => negb (existsb (Nat.eqb i) l)) k.

Definition image (f : nat -> list nat) (l : list nat) : list nat :=
  fold_right (fun i acc => union_nat (f i) acc) [] l.

Fixpoint exactly (f : nat -> list nat) (n : nat) (l : list nat) : list nat :=
  match n with O => l | S n' => exactly f n' (image f l) end.

Fixpoint up_to (f : nat -> list nat) (n : nat) (l : list nat) : list nat :=
  match n, l with
  | S n', _ :: _ => union_nat l (up_to f n' (image f l))
  | _, _ => l
  end.

Fixpoint ends (r : regex) (i : nat) : list nat :=
  match r with
  | Eps => [i]
  | Bol => if Nat.eqb i 0 then [i] else []
  | Eol => if Nat.eqb i (length s) then [i] else []
  | WordB => if boundary i then [i] else []
  | Class c => match s !! i with
               | Some x => if in_class c x then [S i] else []
               | None => []
               end
  | Cat a b => image (ends b) (ends a i)
  | Alt a b => union_nat (ends a i) (ends b i)
  | Rep a lo hi =>
      up_to (ends a) (match hi with Some m => (m - lo)%nat | None => length s end)
        (if match hi with Some m => (lo <=? m)%nat | None => true end
         then exactly (ends a) lo [i] else [])
  end.

Definition match_at (r : regex) (i : nat) : bool :=
  match ends r i with [] => false | _ :: _ => true end.
End Matching.

(** [re.Match(b)]. *)
Definition MatchBytes (r : regex) (b : bytes) : bool :=
  let s := runes b in existsb (match_at s r) (List.seq 0 (S (length s))).

(** ** Parsing *)

Definition digits : ranges := [(48, 57)].
Definition spaces : ranges := [(9, 10); (12, 13); (32, 32)].
Definition words : ranges := [(48, 57); (65, 90); (95, 95); (97, 122)].

(** The Perl classes [\d], [\s], [\w] and their complements. *)
Definition perl_class (c : byte) : option (bool * ranges) :=
  match c with
  | "d" => Some (false, digits) | "D" => Some (true, digits)
  | "s" => Some (false, spaces) | "S" => Some (true, spaces)
  | "w" => Some (false, words) | "W" => Some (true, words)
  | _ => None
  end%byte.

(** The rune written by an escape that is no class: the control characters
    with a letter, and punctuation, which stands for itself. *)
Definition escaped (c : byte) : option Z :=
  match c with
  | "t" => Some 9 | "n" => Some 10 | "v" => Some 11 | "f" => Some 12 | "r" => Some 13
  | "a" => Some 7
  | _ => if is_ascii c && (negb (isWordChar (bz c)) || beq c "_") then Some (bz c) else None
  end%byte.

Definition single (fold : bool) (r : Z) : regex := Class (mkClass fold false [(false, [(r, r)])]).

(** A character of a class, possibly escaped. *)
Definition class_char (s : bytes) : option (Z * bytes) :=
  match s with
  | "\" :: c :: s' => r ← escaped c; Some (r, s')
  | c :: s' => if is_ascii c then Some (bz c, s') else None
  | [] => None
  end%byte.

(** The items of a class up to the closing bracket; a bracket that comes first
    stands for itself. *)
Fixpoint class_items (fuel : nat) (first : bool) (s : bytes) : option (list (bool * ranges) * bytes) :=
  match fuel with
  | O => None
  | S fuel' =>
      let one :=
        '(lo, s1) ← class_char s;
        match s1 with
        | "-" :: c :: s2 =>
            if beq c "]" then '(its, rest) ← class_items fuel' false s1;
                              Some ((false, [(lo, lo)]) :: its, rest)
            else '(hi, s3) ← class_char (c :: s2);
                 if hi <? lo then None
                 else '(its, rest) ← class_items fuel' false s3;
                      Some ((false, [(lo, hi)]) :: its, rest)
        | _ => '(its, rest) ← class_items fuel' false s1;
               Some ((false, [(lo, lo)]) :: its, rest)
        end%byte in
      match s with
      | "]" :: s' => if first then one else Some ([], s')
      | "[" :: ":" :: _ => None
      | "\" :: c :: s' =>
          match perl_class c with
          | Some item => '(its, rest) ← class_items fuel' false s'; Some (item :: its, rest)
          | None => one
          end
      | _ => one
      end%byte
  end.

Definition parse_class (fold : bool) (s : bytes) : option (regex * bytes) :=
  let '(neg, s) := match s with "^" :: s' => (true, s') | _ => (false, s) end%byte in
  '(its, rest) ← class_items (S (length s)) true s;
  Some (Class (mkClass fold neg its), rest).

(** A decimal number: at least one digit, no leading zero before another. *)
Fixpoint parse_digits (acc : Z) (s : bytes) : Z * bytes :=
  match s with
  | c :: s' => if in_range "0" "9" c then parse_digits (10 * acc + (bz c - 48)) s' else (acc, s)
  | [] => (acc, s)
  end%byte.

Definition parse_int (s : bytes) : option (Z * bytes) :=
  match s with
  | "0" :: c :: _ => if in_range "0" "9" c then None else Some (parse_digits 0 s)
  | c :: _ => if in_range "0" "9" c then Some (parse_digits 0 s) else None
  | [] => None
  end%byte.

(** [{n}], [{n,}] or [{n,m}] after the brace. *)
Definition parse_bounds (s : bytes) : option (Z * option Z * bytes) :=
  '(lo, s1) ← parse_int s;
  match s1 with
  | "}" :: rest => Some (lo, Some lo, rest)
  | "," :: "}" :: rest => Some (lo, None, rest)
  | "," :: s2 =>
      '(hi, s3) ← parse_int s2;
      match s3 with "}" :: rest => Some (lo, Some hi, rest) | _ => None end
  | _ => None
  end%byte.

(** A brace that starts bounds is no atom: it repeats nothing, or what is already
    repeated. *)
Definition parse_atom (fold : bool) (s : bytes) : option (regex * bytes) :=
  match s with
  | [] => None
  | "^" :: s' => Some (Bol, s')
  | "$" :: s' => Some (Eol, s')
  | "." :: s' => Some (Class (mkClass false true [(false, [(10, 10)])]), s')
  | "[" :: s' => parse_class fold s'
  | "*" :: _ | "+" :: _ | "?" :: _ => None
  | "{" :: s' => match parse_bounds s' with Some _ => None | None => Some (single fold (bz "{"), s') end
  | "\" :: "b" :: s' => Some (WordB, s')
  | "\" :: c :: s' =>
      match perl_class c with
      | Some item => Some (Class (mkClass fold false [item]), s')
      | None => r ← escaped c; Some (single fold r, s')
      end
  | c :: s' => if is_ascii c && negb (beq c "\") then Some (single fold (bz c), s') else None
  end%byte.

Definition drop_lazy (s : bytes) : bytes := match s with "?" :: s' => s' | _ => s end%byte.

(** No more than [n] copies of anything, repetitions inside repetitions counted. *)
Fixpoint repeatIsValid (re : regex) (n : Z) : bool :=
  match re with
  | Rep a lo hi =>
      let m := Z.of_nat (default lo hi) in
      if bool_decide (hi = Some 0%nat) then true
      else if n <? m then false
      else repeatIsValid a (if 0 <? m then n / m else n)
  | Cat a b | Alt a b => repeatIsValid a n && repeatIsValid b n
  | _ => true
  end.

(** The repetition operator that follows an atom, if any; bounds above 1000 or
    out of order are errors, and so are more than 1000 copies; a brace that starts
    no bounds is a literal. *)
Definition parse_postfix (a : regex) (s : bytes) : option (regex * bytes) :=
  match s with
  | "*" :: s' => Some (Rep a 0 None, drop_lazy s')
  | "+" :: s' => Some (Rep a 1 None, drop_lazy s')
  | "?" :: s' => Some (Rep a 0 (Some 1%nat), drop_lazy s')
  | "{" :: s' =>
      match parse_bounds s' with
      | None => Some (a, s)
      | Some (lo, hi, rest) =>
          let top := default lo hi in
          let re := Rep a (Z.to_nat lo) (Z.to_nat <$> hi) in
          if (1000 <? lo) || (1000 <? top) || (top <? lo) then None
          else if ((2 <=? lo) || (2 <=? top)) && negb (repeatIsValid re 1000) then None
          else Some (re, drop_lazy rest)
      end
  | _ => Some (a, s)
  end%byte.

(** [parse fold cat s]: [cat] is the concatenation read so far.  Stops at the
    end or at a closing parenthesis. *)
Fixpoint parse (fuel : nat) (fold : bool) (cat : regex) (s : bytes) : option (regex * bytes) :=
  match fuel with
  | O => None
  | S fuel' =>
      let group inner :=
        '(r, rest) ← parse fuel' fold Eps inner;
        match rest with ")" :: s' => Some (r, s') | _ => None end%byte in
      let continue atom :=
        '(a, s1) ← atom;
        '(r, s2) ← parse_postfix a s1;
        parse fuel' fold (Cat cat r) s2 in
      match s with
      | [] => Some (cat, [])
      | ")" :: _ => Some (cat, s)
      | "|" :: s' => '(r, rest) ← parse fuel' fold Eps s'; Some (Alt cat r, rest)
      | "(" :: "?" :: ":" :: s' => continue (group s')
      | "(" :: "?" :: _ => None
      | "(" :: s' => continue (group s')
      | _ => continue (parse_atom fold s)
      end%byte
  end.

(** [regexp.Compile] on the syntax above, for expressions of at most a thousand
    bytes: these cannot reach the limits that Go sets to the depth of an
    expression (a thousand levels, each taking a byte) and to the size of its
    program (more than three million instructions, a byte making two at most,
    copied a thousand times).  [None] is an error, or an expression outside of
    this syntax. *)
Definition Compile (expr : string) : option regex :=
  let s := of_str expr in
  if 1000 <? blen s then None else
  let '(fold, s) :=
    match s with "(" :: "?" :: "i" :: ")" :: s' => (true, s') | _ => (false, s) end%byte in
  match parse (S (length s)) fold Eps s with
  | Some (r, []) => Some r
  | _ => None
  end.

(** [regexp.MustCompile]: the patterns of the program compile, see
    Matchers.v; an expression that does not would match nothing here. *)
Definition MustCompile (expr : string) : regex := default (Class (mkClass false false [])) (Compile expr).

(** What repeats nothing, or is repeated twice, or too often. *)
Example invalid_repetitions :
  Forall (fun e => Compile e = None)
    ["{3}"; "a|{3}"; "({3})"; "a{2}{3}"; "a*{2}"; "a{2}*"; "a{2}??"; "a{1001}"; "a{3,2}"; "(?:a{100}){100}";
     "(?:(?:a{2}|b{20}){5,20}c){4}"]%string.
Proof. repeat (constructor; [vm_compute; reflexivity|]). constructor. Qed.

Example valid_repetitions :
  Forall (fun e => is_Some (Compile e))
    ["a{2}"; "a{2}?"; "a{,3}"; "{"; "a{{2}"; "^{2}"; "(?:a{10}){100}"; "(?:(?:a{500}){0}){1000}";
     "(?:(?:a{2}|b{20}){5,10}c){4}"]%string.
Proof. repeat (constructor; [vm_compute; eexists; reflexivity|]). constructor. Qed.

(** ** The matcher decides the relation *)

Lemma elem_of_filterb {A} (f : A -> bool) (l : list A) (x : A) :
  x ∈ List.filter f l <-> x ∈ l /\ f x = true.
Proof. by rewrite !list_elem_of_In, filter_In. Qed.

Lemma elem_of_union_nat l k j : j ∈ union_nat l k <-> j ∈ l \/ j ∈ k.
Proof.
  unfold union_nat. rewrite elem_of_app, elem_of_filterb, negb_true_iff, existsb_false_iff.
  split; [tauto|]. intros [?|Hk]; [by left|].
  destruct (decide (j ∈ l)) as [?|Hn]; [by left|right]. split; [done|].
  apply Forall_forall. intros x Hx. apply Nat.eqb_neq. by intros ->.
Qed.

Lemma elem_of_image f l j : j ∈ image f l <-> exists i, i ∈ l /\ j ∈ f i.
Proof.
  induction l as [|i l IH]; simpl; [set_solver|].
  rewrite elem_of_union_nat, IH. set_solver.
Qed.

Section Iteration.
Context (f : nat -> list nat) (R : nat -> nat -> Prop) (f_R : forall i j, j ∈ f i <-> R i j).

Lemma elem_of_exactly n : forall l j,
  j ∈ exactly f n l <-> exists i, i ∈ l /\ nsteps R n i j.
Proof.
  induction n as [|n IH]; intros l j; simpl.
  - split; [intros ?; exists j; split; [done|constructor]|]. intros (i & Hi & Hs). by inversion Hs; subst.
  - rewrite IH. setoid_rewrite elem_of_image. split.
    + intros (k & (i & Hi & Hk) & Hs). exists i. split; [done|]. econstructor; [by apply f_R|done].
    + intros (i & Hi & Hs). inversion Hs; subst. eexists. split; [|done].
      exists i. split; [done|]. by apply f_R.
Qed.

Lemma elem_of_up_to n : forall l j,
  j ∈ up_to f n l <-> exists i m, i ∈ l /\ (m <= n)%nat /\ nsteps R m i j.
Proof.
  assert (Hbase : forall (l : list nat) j, j ∈ l -> exists i m, i ∈ l /\ (m <= 0)%nat /\ nsteps R m i j).
  { intros l j Hj. exists j, 0%nat. split_and!; [done|lia|constructor]. }
  induction n as [|n IH]; intros l j.
  - split; [apply Hbase|]. intros (i & m & Hi & Hm & Hs).
    assert (m = 0%nat) as -> by lia. by inversion Hs; subst.
  - destruct l as [|x l]; [simpl; set_solver|].
    change (up_to f (S n) (x :: l)) with (union_nat (x :: l) (up_to f n (image f (x :: l)))).
    rewrite elem_of_union_nat, IH. setoid_rewrite elem_of_image. split.
    + intros [Hj|(k & m & (i & Hi & Hk) & Hm & Hs)].
      * apply Hbase in Hj as (i & m & ? & ? & ?). exists i, m. split_and!; [done|lia|done].
      * exists i, (S m). split_and!; [done|lia|]. econstructor; [by apply f_R|done].
    + intros (i & m & Hi & Hm & Hs). destruct m as [|m]; [left; by inversion Hs; subst|right].
      inversion Hs; subst. eexists _, m. split_and!; [|lia|done].
      exists i. split; [done|]. by apply f_R.
Qed.

(** When steps never go back, empty steps can be dropped from a chain. *)
Lemma nsteps_monotone n i j : (forall i j, R i j -> (i <= j)%nat) ->
  nsteps R n i j -> (i <= j)%nat /\ exists m, (m <= j - i)%nat /\ nsteps R m i j.
Proof.
  intros Hmono. induction 1 as [i|n i k j Hik Hs [Hkj (m & Hm & Hs')]].
  - split; [lia|]. exists 0%nat. split; [lia|constructor].
  - apply Hmono in Hik as Hle. split; [lia|]. destruct (decide (i = k)) as [->|Hne].
    + exists m. split; [lia|done].
    + exists (S m). split; [lia|]. by econstructor.
Qed.
End Iteration.

Lemma nsteps_ind_bound (R : nat -> nat -> Prop) (L : nat) n i j :
  (forall i j, R i j -> (i <= j)%nat /\ (j <= Nat.max i L)%nat) ->
  nsteps R n i j -> (i <= j)%nat /\ (j <= Nat.max i L)%nat.
Proof. intros HR. induction 1 as [|n i k j Hik _ IH]; [lia|]. apply HR in Hik. lia. Qed.

Section Correctness.
Context (s : list Z).

Lemma Matches_bounds r : forall i j,
  Matches s r i j -> (i <= j)%nat /\ (j <= Nat.max i (length s))%nat.
Proof.
  induction r as [| | | |c|a IHa b IHb|a IHa b IHb|a IHa lo hi]; simpl; intros i j H.
  - lia.
  - lia.
  - lia.
  - lia.
  - destruct H as (-> & x & Hx & _). apply lookup_lt_Some in Hx. lia.
  - destruct H as (k & Ha%IHa & Hb%IHb). lia.
  - destruct H as [?%IHa|?%IHb]; lia.
  - destruct H as (n & _ & _ & Hs). by eapply nsteps_ind_bound.
Qed.

Lemma up_to_exactly f R lo extra l j : (forall i j, j ∈ f i <-> R i j) ->
  j ∈ up_to f extra (exactly f lo l) <->
    exists i n, i ∈ l /\ (lo <= n <= lo + extra)%nat /\ nsteps R n i j.
Proof.
  intros HR. rewrite (elem_of_up_to f R HR). setoid_rewrite (elem_of_exactly f R HR). split.
  - intros (k & m & (i & Hi & Hs) & Hm & Hs'). exists i, (lo + m)%nat.
    split_and!; [done|lia|lia|]. by eapply nsteps_trans.
  - intros (i & n & Hi & Hn & Hs). replace n with (lo + (n - lo))%nat in Hs by lia.
    apply nsteps_add_inv in Hs as (k & ? & ?). exists k, (n - lo)%nat.
    split_and!; [|lia|done]. by exists i.
Qed.

Lemma up_to_nil f n : up_to f n [] = [].
Proof. by destruct n. Qed.

Lemma elem_of_ends r : forall i j, j ∈ ends s r i <-> Matches s r i j.
Proof.
  induction r as [| | | |c|a IHa b IHb|a IHa b IHb|a IHa lo hi]; simpl; intros i j.
  - set_solver.
  - destruct (Nat.eqb_spec i 0); set_solver.
  - destruct (Nat.eqb_spec i (length s)); set_solver.
  - destruct (boundary s i); set_solver.
  - destruct (s !! i) as [x|]; [|set_solver]. destruct (in_class c x) eqn:Hc; [set_solver|].
    split; [set_solver|]. intros (_ & y & [= <-] & Hy). congruence.
  - rewrite elem_of_image. setoid_rewrite IHa. setoid_rewrite IHb. done.
  - by rewrite elem_of_union_nat, IHa, IHb.
  - destruct hi as [m|].
    + destruct (Nat.leb_spec lo m).
      * rewrite (up_to_exactly _ _ _ _ _ _ IHa). split.
        -- intros (k & n & Hk & Hn & Hs). apply list_elem_of_singleton in Hk as ->.
           exists n. split_and!; [lia|lia|done].
        -- intros (n & ? & ? & Hs). exists i, n. split_and!; [set_solver|lia|lia|done].
      * rewrite up_to_nil. split; [set_solver|]. intros (n & ? & ? & _). lia.
    + rewrite (up_to_exactly _ _ _ _ _ _ IHa). split.
      * intros (k & n & Hk & Hn & Hs). apply list_elem_of_singleton in Hk as ->.
        exists n. split_and!; [lia|done|done].
      * intros (n & Hn & _ & Hs). replace n with (lo + (n - lo))%nat in Hs by lia.
        apply nsteps_add_inv in Hs as (k & H1 & H2).
        pose proof (nsteps_ind_bound _ _ _ _ _ (Matches_bounds a) H2).
        apply nsteps_monotone in H2 as (_ & m & Hm & H2);
          [|intros ?? ?%Matches_bounds; lia].
        exists i, (lo + m)%nat. split_and!; [set_solver|lia|lia|]. by eapply nsteps_trans.
Qed.
End Correctness.

Lemma match_at_iff s r i : match_at s r i = true <-> exists j, Matches s r i j.
Proof.
  unfold match_at. setoid_rewrite <- elem_of_ends.
  destruct (ends s r i) as [|j l]; [set_solver|]. split; [|done]. intros _. exists j. set_solver.
Qed.

Lemma MatchBytes_iff r b :
  MatchBytes r b = true <->
    exists i j, (i <= length (runes b))%nat /\ Matches (runes b) r i j.
Proof.
  unfold MatchBytes. rewrite existsb_exists. setoid_rewrite match_at_iff. split.
  - intros (i & Hi & j & Hm). apply in_seq in Hi. exists i, j. split; [lia|done].
  - intros (i & j & Hi & Hm). exists i. split; [apply in_seq; lia|by exists j].
Qed.

(** ** What a match consists of *)

(** The least number of runes of a match. *)
Fixpoint min_len (r : regex) : nat :=
  match r with
  | Class _ => 1
  | Cat a b => min_len a + min_len b
  | Alt a b => Nat.min (min_len a) (min_len b)
  | Rep a lo _ => lo * min_len a
  | _ => 0
  end.

Fixpoint classes (r : regex) : list class :=
  match r with
  | Class c => [c]
  | Cat a b | Alt a b => classes a ++ classes b
  | Rep a _ _ => classes a
  | _ => []
  end.

Lemma nsteps_len (R : nat -> nat -> Prop) m n i j :
  (forall i j, R i j -> (i + m <= j)%nat) -> nsteps R n i j -> (i + n * m <= j)%nat.
Proof. intros HR. induction 1 as [|n i k j Hik _ IH]; [lia|]. apply HR in Hik. lia. Qed.

Lemma Matches_min_len s r : forall i j, Matches s r i j -> (i + min_len r <= j)%nat.
Proof.
  induction r as [| | | |c|a IHa b IHb|a IHa b IHb|a IHa lo hi]; simpl; intros i j H.
  - lia.
  - lia.
  - lia.
  - lia.
  - lia.
  - destruct H as (k & ?%IHa & ?%IHb). lia.
  - destruct H as [?%IHa|?%IHb]; lia.
  - destruct H as (n & Hn & _ & Hs). apply (nsteps_len _ (min_len a)) in Hs; [|done]. nia.
Qed.

(** Every rune of a match lies in one of the classes. *)
Lemma Matches_classes s r : forall i j k, Matches s r i j -> (i <= k < j)%nat ->
  exists x c, s !! k = Some x /\ c ∈ classes r /\ in_class c x = true.
Proof.
  induction r as [| | | |c|a IHa b IHb|a IHa b IHb|a IHa lo hi]; simpl; intros i j k H Hk; try lia.
  - destruct H as (-> & x & Hx & Hc). assert (k = i) as -> by lia. exists x, c. set_solver.
  - destruct H as (m & Ha & Hb). destruct (decide (k < m)%nat).
    + destruct (IHa i m k Ha) as (x & c & ? & ? & ?); [lia|]. exists x, c. set_solver.
    + destruct (IHb m j k Hb) as (x & c & ? & ? & ?); [lia|]. exists x, c. set_solver.
  - destruct H as [H|H].
    + destruct (IHa i j k H) as (x & c & ? & ? & ?); [lia|]. exists x, c. set_solver.
    + destruct (IHb i j k H) as (x & c & ? & ? & ?); [lia|]. exists x, c. set_solver.
  - destruct H as (n & _ & _ & Hs). induction Hs as [|n i m j Him _ IH]; [lia|].
    destruct (decide (k < m)%nat); [apply (IHa i m k Him); lia|apply IH; lia].
Qed.
