(* ===== verification/NetIP.v ===== *)
(** * net.ParseIP

    The algorithm of [net.ParseIP] ([net/netip.ParseAddr] without zones) on the
    bytes of a string: [Some] of the four or sixteen bytes of the address, or
    [None] where Go returns a nil [IP]. *)
From S2P Require Import Prelude GoBytes.

(** ** IPv4 *)

Definition is_digit (b : byte) : bool := in_range "0" "9" b.
Definition digit_val (b : byte) : Z := bz b - 48.

(** [parseIPv4Fields]: [val] and [digLen] are the value and the number of
    digits of the current field, [fields] the fields read, [first] whether no
    byte was read yet and [prev_dot] whether the last one was a dot. *)
Fixpoint parseIPv4Fields (s : bytes) (fields : list Z) (val digLen : Z) (first prev_dot : bool)
    : option (list Z) :=
  match s with
  | [] => if blen fields <? 3 then None else Some (fields ++ [val])
  | c :: s' =>
      if is_digit c then
        if (digLen =? 1) && (val =? 0) then None else
        let val := val * 10 + digit_val c in
        if 255 <? val then None
        else parseIPv4Fields s' fields val (digLen + 1) false false
      else if beq c "." then
        if first || (blen s' =? 0) || prev_dot then None
        else if blen fields =? 3 then None
        else parseIPv4Fields s' (fields ++ [val]) 0 0 false true
      else None
  end.

Definition parseIPv4 (s : bytes) : option (list Z) := parseIPv4Fields s [] 0 0 true false.

(** ** IPv6 *)

Definition hex_val (c : byte) : option Z :=
  if in_range "0" "9" c then Some (bz c - 48)
  else if in_range "a" "f" c then Some (bz c - 97 + 10)
  else if in_range "A" "F" c then Some (bz c - 65 + 10)
  else None.

(** The hexadecimal digits at the front: their number, their value and the
    rest; [None] when there are more than four. *)
Fixpoint hex_group (s : bytes) (off acc : Z) : option (Z * Z * bytes) :=
  match s with
  | [] => Some (off, acc, [])
  | c :: s' =>
      match hex_val c with
      | Some d => if 3 <? off then None else hex_group s' (off + 1) (Z.shiftl acc 4 + d)
      | None => Some (off, acc, s)
      end
  end.

(** The loop [for i < 16]: [fuel] is the number of groups left, [ip] the bytes
    written, so that [i = length ip].  The result is the bytes, the position of
    the ellipsis (-1 for none) and what is left of the text. *)
Fixpoint groups (fuel : nat) (s : bytes) (ellipsis : Z) (ip : list Z)
    : option (list Z * Z * bytes) :=
  match fuel with
  | O => Some (ip, ellipsis, s)
  | S fuel' =>
      '(off, acc, rest) ← hex_group s 0 0;
      if off =? 0 then None else
      match rest with
      | "."%byte :: _ =>
          if (ellipsis <? 0) && negb (blen ip =? 12) then None
          else if 16 <? blen ip + 4 then None
          else v4 ← parseIPv4 s; Some (ip ++ v4, ellipsis, [])
      | _ =>
          let ip := ip ++ [Z.shiftr acc 8 mod 256; acc mod 256] in
          match rest with
          | [] => Some (ip, ellipsis, [])
          | c :: s1 =>
              if negb (beq c ":") then None else
              match s1 with
              | [] => None
              | c1 :: s2 =>
                  if beq c1 ":" then
                    if 0 <=? ellipsis then None
                    else if blen s2 =? 0 then Some (ip, blen ip, [])
                    else groups fuel' s2 (blen ip) ip
                  else groups fuel' s1 ellipsis ip
              end
          end
      end
  end.

(** The end of [parseIPv6]: the ellipsis stands for at least one group. *)
Definition expand (ip : list Z) (ellipsis : Z) (rest : bytes) : option (list Z) :=
  if negb (blen rest =? 0) then None
  else if blen ip <? 16 then
    if ellipsis <? 0 then None
    else Some (take (Z.to_nat ellipsis) ip ++ replicate (16 - length ip) 0
               ++ drop (Z.to_nat ellipsis) ip)
  else if 0 <=? ellipsis then None
  else Some ip.

(** [parseIPv6]: an address with a zone is not an address for [ParseIP]. *)
Definition parseIPv6 (s : bytes) : option (list Z) :=
  if 0 <=? IndexByte s "%" then None else
  match s with
  | ":" :: ":" :: [] => Some (replicate 16 0)
  | ":" :: ":" :: s' =>
      '(ip, ellipsis, rest) ← groups 8 s' 0 []; expand ip ellipsis rest
  | _ => '(ip, ellipsis, rest) ← groups 8 s (-1) []; expand ip ellipsis rest
  end%byte.

(** [netip.ParseAddr]: the first dot, colon or percent sign decides. *)
Fixpoint dispatch (all s : bytes) : option (list Z) :=
  match s with
  | [] => None
  | c :: s' =>
      if beq c "." then parseIPv4 all
      else if beq c ":" then parseIPv6 all
      else if beq c "%" then None
      else dispatch all s'
  end.

Definition ParseIP (s : bytes) : option (list Z) := dispatch s s.

(** ** Well-formed results *)

Definition octets (l : list Z) : Prop := Forall (fun x => 0 <= x < 256) l.

Lemma digit_val_bounds c : is_digit c = true -> 0 <= digit_val c <= 9.
Proof. unfold is_digit, digit_val. rewrite in_range_iff. bz_lit. lia. Qed.

Lemma parseIPv4Fields_octets s : forall fields val n first dot l,
  octets fields -> 0 <= val < 256 -> (length fields <= 3)%nat ->
  parseIPv4Fields s fields val n first dot = Some l -> octets l /\ length l = 4%nat.
Proof.
  induction s as [|c s IH]; intros fields val n first dot l Hf Hv Hlen H; simpl in H.
  - destruct (blen fields <? 3) eqn:E; [done|]. simplify_eq. unfold blen in E.
    split; [apply Forall_app; split; [done|by constructor]|]. rewrite length_app. simpl. lia.
  - destruct (is_digit c) eqn:Hd.
    + apply digit_val_bounds in Hd. case_match; [done|].
      destruct (Z.ltb_spec 255 (val * 10 + digit_val c)); [done|].
      eapply IH; [exact Hf| |exact Hlen|exact H]. lia.
    + case_match; [|done]. case_match; [done|].
      destruct (Z.eqb_spec (blen fields) 3); [done|]. unfold blen in *.
      eapply IH; [| | |exact H]; [|lia|rewrite length_app; simpl; lia].
      apply Forall_app; split; [done|by constructor].
Qed.

Lemma parseIPv4_octets s l : parseIPv4 s = Some l -> octets l /\ length l = 4%nat.
Proof. apply parseIPv4Fields_octets; [constructor|lia|simpl; lia]. Qed.

(** A dotted quad at the end of an IPv6 address fills the octets that are left. *)
Lemma dotted_tail_octets (s r : bytes) (e : Z) (ip l : list Z) (e' : Z) (rest : bytes) :
  octets ip -> (length ip <= 16)%nat -> e <= blen ip ->
  (if (e <? 0) && negb (blen ip =? 12) then None
   else if 16 <? blen ip + 4 then None
   else v4 ← parseIPv4 s; Some (ip ++ v4, e, r)) = Some (l, e', rest) ->
  octets l /\ (length l <= 16)%nat /\ e' <= blen l.
Proof.
  intros Hip Hlen He Hr. destruct ((e <? 0) && _); [done|].
  destruct (Z.ltb_spec 16 (blen ip + 4)); [done|].
  destruct (parseIPv4 s) as [v4|] eqn:Hv4; simpl in Hr; [|done]. simplify_eq.
  apply parseIPv4_octets in Hv4 as [Ho Hl4]. unfold blen in *. rewrite length_app.
  split_and!; [by apply Forall_app|lia|lia].
Qed.

Lemma groups_octets fuel : forall s e ip l e' rest,
  octets ip -> (length ip + 2 * fuel = 16)%nat -> e <= blen ip ->
  groups fuel s e ip = Some (l, e', rest) ->
  octets l /\ (length l <= 16)%nat /\ e' <= blen l.
Proof.
  induction fuel as [|fuel IH]; intros s e ip l e' rest Hip Hlen He H; simpl in H.
  { simplify_eq. split_and!; [done|lia|done]. }
  destruct (hex_group s 0 0) as [[[off acc] tl]|]; simpl in H; [|done].
  destruct (off =? 0); [done|].
  assert (Hip' : octets (ip ++ [Z.shiftr acc 8 mod 256; acc mod 256])).
  { apply Forall_app; split; [done|].
    repeat constructor; apply Z.mod_pos_bound; lia. }
  assert (Hl' : length (ip ++ [Z.shiftr acc 8 mod 256; acc mod 256]) = (length ip + 2)%nat)
    by (rewrite length_app; simpl; lia).
  set (ip' := ip ++ [Z.shiftr acc 8 mod 256; acc mod 256]) in *.
  assert (Hdone : octets ip' /\ (length ip' <= 16)%nat /\ e <= blen ip')
    by (split_and!; [done|lia|unfold blen in *; lia]).
  assert (Hcont : match tl with
     | [] => Some (ip', e, [])
     | c :: s1 =>
         if negb (beq c ":") then None else
         match s1 with
         | [] => None
         | c1 :: s2 =>
             if beq c1 ":" then
               if 0 <=? e then None
               else if blen s2 =? 0 then Some (ip', blen ip', [])
               else groups fuel s2 (blen ip') ip'
             else groups fuel s1 e ip'
         end
     end = Some (l, e', rest) -> octets l /\ (length l <= 16)%nat /\ e' <= blen l).
  { clear H. intros H. destruct tl as [|c s1]; [by simplify_eq|].
    destruct (negb (beq c ":")); [done|]. destruct s1 as [|c1 s2]; [done|].
    destruct (beq c1 ":").
    - destruct (0 <=? e); [done|]. destruct (blen s2 =? 0).
      + simplify_eq. split_and!; [done|lia|lia].
      + eapply IH; [exact Hip'|lia|reflexivity|exact H].
    - eapply IH; [exact Hip'|lia|apply Hdone|exact H]. }
  destruct tl as [|c tl']; [by apply Hcont|].
  destruct c; first [by apply Hcont | eapply dotted_tail_octets; [exact Hip|lia|exact He|exact H]].
Qed.

Lemma expand_octets ip e rest l :
  octets ip -> (length ip <= 16)%nat -> e <= blen ip -> expand ip e rest = Some l ->
  octets l /\ length l = 16%nat.
Proof.
  unfold expand, blen. intros Ho Hl He H. destruct (negb _); [done|].
  destruct (Z.ltb_spec (Z.of_nat (length ip)) 16).
  - destruct (e <? 0); [done|]. simplify_eq. split.
    + unfold octets in *. rewrite !Forall_app. split_and!; [by apply Forall_take| |by apply Forall_drop].
      apply Forall_replicate. lia.
    + rewrite !length_app, length_take, length_drop, length_replicate. lia.
  - destruct (0 <=? e); [done|]. simplify_eq. split; [done|lia].
Qed.

Lemma parseIPv6_octets s l : parseIPv6 s = Some l -> octets l /\ length l = 16%nat.
Proof.
  unfold parseIPv6. destruct (0 <=? IndexByte s "%"); [done|].
  assert (Hrun : forall e (s : bytes), e <= 0 ->
    ('(ip, ellipsis, rest) ← groups 8 s e []; expand ip ellipsis rest) = Some l ->
    octets l /\ length l = 16%nat).
  { intros e s' He H. destruct (groups 8 s' e []) as [[[ip e'] rest]|] eqn:Hg; simpl in H; [|done].
    apply groups_octets in Hg as (?&?&?); [|constructor|done|done]. by eapply expand_octets. }
  assert (Hs : forall (s : bytes), ('(ip, ellipsis, rest) ← groups 8 s (-1) []; expand ip ellipsis rest)
    = Some l -> octets l /\ length l = 16%nat) by (intros; eapply Hrun; [|done]; lia).
  destruct s as [|c s]; [by apply Hs|]. destruct c; try by apply Hs.
  destruct s as [|c s]; [by apply Hs|]. destruct c; try by apply Hs.
  destruct s as [|c s]; [|by apply Hrun].
  intros [= <-]. split; [|done]. repeat constructor; lia.
Qed.

Lemma dispatch_octets all s l : dispatch all s = Some l ->
  octets l /\ (length l = 4%nat \/ length l = 16%nat).
Proof.
  induction s as [|c s IH]; simpl; [done|]. repeat case_match; try done.
  - intros [??]%parseIPv4_octets. auto.
  - intros [??]%parseIPv6_octets. auto.
Qed.

(** ** Dotted quads *)

Definition digit_byte (d : Z) : byte := byte_of_Z (48 + d).

(** The decimal notation of an octet. *)
Definition itoa (n : Z) : bytes :=
  if n <? 10 then [digit_byte n]
  else if n <? 100 then [digit_byte (n / 10); digit_byte (n mod 10)]
  else [digit_byte (n / 100); digit_byte (n / 10 mod 10); digit_byte (n mod 10)].

(** [a.b.c.d]. *)
Definition dotted (l : list Z) : bytes := Join (map itoa l) ["."%byte].

Lemma digit_byte_val c : is_digit c = true -> digit_byte (digit_val c) = c.
Proof. all_bytes c; done. Qed.

Lemma digit_byte_digit d : 0 <= d <= 9 -> is_digit (digit_byte d) = true /\ digit_val (digit_byte d) = d.
Proof.
  intros Hd. unfold is_digit, digit_val, digit_byte. rewrite in_range_iff, bz_byte_of_Z by lia. bz_lit. lia.
Qed.

Lemma itoa_snoc v d : 1 <= v -> 0 <= d <= 9 -> v * 10 + d <= 255 ->
  itoa (v * 10 + d) = itoa v ++ [digit_byte d] /\ blen (itoa (v * 10 + d)) = blen (itoa v) + 1.
Proof.
  intros Hv Hd Hmax.
  assert (Hdiv : (v * 10 + d) / 10 = v) by (apply (div_eq _ 10); lia).
  assert (Hmod : (v * 10 + d) mod 10 = d) by (rewrite (mod_shift v 10); lia).
  unfold itoa. rewrite Hdiv, Hmod. if_lia. destruct (Z.ltb_spec v 10); if_lia; [done|].
  assert ((v * 10 + d) / 100 = v / 10) as ->.
  { change 100 with (10 * 10). rewrite <- Z.div_div, Hdiv by lia. done. }
  done.
Qed.

(** Reading one octet. *)
Lemma parse_octet v rest fields first prev : 0 <= v < 256 ->
  parseIPv4Fields (itoa v ++ rest) fields 0 0 first prev =
  parseIPv4Fields rest fields v (blen (itoa v)) false false.
Proof.
  intros Hv.
  assert (Hdig : forall d rest' fields val n first prev, 0 <= d <= 9 -> (n <> 1 \/ val <> 0) ->
    val * 10 + d <= 255 -> parseIPv4Fields (digit_byte d :: rest') fields val n first prev =
    parseIPv4Fields rest' fields (val * 10 + d) (n + 1) false false).
  { intros d rest' fs val n f p Hd Hn Hmax. cbn [parseIPv4Fields].
    destruct (digit_byte_digit d Hd) as [-> ->].
    assert (((n =? 1) && (val =? 0)) = false) as -> by lia. by if_lia. }
  assert (H10 : v = v / 10 * 10 + v mod 10) by (rewrite Z.mul_comm; apply Z.div_mod; lia).
  assert (H100 : v / 10 = v / 100 * 10 + v / 10 mod 10).
  { change 100 with (10 * 10). rewrite <- Z.div_div by lia. rewrite Z.mul_comm. apply Z.div_mod. lia. }
  pose proof (Z.mod_pos_bound v 10). pose proof (Z.mod_pos_bound (v / 10) 10).
  unfold itoa. destruct (Z.ltb_spec v 10); [|destruct (Z.ltb_spec v 100)]; simpl app.
  - rewrite Hdig by lia. f_equal; blen_lia.
  - rewrite !Hdig by lia. f_equal; blen_lia.
  - rewrite !Hdig by lia. f_equal; blen_lia.
Qed.

(** Every text [parseIPv4] accepts is the notation of its octets. *)
Lemma parseIPv4Fields_dotted s : forall fields val n first prev cur l,
  0 <= val < 256 -> n = blen cur -> (cur = [] \/ cur = itoa val) ->
  (cur = [] -> val = 0 /\ ((first = true /\ fields = []) \/ (prev = true /\ s <> []))) ->
  parseIPv4Fields s fields val n first prev = Some l ->
  exists vals, l = fields ++ vals /\ vals <> [] /\ cur ++ s = dotted vals.
Proof.
  induction s as [|c s IH]; intros fields val n first prev cur l Hv Hn Hcur Hnil H; cbn [parseIPv4Fields] in H.
  - destruct (Z.ltb_spec (blen fields) 3) as [|Hf]; [done|]. simplify_eq.
    destruct Hcur as [->| ->].
    { destruct Hnil as (_ & [[_ ->]|[_ ?]]); [done|rewrite blen_nil in Hf; lia|done]. }
    exists [val]. split_and!; [done|done|]. by rewrite app_nil_r.
  - destruct (is_digit c) eqn:Hd.
    + pose proof (digit_val_bounds c Hd) as Hb.
      destruct ((n =? 1) && (val =? 0)) eqn:Hz; [done|].
      destruct (Z.ltb_spec 255 (val * 10 + digit_val c)); [done|].
      assert (Hstep : cur ++ [c] = itoa (val * 10 + digit_val c) /\ n + 1 = blen (cur ++ [c])).
      { rewrite blen_app, <- Hn. split; [|blen_lia]. rewrite <- (digit_byte_val c Hd) at 1.
        destruct Hcur as [->| ->].
        - destruct Hnil as [-> _]; [done|]. unfold itoa. by if_lia.
        - destruct (decide (val = 0)) as [->|]; [by rewrite Hn in Hz|].
          symmetry. apply itoa_snoc; lia. }
      destruct Hstep as [Hc Hn'].
      destruct (IH fields (val * 10 + digit_val c) (n + 1) false false (cur ++ [c]) l)
        as (vals & ? & ? & Heq); [lia|done|by right| |done|].
      { intros Hcn. by destruct cur. }
      exists vals. split_and!; [done|done|]. by rewrite <- Heq, <- app_assoc.
    + destruct (beq c ".") eqn:Hdot; [|done]. apply beq_true in Hdot as ->.
      destruct (first || (blen s =? 0) || prev) eqn:He; [done|].
      destruct (blen fields =? 3); [done|].
      assert (Hcur' : cur = itoa val).
      { destruct Hcur as [->|]; [|done]. destruct Hnil as (_ & [[-> _]|[-> _]]); [done|done|].
        by rewrite orb_true_r in He. }
      destruct (IH (fields ++ [val]) 0 0 false true [] l) as (vals & -> & Hne & Heq);
        [lia|done|by left| |done|].
      { intros _. split; [done|]. right. split; [done|]. intros ->. by rewrite orb_true_r in He. }
      exists (val :: vals). split_and!; [by rewrite <- app_assoc|done|].
      rewrite Hcur'. simpl in Heq. rewrite Heq. unfold dotted. by destruct vals.
Qed.

Lemma parseIPv4_iff s l :
  parseIPv4 s = Some l <-> octets l /\ length l = 4%nat /\ s = dotted l.
Proof.
  split.
  - intros H. destruct (parseIPv4_octets s l H) as [Ho Hl]. split_and!; [done|done|].
    apply (parseIPv4Fields_dotted s [] 0 0 true false []) in H as (vals & -> & _ & ?);
      [done|lia|done|by left|by auto].
  - intros (Ho & Hl & ->). destruct l as [|a [|b [|c [|d [|? ?]]]]]; try done.
    unfold octets in Ho. rewrite !Forall_cons in Ho. destruct Ho as (Ha & Hb & Hc & Hd & _).
    assert (Hdot : forall v rest fields, rest <> [] -> blen fields < 3 ->
      parseIPv4Fields ("."%byte :: rest) fields v (blen (itoa v)) false false =
      parseIPv4Fields rest (fields ++ [v]) 0 0 false true).
    { intros v rest fields Hr%blen_pos Hf. cbn [parseIPv4Fields]. simpl. by if_lia. }
    assert (Hne : forall v t, itoa v ++ t <> []).
    { intros v t. unfold itoa. by repeat case_match. }
    unfold dotted, parseIPv4. cbn [map Join]. simpl app.
    rewrite !parse_octet by done. rewrite Hdot by (done || apply Hne).
    rewrite !parse_octet by done. rewrite Hdot by (done || apply Hne).
    rewrite !parse_octet by done. rewrite Hdot by (done || (rewrite <- (app_nil_r (itoa d)); apply Hne)).
    rewrite <- (app_nil_r (itoa d)). rewrite parse_octet by done. done.
Qed.

(** ** Addresses are ASCII *)

Definition ipv4_char (c : byte) : bool := is_digit c || beq c ".".

Lemma parseIPv4Fields_chars s : forall fields val n first prev l,
  parseIPv4Fields s fields val n first prev = Some l -> forallb ipv4_char s = true.
Proof.
  induction s as [|c s IH]; intros fields val n first prev l H; [done|]. cbn [parseIPv4Fields forallb] in *.
  unfold ipv4_char at 1. repeat case_match; try done; by eapply IH.
Qed.

Definition ipv6_char (c : byte) : bool :=
  match hex_val c with Some _ => true | None => beq c ":" || beq c "." end.

Lemma ipv4_char_ipv6 c : ipv4_char c = true -> ipv6_char c = true.
Proof. all_bytes c. Qed.

Lemma hex_group_chars s : forall off acc off' acc' rest,
  hex_group s off acc = Some (off', acc', rest) ->
  exists pre, s = pre ++ rest /\ forallb ipv6_char pre = true.
Proof.
  induction s as [|c s IH]; intros off acc off' acc' rest H; simpl in H.
  { simplify_eq. by exists []. }
  destruct (hex_val c) as [d|] eqn:Hc; [|by simplify_eq; exists []].
  destruct (3 <? off); [done|]. apply IH in H as (pre & -> & Hp). exists (c :: pre).
  split; [done|]. simpl. unfold ipv6_char at 1. by rewrite Hc.
Qed.

Lemma groups_chars fuel : forall s e ip l e' rest,
  groups fuel s e ip = Some (l, e', rest) ->
  exists pre, s = pre ++ rest /\ forallb ipv6_char pre = true.
Proof.
  induction fuel as [|fuel IH]; intros s e ip l e' rest H; simpl in H.
  { simplify_eq. by exists []. }
  destruct (hex_group s 0 0) as [[[off acc] tl]|] eqn:Hg; simpl in H; [|done].
  apply hex_group_chars in Hg as Hpre. destruct Hpre as (pre & Hs & Hp).
  destruct (off =? 0); [done|].
  set (ip' := ip ++ [Z.shiftr acc 8 mod 256; acc mod 256]) in *.
  assert (Hcont : match tl with
     | [] => Some (ip', e, [])
     | c :: s1 =>
         if negb (beq c ":") then None else
         match s1 with
         | [] => None
         | c1 :: s2 =>
             if beq c1 ":" then
               if 0 <=? e then None
               else if blen s2 =? 0 then Some (ip', blen ip', [])
               else groups fuel s2 (blen ip') ip'
             else groups fuel s1 e ip'
         end
     end = Some (l, e', rest) -> exists pre, s = pre ++ rest /\ forallb ipv6_char pre = true).
  { clear H Hg. intros H. destruct tl as [|c s1]; [simplify_eq; by exists pre|].
    destruct (beq c ":") eqn:Hc; cbn [negb] in H; [|done]. apply beq_true in Hc as ->.
    destruct s1 as [|c1 s2]; [done|]. destruct (beq c1 ":") eqn:Hc1.
    - apply beq_true in Hc1 as ->. destruct (0 <=? e); [done|].
      destruct (Z.eqb_spec (blen s2) 0) as [->%blen_zero|].
      + simplify_eq. exists (pre ++ [":"; ":"]%byte). by rewrite forallb_app, Hp, app_nil_r.
      + apply IH in H as (pre' & -> & Hp'). exists (pre ++ ":"%byte :: ":"%byte :: pre').
        rewrite forallb_app, Hp. simpl. by rewrite Hp', <- app_assoc, Hs.
    - apply IH in H as (pre' & Heq & Hp'). exists (pre ++ ":"%byte :: pre').
      rewrite forallb_app, Hp. simpl. rewrite Hp', <- app_assoc, Hs, Heq. done. }
  destruct tl as [|c tl']; [by apply Hcont|].
  destruct c; first [by apply Hcont | idtac].
  clear Hcont Hs Hg Hp. repeat (case_match; [done|]).
  destruct (parseIPv4 s) as [v4|] eqn:Hv4; simpl in H; [|done]. simplify_eq.
  apply parseIPv4Fields_chars in Hv4. exists s. rewrite app_nil_r. split; [done|].
  revert Hv4. rewrite !forallb_iff. intros Hf. eapply Forall_impl; [exact Hf|]. apply ipv4_char_ipv6.
Qed.

Lemma parseIPv6_chars s l : parseIPv6 s = Some l -> forallb ipv6_char s = true.
Proof.
  unfold parseIPv6. destruct (0 <=? IndexByte s "%"); [done|].
  assert (Hrun : forall e (s : bytes),
    ('(ip, ellipsis, rest) ← groups 8 s e []; expand ip ellipsis rest) = Some l ->
    forallb ipv6_char s = true).
  { intros e s' H. destruct (groups 8 s' e []) as [[[ip e'] rest]|] eqn:Hg; simpl in H; [|done].
    apply groups_chars in Hg as (pre & -> & Hp). unfold expand in H.
    destruct (Z.eqb_spec (blen rest) 0) as [->%blen_zero|]; [|done]. by rewrite app_nil_r. }
  destruct s as [|c s]; [by apply Hrun|]. destruct c; try by apply Hrun.
  destruct s as [|c s]; [by apply Hrun|]. destruct c; try by apply Hrun.
  destruct s as [|c s]; [done|]. intros H. by apply Hrun in H.
Qed.

Lemma ParseIP_chars s l : ParseIP s = Some l -> forallb ipv6_char s = true.
Proof.
  unfold ParseIP. enough (forall t, dispatch s t = Some l -> forallb ipv6_char s = true) by eauto.
  induction t as [|c t IH]; simpl; [done|]. repeat case_match; try done.
  - intros Hx%parseIPv4Fields_chars. revert Hx. rewrite !forallb_iff. intros Hf.
    eapply Forall_impl; [exact Hf|]. apply ipv4_char_ipv6.
  - apply parseIPv6_chars.
Qed.

Lemma ParseIP_non_ascii s : forallb is_ascii s = false -> ParseIP s = None.
Proof.
  intros Hs. destruct (ParseIP s) as [l|] eqn:H; [|done]. apply ParseIP_chars in H.
  apply not_true_iff_false in Hs. destruct Hs. revert H. rewrite !forallb_iff. intros Hf.
  eapply Forall_impl; [exact Hf|]. clear. intros c. all_bytes c.
Qed.

(** Without a colon only dotted quads are addresses. *)
Lemma ParseIP_no_colon s l : (":"%byte ∉ s) ->
  ParseIP s = Some l <-> octets l /\ length l = 4%nat /\ s = dotted l.
Proof.
  intros Hc. rewrite <- parseIPv4_iff. unfold ParseIP.
  assert (Hgo : forall t, (":"%byte ∉ t) -> dispatch s t = Some l -> parseIPv4 s = Some l).
  { induction t as [|c t IH]; intros Ht; simpl; [done|].
    assert (beq c ":" = false) as -> by (apply beq_false; set_solver).
    repeat case_match; try done. apply IH. set_solver. }
  split; [by apply Hgo|]. intros H. apply parseIPv4_iff in H as Hd.
  destruct Hd as (_ & Hl & Hs). apply parseIPv4Fields_chars in H as Hchars.
  assert (Hdot : exists l1 l2, s = l1 ++ "."%byte :: l2 /\ forallb is_digit l1 = true).
  { clear -Hl Hs Hchars. assert (Hin : "."%byte ∈ s).
    { destruct l as [|a [|b l]]; simpl in Hl; [lia|lia|]. rewrite Hs. unfold dotted. cbn [map Join]. set_solver. }
    clear Hs Hl. induction s as [|c s IH]; [set_solver|]. simpl in Hchars. bsplit.
    destruct (beq c ".") eqn:Hc; [apply beq_true in Hc as ->; by exists [], s|].
    apply beq_false in Hc. destruct IH as (l1 & l2 & -> & Hd); [done|set_solver|].
    exists (c :: l1), l2. split; [done|]. simpl. rewrite Hd, andb_true_r.
    unfold ipv4_char in *. destruct (is_digit c); [done|]. simpl in *. by apply beq_true in H. }
  destruct Hdot as (l1 & l2 & Hs' & Hd). rewrite Hs' at 2. clear -H Hd.
  induction l1 as [|c l1 IH]; simpl in *; [done|]. bsplit.
  assert (beq c "." = false /\ beq c ":" = false /\ beq c "%" = false) as (-> & -> & ->).
  { revert H0. clear. all_bytes c. }
  by apply IH.
Qed.
