(* ===== verification/IPGrammar.v ===== *)
(** * The texts that are IP addresses

    A grammar of the textual forms of IPv4 and IPv6 addresses, and the proof
    that [net.ParseIP] (NetIP.v) accepts exactly its texts. *)
From S2P Require Import Prelude GoBytes NetIP.

(** ** Grammar *)

Definition is_hex (c : byte) : bool := match hex_val c with Some _ => true | None => false end.

(** One to four hexadecimal digits. *)
Definition hex_field (g : bytes) : Prop := forallb is_hex g = true /\ 1 <= blen g <= 4.

(** Fields, and the number of bytes they stand for: hexadecimal ones, two bytes
    each, the last of which may be four octets in decimal. *)
Inductive fields : list bytes -> Z -> Prop :=
| fields_nil : fields [] 0
| fields_quad l : octets l -> length l = 4%nat -> fields [dotted l] 4
| fields_hex g gs n : hex_field g -> fields gs n -> fields (g :: gs) (n + 2).

Definition colons (gs : list bytes) : bytes := Join gs [":"%byte].

Definition is_ipv4 (s : bytes) : Prop := exists l, octets l /\ length l = 4%nat /\ s = dotted l.

(** Fields for sixteen bytes, or for fewer around an ellipsis. *)
Definition is_ipv6 (s : bytes) : Prop :=
  (exists gs, fields gs 16 /\ s = colons gs) \/
  (exists front back n, Forall hex_field front /\ fields back n /\ 2 * blen front + n < 16 /\
     s = colons front ++ of_str "::" ++ colons back).

Definition is_ip (s : bytes) : Prop := is_ipv4 s \/ is_ipv6 s.

(** ** Fields *)

(** A text that goes on with no hexadecimal digit. *)
Definition field_ends (rest : bytes) : Prop :=
  match rest with c :: _ => is_hex c = false | [] => True end.

Lemma colons_cons g gs : gs <> [] -> colons (g :: gs) = g ++ ":"%byte :: colons gs.
Proof. by destruct gs. Qed.

Lemma fields_nonneg gs n : fields gs n -> 0 <= n.
Proof. induction 1; lia. Qed.

Lemma hex_not_special c : is_hex c = true -> beq c ":" = false /\ beq c "." = false /\ beq c "%" = false.
Proof. all_bytes c. Qed.

Lemma digit_hex c : is_digit c = true -> is_hex c = true.
Proof. all_bytes c. Qed.

Lemma hex_field_head g : hex_field g -> exists c t, g = c :: t /\ is_hex c = true.
Proof. intros [Hh Hl]. destruct g as [|c t]; [blen_lia|]. simpl in Hh. bsplit. by exists c, t. Qed.

Lemma itoa_hex_field n : 0 <= n < 256 -> hex_field (itoa n).
Proof.
  intros Hn. unfold hex_field, itoa.
  assert (Hd : forall d, 0 <= d <= 9 -> is_hex (digit_byte d) = true)
    by (intros d Hd; by apply digit_hex, (digit_byte_digit d Hd)).
  assert (Hmod : forall m, 0 <= m mod 10 <= 9) by (intros m; pose proof (Z.mod_pos_bound m 10); lia).
  assert (Hdiv : forall m k, 0 < k -> 0 <= m < 10 * k -> 0 <= m / k <= 9).
  { intros m k Hk Hm. split; [apply Z.div_pos; lia|]. apply Z.lt_succ_r, Z.div_lt_upper_bound; lia. }
  destruct (Z.ltb_spec n 10); [|destruct (Z.ltb_spec n 100)]; simpl;
    rewrite !Hd by (apply Hmod || (apply Hdiv; lia) || lia); (split; [done|blen_lia]).
Qed.

Lemma dotted_head l : octets l -> length l = 4%nat ->
  exists a rest, dotted l = itoa a ++ "."%byte :: rest /\ hex_field (itoa a).
Proof.
  intros Ho Hl. destruct l as [|a [|b l]]; [done..|]. apply Forall_cons in Ho as [Ha _].
  exists a, (dotted (b :: l)). split; [done|by apply itoa_hex_field].
Qed.

(** Fields begin with a hexadecimal digit. *)
Lemma fields_head gs n : fields gs n -> gs <> [] -> exists c t, colons gs = c :: t /\ is_hex c = true.
Proof.
  intros [|l Ho Hl|g gs' n' Hg _] Hne; [done| |].
  - destruct (dotted_head l Ho Hl) as (a & rest & Hd & (c & t & Ha & Hc)%hex_field_head).
    exists c, (t ++ "."%byte :: rest). split; [|done]. unfold colons. simpl. by rewrite Hd, Ha.
  - apply hex_field_head in Hg as (c & t & -> & Hc). destruct gs' as [|g' gs'].
    + by exists c, t.
    + rewrite colons_cons by done. by eexists c, _.
Qed.

(** ** [hex_group] *)

Lemma hex_group_inv s : forall off acc off' acc' rest, off <= 4 ->
  hex_group s off acc = Some (off', acc', rest) ->
  exists g, s = g ++ rest /\ forallb is_hex g = true /\ off' = off + blen g /\ off' <= 4 /\ field_ends rest.
Proof.
  induction s as [|c s IH]; intros off acc off' acc' rest Hoff H; cbn [hex_group] in H.
  { simplify_eq. exists []. split_and!; [done|done|unfold blen; simpl; lia|done|done]. }
  destruct (hex_val c) as [d|] eqn:Hc.
  - destruct (Z.ltb_spec 3 off); [done|]. apply IH in H as (g & -> & Hg & -> & Hle & Hr); [|lia].
    exists (c :: g). split_and!; [done| |unfold blen; simpl; lia|done|done].
    simpl. unfold is_hex at 1. by rewrite Hc.
  - simplify_eq. exists []. split_and!; [done|done|unfold blen; simpl; lia|done|]. simpl. unfold is_hex. by rewrite Hc.
Qed.

Lemma hex_group_app g rest : forallb is_hex g = true -> field_ends rest -> forall off acc, off + blen g <= 4 ->
  exists acc', hex_group (g ++ rest) off acc = Some (off + blen g, acc', rest).
Proof.
  intros Hg Hr. induction g as [|c g IH]; intros off acc Hoff; simpl app.
  - exists acc. unfold blen. simpl. rewrite Z.add_0_r. destruct rest as [|c rest]; [done|].
    simpl in *. unfold is_hex in Hr. by destruct (hex_val c).
  - simpl in Hg. bsplit. unfold is_hex in *. cbn [hex_group].
    destruct (hex_val c) as [d|]; [|done]. unfold blen in *. simpl length in *.
    destruct (Z.ltb_spec 3 off); [lia|].
    destruct (IH ltac:(done) (off + 1) (Z.shiftl acc 4 + d)) as [acc' ->]; [lia|].
    exists acc'. do 3 f_equal. lia.
Qed.

(** ** The loop over the groups *)

(** What the loop does after a hexadecimal field. *)
Definition after_field (fuel : nat) (e : Z) (ip : list Z) (rest : bytes) : option (list Z * Z * bytes) :=
  match rest with
  | [] => Some (ip, e, [])
  | c :: s1 =>
      if negb (beq c ":") then None else
      match s1 with
      | [] => None
      | c1 :: s2 =>
          if beq c1 ":" then
            if 0 <=? e then None
            else if blen s2 =? 0 then Some (ip, blen ip, [])
            else groups fuel s2 (blen ip) ip
          else groups fuel s1 e ip
      end
  end.
#[local] Arguments after_field : simpl never.

Definition at_dot (rest : bytes) : bool := match rest with c :: _ => beq c "." | [] => false end.

Lemma groups_step fuel s e ip : groups (S fuel) s e ip =
  '(off, acc, rest) ← hex_group s 0 0;
  if off =? 0 then None
  else if at_dot rest then
    if (e <? 0) && negb (blen ip =? 12) then None
    else if 16 <? blen ip + 4 then None
    else v4 ← parseIPv4 s; Some (ip ++ v4, e, [])
  else after_field fuel e (ip ++ [Z.shiftr acc 8 mod 256; acc mod 256]) rest.
Proof.
  cbn [groups]. destruct (hex_group s 0 0) as [[[off acc] rest]|]; simpl; [|done].
  destruct (off =? 0); [done|]. destruct rest as [|c rest]; [done|].
  unfold at_dot. destruct (beq c ".") eqn:Hc; [by apply beq_true in Hc as ->|].
  by destruct c.
Qed.

(** What the loop reads before the ellipsis, or to the end. *)
Definition reads_fields (s : bytes) (e : Z) (ip : list Z) (e' : Z) (l : list Z) : Prop :=
  (e' = e /\ exists gs n, gs <> [] /\ fields gs n /\ s = colons gs /\ blen l = blen ip + n) \/
  (e < 0 /\ exists front back n, front <> [] /\ Forall hex_field front /\ fields back n /\
     s = colons front ++ of_str "::" ++ colons back /\ e' = blen ip + 2 * blen front /\
     blen l = blen ip + 2 * blen front + n).

Lemma groups_reads fuel : forall s e ip l e', s <> [] ->
  groups fuel s e ip = Some (l, e', []) -> reads_fields s e ip e' l.
Proof.
  induction fuel as [|fuel IH]; intros s e ip l e' Hs H; [by simplify_eq/=|]. rewrite groups_step in H.
  destruct (hex_group s 0 0) as [[[off acc] rest]|] eqn:Hg; simpl in H; [|done].
  apply hex_group_inv in Hg as (g & -> & Hg & -> & Hle & Hr); [|lia].
  destruct (Z.eqb_spec (0 + blen g) 0); [done|].
  assert (Hf : hex_field g) by (split; [done|blen_lia]).
  destruct (at_dot rest) eqn:Hdot.
  - destruct ((e <? 0) && _); [done|]. destruct (16 <? _); [done|].
    destruct (parseIPv4 _) as [v4|] eqn:Hv; simpl in H; [|done]. simplify_eq.
    apply parseIPv4_iff in Hv as (Ho & Hl & Hv). left. split; [done|].
    exists [dotted v4], 4. split_and!; [done|by constructor|done|]. rewrite blen_app. unfold blen at 2. lia.
  - set (ip' := ip ++ _) in H. assert (Hip : blen ip' = blen ip + 2) by (unfold ip'; blen_lia).
    destruct rest as [|c [|c1 s2]]; unfold after_field in H; simpl in H; [|by destruct (negb _)|].
    { simplify_eq. left. split; [done|]. exists [g], 2. rewrite app_nil_r.
      split_and!; [done|apply (fields_hex _ _ 0); [done|constructor]|done|lia]. }
    destruct (beq c ":") eqn:Hc; [|done]. apply beq_true in Hc as ->. simpl in H.
    destruct (beq c1 ":") eqn:Hc1.
    + apply beq_true in Hc1 as ->. destruct (Z.leb_spec 0 e); [done|]. right. split; [done|].
      destruct (Z.eqb_spec (blen s2) 0) as [Hz|Hz].
      * simplify_eq. destruct s2; [|blen_lia]. exists [g], [], 0.
        split_and!; [done|by apply Forall_singleton|constructor|done|blen_lia|blen_lia].
      * assert (Hne2 : s2 <> []) by (by intros ->; destruct Hz).
        apply (IH _ _ _ _ _ Hne2) in H as [(-> & gs & n' & Hne & Hgs & -> & Hl)|[? _]]; [|blen_lia].
        exists [g], gs, n'. split_and!; [done|by apply Forall_singleton|done|done|blen_lia|blen_lia].
    + assert (Hne1 : c1 :: s2 <> []) by done.
      apply (IH _ _ _ _ _ Hne1) in H
        as [(-> & gs & n' & Hne & Hgs & -> & Hl)|(He & front & back & n' & Hne & Hfr & Hb & -> & -> & Hl)].
      * left. split; [done|]. exists (g :: gs), (n' + 2).
        split_and!; [done|by constructor|by rewrite colons_cons|lia].
      * right. split; [done|]. exists (g :: front), back, n'.
        split_and!; [done|by constructor|done| |blen_lia|blen_lia].
        rewrite colons_cons by done. by rewrite <- app_assoc.
Qed.

(** A hexadecimal field in front of [rest]. *)
Lemma groups_hex fuel g rest e ip : hex_field g -> field_ends rest -> at_dot rest = false ->
  exists ip', groups (S fuel) (g ++ rest) e ip = after_field fuel e ip' rest /\
    blen ip' = blen ip + 2 /\ length ip' = S (S (length ip)).
Proof.
  intros [Hg Hl] Hr Hdot. destruct (hex_group_app g rest Hg Hr 0 0) as [acc Hh]; [lia|].
  rewrite groups_step, Hh, Z.add_0_l. simpl. destruct (Z.eqb_spec (blen g) 0); [lia|]. rewrite Hdot.
  eexists. split; [done|]. split; [blen_lia|rewrite length_app; simpl; lia].
Qed.

(** Octets in decimal at the end. *)
Lemma groups_quad fuel l e ip : octets l -> length l = 4%nat ->
  blen ip + 4 <= 16 -> (e < 0 -> blen ip = 12) ->
  groups (S fuel) (dotted l) e ip = Some (ip ++ l, e, []).
Proof.
  intros Ho Hl Hroom Hpos. destruct (dotted_head l Ho Hl) as (a & rest & Hd & [Ha Hlen]).
  rewrite groups_step. rewrite Hd at 1.
  destruct (hex_group_app (itoa a) ("."%byte :: rest) Ha eq_refl 0 0) as [acc ->]; [lia|]. rewrite Z.add_0_l. simpl.
  destruct (Z.eqb_spec (blen (itoa a)) 0); [lia|].
  assert ((e <? 0) && negb (blen ip =? 12) = false) as ->.
  { destruct (Z.ltb_spec e 0); [|done]. by rewrite (proj2 (Z.eqb_eq _ _) (Hpos ltac:(done))). }
  destruct (Z.ltb_spec 16 (blen ip + 4)); [lia|].
  by rewrite (proj2 (parseIPv4_iff _ l)).
Qed.

Lemma groups_fields gs n : fields gs n -> gs <> [] -> forall fuel e ip,
  (length ip + 2 * fuel = 16)%nat -> blen ip + n <= 16 -> (e < 0 -> blen ip + n = 16) ->
  exists l, groups fuel (colons gs) e ip = Some (l, e, []) /\ blen l = blen ip + n.
Proof.
  induction 1 as [|l Ho Hl|g gs n Hg Hgs IH]; intros Hne fuel e ip Hfuel Hroom He; [done| |].
  - destruct fuel as [|fuel]; [unfold blen in Hroom; lia|]. exists (ip ++ l). split; [|rewrite blen_app; unfold blen at 2; lia].
    apply groups_quad; [done|done|done|]. intros Hneg. specialize (He Hneg). lia.
  - pose proof (fields_nonneg _ _ Hgs). destruct fuel as [|fuel]; [unfold blen in Hroom; lia|].
    destruct gs as [|g' gs].
    + inversion Hgs; subst. unfold colons. simpl Join. rewrite <- (app_nil_r g).
      destruct (groups_hex fuel g [] e ip Hg I eq_refl) as (ip' & -> & Hb & _). exists ip'. split; [done|lia].
    + destruct (fields_head _ _ Hgs) as (c & t & Hc & (Hcolon & _)%hex_not_special); [done|].
      rewrite colons_cons by done.
      destruct (groups_hex fuel g (":"%byte :: colons (g' :: gs)) e ip Hg eq_refl eq_refl) as (ip' & -> & Hb & Hlen).
      destruct (IH ltac:(done) fuel e ip') as (l & Hl & Hbl); [lia|lia|lia|].
      exists l. split; [|lia]. unfold after_field. simpl negb. cbn iota. rewrite Hc in *. by rewrite Hcolon.
Qed.

Lemma groups_ellipsis front : front <> [] -> Forall hex_field front -> forall fuel e ip back n,
  fields back n -> e < 0 -> (length ip + 2 * fuel = 16)%nat -> blen ip + 2 * blen front + n <= 16 ->
  exists l, groups fuel (colons front ++ of_str "::" ++ colons back) e ip = Some (l, blen ip + 2 * blen front, []) /\
    blen l = blen ip + 2 * blen front + n.
Proof.
  induction front as [|g front IH]; [done|]. intros _ [Hg Hfront]%Forall_cons fuel e ip back n Hback He Hfuel Hroom.
  pose proof (fields_nonneg _ _ Hback). destruct fuel as [|fuel]; [unfold blen in Hroom; simpl length in *; lia|].
  destruct front as [|g' front].
  - unfold colons at 1. simpl Join.
    destruct (groups_hex fuel g (of_str "::" ++ colons back) e ip Hg eq_refl eq_refl) as (ip' & -> & Hb & Hlen).
    unfold after_field. simpl app. cbn iota. destruct (Z.leb_spec 0 e); [lia|].
    destruct back as [|b back].
    + inversion Hback; subst. exists ip'. split; [simpl; do 3 f_equal; blen_lia|blen_lia].
    + destruct (fields_head _ _ Hback) as (c & t & Hc & _); [done|].
      assert ((blen (colons (b :: back)) =? 0) = false) as Hnz by (rewrite Hc; blen_lia).
      destruct (groups_fields _ _ Hback ltac:(done) fuel (blen ip') ip') as (l & Hl & Hbl);
        [lia|blen_lia|blen_lia|].
      exists l. simpl negb. cbn iota. rewrite Hnz, Hl.
      change (blen [g]) with 1. change (beq ":" ":") with true. split; [do 3 f_equal; lia|lia].
  - rewrite colons_cons by done. rewrite <- app_assoc, <- app_comm_cons.
    destruct (hex_field_head g') as (c & t & Hc & (Hcolon & _)%hex_not_special); [by apply Forall_cons in Hfront as [? _]|].
    destruct (groups_hex fuel g (":"%byte :: colons (g' :: front) ++ of_str "::" ++ colons back) e ip Hg eq_refl eq_refl)
      as (ip' & -> & Hb & Hlen).
    destruct (IH ltac:(done) Hfront fuel e ip' back n Hback He) as (l & Hl & Hbl); [lia|blen_lia|].
    exists l. split; [|blen_lia]. unfold after_field. simpl negb. cbn iota.
    destruct (colons (g' :: front) ++ of_str "::" ++ colons back) as [|c1 s2] eqn:Hs.
    { by destruct front; rewrite ?colons_cons in Hs by done; unfold colons in Hs; simpl in Hs; rewrite Hc in Hs. }
    assert (c1 = c) as ->.
    { destruct front; rewrite ?colons_cons in Hs by done; unfold colons in Hs; simpl in Hs; rewrite Hc in Hs; by injection Hs. }
    rewrite Hcolon, Hl. do 3 f_equal. blen_lia.
Qed.

(** ** [parseIPv6] and [ParseIP] *)

(** No percent sign, and a colon after hexadecimal digits at most. *)
Lemma fields_no_percent gs n : fields gs n -> "%"%byte ∉ colons gs.
Proof.
  assert (Hhex : forall g, forallb is_hex g = true -> "%"%byte ∉ g).
  { intros g Hg%forallb_iff Hin. rewrite Forall_forall in Hg. by specialize (Hg _ Hin). }
  induction 1 as [|l Ho Hl|g gs n [Hg _] Hgs IH]; [set_solver| |].
  - unfold colons. simpl. assert (parseIPv4 (dotted l) = Some l) as Hc%parseIPv4Fields_chars
      by (by apply parseIPv4_iff). intros Hin. rewrite forallb_iff, Forall_forall in Hc. by specialize (Hc _ Hin).
  - specialize (Hhex g Hg). destruct gs as [|g' gs]; [done|]. rewrite colons_cons by done. set_solver.
Qed.

Lemma hex_fields gs : Forall hex_field gs -> fields gs (2 * blen gs).
Proof.
  induction 1 as [|g gs Hg _ IH]; [constructor|].
  replace (2 * blen (g :: gs)) with (2 * blen gs + 2) by blen_lia. by constructor.
Qed.

Lemma hex_fields_only gs x : Forall hex_field gs -> x ∈ colons gs -> is_hex x = true \/ x = ":"%byte.
Proof.
  induction 1 as [|g gs [Hg%forallb_iff _] _ IH]; [by intros ?%elem_of_nil|].
  rewrite Forall_forall in Hg. destruct gs as [|g' gs]; [by left; apply Hg|].
  rewrite colons_cons by done. intros [?|[->|?]%elem_of_cons]%elem_of_app; auto.
Qed.

Lemma ipv6_no_percent s : is_ipv6 s -> "%"%byte ∉ s.
Proof.
  intros [(gs & Hgs & ->)|(front & back & n & Hf%hex_fields & Hb & _ & ->)]; [by eapply fields_no_percent|].
  apply fields_no_percent in Hf, Hb. rewrite !not_elem_of_app. split_and!; [done| |done].
  apply (bool_decide_unpack _). vm_compute. exact I.
Qed.

Lemma ipv6_colon s : is_ipv6 s -> exists g t, s = g ++ ":"%byte :: t /\ forallb is_hex g = true.
Proof.
  intros [(gs & Hgs & ->)|(front & back & n & Hf & Hb & _ & ->)].
  - inversion Hgs as [|l Ho Hl|g gs' n' [Hg _] Hgs' Heq Hn]; subst. destruct gs' as [|g' gs'].
    + inversion Hgs'; lia.
    + exists g, (colons (g' :: gs')). by rewrite colons_cons.
  - destruct Hf as [|g front [Hg _] Hf]; [by exists [], (of_str ":" ++ colons back)|].
    destruct front as [|g' front].
    + by exists g, (of_str ":" ++ colons back).
    + exists g, (colons (g' :: front) ++ of_str "::" ++ colons back). by rewrite colons_cons, <- app_assoc.
Qed.

Lemma parseIPv6_unfold s : parseIPv6 s =
  if 0 <=? IndexByte s "%" then None else
  match s with
  | c :: c1 :: s2 =>
      if beq c ":" && beq c1 ":" then
        if blen s2 =? 0 then Some (replicate 16 0)
        else '(ip, ellipsis, rest) ← groups 8 s2 0 []; expand ip ellipsis rest
      else '(ip, ellipsis, rest) ← groups 8 s (-1) []; expand ip ellipsis rest
  | _ => '(ip, ellipsis, rest) ← groups 8 s (-1) []; expand ip ellipsis rest
  end.
Proof.
  unfold parseIPv6. destruct (0 <=? IndexByte s "%"); [reflexivity|]. generalize (groups 8). intros G.
  destruct s as [|c [|c1 s2]]; [reflexivity|destruct c; reflexivity|].
  destruct (beq c ":") eqn:Hc.
  - apply beq_true in Hc as ->. destruct (beq c1 ":") eqn:Hc1.
    + apply beq_true in Hc1 as ->. destruct s2; reflexivity.
    + destruct c1; first [discriminate Hc1|reflexivity].
  - destruct c; first [discriminate Hc|reflexivity].
Qed.

Lemma expand_some ip e rest : is_Some (expand ip e rest) <->
  rest = [] /\ ((blen ip < 16 /\ 0 <= e) \/ (16 <= blen ip /\ e < 0)).
Proof.
  unfold expand. destruct rest as [|c rest]; [|split; [by intros [? ?]|by intros [? _]]].
  simpl. destruct (Z.ltb_spec (blen ip) 16), (Z.ltb_spec e 0), (Z.leb_spec 0 e);
    try lia; rewrite ?is_Some_alt; (split; [intros; split; [done|]; lia || done|intros [_ ?]; lia || done]).
Qed.

#[local] Opaque groups.

(** A text without a leading ellipsis. *)
Lemma parseIPv6_plain c s : beq c ":" = false -> "%"%byte ∉ c :: s ->
  parseIPv6 (c :: s) = '(ip, ellipsis, rest) ← groups 8 (c :: s) (-1) []; expand ip ellipsis rest.
Proof.
  intros Hc Hp. rewrite parseIPv6_unfold.
  destruct (IndexByte_spec (c :: s) "%") as [[-> _]|(l1 & l2 & Heq & _)]; [|rewrite Heq in Hp; set_solver].
  simpl. destruct s; [done|]. by rewrite Hc.
Qed.

Lemma parseIPv6_accepts s : is_Some (parseIPv6 s) -> is_ipv6 s.
Proof.
  rewrite parseIPv6_unfold. destruct (0 <=? IndexByte s "%"); [by intros [? ?]|].
  assert (Hrun : forall s e, s <> [] -> is_Some ('(ip, ellipsis, rest) ← groups 8 s e []; expand ip ellipsis rest) ->
    exists l e', reads_fields s e [] e' l /\ blen l <= 16 /\ ((blen l < 16 /\ 0 <= e') \/ (16 <= blen l /\ e' < 0))).
  { clear s. intros s e Hne H. destruct (groups 8 s e []) as [[[l e'] rest]|] eqn:Hg; simpl in H; [|by destruct H].
    apply expand_some in H as [-> H]. exists l, e'. split_and!; [by eapply groups_reads| |done].
    destruct H as [[? _]|[_ He']]; [lia|].
    assert (e <= 0) as He.
    { apply groups_reads in Hg as [[-> _]|[? _]]; [lia|lia|done]. }
    apply groups_octets in Hg as (_ & Hl & _); [unfold blen; lia|constructor|done|done]. }
  assert (Hplain : s <> [] -> is_Some ('(ip, ellipsis, rest) ← groups 8 s (-1) []; expand ip ellipsis rest) -> is_ipv6 s).
  { intros Hne (l & e' & Hr & Hl & He)%Hrun; [|done].
    destruct Hr as [(-> & gs & n & _ & Hgs & -> & Hn)|(_ & front & back & n & Hne' & Hf & Hb & -> & -> & Hn)].
    - left. exists gs. split; [|done]. replace 16 with n by blen_lia. done.
    - right. exists front, back, n. split_and!; [done|done|blen_lia|done]. }
  destruct s as [|c [|c1 s2]]; [by intros [? ?]|by apply Hplain|].
  destruct (beq c ":" && beq c1 ":") eqn:Hcc; [|by apply Hplain].
  apply andb_true_iff in Hcc as [->%beq_true ->%beq_true]. intros H. right.
  destruct (Z.eqb_spec (blen s2) 0) as [Hz|Hz].
  - destruct s2; [|blen_lia]. exists [], [], 0. split_and!; [constructor|constructor|done|done].
  - apply Hrun in H as (l & e' & Hr & _ & He); [|by intros ->].
    destruct Hr as [(-> & gs & n & _ & Hgs & -> & Hn)|[? _]]; [|lia].
    exists [], gs, n. split_and!; [constructor|done|blen_lia|done].
Qed.

Lemma parseIPv6_complete s : is_ipv6 s -> is_Some (parseIPv6 s).
Proof.
  intros Hs. pose proof (ipv6_no_percent s Hs) as Hp.
  destruct Hs as [(gs & Hgs & ->)|(front & back & n & Hf & Hb & Hn & ->)].
  - assert (Hne : gs <> []) by (intros ->; inversion Hgs).
    destruct (groups_fields gs 16 Hgs Hne 8 (-1) []) as (l & Hl & Hbl); [done..|].
    destruct (fields_head gs 16 Hgs Hne) as (c & t & Hc & (Hcolon & _)%hex_not_special).
    rewrite Hc in *. rewrite parseIPv6_plain by done. rewrite Hl. apply expand_some. split; [done|blen_lia].
  - pose proof (fields_nonneg _ _ Hb). destruct front as [|g front].
    + rewrite parseIPv6_unfold.
      destruct (IndexByte_spec (colons [] ++ of_str "::" ++ colons back) "%") as [[-> _]|(l1 & l2 & Heq & _)];
        [|rewrite Heq in Hp; set_solver].
      simpl. destruct back as [|b back]; [by eexists|].
      destruct (groups_fields _ n Hb ltac:(done) 8 0 []) as (l & Hl & Hbl); [done|blen_lia|done|].
      destruct (Z.eqb_spec (blen (colons (b :: back))) 0) as [Hz|_]; [by eexists|].
      rewrite Hl. apply expand_some. split; [done|blen_lia].
    + destruct (groups_ellipsis (g :: front) ltac:(done) Hf 8 (-1) [] back n Hb) as (l & Hl & Hbl); [done|done|blen_lia|].
      destruct (fields_head (g :: front) _ (hex_fields _ Hf)) as (c & t & Hc & (Hcolon & _)%hex_not_special); [done|].
      rewrite Hc, <- app_comm_cons in *. rewrite parseIPv6_plain by done. rewrite Hl. apply expand_some. split; [done|blen_lia].
Qed.

(** The first special character decides. *)
Lemma dispatch_accepts all s : is_Some (dispatch all s) -> is_Some (parseIPv4 all) \/ is_Some (parseIPv6 all).
Proof.
  induction s as [|c s IH]; simpl; [by intros [? ?]|]. repeat case_match; auto. by intros [? ?].
Qed.

Lemma dispatch_hex all g s : forallb is_hex g = true -> dispatch all (g ++ s) = dispatch all s.
Proof.
  induction g as [|c g IH]; simpl; [done|]. intros Hg. bsplit.
  destruct (hex_not_special c) as (-> & -> & ->); [done|]. by apply IH.
Qed.

(** [net.ParseIP] accepts the texts of the grammar, and no others. *)
Theorem ParseIP_accepts s : is_Some (ParseIP s) <-> is_ip s.
Proof.
  unfold ParseIP, is_ip. split.
  - intros [[l Hl]|H%parseIPv6_accepts]%dispatch_accepts; [left|by right].
    exists l. by apply parseIPv4_iff.
  - intros [(l & Ho & Hl & ->)|H].
    + destruct (dotted_head l Ho Hl) as (a & rest & Hd & [Ha _]). rewrite Hd at 2. rewrite dispatch_hex by done.
      simpl. exists l. by apply parseIPv4_iff.
    + destruct (ipv6_colon s H) as (g & t & Hs & Hg). rewrite Hs at 2. rewrite dispatch_hex by done.
      simpl. by apply parseIPv6_complete.
Qed.

(** An address has at most one of the two forms. *)
Lemma ipv4_not_ipv6 s : is_ipv4 s -> ~ is_ipv6 s.
Proof.
  intros (l & Ho & Hl & ->) (g & t & Hs & _)%ipv6_colon.
  assert (parseIPv4 (dotted l) = Some l) as Hc%parseIPv4Fields_chars by (by apply parseIPv4_iff).
  rewrite forallb_iff, Forall_forall in Hc. by specialize (Hc ":"%byte ltac:(rewrite Hs; set_solver)).
Qed.
