(* ===== verification/TextMatchers.v ===== *)
(** * pattern/regex.go: the matchers written as loops over bytes

    File names, phone numbers and e-mail addresses (the V2 matchers), IP
    addresses, credit cards, vehicle and universally unique identifiers,
    repeated digits.  A function that indexes or slices is an [option], [None]
    being the panic of an index out of range. *)
From S2P Require Import Prelude GoBytes Unicode NetIP.

(** ** Characters *)

Definition isValidFilenameChar (b : byte) : bool :=
  in_range "a" "z" b || in_range "A" "Z" b || in_range "0" "9" b
  || beq b "-" || beq b "_" || beq b "." || beq b "+".

Fixpoint isAllDigits (b : bytes) : bool :=
  match b with
  | [] => true
  | c :: b' => if negb (is_digit c) then false else isAllDigits b'
  end.

Definition isValidVINChar (b : byte) : bool :=
  match b with
  | "I" | "i" | "O" | "o" | "Q" | "q" => false
  | _ => in_range "A" "Z" b || in_range "a" "z" b || in_range "0" "9" b
  end%byte.

Definition isHexDigit (b : byte) : bool :=
  if in_range "0" "9" b then true
  else if in_range "a" "f" b then true
  else if in_range "A" "F" b then true
  else false.

(** [stripChars]: a set of runes to remove. *)
Definition stripChars (removalSet : list byte) (b : bytes) : bytes :=
  Map (fun r => if existsb (fun c => bz c =? r) removalSet then -1 else r) b.

(** ** Test cards and repeated digits *)

Definition testCreditCardNumbers : list bytes := map of_str
  ["4242424242424242"; "4012888888881881"; "4000056655665556"; "5555555555554444"; "5200828282828210"; "5105105105105100"; "378282246310005"; "371449635398431"; "6011111111111117"; "6011000990139424"; "30569309025904"; "38520000023237"; "3530111333300000"; "3566002020360505"]%string.

Definition MatchTestCreditCard (s : bytes) : bool :=
  existsb (fun cc => Equal cc s) testCreditCardNumbers.

(** The inner loop of [MatchRepeatingNumber]: the bytes equal to [b] in front. *)
Fixpoint count_same (b : byte) (s : bytes) (count : Z) : Z :=
  match s with
  | c :: s' => if beq c b then count_same b s' (count + 1) else count
  | [] => count
  end.

Fixpoint MatchRepeatingNumber (s : bytes) : bool :=
  match s with
  | [] => false
  | b :: s' =>
      if negb (is_digit b) then MatchRepeatingNumber s'
      else if 5 <=? count_same b s' 1 then true
      else MatchRepeatingNumber s'
  end.

(** ** File names *)

Definition validFileExtensions : list string := [
  "ez"; "anx"; "atom"; "webp"; "atomcat"; "atomsrv"; "lin"; "cu"; "davmount"; "dcm"; "tsp"; "es";
  "otf"; "ttf"; "pfr"; "woff"; "spl"; "gz"; "hta"; "jar"; "ser"; "class"; "js"; "json"; "m3g";
  "hqx"; "cpt"; "nb"; "nbp"; "mbox"; "mdb"; "doc"; "dot"; "mxf"; "bin"; "deploy"; "msu"; "msp";
  "oda"; "opf"; "ogx"; "one"; "onetoc2"; "onetmp"; "onepkg"; "pdf"; "pgp"; "key"; "sig"; "prf";
  "ps"; "ai"; "eps"; "epsi"; "epsf"; "eps2"; "eps3"; "rar"; "rdf"; "rtf"; "stl"; "smi"; "smil";
  "xhtml"; "xht"; "xml"; "xsd"; "xsl"; "xslt"; "xspf"; "zip"; "apk"; "cdy"; "deb"; "ddeb";
  "udeb"; "sfd"; "kml"; "kmz"; "xul"; "xls"; "xlb"; "xlt"; "xlam"; "xlsb"; "xlsm"; "xltm"; "eot";
  "thmx"; "cat"; "ppt"; "pps"; "ppam"; "pptm"; "sldm"; "ppsm"; "potm"; "docm"; "dotm"; "odc";
  "odb"; "odf"; "odg"; "otg"; "odi"; "odp"; "otp"; "ods"; "ots"; "odt"; "odm"; "ott"; "oth";
  "pptx"; "sldx"; "ppsx"; "potx"; "xlsx"; "xltx"; "docx"; "dotx"; "cod"; "mmf"; "sdc"; "sds";
  "sda"; "sdd"; "sdf"; "sdw"; "sgl"; "sxc"; "stc"; "sxd"; "std"; "sxi"; "sti"; "sxm"; "sxw";
  "sxg"; "stw"; "sis"; "cap"; "pcap"; "vsd"; "vst"; "vsw"; "vss"; "wbxml"; "wmlc"; "wmlsc";
  "wpd"; "wp5"; "wk"; "7z"; "abw"; "dmg"; "bcpio"; "torrent"; "cab"; "cbr"; "cbz"; "cdf"; "cda";
  "vcd"; "pgn"; "mph"; "cpio"; "csh"; "dcr"; "dir"; "dxr"; "dms"; "wad"; "dvi"; "pfa"; "pfb";
  "gsf"; "pcf"; "pcf.Z"; "mm"; "gan"; "gnumeric"; "sgf"; "gcf"; "gtar"; "tgz"; "taz"; "hdf";
  "hwp"; "ica"; "info"; "ins"; "isp"; "iii"; "iso"; "jam"; "jnlp"; "jmz"; "chrt"; "kil"; "skp";
  "skd"; "skt"; "skm"; "kpr"; "kpt"; "ksp"; "kwd"; "kwt"; "latex"; "lha"; "lyx"; "lzh"; "lzx";
  "frm"; "maker"; "frame"; "fm"; "fb"; "book"; "fbdoc"; "mif"; "m3u8"; "application"; "manifest";
  "wmd"; "wmz"; "com"; "exe"; "bat"; "dll"; "msi"; "nc"; "pac"; "nwc"; "o"; "oza"; "p7r"; "crl";
  "pyc"; "pyo"; "qgs"; "shp"; "shx"; "qtl"; "rdp"; "rpm"; "rss"; "rb"; "sci"; "sce"; "xcos";
  "sh"; "shar"; "swf"; "swfl"; "scr"; "sql"; "sit"; "sitx"; "sv4cpio"; "sv4crc"; "tar"; "tcl";
  "gf"; "pk"; "texinfo"; "texi"; "~"; "%"; "bak"; "old"; "sik"; "t"; "tr"; "roff"; "man"; "me";
  "ms"; "ustar"; "src"; "wz"; "crt"; "xcf"; "fig"; "xpi"; "xz"; "amr"; "awb"; "axa"; "au"; "snd";
  "csd"; "orc"; "sco"; "flac"; "mid"; "midi"; "kar"; "mpga"; "mpega"; "mp2"; "mp3"; "m4a"; "m3u";
  "oga"; "ogg"; "opus"; "spx"; "sid"; "aif"; "aiff"; "aifc"; "gsm"; "wma"; "wax"; "ra"; "rm";
  "ram"; "pls"; "sd2"; "wav"; "alc"; "cac"; "cache"; "csf"; "cbin"; "cascii"; "ctab"; "cdx";
  "cer"; "c3d"; "chm"; "cif"; "cmdf"; "cml"; "cpa"; "bsd"; "csml"; "csm"; "ctx"; "cxf"; "cef";
  "emb"; "embl"; "spc"; "inp"; "gam"; "gamin"; "fch"; "fchk"; "cub"; "gau"; "gjc"; "gjf"; "gal";
  "gcg"; "gen"; "hin"; "istr"; "ist"; "jdx"; "dx"; "kin"; "mcm"; "mmd"; "mmod"; "mol"; "rd";
  "rxn"; "sd"; "tgf"; "mcif"; "mol2"; "b"; "gpt"; "mop"; "mopcrt"; "mpc"; "zmt"; "moo"; "mvb";
  "asn"; "prt"; "ent"; "val"; "aso"; "pdb"; "ros"; "sw"; "vms"; "vmd"; "xtel"; "xyz"; "gif";
  "ief"; "jp2"; "jpg2"; "jpeg"; "jpg"; "jpe"; "jpm"; "jpx"; "jpf"; "pcx"; "png"; "svg"; "svgz";
  "tiff"; "tif"; "djvu"; "djv"; "ico"; "wbmp"; "cr2"; "crw"; "ras"; "cdr"; "pat"; "cdt"; "erf";
  "art"; "jng"; "bmp"; "nef"; "orf"; "psd"; "pnm"; "pbm"; "pgm"; "ppm"; "rgb"; "xbm"; "xpm";
  "xwd"; "eml"; "igs"; "iges"; "msh"; "mesh"; "silo"; "vrml"; "x3dv"; "x3d"; "x3db"; "appcache";
  "ics"; "icz"; "css"; "csv"; "323"; "html"; "htm"; "shtml"; "uls"; "mml"; "asc"; "txt"; "text";
  "pot"; "brf"; "srt"; "rtx"; "sct"; "wsc"; "tm"; "tsv"; "ttl"; "vcf"; "vcard"; "jad"; "wml";
  "wmls"; "bib"; "boo"; "hpp"; "hxx"; "hh"; "cpp"; "cxx"; "cc"; "h"; "htc"; "c"; "d"; "diff";
  "patch"; "hs"; "java"; "ly"; "lhs"; "moc"; "p"; "pas"; "gcd"; "pl"; "pm"; "py"; "scala"; "etx";
  "sfv"; "tk"; "tex"; "ltx"; "sty"; "cls"; "vcs"; "3gp"; "axv"; "dl"; "dif"; "dv"; "fli"; "gl";
  "mpeg"; "mpg"; "mpe"; "ts"; "mp4"; "qt"; "mov"; "ogv"; "webm"; "mxu"; "flv"; "lsf"; "lsx";
  "mng"; "asf"; "asx"; "wm"; "wmv"; "wmx"; "wvx"; "avi"; "movie"; "mpv"; "mkv"; "ice"; "sisx";
  "vrm"; "wrl"]%string.

Definition MatchFilename (s : bytes) : option bool :=
  if blen s <? 3 then Some false else
  let dotIdx := LastIndexByte s "." in
  if (dotIdx <=? 0) || (dotIdx =? blen s - 1) then Some false else
  filename ← s.[0 : dotIdx];
  if negb (forallb isValidFilenameChar filename) then Some false else
  extension ← s.[dotIdx + 1 :];
  Some (existsb (String.eqb (to_str (BytesToLower extension))) validFileExtensions).

(** ** Phone numbers *)

Definition phoneFormat1Separators : list byte := [" "; "-"; "."; "*"; "("; ")"]%byte.

Definition matchPhoneFormat1 (s : bytes) : option bool :=
  let sanitized := stripChars phoneFormat1Separators s in
  if blen sanitized =? 0 then Some false else
  c0 ← idx sanitized 0;
  let hasPlusSign := beq c0 "+" in
  if negb hasPlusSign && ContainsByte sanitized "+" then Some false else
  digitPortion ← (if hasPlusSign then sanitized.[1:] else Some sanitized);
  if negb (isAllDigits digitPortion) then Some false else
  let length := blen digitPortion in
  if hasPlusSign then Some ((10 <=? length) && (length <=? 13))
  else Some (length =? 10).

(** [len(p) == n && isAllDigits(p)]. *)
Definition digit_part (p : bytes) (n : Z) : bool := (blen p =? n) && isAllDigits p.

Definition validatePhoneFormat2Parenthetical (s : bytes) : option bool :=
  let closingParenIdx := IndexByte s ")" in
  if closingParenIdx =? -1 then Some false else
  countryCodePart ← s.[1 : closingParenIdx];
  if negb (blen countryCodePart =? 3) then Some false else
  c0 ← idx countryCodePart 0;
  if negb (beq c0 "+") then Some false else
  country ← countryCodePart.[1 : blen countryCodePart];
  if negb (isAllDigits country) then Some false else
  if blen s <=? closingParenIdx + 1 then Some false else
  space ← idx s (closingParenIdx + 1);
  if negb (beq space " ") then Some false else
  remainder ← s.[closingParenIdx + 2 :];
  match Split remainder " " with
  | [p0; p1; p2] => Some (digit_part p0 2 && digit_part p1 3 && digit_part p2 4)
  | _ => Some false
  end.

Definition validatePhoneFormat2Plus (s : bytes) : option bool :=
  match Split s " " with
  | [p0; p1; p2; p3] =>
      if negb (blen p0 =? 3) then Some false else
      c0 ← idx p0 0;
      if negb (beq c0 "+") then Some false else
      country ← p0.[1:];
      if negb (isAllDigits country) then Some false else
      Some (digit_part p1 2 && digit_part p2 3 && digit_part p3 4)
  | _ => Some false
  end.

Definition matchPhoneFormat2 (s : bytes) : option bool :=
  let trimmed := TrimSpace s in
  if blen trimmed =? 0 then Some false
  else if HasPrefix trimmed ["("; "+"]%byte then validatePhoneFormat2Parenthetical trimmed
  else if HasPrefix trimmed ["+"]%byte then validatePhoneFormat2Plus trimmed
  else Some false.

Definition MatchPhoneV2 (s : bytes) : option bool :=
  if blen s =? 0 then Some false else
  matchPhoneFormat1 s ≫= fun format1 : bool =>
  if format1 then Some true else
  matchPhoneFormat2 s ≫= fun format2 : bool =>
  if format2 then Some true else Some false.

(** ** E-mail addresses *)

(** The loop from the end of [isDomainAllNumeric], on the reversed slice. *)
Fixpoint all_numeric_before_at (rs : bytes) : bool :=
  match rs with
  | [] => true
  | c :: rs' =>
      if beq c "@" then true
      else if negb (is_digit c) && negb (beq c ".") then false
      else all_numeric_before_at rs'
  end.

Definition isDomainAllNumeric (s : bytes) : bool := all_numeric_before_at (rev s).

Definition MatchEmailV2 (s : bytes) : option bool :=
  if blen s <? 3 then Some false else
  let at_ := IndexByte s "@" in
  if (at_ <=? 0) || negb (at_ =? LastIndexByte s "@") || (at_ =? blen s - 1) then Some false else
  local ← s.[0 : at_];
  domain ← s.[at_ + 1 :];
  if (blen local =? 0) || (blen domain =? 0) then Some false else
  let dot := LastIndexByte domain "." in
  if (dot <=? 0) || (dot =? blen domain - 1) then Some false else
  if isDomainAllNumeric s then Some false else Some true.

(** ** IP addresses *)

Definition especialChars : list byte :=
  [x22; ","; "["; "]"; "{"; "}"; "-"; ";"; "?"; "!"; "`"; "'"]%byte.

Definition MatchIP (s : bytes) : bool :=
  match ParseIP (stripChars especialChars s) with Some _ => true | None => false end.

(** ** Credit cards *)

Definition ccStripSet : list byte := [" "; "-"]%byte.

Definition MatchVisaCreditCard (input : bytes) : option bool :=
  let clean := stripChars ccStripSet input in
  if negb (blen clean =? 16) then Some false else
  if negb (isAllDigits clean) then Some false else
  c0 ← idx clean 0;
  Some (beq c0 "4").

Definition MatchMasterCardCreditCard (input : bytes) : option bool :=
  let clean := stripChars ccStripSet input in
  if negb (blen clean =? 16) then Some false else
  if negb (isAllDigits clean) then Some false else
  c0 ← idx clean 0;
  if negb (beq c0 "5") then Some false else
  c1 ← idx clean 1;
  if (bz c1 <? bz "1") || (bz "5" <? bz c1) then Some false else Some true.

(** ** Identifiers *)

Definition MatchVIN (s : bytes) : bool :=
  if negb (blen s =? 17) then false else forallb isValidVINChar s.

(** The loop of [MatchUUID] from index [i]. *)
Fixpoint uuid_loop (i : Z) (s : bytes) : bool :=
  match s with
  | [] => true
  | c :: s' =>
      if (i =? 8) || (i =? 13) || (i =? 18) || (i =? 23)
      then if negb (beq c "-") then false else uuid_loop (i + 1) s'
      else if negb (isHexDigit c) then false else uuid_loop (i + 1) s'
  end.

Definition MatchUUID (s : bytes) : bool :=
  if negb (blen s =? 36) then false else uuid_loop 0 s.

(** ** Removing characters *)

(** The bytes that are not in the set. *)
Definition strip (removalSet : list byte) (s : bytes) : bytes :=
  List.filter (fun b => negb (existsb (fun c => bz c =? bz b) removalSet)) s.

Lemma stripChars_keep set s :
  stripChars set s = Map (keep (fun r => negb (existsb (fun c => bz c =? r) set))) s.
Proof. apply Map_ext. intros r. unfold keep. by destruct (existsb _ _). Qed.

Lemma strip_set_non_ascii set r :
  forallb is_ascii set = true -> RuneSelf <= r -> existsb (fun c => bz c =? r) set = false.
Proof.
  intros Hset Hr. apply existsb_false_iff. apply forallb_iff in Hset.
  eapply Forall_impl; [exact Hset|]. unfold is_ascii. intros c Hc. lia.
Qed.

Lemma stripChars_ascii set s :
  forallb is_ascii set = true ->
  (forallb is_ascii s = true /\ stripChars set s = strip set s) \/
  (forallb is_ascii (stripChars set s) = false /\ forallb is_ascii (strip set s) = false).
Proof.
  intros Hset. destruct (forallb is_ascii s) eqn:Hs; [left|right].
  - split; [done|]. rewrite stripChars_keep. by apply Map_keep_filter.
  - split; apply not_true_iff_false; intros Ha; apply not_true_iff_false in Hs; apply Hs.
    + rewrite stripChars_keep in Ha. eapply Map_keep_is_ascii; [|exact Ha].
      intros r Hr. cbv beta. by rewrite strip_set_non_ascii.
    + apply forallb_iff, Forall_forall. intros b Hb. apply forallb_iff in Ha.
      rewrite Forall_forall in Ha. destruct (existsb (fun c => bz c =? bz b) set) eqn:Hx.
      * destruct (is_ascii b) eqn:Hab; [done|].
        exfalso. unfold is_ascii in Hab. rewrite (strip_set_non_ascii set (bz b)) in Hx; [done|done|lia].
      * apply Ha. unfold strip. apply list_elem_of_In, filter_In. rewrite Hx.
        split; [by apply list_elem_of_In|done].
Qed.

Lemma isAllDigits_forallb b : isAllDigits b = forallb is_digit b.
Proof. induction b as [|c b IH]; simpl; [done|]. by destruct (is_digit c). Qed.

Lemma is_digit_ascii c : is_digit c = true -> is_ascii c = true.
Proof. all_bytes c. Qed.

Lemma forallb_impl {A} (f g : A -> bool) l :
  (forall x, f x = true -> g x = true) -> forallb f l = true -> forallb g l = true.
Proof. rewrite !forallb_iff. intros Hfg Hf. by eapply Forall_impl. Qed.

(** ** Repeated digits *)

Lemma count_same_spec b s n :
  exists k rest, s = replicate k b ++ rest /\ count_same b s n = n + Z.of_nat k /\
    (match rest with c :: _ => c <> b | [] => True end).
Proof.
  revert n. induction s as [|c s IH]; intros n; simpl.
  - exists 0%nat, []. split_and!; [done|lia|done].
  - destruct (beq c b) eqn:Hc.
    + apply beq_true in Hc as ->. destruct (IH (n + 1)) as (k & rest & -> & -> & ?).
      exists (S k), rest. split_and!; [done|lia|done].
    + apply beq_false in Hc. exists 0%nat, (c :: s). split_and!; [done|lia|done].
Qed.

Lemma replicate_prefix (d b : byte) n m rest s :
  replicate n d ++ s = replicate m b ++ rest -> (0 < n)%nat -> (0 < m)%nat ->
  (match rest with c :: _ => c <> b | [] => True end) -> (n <= m)%nat.
Proof.
  revert m. induction n as [|n IH]; intros m Heq Hn Hm Hr; [lia|].
  destruct m as [|m]; [lia|]. simpl in Heq. injection Heq as -> Heq.
  destruct n as [|n]; [lia|]. destruct m as [|m].
  - simpl in Heq. subst rest. by destruct Hr.
  - specialize (IH (S m) Heq ltac:(lia) ltac:(lia) Hr). lia.
Qed.

(** [MatchRepeatingNumber] answers true exactly on the slices that contain
    five equal digits in a row. *)
Theorem MatchRepeatingNumber_run s :
  MatchRepeatingNumber s = true <->
    exists l d r, s = l ++ replicate 5 d ++ r /\ is_digit d = true.
Proof.
  induction s as [|b s IH].
  { split; [done|]. intros ([|? ?] & d & r & Heq & _); simplify_eq/=. }
  assert (Hcons : (exists l d r, s = l ++ replicate 5 d ++ r /\ is_digit d = true) ->
                  exists l d r, b :: s = l ++ replicate 5 d ++ r /\ is_digit d = true).
  { intros (l & d & r & -> & Hd). by exists (b :: l), d, r. }
  assert (Hinv : (exists l d r, b :: s = l ++ replicate 5 d ++ r /\ is_digit d = true) ->
     (is_digit b = true /\ exists r, b :: s = replicate 5 b ++ r) \/
     (exists l d r, s = l ++ replicate 5 d ++ r /\ is_digit d = true)).
  { intros ([|c l] & d & r & Heq & Hd); simpl in Heq; simplify_eq.
    - left. split; [done|]. by exists r.
    - right. by exists l, d, r. }
  change (MatchRepeatingNumber (b :: s)) with
    (if negb (is_digit b) then MatchRepeatingNumber s
     else if 5 <=? count_same b s 1 then true else MatchRepeatingNumber s).
  destruct (is_digit b) eqn:Hb; cbn [negb].
  - destruct (count_same_spec b s 1) as (k & rest & Hs & Hk & Hrest). rewrite Hk.
    destruct (Z.leb_spec 5 (1 + Z.of_nat k)).
    + split; [|done]. intros _. exists [], b, (replicate (k - 4) b ++ rest).
      split; [|done]. rewrite Hs.
      change (b :: replicate k b ++ rest) with (replicate (S k) b ++ rest).
      replace (S k) with (5 + (k - 4))%nat by lia. by rewrite replicate_add, <- app_assoc.
    + rewrite IH. split; [done|]. intros [[_ (r & Heq)]|?]%Hinv; [|done]. exfalso.
      rewrite Hs in Heq. change (b :: replicate k b ++ rest) with (replicate (S k) b ++ rest) in Heq.
      symmetry in Heq. apply (replicate_prefix b b 5 (S k) rest r) in Heq; [lia|lia|lia|done].
  - rewrite IH. split; [done|]. intros [[? _]|?]%Hinv; congruence || done.
Qed.

(** ** File names *)

Lemma LastIndexByte_split s l1 l2 c :
  s = l1 ++ c :: l2 -> (c ∉ l2) -> LastIndexByte s c = blen l1.
Proof.
  intros Hs Hc. destruct (LastIndexByte_spec s c) as [[_ Hn]|(m1 & m2 & Hs' & Hm & ->)].
  - subst s. set_solver.
  - rewrite Hs in Hs'. clear Hs s. revert m1 Hs'.
    induction l1 as [|x l1 IH]; intros [|y m1] Heq; simplify_eq/=; [done|set_solver|set_solver|].
    rewrite !blen_cons. rewrite (IH m1); done.
Qed.

Lemma IndexByte_split s l1 l2 c :
  s = l1 ++ c :: l2 -> (c ∉ l1) -> IndexByte s c = blen l1.
Proof.
  intros Hs Hc. destruct (IndexByte_spec s c) as [[_ Hn]|(m1 & m2 & Hs' & Hm & ->)].
  - subst s. set_solver.
  - rewrite Hs in Hs'. clear Hs s. revert m1 Hs' Hm.
    induction l1 as [|x l1 IH]; intros [|y m1] Heq Hm; simplify_eq/=; [done|set_solver|set_solver|].
    rewrite !blen_cons. rewrite (IH ltac:(set_solver) m1); [done|done|set_solver].
Qed.

Lemma slice_before {A} (l1 : list A) c l2 : slice (l1 ++ c :: l2) 0 (blen l1) = Some l1.
Proof. rewrite slice_Some by blen_lia. by rewrite sub_app_l. Qed.

Lemma slice_after {A} (l1 : list A) c l2 :
  slice (l1 ++ c :: l2) (blen l1 + 1) (blen (l1 ++ c :: l2)) = Some l2.
Proof.
  replace (l1 ++ c :: l2) with ((l1 ++ [c]) ++ l2) by by rewrite <- app_assoc.
  replace (blen l1 + 1) with (blen (l1 ++ [c])) by blen_lia. apply slice_app_r.
Qed.

Definition known_extension (ext : bytes) : bool :=
  existsb (String.eqb (to_str (BytesToLower ext))) validFileExtensions.

Lemma MatchFilename_spec_lemma s :
  exists b, MatchFilename s = Some b /\
    (b = true <-> exists stem ext, s = stem ++ "."%byte :: ext /\ stem <> [] /\ ext <> [] /\
       ("."%byte ∉ ext) /\ forallb isValidFilenameChar stem = true /\ known_extension ext = true).
Proof.
  unfold MatchFilename.
  destruct (Z.ltb_spec (blen s) 3) as [Hlen|Hlen].
  { exists false. split; [done|]. split; [done|]. intros (stem & ext & -> & Hst%blen_pos & Hex%blen_pos & _).
    rewrite blen_app, blen_cons in Hlen. lia. }
  destruct (LastIndexByte_spec s ".") as [[-> Hn]|(l1 & l2 & Hs & Hl2 & ->)].
  { exists false. split; [done|]. split; [done|]. intros (stem & ext & -> & _). set_solver. }
  destruct ((blen l1 <=? 0) || (blen l1 =? blen s - 1)) eqn:Hedge.
  { exists false. split; [done|]. split; [done|]. intros (stem & ext & Hs' & Hst%blen_pos & Hex%blen_pos & Hd & _).
    pose proof (LastIndexByte_split s _ _ _ Hs' Hd) as H1.
    rewrite (LastIndexByte_split s _ _ _ Hs Hl2) in H1.
    rewrite Hs', blen_app, blen_cons in Hedge. lia. }
  subst s. rewrite slice_before. cbn [mbind option_bind]. apply orb_false_iff in Hedge as [He1 He2].
  rewrite blen_app, blen_cons in He2.
  assert (Hsp : forall stem ext, l1 ++ "."%byte :: l2 = stem ++ "."%byte :: ext -> ("."%byte ∉ ext) ->
     stem = l1 /\ ext = l2).
  { intros stem ext Heq Hd.
    pose proof (LastIndexByte_split _ _ _ _ Heq Hd) as H1.
    rewrite (LastIndexByte_split _ _ _ _ eq_refl Hl2) in H1.
    apply app_inj_1 in Heq as [? ?]; [|unfold blen in H1; lia]. by simplify_eq. }
  destruct (forallb isValidFilenameChar l1) eqn:Hv; cbn [negb].
  - rewrite slice_after. cbn [mbind option_bind]. fold (known_extension l2). exists (known_extension l2). split; [done|]. split.
    + intros Hk. exists l1, l2. split_and!; try done; intros ->; rewrite ?blen_nil in *; lia.
    + intros (stem & ext & Heq & _ & _ & Hd & _ & Hk). by destruct (Hsp _ _ Heq Hd) as [_ <-].
  - exists false. split; [done|]. split; [done|]. intros (stem & ext & Heq & _ & _ & Hd & Hv' & _).
    destruct (Hsp _ _ Heq Hd) as [<- _]. congruence.
Qed.

(** [MatchFilename] never panics and accepts exactly the names made of a
    non-empty stem of file name characters, a dot, and an extension of the list
    that contains no dot, compared without regard to case. *)
Theorem MatchFilename_spec s :
  exists b, MatchFilename s = Some b /\
    (b = true <-> exists stem ext, s = stem ++ "."%byte :: ext /\ stem <> [] /\ ext <> [] /\
       ("."%byte ∉ ext) /\ forallb isValidFilenameChar stem = true /\ known_extension ext = true).
Proof. apply MatchFilename_spec_lemma. Qed.

(** ** E-mail addresses *)

Lemma IndexByte_unique s c :
  IndexByte s c = LastIndexByte s c ->
  (c ∉ s) \/ exists l1 l2, s = l1 ++ c :: l2 /\ (c ∉ l1) /\ (c ∉ l2) /\ IndexByte s c = blen l1.
Proof.
  intros Heq. destruct (IndexByte_spec s c) as [[_ Hn]|(l1 & l2 & Hs & Hl1 & Hi)]; [by left|right].
  destruct (LastIndexByte_spec s c) as [[H1 Hn]|(m1 & m2 & Hs' & Hm2 & Hi')].
  { subst s. set_solver. }
  assert (l1 = m1 /\ c :: l2 = c :: m2) as [-> [= ->]].
  { apply app_inj_1; [unfold blen in *; lia|congruence]. }
  by exists m1, m2.
Qed.

Lemma app_cons_inj_l {A} (l1 l1' l2 l2' : list A) c :
  l1 ++ c :: l2 = l1' ++ c :: l2' -> (c ∉ l1) -> (c ∉ l1') -> l1 = l1' /\ l2 = l2'.
Proof.
  revert l1'. induction l1 as [|x l1 IH]; intros [|y l1'] Heq H1 H2; simplify_eq/=;
    [done|set_solver|set_solver|].
  destruct (IH l1') as [-> ->]; [done|set_solver|set_solver|done].
Qed.

Lemma app_cons_inj_r {A} (l1 l1' l2 l2' : list A) c :
  l1 ++ c :: l2 = l1' ++ c :: l2' -> (c ∉ l2) -> (c ∉ l2') -> l1 = l1' /\ l2 = l2'.
Proof.
  revert l1'. induction l1 as [|x l1 IH]; intros [|y l1'] Heq H1 H2; simplify_eq/=;
    [done|set_solver|set_solver|].
  by destruct (IH l1') as [-> ->].
Qed.

(** A byte a numeric domain may contain. *)
Definition numeric_char (c : byte) : bool := is_digit c || beq c ".".

Lemma all_numeric_app rs rest :
  ("@"%byte ∉ rs) -> all_numeric_before_at (rs ++ "@"%byte :: rest) = forallb numeric_char rs.
Proof.
  induction rs as [|c rs IH]; intros Hn; [done|]. simpl.
  assert (beq c "@" = false) as -> by (apply beq_false; set_solver).
  unfold numeric_char at 1. destruct (is_digit c); simpl; [apply IH; set_solver|].
  destruct (beq c "."); simpl; [apply IH; set_solver|done].
Qed.

Lemma isDomainAllNumeric_domain local domain :
  ("@"%byte ∉ domain) -> isDomainAllNumeric (local ++ "@"%byte :: domain) = forallb numeric_char domain.
Proof.
  intros Hd. unfold isDomainAllNumeric. rewrite rev_app_distr. simpl. rewrite <- app_assoc. simpl.
  rewrite all_numeric_app.
  - apply eq_true_iff_eq. rewrite !forallb_iff. rewrite rev_alt.
    change (rev_append domain []) with (reverse domain). by rewrite Forall_reverse.
  - rewrite rev_alt. change (rev_append domain []) with (reverse domain). by rewrite elem_of_reverse.
Qed.

(** The e-mail addresses [MatchEmailV2] accepts: one [@], text on both sides,
    the last dot of the domain neither first nor last, and a domain that is not
    made of digits and dots only. *)
Definition is_email (s : bytes) : Prop :=
  exists local name tld, s = local ++ "@"%byte :: name ++ "."%byte :: tld /\
    local <> [] /\ name <> [] /\ tld <> [] /\
    ("@"%byte ∉ local) /\ ("@"%byte ∉ name) /\ ("@"%byte ∉ tld) /\ ("."%byte ∉ tld) /\
    forallb numeric_char (name ++ tld) = false.

(** In an address the first [@] is the last one, and ends the local part. *)
Lemma email_at local name tld s : s = local ++ "@"%byte :: name ++ "."%byte :: tld ->
  ("@"%byte ∉ local) -> ("@"%byte ∉ name) -> ("@"%byte ∉ tld) ->
  IndexByte s "@" = blen local /\ LastIndexByte s "@" = blen local.
Proof.
  intros Hs ???. split; [by eapply IndexByte_split|].
  eapply LastIndexByte_split; [exact Hs|]. set_solver.
Qed.

(** What is left to check of an address once its single [@] is found. *)
Lemma email_domain local domain : ("@"%byte ∉ local) -> ("@"%byte ∉ domain) ->
  is_email (local ++ "@"%byte :: domain) ->
  exists name tld, domain = name ++ "."%byte :: tld /\ name <> [] /\ tld <> [] /\ ("."%byte ∉ tld) /\
    forallb numeric_char (name ++ tld) = false.
Proof.
  intros Hl Hd (local' & name & tld & Hs & ? & ? & ? & ? & ? & ? & ? & ?).
  apply app_cons_inj_l in Hs as [_ ->]; [|done|done]. by exists name, tld.
Qed.

Lemma MatchEmailV2_spec_lemma s :
  exists b, MatchEmailV2 s = Some b /\ (b = true <-> is_email s).
Proof.
  unfold MatchEmailV2.
  destruct (Z.ltb_spec (blen s) 3) as [Hlen|Hlen].
  { exists false. split; [done|]. split; [done|].
    intros (local & name & tld & -> & H1%blen_pos & H2%blen_pos & H3%blen_pos & _). blen_lia. }
  destruct ((IndexByte s "@" <=? 0) || negb (IndexByte s "@" =? LastIndexByte s "@")
            || (IndexByte s "@" =? blen s - 1)) eqn:Hat.
  { exists false. split; [done|]. split; [done|].
    intros (local & name & tld & Hs & H1%blen_pos & H2%blen_pos & H3%blen_pos & ? & ? & ? & _).
    destruct (email_at local name tld s) as [E1 E2]; [done..|]. rewrite E1, E2 in Hat.
    rewrite Hs in Hat. autorewrite with go in Hat. lia. }
  apply orb_false_iff in Hat as [[Hpos%Z.leb_gt Heq%negb_false_iff%Z.eqb_eq]%orb_false_iff Hlast%Z.eqb_neq].
  destruct (IndexByte_unique s "@" Heq) as [Hn|(local & domain & Hs & Hl & Hd & Hi)].
  { destruct (IndexByte_spec s "@") as [[? _]|(?&?&->&_)]; [lia|set_solver]. }
  rewrite Hi in *. subst s. rewrite slice_before. cbn [mbind option_bind].
  rewrite slice_after. cbn [mbind option_bind]. autorewrite with go in Hlast.
  assert (Hlocal : (blen local =? 0) = false) by lia.
  assert (Hdomain : (blen domain =? 0) = false) by (pose proof (blen_nonneg domain); lia).
  rewrite Hlocal, Hdomain. cbn [orb].
  pose proof (email_domain local domain Hl Hd) as Hemail.
  destruct (LastIndexByte_spec domain ".") as [[-> Hn]|(name & tld & -> & Ht & ->)].
  { exists false. split; [done|]. split; [done|]. intros (name & tld & -> & _)%Hemail. set_solver. }
  destruct ((blen name <=? 0) || _) eqn:Hdot.
  { exists false. split; [done|]. split; [done|].
    intros (name' & tld' & Hd' & H1%blen_pos & H2%blen_pos & ? & _)%Hemail.
    apply app_cons_inj_r in Hd' as [<- <-]; [|done|done]. autorewrite with go in Hdot. lia. }
  rewrite isDomainAllNumeric_domain by done.
  assert (Hnum : forallb numeric_char (name ++ "."%byte :: tld) = forallb numeric_char (name ++ tld))
    by by rewrite !forallb_app. rewrite Hnum.
  exists (negb (forallb numeric_char (name ++ tld))). split; [by case_match|].
  rewrite negb_true_iff. split.
  - intros Hf. exists local, name, tld. autorewrite with go in Hdot.
    rewrite not_elem_of_app, not_elem_of_cons in Hd. destruct Hd as (? & _ & ?).
    apply orb_false_iff in Hdot as [Hd1%Z.leb_gt Hd2%Z.eqb_neq].
    split_and!; try done; intros ->; clear -Hpos Hd1 Hd2; unfold blen in *; simpl in *; lia.
  - intros (name' & tld' & Hd' & ? & ? & ? & ?)%Hemail.
    by apply app_cons_inj_r in Hd' as [<- <-].
Qed.

(** C19: [MatchEmailV2] never panics and accepts exactly those addresses. *)
Theorem MatchEmailV2_spec s :
  exists b, MatchEmailV2 s = Some b /\ (b = true <-> is_email s).
Proof. apply MatchEmailV2_spec_lemma. Qed.

(** ** Credit cards *)

(** The digits of a card once spaces and dashes are removed. *)
Definition card_digits (input : bytes) : bytes := strip ccStripSet input.

Lemma non_ascii_not_digits x : forallb is_ascii x = false -> forallb is_digit x = false.
Proof.
  intros Hx. apply not_true_iff_false. intros Hd.
  apply not_true_iff_false in Hx. apply Hx. by eapply forallb_impl; [apply is_digit_ascii|].
Qed.

(** Either the runes removed are the bytes removed, or some other character is
    left and neither text is made of digits. *)
Lemma stripChars_digits set s :
  forallb is_ascii set = true ->
  stripChars set s = strip set s \/
  (forallb is_digit (stripChars set s) = false /\ forallb is_digit (strip set s) = false).
Proof.
  intros Hset. destruct (stripChars_ascii set s Hset) as [[_ ?]|[H1 H2]]; [by left|right].
  by split; apply non_ascii_not_digits.
Qed.

Lemma credit_cards_spec_lemma input :
  let digits := card_digits input in
  let sixteen := (blen digits =? 16) && forallb is_digit digits in
  MatchVisaCreditCard input =
    Some (sixteen && match digits with c0 :: _ => beq c0 "4" | [] => false end) /\
  MatchMasterCardCreditCard input =
    Some (sixteen && match digits with
                     | c0 :: c1 :: _ => beq c0 "5" && in_range "1" "5" c1
                     | _ => false
                     end) /\
  ~ (MatchVisaCreditCard input = Some true /\ MatchMasterCardCreditCard input = Some true).
Proof.
  intros digits sixteen.
  destruct (stripChars_digits ccStripSet input eq_refl) as [Heq|[H1 H2]].
  2:{ assert (sixteen = false) as -> by (unfold sixteen, digits, card_digits; by rewrite H2, andb_false_r).
      unfold MatchVisaCreditCard, MatchMasterCardCreditCard. rewrite isAllDigits_forallb, H1.
      destruct (blen _ =? 16); simpl; split_and!; try done; by intros [? _]. }
  assert (Hv : MatchVisaCreditCard input =
    Some (sixteen && match digits with c0 :: _ => beq c0 "4" | [] => false end)).
  { unfold MatchVisaCreditCard. rewrite Heq. fold (card_digits input). fold digits.
    unfold sixteen. rewrite isAllDigits_forallb.
    destruct (blen digits =? 16) eqn:Hlen; simpl; [|done].
    destruct (forallb is_digit digits); simpl; [|done]. by destruct digits. }
  assert (Hm : MatchMasterCardCreditCard input =
    Some (sixteen && match digits with c0 :: c1 :: _ => beq c0 "5" && in_range "1" "5" c1 | _ => false end)).
  { unfold MatchMasterCardCreditCard. rewrite Heq. fold (card_digits input). fold digits.
    unfold sixteen. rewrite isAllDigits_forallb.
    destruct (blen digits =? 16) eqn:Hlen; simpl; [|done].
    destruct (forallb is_digit digits); simpl; [|done].
    destruct digits as [|c0 [|c1 rest]]; [done|done|]. simpl. destruct (beq c0 "5"); simpl; [|done].
    unfold idx, in_range. simpl. destruct (_ || _) eqn:E; f_equal; bz_lit; lia. }
  split_and!; [done|done|]. rewrite Hv, Hm.
  destruct sixteen, digits as [|c0 [|c1 r]]; simpl; intros [[= H1] [= H2]]; try done.
  apply andb_true_iff in H2 as [H2 _]. apply beq_true in H1, H2. congruence.
Qed.

(** C18: [MatchVisaCreditCard] and [MatchMasterCardCreditCard] never panic and
    depend only on the bytes that are neither spaces nor dashes: sixteen
    digits, the first a 4, or the first a 5 and the second from 1 to 5; no
    number is both. *)
Theorem credit_cards_spec input :
  let digits := card_digits input in
  let sixteen := (blen digits =? 16) && forallb is_digit digits in
  MatchVisaCreditCard input =
    Some (sixteen && match digits with c0 :: _ => beq c0 "4" | [] => false end) /\
  MatchMasterCardCreditCard input =
    Some (sixteen && match digits with
                     | c0 :: c1 :: _ => beq c0 "5" && in_range "1" "5" c1
                     | _ => false
                     end) /\
  ~ (MatchVisaCreditCard input = Some true /\ MatchMasterCardCreditCard input = Some true).
Proof. apply credit_cards_spec_lemma. Qed.

(** ** Phone numbers *)

(** What the first format asks of the text without separators. *)
Definition phone1 (c : bytes) : bool :=
  match c with
  | [] => false
  | c0 :: d => if beq c0 "+" then forallb is_digit d && (10 <=? blen d) && (blen d <=? 13)
               else forallb is_digit c && (blen c =? 10)
  end.

Lemma phone1_non_ascii c : forallb is_ascii c = false -> phone1 c = false.
Proof.
  intros Hc. destruct c as [|c0 d]; [done|]. unfold phone1.
  destruct (beq c0 "+") eqn:Hp.
  - apply beq_true in Hp as ->. by rewrite (non_ascii_not_digits d).
  - by rewrite (non_ascii_not_digits (c0 :: d)).
Qed.

Lemma plus_not_digits c : ContainsByte c "+" = true -> forallb is_digit c = false.
Proof.
  unfold ContainsByte. intros Hc. destruct (IndexByte_spec c "+") as [[Hi _]|(l1 & l2 & -> & _)].
  - rewrite Hi in Hc. done.
  - rewrite forallb_app. simpl. by rewrite andb_false_r.
Qed.

Lemma matchPhoneFormat1_eq s : matchPhoneFormat1 s = Some (phone1 (strip phoneFormat1Separators s)).
Proof.
  assert (Hclean : matchPhoneFormat1 s = Some (phone1 (stripChars phoneFormat1Separators s))).
  { unfold matchPhoneFormat1. set (c := stripChars phoneFormat1Separators s).
    destruct c as [|c0 d]; [done|].
    assert ((blen (c0 :: d) =? 0) = false) as -> by (rewrite blen_cons; pose proof (blen_nonneg d); lia).
    cbn [idx Z.ltb Z.to_nat lookup list_lookup mbind option_bind].
    change (idx (c0 :: d) 0) with (Some c0). cbn [mbind option_bind].
    unfold phone1. destruct (beq c0 "+") eqn:Hp; cbn [negb andb].
    - rewrite (slice_after [] c0 d : slice (c0 :: d) 1 (blen (c0 :: d)) = Some d).
      cbn [mbind option_bind]. rewrite isAllDigits_forallb.
      destruct (forallb is_digit d); cbn [negb andb]; done.
    - destruct (ContainsByte (c0 :: d) "+") eqn:Hc.
      + by rewrite plus_not_digits.
      + cbn [mbind option_bind]. rewrite isAllDigits_forallb.
        destruct (forallb is_digit (c0 :: d)); cbn [negb andb]; done. }
  rewrite Hclean. f_equal.
  destruct (stripChars_ascii phoneFormat1Separators s eq_refl) as [[_ ->]|[H1 H2]]; [done|].
  by rewrite !phone1_non_ascii.
Qed.

Lemma Split_cons s sep p ps :
  Split s sep = p :: ps ->
  (ps = [] /\ s = p /\ (sep ∉ p)) \/
  (exists s', s = p ++ sep :: s' /\ (sep ∉ p) /\ Split s' sep = ps).
Proof.
  revert p ps. induction s as [|b s IH]; intros p ps H; simpl in H.
  - simplify_eq. left. split_and!; [done|done|set_solver].
  - destruct (beq b sep) eqn:Hb.
    + apply beq_true in Hb as ->. simplify_eq. right. exists s. split_and!; [done|set_solver|done].
    + apply beq_false in Hb. destruct (Split s sep) as [|f fs] eqn:Hs; simplify_eq.
      * destruct s as [|c s]; simpl in Hs; [done|]. repeat case_match; done.
      * destruct (IH _ _ eq_refl) as [(-> & -> & Hn)|(s' & -> & Hn & <-)].
        -- left. split_and!; [done|done|set_solver].
        -- right. exists s'. split_and!; [done|set_solver|done].
Qed.

Lemma Split_single s sep : (sep ∉ s) -> Split s sep = [s].
Proof.
  induction s as [|b s IH]; intros Hn; simpl; [done|].
  assert (beq b sep = false) as -> by (apply beq_false; set_solver). rewrite IH; [done|set_solver].
Qed.

Lemma Split_app p s sep : (sep ∉ p) -> Split (p ++ sep :: s) sep = p :: Split s sep.
Proof.
  induction p as [|b p IH]; intros Hn; simpl; [by rewrite beq_refl|].
  assert (beq b sep = false) as -> by (apply beq_false; set_solver). rewrite IH; [done|set_solver].
Qed.

Lemma digits_no_byte c p : is_digit c = false -> forallb is_digit p = true -> (c ∉ p).
Proof.
  intros Hc Hp Hin. apply forallb_iff in Hp. rewrite Forall_forall in Hp.
  apply Hp in Hin. congruence.
Qed.

Lemma digit_part_iff p n : digit_part p n = true <-> blen p = n /\ forallb is_digit p = true.
Proof. unfold digit_part. by rewrite isAllDigits_forallb, andb_true_iff, Z.eqb_eq. Qed.

(** Three groups of two, three and four digits, read by [Split]. *)
Lemma three_parts s :
  match Split s " " with
  | [p0; p1; p2] => digit_part p0 2 && digit_part p1 3 && digit_part p2 4
  | _ => false
  end = true <->
  exists p0 p1 p2, s = p0 ++ " "%byte :: p1 ++ " "%byte :: p2 /\
    digit_part p0 2 = true /\ digit_part p1 3 = true /\ digit_part p2 4 = true.
Proof.
  split.
  - destruct (Split s " ") as [|p0 [|p1 [|p2 [|? ?]]]] eqn:Hs; try done. intros H. bsplit.
    exists p0, p1, p2. split; [|done].
    apply Split_cons in Hs as [[? _]|(s1 & -> & _ & Hs)]; [done|].
    apply Split_cons in Hs as [[? _]|(s2 & -> & _ & Hs)]; [done|].
    by apply Split_cons in Hs as [(_ & -> & _)|(s3 & -> & _ & Hs)]; [|destruct s3; simpl in Hs; repeat case_match].
  - intros (p0 & p1 & p2 & -> & H0 & H1 & H2).
    assert (forall p n, digit_part p n = true -> (" "%byte ∉ p)) as Hno.
    { intros p n [_ Hd]%digit_part_iff. by apply digits_no_byte. }
    rewrite !Split_app, Split_single by eauto. by rewrite H0, H1, H2.
Qed.

(** The texts of the second format: [+cc dd ddd dddd] with or without
    parentheses around the country code. *)
Definition phone2 (t : bytes) : Prop :=
  exists cc p0 p1 p2, digit_part cc 2 = true /\ digit_part p0 2 = true /\ digit_part p1 3 = true /\
    digit_part p2 4 = true /\
    let rest := " "%byte :: p0 ++ " "%byte :: p1 ++ " "%byte :: p2 in
    (t = "+"%byte :: cc ++ rest \/ t = "("%byte :: "+"%byte :: cc ++ ")"%byte :: rest).

Lemma blen2_digits_plus (p : bytes) :
  blen p = 3 -> (exists cc, p = "+"%byte :: cc /\ digit_part cc 2 = true) <->
  match p with c0 :: cc => beq c0 "+" && isAllDigits cc | [] => false end = true.
Proof.
  intros Hlen. destruct p as [|c0 cc]; [split; [by intros (?&?&_)|done]|].
  rewrite blen_cons in Hlen. rewrite andb_true_iff, beq_true, isAllDigits_forallb. split.
  - intros (cc' & [= -> ->] & [_ ?]%digit_part_iff). done.
  - intros [-> Hd]. exists cc. split; [done|]. apply digit_part_iff. split; [lia|done].
Qed.

Lemma validatePhoneFormat2Plus_spec t :
  exists b, validatePhoneFormat2Plus t = Some b /\
    (b = true <-> exists cc p0 p1 p2, digit_part cc 2 = true /\ digit_part p0 2 = true /\
       digit_part p1 3 = true /\ digit_part p2 4 = true /\
       t = "+"%byte :: cc ++ " "%byte :: p0 ++ " "%byte :: p1 ++ " "%byte :: p2).
Proof.
  unfold validatePhoneFormat2Plus.
  assert (Hno : forall p n, digit_part p n = true -> (" "%byte ∉ p)).
  { intros p n [_ Hd]%digit_part_iff. by apply digits_no_byte. }
  assert (Hback : (exists cc p0 p1 p2, digit_part cc 2 = true /\ digit_part p0 2 = true /\
       digit_part p1 3 = true /\ digit_part p2 4 = true /\
       t = "+"%byte :: cc ++ " "%byte :: p0 ++ " "%byte :: p1 ++ " "%byte :: p2) ->
       exists cc p0 p1 p2, Split t " " = ["+"%byte :: cc; p0; p1; p2] /\ digit_part cc 2 = true /\
         digit_part p0 2 = true /\ digit_part p1 3 = true /\ digit_part p2 4 = true).
  { intros (cc & p0 & p1 & p2 & Hcc & H0 & H1 & H2 & ->). exists cc, p0, p1, p2.
    split; [|done]. rewrite app_comm_cons.
    assert ((" "%byte ∉ "+"%byte :: cc)) by (apply not_elem_of_cons; eauto).
    by rewrite !Split_app, Split_single by eauto. }
  destruct (Split t " ") as [|p [|p0 [|p1 [|p2 [|? ?]]]]] eqn:Hs;
    try (exists false; split; [done|]; split; [done|]; intros (?&?&?&?&?&_)%Hback; done).
  destruct (Z.eqb_spec (blen p) 3) as [Hlen|Hlen]; cbn [negb].
  2:{ exists false. split; [done|]. split; [done|]. intros (cc & ? & ? & ? & [= -> -> -> ->] & [Hl _]%digit_part_iff & _)%Hback.
      rewrite blen_cons in Hlen. lia. }
  pose proof (blen2_digits_plus p Hlen) as Hcc. destruct p as [|c0 cc]; [done|].
  change (idx (c0 :: cc) 0) with (Some c0). cbn [mbind option_bind].
  rewrite (slice_after [] c0 cc : slice (c0 :: cc) 1 (blen (c0 :: cc)) = Some cc).
  cbn [mbind option_bind].
  assert (Ht : t = c0 :: cc ++ " "%byte :: p0 ++ " "%byte :: p1 ++ " "%byte :: p2).
  { apply Split_cons in Hs as [[? _]|(s1 & -> & _ & Hs)]; [done|].
    apply Split_cons in Hs as [[? _]|(s2 & -> & _ & Hs)]; [done|].
    apply Split_cons in Hs as [[? _]|(s3 & -> & _ & Hs)]; [done|].
    by apply Split_cons in Hs as [(_ & -> & _)|(s4 & -> & _ & Hs)];
      [|destruct s4; simpl in Hs; repeat case_match]. }
  exists (beq c0 "+" && isAllDigits cc && (digit_part p0 2 && digit_part p1 3 && digit_part p2 4)).
  split; [by destruct (beq c0 "+"), (isAllDigits cc)|]. split.
  - intros H. apply andb_true_iff in H as [Hc H]. apply Hcc in Hc as (cc' & [= -> ->] & Hc).
    bsplit. by exists cc', p0, p1, p2.
  - intros (cc' & p0' & p1' & p2' & [= -> -> -> -> ->] & Hc & -> & -> & ->)%Hback.
    rewrite andb_true_r. apply Hcc. by exists cc'.
Qed.

(** [bytes.Split(remainder, " ")] and the checks of its three parts. *)
Definition three (rest : bytes) : bool :=
  match Split rest " " with
  | [p0; p1; p2] => digit_part p0 2 && digit_part p1 3 && digit_part p2 4
  | _ => false
  end.

Lemma parenthetical_parts l r : (")"%byte ∉ l) ->
  (exists cc p0 p1 p2, digit_part cc 2 = true /\ digit_part p0 2 = true /\
     digit_part p1 3 = true /\ digit_part p2 4 = true /\
     "("%byte :: l ++ ")"%byte :: r =
     "("%byte :: "+"%byte :: cc ++ ")"%byte :: " "%byte :: p0 ++ " "%byte :: p1 ++ " "%byte :: p2) <->
  (exists cc, l = "+"%byte :: cc /\ digit_part cc 2 = true) /\
  (exists rest, r = " "%byte :: rest /\ three rest = true).
Proof.
  intros Hl. split.
  - intros (cc & p0 & p1 & p2 & Hcc & H0 & H1 & H2 & [= Heq]).
    apply (app_cons_inj_l l ("+"%byte :: cc)) in Heq as [-> ->]; [|done|].
    + split; [by exists cc|]. eexists. split; [done|]. apply three_parts. by exists p0, p1, p2.
    + apply digit_part_iff in Hcc as [_ Hd]. apply not_elem_of_cons. split; [done|].
      by apply digits_no_byte.
  - intros [(cc & -> & Hcc) (rest & -> & Hr)]. apply three_parts in Hr as (p0 & p1 & p2 & -> & ?).
    destruct H as (?&?&?). by exists cc, p0, p1, p2.
Qed.

(** The byte after the blank that follows the parenthesis, and what follows it. *)
Lemma idx_after_parenthesis L r0 rest :
  idx ("("%byte :: L ++ ")"%byte :: r0 :: rest) (1 + blen L + 1) = Some r0.
Proof.
  replace ("("%byte :: L ++ ")"%byte :: r0 :: rest) with (("("%byte :: L ++ [")"%byte]) ++ r0 :: rest)
    by by rewrite <- app_comm_cons, <- app_assoc.
  replace (1 + blen L + 1) with (Z.of_nat (length ("("%byte :: L ++ [")"%byte])))
    by (simpl; rewrite length_app; unfold blen; simpl; lia).
  rewrite idx_of_nat. by apply list_lookup_middle.
Qed.

Lemma slice_after_parenthesis L r0 rest :
  slice ("("%byte :: L ++ ")"%byte :: r0 :: rest) (1 + blen L + 2)
    (1 + blen L + 1 + (1 + blen rest)) = Some rest.
Proof.
  replace ("("%byte :: L ++ ")"%byte :: r0 :: rest)
    with (("("%byte :: L ++ [")"%byte; r0]) ++ rest) by by rewrite <- app_comm_cons, <- app_assoc.
  rewrite <- (slice_app_r ("("%byte :: L ++ [")"%byte; r0]) rest). f_equal; blen_lia.
Qed.

Lemma validatePhoneFormat2Parenthetical_spec t : HasPrefix t ["("; "+"]%byte = true ->
  exists b, validatePhoneFormat2Parenthetical t = Some b /\
    (b = true <-> exists cc p0 p1 p2, digit_part cc 2 = true /\ digit_part p0 2 = true /\
       digit_part p1 3 = true /\ digit_part p2 4 = true /\
       t = "("%byte :: "+"%byte :: cc ++ ")"%byte :: " "%byte :: p0 ++ " "%byte :: p1 ++ " "%byte :: p2).
Proof.
  intros Hpre. unfold validatePhoneFormat2Parenthetical.
  destruct (IndexByte_spec t ")") as [[-> Hn]|(l & r & -> & Hl & ->)].
  { exists false. split; [done|]. split; [done|].
    intros (cc & ? & ? & ? & _ & _ & _ & _ & ->). exfalso; apply Hn.
    rewrite !elem_of_cons, elem_of_app, elem_of_cons. tauto. }
  destruct l as [|l0 l]; [done|]. simpl in Hpre. apply andb_true_iff in Hpre as [->%beq_true Hpre].
  apply not_elem_of_cons in Hl as [_ Hl]. simpl app.
  pose proof (parenthetical_parts l r Hl) as Hparts. pose proof (blen_nonneg l).
  rewrite (blen_cons "("%byte l).
  destruct (Z.eqb_spec (1 + blen l) (-1)); [lia|].
  rewrite (slice_app_mid ["("%byte] l (")"%byte :: r) :
    slice ("("%byte :: l ++ ")"%byte :: r) 1 (1 + blen l) = Some l).
  cbn [mbind option_bind].
  destruct (Z.eqb_spec (blen l) 3) as [Hlen|Hlen]; cbn [negb].
  2:{ exists false. split; [done|]. split; [done|].
      intros [(cc & -> & [Hc _]%digit_part_iff) _]%Hparts. rewrite blen_cons in Hlen. lia. }
  pose proof (blen2_digits_plus l Hlen) as Hcc. destruct l as [|c0 cc]; [done|].
  change (idx (c0 :: cc) 0) with (Some c0). cbn [mbind option_bind].
  rewrite (slice_after [] c0 cc : slice (c0 :: cc) 1 (blen (c0 :: cc)) = Some cc).
  cbn [mbind option_bind].
  destruct (beq c0 "+") eqn:Hp; cbn [negb].
  2:{ exists false. split; [done|]. split; [done|]. intros [Hc _]%Hparts. by apply Hcc in Hc. }
  destruct (isAllDigits cc) eqn:Hd; cbn [negb].
  2:{ exists false. split; [done|]. split; [done|]. intros [Hc _]%Hparts. by apply Hcc in Hc. }
  assert (Hc : exists cc', c0 :: cc = "+"%byte :: cc' /\ digit_part cc' 2 = true) by by apply Hcc.
  set (L := c0 :: cc) in *.
  assert (Hlast : blen ("("%byte :: L ++ ")"%byte :: r) = 1 + blen L + 1 + blen r) by blen_lia.
  change (1 + (1 + blen cc)) with (1 + blen L).
  destruct r as [|r0 rest].
  { exists false. rewrite Hlast, blen_nil. if_lia. split; [done|]. split; [done|].
    by intros [_ (rest & ? & _)]%Hparts. }
  rewrite Hlast, blen_cons. pose proof (blen_nonneg rest). if_lia.
  rewrite idx_after_parenthesis. cbn [mbind option_bind].
  destruct (beq r0 " ") eqn:Hr; cbn [negb].
  2:{ exists false. split; [done|]. split; [done|].
      intros [_ (rest' & [= -> ->] & _)]%Hparts. by rewrite beq_refl in Hr. }
  apply beq_true in Hr as ->.
  rewrite slice_after_parenthesis. cbn [mbind option_bind]. exists (three rest). split.
  { unfold three. by repeat case_match. }
  rewrite Hparts. split.
  - intros Ht. split; [done|]. by exists rest.
  - by intros [_ (rest' & [= <-] & ?)].
Qed.

Lemma MatchPhoneV2_spec_lemma s :
  exists b, MatchPhoneV2 s = Some b /\
    (b = true <-> phone1 (strip phoneFormat1Separators s) = true \/ phone2 (TrimSpace s)).
Proof.
  unfold MatchPhoneV2. rewrite matchPhoneFormat1_eq.
  assert (Hp2 : phone2 [] -> False).
  { intros (cc & p0 & p1 & p2 & _ & _ & _ & _ & [H|H]); done. }
  destruct (Z.eqb_spec (blen s) 0) as [->%blen_zero|_].
  { exists false. split; [done|]. split; [done|]. by intros [H|H%Hp2]. }
  cbn [mbind option_bind]. destruct (phone1 _) eqn:H1; [exists true; by split; [|tauto]|].
  unfold matchPhoneFormat2. set (t := TrimSpace s).
  destruct (Z.eqb_spec (blen t) 0) as [Ht%blen_zero|_].
  { exists false. split; [done|]. split; [done|]. rewrite Ht. by intros [H|H%Hp2]. }
  destruct (HasPrefix t ["("; "+"]%byte) eqn:Hpar.
  { destruct (validatePhoneFormat2Parenthetical_spec t Hpar) as (b & -> & Hb).
    exists b. split; [by destruct b|]. rewrite Hb. split.
    - intros (cc & p0 & p1 & p2 & ? & ? & ? & ? & ?). right. exists cc, p0, p1, p2. eauto 8.
    - intros [?|(cc & p0 & p1 & p2 & ? & ? & ? & ? & [Heq|Heq])]; [done| |by exists cc, p0, p1, p2].
      by rewrite Heq in Hpar. }
  destruct (HasPrefix t ["+"]%byte) eqn:Hplus.
  { destruct (validatePhoneFormat2Plus_spec t) as (b & -> & Hb).
    exists b. split; [by destruct b|]. rewrite Hb. split.
    - intros (cc & p0 & p1 & p2 & ? & ? & ? & ? & ?). right. exists cc, p0, p1, p2. eauto 8.
    - intros [?|(cc & p0 & p1 & p2 & ? & ? & ? & ? & [Heq|Heq])]; [done|by exists cc, p0, p1, p2|].
      by rewrite Heq in Hplus. }
  exists false. split; [done|]. split; [done|].
  intros [?|(cc & p0 & p1 & p2 & ? & ? & ? & ? & [Heq|Heq])]; [done|..].
  - rewrite Heq in Hplus. simpl in Hplus. by rewrite HasPrefix_nil in Hplus.
  - rewrite Heq in Hpar. simpl in Hpar. by rewrite HasPrefix_nil in Hpar.
Qed.

(** C20: [MatchPhoneV2] never panics.  It accepts exactly the texts that,
    without spaces, dashes, dots, asterisks and parentheses, are ten digits or
    a plus sign and ten to thirteen digits, and those that are [+cc dd ddd dddd]
    or [(+cc) dd ddd dddd] between white space. *)
Theorem MatchPhoneV2_spec s :
  exists b, MatchPhoneV2 s = Some b /\
    (b = true <-> phone1 (strip phoneFormat1Separators s) = true \/ phone2 (TrimSpace s)).
Proof. apply MatchPhoneV2_spec_lemma. Qed.


(** ** Universally unique identifiers *)

Definition dash_at (i : Z) : bool := (i =? 8) || (i =? 13) || (i =? 18) || (i =? 23).

Lemma uuid_loop_hex n : forall i s,
  (forall k, i <= k < i + Z.of_nat n -> dash_at k = false) -> (n <= length s)%nat ->
  uuid_loop i s = forallb isHexDigit (take n s) && uuid_loop (i + Z.of_nat n) (drop n s).
Proof.
  induction n as [|n IH]; intros i s Hd Hs.
  - simpl. rewrite ?drop_0. f_equal. lia.
  - destruct s as [|c s]; simpl in Hs; [lia|]. simpl uuid_loop at 1.
    pose proof (Hd i ltac:(lia)) as Hi. unfold dash_at in Hi. rewrite Hi.
    cbn [take drop forallb]. destruct (isHexDigit c); simpl; [|done].
    rewrite (IH (i + 1)); [|intros k Hk; apply Hd; lia|lia]. f_equal. f_equal. lia.
Qed.

Lemma uuid_loop_dash i c s : dash_at i = true ->
  uuid_loop i (c :: s) = beq c "-" && uuid_loop (i + 1) s.
Proof. intros Hi. simpl. unfold dash_at in Hi. rewrite Hi. by destruct (beq c "-"). Qed.

Definition hex_group_of (n : Z) (g : bytes) : Prop := blen g = n /\ forallb isHexDigit g = true.

(** Cut a hexadecimal group off the front. *)
Lemma uuid_loop_group (n : nat) i s : (forall k, i <= k < i + Z.of_nat n -> dash_at k = false) ->
  (n <= length s)%nat ->
  uuid_loop i s = true <-> exists g t, s = g ++ t /\ hex_group_of (Z.of_nat n) g /\
    uuid_loop (i + Z.of_nat n) t = true.
Proof.
  intros Hd Hs. rewrite (uuid_loop_hex n) by done. rewrite andb_true_iff. split.
  - intros [Hg Ht]. exists (take n s), (drop n s). rewrite take_drop. split_and!; try done.
    split; [|done]. unfold blen. rewrite length_take. lia.
  - intros (g & t & -> & [Hl Hg] & Ht). unfold blen in Hl. assert (length g = n) as <- by lia.
    rewrite take_app_length, drop_app_length. done.
Qed.

Lemma uuid_loop_sep i s : dash_at i = true -> s <> [] ->
  uuid_loop i s = true <-> exists t, s = "-"%byte :: t /\ uuid_loop (i + 1) t = true.
Proof.
  intros Hi Hs. destruct s as [|c s]; [done|]. rewrite uuid_loop_dash, andb_true_iff, beq_true by done.
  split; [by intros [-> ?]; exists s|]. by intros (t & [= -> ->] & ?).
Qed.

Lemma no_dash_between lo n :
  forallb (fun k => negb (dash_at (Z.of_nat k))) (List.seq lo n) = true ->
  forall k, Z.of_nat lo <= k < Z.of_nat lo + Z.of_nat n -> dash_at k = false.
Proof.
  intros H k Hk. rewrite forallb_forall in H. specialize (H (Z.to_nat k)).
  rewrite Z2Nat.id in H by lia. apply negb_true_iff, H, in_seq. lia.
Qed.

(** [MatchUUID] accepts exactly the texts made of five groups of 8, 4, 4,
    4 and 12 hexadecimal digits joined by dashes. *)
Theorem MatchUUID_groups s :
  MatchUUID s = true <->
    exists g1 g2 g3 g4 g5,
      s = Join [g1; g2; g3; g4; g5] ["-"%byte] /\
      hex_group_of 8 g1 /\ hex_group_of 4 g2 /\ hex_group_of 4 g3 /\ hex_group_of 4 g4 /\
      hex_group_of 12 g5.
Proof.
  unfold MatchUUID. split.
  - destruct (Z.eqb_spec (blen s) 36) as [Hlen|]; [|done]. cbn [negb]. intros H.
    apply (uuid_loop_group 8) in H as (g1 & t1 & -> & H1 & H);
      [|exact (no_dash_between 0 8 eq_refl)|unfold blen in Hlen; lia].
    apply uuid_loop_sep in H as (u1 & -> & H); [|done|intros ->; destruct H1; blen_lia].
    apply (uuid_loop_group 4) in H as (g2 & t2 & -> & H2 & H);
      [|exact (no_dash_between 9 4 eq_refl)|destruct H1; unfold blen in *; rewrite !length_app in *; simpl in *; lia].
    apply uuid_loop_sep in H as (u2 & -> & H); [|done|intros ->; destruct H1, H2; blen_lia].
    apply (uuid_loop_group 4) in H as (g3 & t3 & -> & H3 & H);
      [|exact (no_dash_between 14 4 eq_refl)|
        destruct H1, H2; unfold blen in *; rewrite !length_app in *; simpl in *; rewrite !length_app in *; simpl in *; lia].
    apply uuid_loop_sep in H as (u3 & -> & H); [|done|intros ->; destruct H1, H2, H3; blen_lia].
    apply (uuid_loop_group 4) in H as (g4 & t4 & -> & H4 & H);
      [|exact (no_dash_between 19 4 eq_refl)|
        destruct H1, H2, H3; clear H; autorewrite with go in Hlen; unfold blen in *; lia].
    apply uuid_loop_sep in H as (u4 & -> & H); [|done|intros ->; destruct H1, H2, H3, H4; blen_lia].
    apply (uuid_loop_group 12) in H as (g5 & t5 & -> & H5 & H);
      [|exact (no_dash_between 24 12 eq_refl)|
        destruct H1, H2, H3, H4; clear H; autorewrite with go in Hlen; unfold blen in *; lia].
    assert (t5 = []) as ->.
    { apply blen_zero. destruct H1, H2, H3, H4, H5. clear H. autorewrite with go in Hlen. blen_lia. }
    exists g1, g2, g3, g4, g5. split; [|done]. simpl. by rewrite app_nil_r.
  - intros (g1 & g2 & g3 & g4 & g5 & -> & H1 & H2 & H3 & H4 & H5). simpl Join.
    assert (Hlen : blen (g1 ++ "-"%byte :: g2 ++ "-"%byte :: g3 ++ "-"%byte :: g4 ++ "-"%byte :: g5) = 36).
    { destruct H1, H2, H3, H4, H5. blen_lia. }
    simpl in Hlen |- *. rewrite Hlen. cbn [Z.eqb negb].
    assert (Hlook : forall (n : nat) g t, hex_group_of (Z.of_nat n) g -> (n <= length (g ++ t))%nat).
    { intros n g t [Hl _]. unfold blen in Hl. rewrite length_app. lia. }
    change (36 =? 36)%positive with true. cbn [negb].
    apply (uuid_loop_group 8); [exact (no_dash_between 0 8 eq_refl)|by apply Hlook|].
    do 2 eexists. split; [done|]. split; [done|]. apply uuid_loop_sep; [done..|]. eexists. split; [done|].
    apply (uuid_loop_group 4); [exact (no_dash_between 9 4 eq_refl)|by apply Hlook|].
    do 2 eexists. split; [done|]. split; [done|]. apply uuid_loop_sep; [done..|]. eexists. split; [done|].
    apply (uuid_loop_group 4); [exact (no_dash_between 14 4 eq_refl)|by apply Hlook|].
    do 2 eexists. split; [done|]. split; [done|]. apply uuid_loop_sep; [done..|]. eexists. split; [done|].
    apply (uuid_loop_group 4); [exact (no_dash_between 19 4 eq_refl)|by apply Hlook|].
    do 2 eexists. split; [done|]. split; [done|]. apply uuid_loop_sep; [done..|]. eexists. split; [done|].
    apply (uuid_loop_group 12); [exact (no_dash_between 24 12 eq_refl)|rewrite <- (app_nil_r g5); by apply Hlook|].
    exists g5, []. rewrite app_nil_r. done.
Qed.

(** ** IP addresses *)

Lemma MatchIP_strip s :
  MatchIP s = match ParseIP (strip especialChars s) with Some _ => true | None => false end.
Proof.
  unfold MatchIP. destruct (stripChars_ascii especialChars s eq_refl) as [[_ ->]|[H1 H2]]; [done|].
  by rewrite !ParseIP_non_ascii.
Qed.

(** Without a colon [MatchIP] accepts exactly the texts that, once the
    wrapping characters are removed wherever they stand, are the decimal
    notation [a.b.c.d] of four octets: no leading zeros, no value above 255. *)
Theorem MatchIP_dotted s (no_colon : ":"%byte ∉ s) :
  MatchIP s = true <->
    exists a b c d, Forall (fun x => 0 <= x < 256) [a; b; c; d] /\
      strip especialChars s = dotted [a; b; c; d].
Proof.
  assert (Hn : ":"%byte ∉ strip especialChars s).
  { intros Hin. apply no_colon. unfold strip in Hin. apply list_elem_of_In, filter_In in Hin as [Hin _].
    by apply list_elem_of_In. }
  rewrite MatchIP_strip. split.
  - destruct (ParseIP _) as [l|] eqn:Hp; [|done]. intros _.
    apply ParseIP_no_colon in Hp as (Ho & Hl & Hs); [|done].
    destruct l as [|a [|b [|c [|d [|? ?]]]]]; try done. by exists a, b, c, d.
  - intros (a & b & c & d & Ho & Hs).
    assert (ParseIP (strip especialChars s) = Some [a; b; c; d]) as ->; [|done].
    by apply ParseIP_no_colon.
Qed.

Lemma MatchIP_dotted_witness : MatchIP (of_str "[192.168.0.1],") = true.
Proof.
  apply (MatchIP_dotted (of_str "[192.168.0.1],")).
  - apply (bool_decide_unpack _). vm_compute. exact I.
  - exists 192, 168, 0, 1. split; [repeat constructor; lia|reflexivity].
Defined.
