(* ===== verification/RegexMatchers.v ===== *)
(** * pattern/regex.go: the expressions and the matchers made of one

    The pattern strings are those of the source, compiled by [MustCompile]. *)
From S2P Require Import Prelude GoBytes Regex NetIP TextMatchers.

(** ** Pattern strings *)

Definition phonePattern : string :=
  "(?:(?:\+?\d{1,3}[-.\s*]?)?(?:\(?\d{3}\)?[-.\s*]?)?\d{3}[-.\s*]?\d{4,6})|(?:(?:(?:\(\+?\d{2}\))|(?:\+?\d{2}))\s*\d{2}\s*\d{3}\s*\d{4})".

Definition cnpjAlphanumPattern : string :=
  "([A-Z0-9]{2}\.?[A-Z0-9]{3}\.?[A-Z0-9]{3}/?[A-Z0-9]{4}-?[A-Z0-9]{2}|[A-Z0-9]{14})".

Definition phonesWithExtsPattern : string :=
  "(?i)(?:(?:\+?1\s*(?:[.-]\s*)?)?(?:\(\s*(?:[2-9]1[02-9]|[2-9][02-8]1|[2-9][02-8][02-9])\s*\)|(?:[2-9]1[02-9]|[2-9][02-8]1|[2-9][02-8][02-9]))\s*(?:[.-]\s*)?)?(?:[2-9]1[02-9]|[2-9][02-9]1|[2-9][02-9]{2})\s*(?:[.-]\s*)?(?:[0-9]{4})(?:\s*(?:#|x\.?|ext\.?|extension)\s*(?:\d+)?)".

Definition emailPattern : string :=
  "(?i)([A-Za-z0-9!#$%&'*+\/=?^_{|.}~-]+@(?:[a-z0-9](?:[a-z0-9-]*[a-z0-9])?\.)+[a-z0-9](?:[a-z0-9-]*[a-z0-9])?)".

Definition ipv4Pattern : string :=
  "(\b25[0-5]|\b2[0-4][0-9]|\b[01]?[0-9][0-9]?)(\.(25[0-5]|2[0-4][0-9]|[01]?[0-9][0-9]?)){3}".

Definition ipv6Pattern : string :=
  "(([0-9a-fA-F]{1,4}:){7,7}[0-9a-fA-F]{1,4}|([0-9a-fA-F]{1,4}:){1,7}:|([0-9a-fA-F]{1,4}:){1,6}:[0-9a-fA-F]{1,4}|([0-9a-fA-F]{1,4}:){1,5}(:[0-9a-fA-F]{1,4}){1,2}|([0-9a-fA-F]{1,4}:){1,4}(:[0-9a-fA-F]{1,4}){1,3}|([0-9a-fA-F]{1,4}:){1,3}(:[0-9a-fA-F]{1,4}){1,4}|([0-9a-fA-F]{1,4}:){1,2}(:[0-9a-fA-F]{1,4}){1,5}|[0-9a-fA-F]{1,4}:((:[0-9a-fA-F]{1,4}){1,6})|:((:[0-9a-fA-F]{1,4}){1,7}|:)|fe80:(:[0-9a-fA-F]{0,4}){0,4}%[0-9a-zA-Z]{1,}|::(ffff(:0{1,4}){0,1}:){0,1}((25[0-5]|(2[0-4]|1{0,1}[0-9]){0,1}[0-9])\.){3,3}(25[0-5]|(2[0-4]|1{0,1}[0-9]){0,1}[0-9])|([0-9a-fA-F]{1,4}:){1,4}:((25[0-5]|(2[0-4]|1{0,1}[0-9]){0,1}[0-9])\.){3,3}(25[0-5]|(2[0-4]|1{0,1}[0-9]){0,1}[0-9]))".

Definition streetAddressPattern : string :=
  "(?i)\d{1,4} [\w ]{1,20}(?:street|st|avenue|ave|road|rd|highway|hwy|square|sq|trail|trl|drive|dr|court|ct|park|parkway|pkwy|circle|cir|boulevard|blvd)\W?".

Definition zipCodePattern : string :=
  "\b\d{5}(?:[- ]\d{4})?\b".

Definition poBoxPattern : string :=
  "(?i)P\.? ?O\.? Box \d+".

Definition ssnPattern : string :=
  "\b\d{3}[- ]\d{2}[- ]\d{4}".

Definition guidPattern : string :=
  "[0-9a-fA-F]{8}-?[a-fA-F0-9]{4}-?[a-fA-F0-9]{4}-?[a-fA-F0-9]{4}-?[a-fA-F0-9]{12}".

Definition ibanPattern : string :=
  "(?i)[a-zA-Z]{2}[0-9]{2}[\t\f ]?[a-zA-Z0-9]{4}[\t\f ]?[0-9]{4}[\t\f ]?[0-9]{3}([a-zA-Z0-9][\t\f ]?[a-zA-Z0-9]{0,4}[\t\f ]?[a-zA-Z0-9]{0,4}[\t\f ]?[a-zA-Z0-9]{0,4}[\t\f ]?[a-zA-Z0-9]{0,3})?".

Definition uuid3Pattern : string :=
  "(?i)[0-9a-f]{8}-[0-9a-f]{4}-3[0-9a-f]{3}-[0-9a-f]{4}-[0-9a-f]{12}".

Definition uuid4Pattern : string :=
  "(?i)[0-9a-f]{8}-[0-9a-f]{4}-4[0-9a-f]{3}-[89ab][0-9a-f]{3}-[0-9a-f]{12}".

Definition uuid5Pattern : string :=
  "(?i)[0-9a-f]{8}-[0-9a-f]{4}-5[0-9a-f]{3}-[89ab][0-9a-f]{3}-[0-9a-f]{12}".

Definition urlPattern : string :=
  "(http(s)?:\/\/.)?(www\.)?[-a-zA-Z0-9@:%._\+~#=]{2,256}\.[a-z]{2,6}\b([-a-zA-Z0-9@:%_\+.~#?&//=]*)".

(** ** Compiled expressions *)

Definition phoneRegexp : regex := MustCompile phonePattern.
Definition cnpjAlphanumRegexp : regex := MustCompile cnpjAlphanumPattern.
Definition phonesWithExtsRegexp : regex := MustCompile phonesWithExtsPattern.
Definition emailRegexp : regex := MustCompile emailPattern.
Definition ipv4Regexp : regex := MustCompile ipv4Pattern.
Definition ipv6Regexp : regex := MustCompile ipv6Pattern.
Definition streetAddressRegexp : regex := MustCompile streetAddressPattern.
Definition zipCodeRegexp : regex := MustCompile zipCodePattern.
Definition poBoxRegexp : regex := MustCompile poBoxPattern.
Definition ssnRegexp : regex := MustCompile ssnPattern.
Definition guidRegexp : regex := MustCompile guidPattern.
Definition ibanRegexp : regex := MustCompile ibanPattern.
Definition uuid3Regexp : regex := MustCompile uuid3Pattern.
Definition uuid4Regexp : regex := MustCompile uuid4Pattern.
Definition uuid5Regexp : regex := MustCompile uuid5Pattern.
Definition urlRegexp : regex := MustCompile urlPattern.

Definition compiled (expr : string) : bool :=
  match Compile expr with Some _ => true | None => false end.

(** Every pattern is in the syntax of [Compile]: [MustCompile] does not panic. *)
Lemma patterns_compile :
  forallb compiled [phonePattern; cnpjAlphanumPattern; phonesWithExtsPattern; emailPattern; ipv4Pattern; ipv6Pattern; streetAddressPattern; zipCodePattern; poBoxPattern; ssnPattern; guidPattern; ibanPattern; uuid3Pattern; uuid4Pattern; uuid5Pattern; urlPattern] = true.
Proof. vm_compute. reflexivity. Qed.

(** ** Matchers *)

Definition MatchPhone (s : bytes) : bool := MatchBytes phoneRegexp s.
Definition MatchPhonesWithExts (s : bytes) : bool := MatchBytes phonesWithExtsRegexp s.

(** The loop from the end of [MatchEmail], on the reversed slice: is there
    a character that is neither a digit nor a dot after the last at sign? *)
Fixpoint named_domain (rs : bytes) : bool :=
  match rs with
  | [] => false
  | c :: rs' =>
      if beq c "@" then false
      else if negb (is_digit c) && negb (beq c ".") then true
      else named_domain rs'
  end.

Definition MatchEmail (s : bytes) : bool :=
  if MatchBytes emailRegexp s then named_domain (rev s) else false.

(** The characters [MatchIPV4] and [MatchIPV6] remove one after the other. *)
Definition ip_chars : list byte :=
  [x22; ","; "["; "]"; "{"; "}"; "-"; ";"; "?"; "!"; "`"; "'"]%byte.

Definition MatchIPV4 (s : bytes) : bool :=
  let s := fold_left RemoveAll ip_chars s in
  if MatchBytes ipv4Regexp s then match ParseIP s with Some _ => true | None => false end
  else false.

Definition MatchIPV6 (s : bytes) : bool :=
  let s := fold_left RemoveAll ip_chars s in
  if MatchBytes ipv6Regexp s then match ParseIP s with Some _ => true | None => false end
  else false.

Definition MatchStreetAddress (s : bytes) : bool := MatchBytes streetAddressRegexp s.
Definition MatchZipCode (s : bytes) : bool := MatchBytes zipCodeRegexp s.
Definition MatchPOBox (s : bytes) : bool := MatchBytes poBoxRegexp s.
Definition MatchSSN (s : bytes) : bool := MatchBytes ssnRegexp s.
Definition Matchguid (s : bytes) : bool := MatchBytes guidRegexp s.
Definition MatchIBAN (s : bytes) : bool := MatchBytes ibanRegexp s.
Definition MatchUUIDV3 (s : bytes) : bool := MatchBytes uuid3Regexp s.
Definition MatchUUIDV4 (s : bytes) : bool := MatchBytes uuid4Regexp s.
Definition MatchUUIDV5 (s : bytes) : bool := MatchBytes uuid5Regexp s.
Definition MatchURL (s : bytes) : bool := MatchBytes urlRegexp s.

(** ** Expressions of a fixed shape *)

(** The classes an expression without choice goes through, one per rune; word
    boundaries are left out, so they only restrict the matches. *)
Fixpoint shape (r : regex) : option (list class) :=
  match r with
  | Eps => Some []
  | Class c => Some [c]
  | Cat a b => l ← shape a; k ← shape b; Some (l ++ k)
  | Rep a lo (Some hi) => if Nat.eqb lo hi then l ← shape a; Some (concat (replicate lo l)) else None
  | _ => None
  end.

(** The runes from position [i] on lie in the classes, one after the other. *)
Fixpoint runs_through (s : list Z) (cs : list class) (i : nat) : Prop :=
  match cs with
  | [] => True
  | c :: cs' => (exists x, s !! i = Some x /\ in_class c x = true) /\ runs_through s cs' (S i)
  end.

Lemma runs_through_app s cs1 : forall cs2 i,
  runs_through s (cs1 ++ cs2) i <-> runs_through s cs1 i /\ runs_through s cs2 (i + length cs1).
Proof.
  induction cs1 as [|c cs1 IH]; intros cs2 i; simpl.
  - rewrite Nat.add_0_r. tauto.
  - rewrite IH. replace (S i + length cs1)%nat with (i + S (length cs1))%nat by lia. tauto.
Qed.

Lemma Matches_shape s r : forall cs i j, shape r = Some cs ->
  Matches s r i j <-> j = (i + length cs)%nat /\ runs_through s cs i.
Proof.
  induction r as [| | | |c|a IHa b IHb|a IHa b IHb|a IHa lo hi]; intros cs i j H; simpl in H; try done.
  - simplify_eq. simpl. rewrite Nat.add_0_r. naive_solver.
  - simplify_eq. simpl. rewrite Nat.add_1_r. naive_solver.
  - destruct (shape a) as [l|]; simpl in H; [|done]. destruct (shape b) as [k|]; simpl in H; [|done].
    simplify_eq. simpl. setoid_rewrite (IHa l _ _ eq_refl). setoid_rewrite (IHb k _ _ eq_refl).
    rewrite runs_through_app, length_app. split.
    + intros (m & [-> ?] & [-> ?]). split; [lia|done].
    + intros [-> [? ?]]. exists (i + length l)%nat. split_and!; [done|done|lia|done].
  - destruct hi as [hi|]; [|done]. destruct (Nat.eqb_spec lo hi) as [<-|]; [|done].
    destruct (shape a) as [l|]; simpl in H; [|done]. simplify_eq. simpl.
    assert (Hn : forall n i j, nsteps (Matches s a) n i j <->
      j = (i + length (concat (replicate n l)))%nat /\ runs_through s (concat (replicate n l)) i).
    { clear i j. induction n as [|n IHn]; intros i j; simpl.
      - rewrite Nat.add_0_r. split; [intros Hs; by inversion Hs; subst|]. intros [-> _]. constructor.
      - rewrite runs_through_app, length_app. split.
        + intros Hs. inversion Hs as [|? ? k ? Hk Hs']; subst.
          apply (IHa l _ _ eq_refl) in Hk as [-> ?]. apply IHn in Hs' as [-> ?]. split; [lia|done].
        + intros [-> [? ?]]. apply nsteps_l with (i + length l)%nat.
          * by apply (IHa l _ _ eq_refl).
          * apply IHn. split; [lia|done]. }
    split.
    + intros (n & ? & ? & Hs). assert (n = lo) as -> by lia. by apply Hn.
    + intros Hs. exists lo. split_and!; [lia|lia|]. by apply Hn.
Qed.

Lemma runs_through_length s cs : forall i, cs <> [] -> runs_through s cs i -> (i + length cs <= length s)%nat.
Proof.
  induction cs as [|c cs IH]; intros i Hne; [done|]. simpl. intros [(x & Hx & _) Hr].
  apply lookup_lt_Some in Hx. destruct cs as [|c' cs]; [simpl; lia|].
  apply IH in Hr; [simpl in *; lia|done].
Qed.

Lemma MatchBytes_shape r b cs : shape r = Some cs -> cs <> [] ->
  MatchBytes r b = true <-> exists i, runs_through (runes b) cs i.
Proof.
  intros Hs Hne. rewrite MatchBytes_iff. split.
  - intros (i & j & _ & Hm). apply (Matches_shape _ _ _ _ _ Hs) in Hm as [_ ?]. by exists i.
  - intros (i & Hr). exists i, (i + length cs)%nat. apply runs_through_length in Hr as Hl; [|done].
    split; [lia|]. by apply (Matches_shape _ _ _ _ _ Hs).
Qed.

(** The same for an expression that starts with a word boundary. *)
Fixpoint bounded_shape (r : regex) : option (list class) :=
  match r with
  | Cat Eps WordB => Some []
  | Cat a b => l ← bounded_shape a; k ← shape b; Some (l ++ k)
  | _ => None
  end.

Lemma Matches_bounded_shape s r : forall cs i j, bounded_shape r = Some cs ->
  Matches s r i j <-> boundary s i = true /\ j = (i + length cs)%nat /\ runs_through s cs i.
Proof.
  induction r as [| | | |c|a IHa b _|a IHa b IHb|a IHa lo hi]; intros cs i j H; try done.
  assert (Hcat : (a = Eps /\ b = WordB /\ cs = []) \/
    exists l k, bounded_shape a = Some l /\ shape b = Some k /\ cs = l ++ k).
  { destruct a, b; simpl in H; simplify_option_eq; eauto 10. }
  destruct Hcat as [(-> & -> & ->)|(l & k & Ha & Hb & ->)].
  - simpl. rewrite Nat.add_0_r. naive_solver.
  - simpl. setoid_rewrite (IHa l _ _ Ha). setoid_rewrite (Matches_shape s b k _ _ Hb).
    rewrite runs_through_app, length_app. split.
    + intros (m & (? & -> & ?) & -> & ?). split_and!; [done|lia|done|done].
    + intros (? & -> & ? & ?). exists (i + length l)%nat. split_and!; [done|done|done|lia|done].
Qed.

Lemma runs_through_segment s cs i :
  cs <> [] -> runs_through s cs i <->
  exists pre mid post, s = pre ++ mid ++ post /\ length pre = i /\
    Forall2 (fun x c => in_class c x = true) mid cs.
Proof.
  intros Hne. split.
  - intros Hr. apply runs_through_length in Hr as Hl; [|done].
    exists (take i s), (take (length cs) (drop i s)), (drop (length cs) (drop i s)).
    rewrite !take_drop. split; [done|]. split; [rewrite length_take; lia|].
    clear Hne Hl. revert i Hr. induction cs as [|c cs IH]; intros i; simpl; [done|].
    intros [(x & Hx & Hc) Hr]. rewrite (drop_S s x i) by done. simpl. constructor; [done|]. by apply IH.
  - intros (pre & mid & post & -> & <- & Hf). clear Hne. revert pre.
    induction Hf as [|x c mid cs Hx Hf IH]; intros pre; simpl; [done|]. split.
    + exists x. split; [|done]. by apply list_lookup_middle.
    + specialize (IH (pre ++ [x])). rewrite <- app_assoc in IH. simpl in IH.
      rewrite length_app in IH. simpl in IH. by rewrite Nat.add_1_r in IH.
Qed.

Lemma MatchBytes_bounded r b cs : bounded_shape r = Some cs -> cs <> [] ->
  MatchBytes r b = true <-> exists i, boundary (runes b) i = true /\ runs_through (runes b) cs i.
Proof.
  intros Hs Hne. rewrite MatchBytes_iff. split.
  - intros (i & j & _ & Hm). apply (Matches_bounded_shape _ _ _ _ _ Hs) in Hm as (? & _ & ?). by exists i.
  - intros (i & Hb & Hr). exists i, (i + length cs)%nat. apply runs_through_length in Hr as Hl; [|done].
    split; [lia|]. by apply (Matches_bounded_shape _ _ _ _ _ Hs).
Qed.

(** ** Social security numbers *)

Definition digit_rune (r : Z) : Prop := 48 <= r <= 57.
Definition sep_rune (r : Z) : Prop := r = 45 \/ r = 32.

Definition digit_class : class := mkClass false false [(false, digits)].
Definition sep_class : class := mkClass false false [(false, [(45, 45)]); (false, [(32, 32)])].

Lemma ssn_shape : bounded_shape ssnRegexp =
  Some (replicate 3 digit_class ++ sep_class :: replicate 2 digit_class ++ sep_class
        :: replicate 4 digit_class).
Proof. vm_compute. reflexivity. Qed.

Lemma in_digit_class x : in_class digit_class x = true <-> digit_rune x.
Proof. unfold in_class, digit_rune. simpl. lia. Qed.

Lemma in_sep_class x : in_class sep_class x = true <-> sep_rune x.
Proof. unfold in_class, sep_rune. simpl. lia. Qed.

Lemma Forall2_replicate_r {A B} (P : A -> B -> Prop) n (y : B) l :
  Forall2 P l (replicate n y) <-> length l = n /\ Forall (fun x => P x y) l.
Proof.
  revert n. induction l as [|x l IH]; intros [|n]; simpl.
  - split; [auto|constructor].
  - split; [intros H; inversion H|lia].
  - split; [intros H; inversion H|]. intros [? _]. done.
  - rewrite Forall2_cons, Forall_cons, IH. naive_solver lia.
Qed.

(** In front of a word character, a boundary is the absence of another. *)
Lemma boundary_front pre x rest : isWordChar x = true ->
  boundary (pre ++ x :: rest) (length pre) = true <->
  match last pre with Some r => isWordChar r = false | None => True end.
Proof.
  intros Hx. unfold boundary, wordAt. rewrite list_lookup_middle by done. rewrite Hx, xorb_true_r.
  rewrite negb_true_iff. destruct pre as [|y pre _] using rev_ind; [done|].
  rewrite last_snoc, length_app. simpl. rewrite Nat.add_1_r.
  rewrite <- app_assoc. simpl. rewrite list_lookup_middle by done. done.
Qed.

(** [MatchSSN] accepts exactly the texts that contain, not preceded by a
    letter, a digit or an underscore, three digits, two digits and four digits
    separated by dashes or spaces; what follows is free. *)
Theorem MatchSSN_spec s :
  MatchSSN s = true <->
    exists pre a s1 b s2 c post,
      runes s = pre ++ (a ++ s1 :: b ++ s2 :: c) ++ post /\
      (length a = 3 /\ length b = 2 /\ length c = 4)%nat /\
      Forall digit_rune (a ++ b ++ c) /\ sep_rune s1 /\ sep_rune s2 /\
      match last pre with Some r => isWordChar r = false | None => True end.
Proof.
  unfold MatchSSN. rewrite (MatchBytes_bounded _ _ _ ssn_shape) by done. split.
  - intros (i & Hb & Hr). apply runs_through_segment in Hr as (pre & mid & post & Hs & Hi & Hf); [|done].
    apply Forall2_app_inv_r in Hf as (a & mid1 & [Ha Hda]%Forall2_replicate_r & Hf & ->).
    apply Forall2_cons_inv_r in Hf as (s1 & mid2 & H1%in_sep_class & Hf & ->).
    apply Forall2_app_inv_r in Hf as (b & mid3 & [Hb' Hdb]%Forall2_replicate_r & Hf & ->).
    apply Forall2_cons_inv_r in Hf as (s2 & c & H2%in_sep_class & [Hc Hdc]%Forall2_replicate_r & ->).
    exists pre, a, s1, b, s2, c, post. split_and!; try done.
    + rewrite !Forall_app. split_and!; (eapply Forall_impl; [eassumption|]); intros x; apply in_digit_class.
    + destruct a as [|x a]; [done|]. simpl in Hs. rewrite Hs, <- Hi in Hb.
      apply boundary_front in Hb; [done|]. apply Forall_cons in Hda as [Hx%in_digit_class _].
      unfold digit_rune, isWordChar, in_ranges in *. simpl. lia.
  - intros (pre & a & s1 & b & s2 & c & post & Hs & (Ha & Hb & Hc) & Hd & H1 & H2 & Hlast).
    rewrite !Forall_app in Hd. destruct Hd as (Hda & Hdb & Hdc).
    set (i := length pre). assert (Hr : runs_through (runes s) (replicate 3 digit_class ++ sep_class
        :: replicate 2 digit_class ++ sep_class :: replicate 4 digit_class) i).
    { apply runs_through_segment; [done|]. exists pre, (a ++ s1 :: b ++ s2 :: c), post.
      split_and!; [done|done|].
      assert (Hcls : forall n l, length l = n -> Forall digit_rune l ->
        Forall2 (fun x c => in_class c x = true) l (replicate n digit_class)).
      { intros n l Hl Hf. apply Forall2_replicate_r. split; [done|].
        eapply Forall_impl; [exact Hf|]. intros x. apply in_digit_class. }
      apply Forall2_app; [by apply Hcls|]. apply Forall2_cons. split; [by apply in_sep_class|].
      apply Forall2_app; [by apply Hcls|]. apply Forall2_cons. split; [by apply in_sep_class|].
      by apply Hcls. }
    exists i. split; [|done]. rewrite Hs. destruct a as [|x a]; [done|]. simpl. apply boundary_front; [|done].
    apply Forall_cons in Hda as [Hx _]. unfold digit_rune, isWordChar, in_ranges in *. simpl. lia.
Qed.

(** ** Versions of identifiers *)

(** What [MatchUUID] asks of the byte at index [k]. *)
Definition uuid_char (k : nat) (b : byte) : bool :=
  if dash_at (Z.of_nat k) then beq b "-" else isHexDigit b.

Lemma uuid_loop_chars s : forall k,
  uuid_loop (Z.of_nat k) s = true <-> forall n b, s !! n = Some b -> uuid_char (k + n) b = true.
Proof.
  induction s as [|c s IH]; intros k.
  - split; [|done]. intros _ n b Hn. done.
  - assert (Hstep : uuid_loop (Z.of_nat k) (c :: s) = uuid_char k c && uuid_loop (Z.of_nat (S k)) s).
    { replace (Z.of_nat (S k)) with (Z.of_nat k + 1) by lia. cbn [uuid_loop].
      unfold uuid_char, dash_at. destruct (_ || _).
      - by destruct (beq c "-").
      - by destruct (isHexDigit c). }
    rewrite Hstep, andb_true_iff, IH. split.
    + intros [Hc Hs] [|n] b Hn; simpl in Hn.
      * simplify_eq. by rewrite Nat.add_0_r.
      * rewrite <- Nat.add_succ_comm. by apply Hs.
    + intros H. split; [specialize (H 0%nat c eq_refl); by rewrite Nat.add_0_r in H|].
      intros n b Hn. rewrite Nat.add_succ_comm. by apply (H (S n)).
Qed.

Lemma runs_through_lookup s cs : forall i,
  runs_through s cs i <-> forall k c, cs !! k = Some c ->
    exists x, s !! (i + k)%nat = Some x /\ in_class c x = true.
Proof.
  induction cs as [|c cs IH]; intros i; simpl; [done|]. rewrite IH. split.
  - intros [Hx Hr] [|k] c' Hk; simpl in Hk.
    + simplify_eq. by rewrite Nat.add_0_r.
    + rewrite <- Nat.add_succ_comm. by apply Hr.
  - intros H. split; [specialize (H 0%nat c eq_refl); by rewrite Nat.add_0_r in H|].
    intros k c' Hk. rewrite Nat.add_succ_comm. by apply (H (S k)).
Qed.

(** The extra condition of a version: the first digit of the third group, and
    the first one of the fourth group. *)
Definition version_char (version : byte) (variant : bool) (k : nat) (b : byte) : bool :=
  if Nat.eqb k 14 then beq b version
  else if variant && Nat.eqb k 19 then existsb (beq b) ["8"; "9"; "a"; "b"; "A"; "B"]%byte
  else true.

Definition uuid_classes_ok (cs : list class) (version : byte) (variant : bool) : bool :=
  forallb (fun k => match cs !! k with
                    | Some c => negb (in_class c RuneError) &&
                        forallb (fun b => if is_ascii b
                           then Bool.eqb (in_class c (bz b)) (uuid_char k b && version_char version variant k b)
                           else true) all_byte_list
                    | None => false
                    end) (List.seq 0 36).

Lemma uuid_char_ascii k b : uuid_char k b = true -> is_ascii b = true.
Proof. unfold uuid_char. destruct (dash_at _); all_bytes b. Qed.

Lemma uuid_version_aux r cs version variant s :
  shape r = Some cs -> length cs = 36%nat -> uuid_classes_ok cs version variant = true ->
  length s = 36%nat ->
  MatchBytes r s = true <->
    MatchUUID s = true /\ forall k b, s !! k = Some b -> version_char version variant k b = true.
Proof.
  intros Hs Hcs Hok Hlen. rewrite (MatchBytes_shape _ _ _ Hs) by by destruct cs.
  assert (Hclass : forall k c, cs !! k = Some c -> in_class c RuneError = false /\
     forall b, is_ascii b = true -> in_class c (bz b) = uuid_char k b && version_char version variant k b).
  { intros k c Hk. unfold uuid_classes_ok in Hok. rewrite forallb_forall in Hok.
    pose proof (lookup_lt_Some _ _ _ Hk). specialize (Hok k). rewrite Hk in Hok.
    rewrite in_seq in Hok. specialize (Hok ltac:(lia)). apply andb_true_iff in Hok as [H1 H2].
    split; [by apply negb_true_iff|]. intros b Hb. pose proof (forall_bytes _ H2 b) as Hbb.
    cbv beta in Hbb. rewrite Hb in Hbb. by apply eqb_prop in Hbb. }
  assert (Hall : forall k, (k < 36)%nat -> exists c, cs !! k = Some c).
  { intros k Hk. apply lookup_lt_is_Some. lia. }
  pose proof (length_runes s) as Hrl. split.
  - intros (i & Hr). apply runs_through_length in Hr as Hil; [|by destruct cs].
    assert (i = 0%nat) as -> by lia. rewrite runs_through_lookup in Hr. simpl in Hr.
    assert (Hascii : forallb is_ascii s = true).
    { apply runes_all_ascii, Forall_lookup. intros k x Hx.
      assert (Hk : (k < 36)%nat) by (apply lookup_lt_Some in Hx; lia).
      destruct (Hall k Hk) as [c Hc]. destruct (Hr k c Hc) as (x' & Hx' & Hin). simplify_eq.
      pose proof (runes_full s ltac:(lia)) as Hf. rewrite Forall_lookup in Hf.
      destruct (Hf k x Hx) as [?| ->]; [done|]. destruct (Hclass k c Hc). congruence. }
    rewrite runes_ascii in Hr by done.
    assert (Hboth : forall k b, s !! k = Some b ->
      uuid_char k b = true /\ version_char version variant k b = true).
    { intros k b Hk. assert (Hk' : (k < 36)%nat) by (apply lookup_lt_Some in Hk; lia).
      destruct (Hall k Hk') as [c Hc]. destruct (Hr k c Hc) as (x & Hx & Hin).
      rewrite list_lookup_fmap, Hk in Hx. simpl in Hx. simplify_eq.
      rewrite (proj2 (Hclass k c Hc)) in Hin by (apply forallb_iff in Hascii;
        rewrite Forall_lookup in Hascii; by eapply Hascii). by apply andb_true_iff. }
    split; [|intros k b Hk; by apply Hboth]. unfold MatchUUID, blen. rewrite Hlen. simpl negb.
    apply (uuid_loop_chars s 0). intros n b Hn. by apply Hboth.
  - intros [Hu Hv]. exists 0%nat. apply runs_through_lookup. intros k c Hk. simpl.
    unfold MatchUUID, blen in Hu. rewrite Hlen in Hu. simpl negb in Hu.
    pose proof (proj1 (uuid_loop_chars s 0) Hu) as Hchars. simpl in Hchars.
    assert (Hascii : forallb is_ascii s = true).
    { apply forallb_iff, Forall_lookup. intros n b Hn. eapply uuid_char_ascii. by apply Hchars. }
    rewrite runes_ascii by done. pose proof (lookup_lt_Some _ _ _ Hk).
    destruct (lookup_lt_is_Some_2 s k) as [b Hb]; [lia|]. exists (bz b).
    rewrite list_lookup_fmap, Hb. split; [done|].
    rewrite (proj2 (Hclass k c Hk)) by (eapply uuid_char_ascii; by apply Hchars).
    rewrite (Hchars k b Hb), (Hv k b Hb). done.
Qed.

(** On a text of 36 bytes the expressions for the versions accept exactly
    the identifiers [MatchUUID] accepts whose version digit is 3, 4 or 5 and,
    for the last two, whose variant digit is 8, 9, a or b. *)
Theorem uuid_versions s (length36 : length s = 36%nat) :
  let version v variant := MatchUUID s = true /\
    forall k b, s !! k = Some b -> version_char v variant k b = true in
  (MatchUUIDV3 s = true <-> version "3"%byte false) /\
  (MatchUUIDV4 s = true <-> version "4"%byte true) /\
  (MatchUUIDV5 s = true <-> version "5"%byte true).
Proof.
  assert (Hshape : forall r v variant,
    match shape r with Some cs => Nat.eqb (length cs) 36 && uuid_classes_ok cs v variant | None => false end
      = true ->
    MatchBytes r s = true <-> MatchUUID s = true /\
      forall k b, s !! k = Some b -> version_char v variant k b = true).
  { intros r v variant H. destruct (shape r) as [cs|] eqn:Hs; [|done].
    apply andb_true_iff in H as [?%Nat.eqb_eq ?]. by eapply uuid_version_aux. }
  intros version. unfold MatchUUIDV3, MatchUUIDV4, MatchUUIDV5, version.
  split_and!; apply Hshape; vm_compute; reflexivity.
Qed.

Lemma uuid_versions_witness :
  MatchUUIDV4 (of_str "f47ac10b-58cc-4372-a567-0e02b2c3d479") = true /\
  MatchUUIDV5 (of_str "f47ac10b-58cc-4372-a567-0e02b2c3d479") = false.
Proof.
  pose (s := of_str "f47ac10b-58cc-4372-a567-0e02b2c3d479").
  destruct (uuid_versions s eq_refl) as (_ & H4 & H5). split.
  - apply H4. split; [vm_compute; reflexivity|]. intros k b Hk.
    assert (Hall : forallb (fun k => match s !! k with Some b => version_char "4" true k b | None => true end)
              (List.seq 0 36) = true) by (vm_compute; reflexivity).
    rewrite forallb_forall in Hall. pose proof (lookup_lt_Some _ _ _ Hk) as Hlt.
    specialize (Hall k). rewrite Hk in Hall. apply Hall, in_seq. change (length s) with 36%nat in Hlt. lia.
  - apply not_true_iff_false. intros H. apply H5 in H as [_ H].
    specialize (H 14%nat "4"%byte eq_refl). discriminate H.
Defined.

(** ** IP addresses *)

Lemma fold_RemoveAll cs : forall s,
  fold_left RemoveAll cs s = strip cs s.
Proof.
  unfold strip. induction cs as [|c cs IH]; intros s; simpl.
  - symmetry. apply filter_all. by apply Forall_forall.
  - rewrite IH. unfold RemoveAll. clear IH. induction s as [|b s IH]; simpl; [done|].
    unfold beq at 1. rewrite (Z.eqb_sym (bz c)). destruct (bz b =? bz c); simpl; [done|].
    by destruct (existsb _ cs); simpl; rewrite IH.
Qed.

(** An IPv4 or IPv6 address for the expressions is one for [MatchIP]. *)
Theorem ip_matchers_agree s : MatchIPV4 s || MatchIPV6 s = true -> MatchIP s = true.
Proof.
  unfold MatchIPV4, MatchIPV6. rewrite fold_RemoveAll. rewrite MatchIP_strip.
  change (strip ip_chars s) with (strip especialChars s).
  destruct (ParseIP _); [done|]. by destruct (MatchBytes _ _), (MatchBytes _ _).
Qed.

Lemma ip_matchers_agree_witness : MatchIP (of_str "{10.0.0.255}") = true.
Proof. apply ip_matchers_agree. vm_compute. reflexivity. Defined.
