(* ===== verification/Expressions.v ===== *)
(** * pattern/regex.go: the texts the expressions accept

    [regexp.Match] asks whether a match exists anywhere, so much of what an
    expression says does not matter: what is optional at its ends, how often
    a repetition at an end goes beyond its minimum, and alternatives that
    contain another one.  [core] computes, for an expression whose repeated
    groups are bounded, the shortest list of plain forms with the same answer,
    and [contains] reads a form as runs of characters in the text. *)
From S2P Require Import Prelude GoBytes Regex RegexMatchers.

(** ** Forms *)

(** A piece of a form: a run of [lo] to [hi] characters of a kind, or a place
    between a word character and something else. *)
Inductive item (K : Type) :=
| Run (k : K) (lo : nat) (hi : option nat)
| Edge
| AtStart
| AtEnd.
Arguments Run {K}.
Arguments Edge {K}.
Arguments AtStart {K}.
Arguments AtEnd {K}.

#[export] Instance class_eq_dec : EqDecision class.
Proof. solve_decision. Defined.

#[export] Instance item_eq_dec {K} `{EqDecision K} : EqDecision (item K).
Proof. solve_decision. Defined.

Abbreviation form := (list (item class)).

Definition within_hi (n : nat) (hi : option nat) : Prop :=
  match hi with Some m => (n <= m)%nat | None => True end.

Section Meaning.
Context (s : list Z).

Definition item_matches (it : item class) (i j : nat) : Prop :=
  match it with
  | Run c lo hi =>
      (i + lo <= j)%nat /\ within_hi (j - i) hi /\
      forall k, (i <= k < j)%nat -> exists x, s !! k = Some x /\ in_class c x = true
  | Edge => boundary s i = true /\ i = j
  | AtStart => i = 0%nat /\ i = j
  | AtEnd => i = length s /\ i = j
  end.

Fixpoint form_matches (f : form) (i j : nat) : Prop :=
  match f with
  | [] => i = j
  | it :: f' => exists k, item_matches it i k /\ form_matches f' k j
  end.

(** The form is somewhere in the text. *)
Definition occurs (f : form) : Prop :=
  exists i j, (i <= length s)%nat /\ form_matches f i j.

(** It is at position [i]. *)
Definition begins (f : form) (i : nat) : Prop := exists j, form_matches f i j.
End Meaning.

(** ** The forms of an expression *)

Definition product (l k : list form) : list form := f ← l; g ← k; [f ++ g].

Fixpoint power (l : list form) (n : nat) : list form :=
  match n with O => [[]] | S n' => product l (power l n') end.

Fixpoint forms (r : regex) : option (list form) :=
  match r with
  | Eps => Some [[]]
  | Bol => Some [[AtStart]]
  | Eol => Some [[AtEnd]]
  | WordB => Some [[Edge]]
  | Class c => Some [[Run c 1 (Some 1%nat)]]
  | Cat a b => l ← forms a; k ← forms b; Some (product l k)
  | Alt a b => l ← forms a; k ← forms b; Some (l ++ k)
  | Rep (Class c) lo hi => Some [[Run c lo hi]]
  | Rep a lo (Some hi) => l ← forms a; Some (concat (map (power l) (List.seq lo (S hi - lo))))
  | Rep _ _ None => None
  end.

(** ** Shortening *)

(** A run is not empty by its bounds. *)
Definition possible (lo : nat) (hi : option nat) : bool :=
  match hi with Some m => (lo <=? m)%nat | None => true end.

Fixpoint trim_front (f : form) : form :=
  match f with
  | Run c lo hi :: f' =>
      if possible lo hi then match lo with O => trim_front f' | _ => Run c lo (Some lo) :: f' end
      else f
  | _ => f
  end.

Definition trim_last (it : item class) : form :=
  match it with
  | Run c lo hi =>
      if possible lo hi then match lo with O => [] | _ => [Run c lo (Some lo)] end else [it]
  | _ => [it]
  end.

Fixpoint trim_back (f : form) : form :=
  match f with
  | [] => []
  | it :: f' => match trim_back f' with [] => trim_last it | g => it :: g end
  end.

Definition trim (f : form) : form := trim_back (trim_front f).

Fixpoint inits {A} (l : list A) : list (list A) :=
  [] :: match l with [] => [] | x :: l' => map (cons x) (inits l') end.

Fixpoint segments {A} (l : list A) : list (list A) :=
  inits l ++ match l with [] => [] | _ :: l' => segments l' end.

(** Where [f] occurs, [g] does: [g] is a part of [f], trimmed. *)
Definition covers (f g : form) : bool := existsb (fun seg => bool_decide (trim seg = g)) (segments f).

Fixpoint prune (kept fs : list form) : list form :=
  match fs with
  | [] => reverse kept
  | f :: fs' => if existsb (covers f) (kept ++ fs') then prune kept fs' else prune (f :: kept) fs'
  end.

Definition core (r : regex) : option (list form) :=
  fs ← forms r; Some (prune [] (map trim fs)).

(** ** The forms match what the expression matches *)

Lemma nsteps_iff {A} (R R' : A -> A -> Prop) n : forall x y,
  (forall x y, R x y <-> R' x y) -> nsteps R n x y <-> nsteps R' n x y.
Proof.
  intros x y HR. split; intros Hs; induction Hs; [constructor|econstructor|constructor|econstructor];
    [by apply HR|done|by apply HR|done].
Qed.

Section Forms.
Context (s : list Z).

Lemma form_matches_app f g : forall i j,
  form_matches s (f ++ g) i j <-> exists k, form_matches s f i k /\ form_matches s g k j.
Proof.
  induction f as [|it f IH]; intros i j; simpl; [naive_solver|]. setoid_rewrite IH. naive_solver.
Qed.

Lemma elem_of_product l k f : f ∈ product l k <-> exists g h, g ∈ l /\ h ∈ k /\ f = g ++ h.
Proof. unfold product. set_solver. Qed.

Definition some_matches (fs : list form) (i j : nat) : Prop :=
  exists f, f ∈ fs /\ form_matches s f i j.

Lemma some_product l k i j :
  some_matches (product l k) i j <-> exists m, some_matches l i m /\ some_matches k m j.
Proof.
  unfold some_matches. setoid_rewrite elem_of_product. split.
  - intros (f & (g & h & Hg & Hh & ->) & (m & ? & ?)%form_matches_app). eauto 10.
  - intros (m & (g & Hg & ?) & (h & Hh & ?)). exists (g ++ h). rewrite form_matches_app. eauto 10.
Qed.

Lemma some_power l n : forall i j, some_matches (power l n) i j <-> nsteps (some_matches l) n i j.
Proof.
  induction n as [|n IH]; intros i j.
  - unfold some_matches. simpl. setoid_rewrite list_elem_of_singleton. split.
    + intros (f & -> & <-). constructor.
    + intros Hs. inversion Hs; subst. by exists [].
  - cbn [power]. rewrite some_product. setoid_rewrite IH. split.
    + intros (m & ? & ?). by econstructor.
    + intros Hs. inversion Hs; subst. eauto.
Qed.

(** A repeated class is a run. *)
Lemma nsteps_class c n : forall i j,
  nsteps (Matches s (Class c)) n i j <->
    j = (i + n)%nat /\ forall k, (i <= k < j)%nat -> exists x, s !! k = Some x /\ in_class c x = true.
Proof.
  induction n as [|n IH]; intros i j; split.
  - intros Hs. inversion Hs; subst. split; [lia|]. intros k Hk. lia.
  - intros [-> _]. rewrite Nat.add_0_r. constructor.
  - intros Hs. inversion Hs as [|? ? m ? Hm Hs']; subst. destruct Hm as (-> & Hx).
    apply IH in Hs' as [-> Hr]. split; [lia|]. intros k Hk.
    destruct (decide (k = i)) as [->|]; [exact Hx|]. apply Hr. lia.
  - intros [-> Hr]. apply nsteps_l with (S i).
    + split; [done|]. apply Hr. lia.
    + apply IH. split; [lia|]. intros k Hk. apply Hr. lia.
Qed.

Lemma run_matches c lo hi i j :
  item_matches s (Run c lo hi) i j <-> Matches s (Rep (Class c) lo hi) i j.
Proof.
  cbn [Matches item_matches]. setoid_rewrite nsteps_class. split.
  - intros (Hlo & Hhi & Hr). exists (j - i)%nat. split_and!; [lia|exact Hhi|lia|done].
  - intros (n & Hlo & Hhi & -> & Hr). split_and!; [lia| |done].
    unfold within_hi. destruct hi; [lia|done].
Qed.

Lemma forms_matches r : forall fs i j, forms r = Some fs -> Matches s r i j <-> some_matches fs i j.
Proof.
  assert (Hone : forall it i j, some_matches [[it]] i j <-> item_matches s it i j).
  { intros it i j. unfold some_matches. setoid_rewrite list_elem_of_singleton. split.
    - by intros (f & -> & k & ? & <-).
    - intros ?. exists [it]. split; [done|]. by exists j. }
  induction r as [| | | |c|a IHa b IHb|a IHa b IHb|a IHa lo hi]; intros fs i j Hf.
  - simplify_eq/=. unfold some_matches. setoid_rewrite list_elem_of_singleton. naive_solver.
  - simplify_eq/=. by rewrite Hone.
  - simplify_eq/=. by rewrite Hone.
  - simplify_eq/=. by rewrite Hone.
  - simplify_eq/=. rewrite Hone. simpl. split.
    + intros (-> & Hx). split_and!; [lia|lia|]. intros k Hk. replace k with i by lia. done.
    + intros (Hlo & Hhi & Hr). split; [lia|]. apply Hr. lia.
  - cbn [forms] in Hf. simplify_option_eq. rewrite some_product. cbn [Matches].
    by setoid_rewrite IHa; [setoid_rewrite IHb|].
  - cbn [forms] in Hf. simplify_option_eq. cbn [Matches]. rewrite IHa, IHb by done.
    unfold some_matches. set_solver.
  - assert (Hcase : (exists c, a = Class c /\ fs = [[Run c lo hi]]) \/
      exists m l, hi = Some m /\ forms a = Some l /\ fs = concat (map (power l) (List.seq lo (S m - lo)))).
    { cbn [forms] in Hf. destruct a, hi; simplify_option_eq; eauto 10. }
    destruct Hcase as [(c & -> & ->)|(m & l & -> & Ha & ->)].
    + by rewrite Hone, run_matches.
    + cbn [Matches]. unfold some_matches at 1. setoid_rewrite list_elem_of_In. setoid_rewrite in_concat.
      setoid_rewrite in_map_iff. setoid_rewrite in_seq.
      assert (Hn : forall n, nsteps (Matches s a) n i j <-> some_matches (power l n) i j).
      { intros n. rewrite some_power. apply nsteps_iff. intros x y. by apply IHa. }
      setoid_rewrite Hn. unfold some_matches. setoid_rewrite list_elem_of_In. split.
      * intros (n & ? & ? & f & ? & ?). exists f. split; [|done]. exists (power l n). split; [|done].
        exists n. split; [done|lia].
      * intros (f & (? & (n & <- & ?) & ?) & ?). exists n. split_and!; [lia|lia|eauto].
Qed.
End Forms.

(** ** Shortening changes no answer *)

Section Shortening.
Context (s : list Z).

Lemma item_bounds it i j : item_matches s it i j -> (i <= length s)%nat -> (i <= j <= length s)%nat.
Proof.
  destruct it as [c lo hi| | |]; simpl; [|lia..]. intros (Hlo & _ & Hr) Hi.
  split; [lia|]. destruct (decide (i = j)) as [->|]; [done|].
  destruct (Hr (j - 1)%nat) as (x & Hx%lookup_lt_Some & _); lia.
Qed.

Lemma form_bounds f : forall i j, form_matches s f i j -> (i <= length s)%nat -> (i <= j <= length s)%nat.
Proof.
  induction f as [|it f IH]; simpl; intros i j; [intros <-; lia|].
  intros (k & Hk & Hf) Hi. apply item_bounds in Hk; [|done]. apply IH in Hf; lia.
Qed.

(** A run can be cut to its minimum, on the left and on the right. *)
Lemma run_cut_left c lo hi i j :
  item_matches s (Run c lo hi) i j -> item_matches s (Run c lo (Some lo)) (j - lo) j.
Proof.
  intros (Hlo & _ & Hr). simpl. split_and!; [lia|lia|]. intros k Hk. apply Hr. lia.
Qed.

Lemma run_cut_right c lo hi i j :
  item_matches s (Run c lo hi) i j -> item_matches s (Run c lo (Some lo)) i (i + lo).
Proof.
  intros (Hlo & _ & Hr). simpl. split_and!; [lia|lia|]. intros k Hk. apply Hr. lia.
Qed.

Lemma run_least c lo hi i j : possible lo hi = true ->
  item_matches s (Run c lo (Some lo)) i j -> item_matches s (Run c lo hi) i j.
Proof.
  intros Hp (Hlo & Hhi & Hr). simpl in *. split_and!; [lia| |done].
  unfold possible, within_hi in *. destruct hi as [m|]; [|done]. apply Nat.leb_le in Hp. lia.
Qed.

Lemma run_empty c hi i : item_matches s (Run c 0 hi) i i.
Proof. simpl. split_and!; [lia|destruct hi; simpl; [lia|done]|]. intros k Hk. lia. Qed.

Lemma occurs_trim_front f : occurs s (trim_front f) <-> occurs s f.
Proof.
  induction f as [|it f IH]; [done|]. destruct it as [c lo hi| | |]; [|done..]. cbn [trim_front].
  destruct (possible lo hi) eqn:Hp; [|done]. destruct lo as [|lo].
  - rewrite IH. unfold occurs. simpl. split.
    + intros (i & j & Hi & Hf). exists i, j. split; [done|]. exists i. split; [by apply run_empty|done].
    + intros (i & j & Hi & k & Hk & Hf). exists k, j. apply (item_bounds (Run c 0 hi)) in Hk; [|done]. split; [lia|done].
  - unfold occurs. simpl. split.
    + intros (i & j & Hi & k & Hk & Hf). exists i, j. split; [done|]. exists k. split; [|done].
      by apply (run_least c _ hi).
    + intros (i & j & Hi & k & Hk & Hf). exists (k - S lo)%nat, j. apply (item_bounds (Run c (S lo) hi)) in Hk as Hb; [|done].
      split; [lia|]. exists k. split; [by eapply (run_cut_left c (S lo) hi)|done].
Qed.

Lemma begins_cons it f i : begins s (it :: f) i <-> exists k, item_matches s it i k /\ begins s f k.
Proof. unfold begins. simpl. naive_solver. Qed.

Lemma begins_last it i : begins s (trim_last it) i <-> begins s [it] i.
Proof.
  destruct it as [c lo hi| | |]; [|done..]. cbn [trim_last].
  destruct (possible lo hi) eqn:Hp; [|done]. destruct lo as [|lo].
  - split; [|intros _; by exists i]. intros _. exists i. exists i. split; [by apply run_empty|done].
  - split; intros (j & k & Hk & <-).
    + exists k. exists k. split; [by apply run_least|done].
    + exists (i + S lo)%nat. exists (i + S lo)%nat. split; [by eapply run_cut_right|done].
Qed.

Lemma begins_trim_back f : forall i, begins s (trim_back f) i <-> begins s f i.
Proof.
  induction f as [|it f IH]; intros i; [done|]. cbn [trim_back]. destruct (trim_back f) as [|it' g] eqn:Hg.
  - rewrite begins_last, !begins_cons. setoid_rewrite <- IH. done.
  - rewrite !begins_cons. by setoid_rewrite IH.
Qed.

Lemma occurs_begins f : occurs s f <-> exists i, (i <= length s)%nat /\ begins s f i.
Proof. unfold occurs, begins. naive_solver. Qed.

Lemma occurs_trim f : occurs s (trim f) <-> occurs s f.
Proof.
  unfold trim. rewrite occurs_begins. setoid_rewrite begins_trim_back. rewrite <- occurs_begins.
  apply occurs_trim_front.
Qed.

Lemma elem_of_inits {A} (l k : list A) : k ∈ inits l -> exists t, l = k ++ t.
Proof.
  revert k. induction l as [|x l IH]; intros k; simpl.
  - intros ->%list_elem_of_singleton. by exists [].
  - intros [->|(k' & -> & (t & ->)%IH)%list_elem_of_fmap]%elem_of_cons; [by eexists|by exists t].
Qed.

Lemma elem_of_segments {A} (l k : list A) : k ∈ segments l -> exists h t, l = h ++ k ++ t.
Proof.
  induction l as [|x l IH]; cbn [segments]; rewrite elem_of_app.
  - intros [(t & ->)%elem_of_inits|Hk]; [by exists [], t|by apply elem_of_nil in Hk].
  - intros [(t & ->)%elem_of_inits|(h & t & ->)%IH]; [by exists [], t|by exists (x :: h), t].
Qed.

Lemma covers_occurs f g : covers f g = true -> occurs s f -> occurs s g.
Proof.
  unfold covers. rewrite existsb_exists. intros (seg & Hseg & <-%bool_decide_eq_true) (i & j & Hi & Hf).
  rewrite occurs_trim. apply list_elem_of_In, elem_of_segments in Hseg as (h & t & ->).
  apply form_matches_app in Hf as (k & Hh & (m & Hseg & _)%form_matches_app).
  apply form_bounds in Hh; [|done]. exists k, m. split; [lia|done].
Qed.

Lemma prune_occurs fs : forall kept,
  (exists f, f ∈ prune kept fs /\ occurs s f) <-> exists f, f ∈ kept ++ fs /\ occurs s f.
Proof.
  induction fs as [|f fs IH]; intros kept; cbn [prune].
  - rewrite app_nil_r. by setoid_rewrite elem_of_reverse.
  - destruct (existsb (covers f) (kept ++ fs)) eqn:Hc; rewrite IH; [|set_solver].
    apply existsb_exists in Hc as (g & Hg%list_elem_of_In & Hc). split; [set_solver|].
    intros (f' & Hf' & Ho). apply elem_of_app in Hf' as [?|[->|?]%elem_of_cons]; [set_solver| |set_solver].
    exists g. split; [done|]. by eapply covers_occurs.
Qed.
End Shortening.

Lemma core_spec r fs b : core r = Some fs ->
  MatchBytes r b = true <-> exists f, f ∈ fs /\ occurs (runes b) f.
Proof.
  unfold core. destruct (forms r) as [l|] eqn:Hl; simpl; intros Hfs; [|done]. simplify_eq.
  rewrite prune_occurs. cbn [app]. rewrite MatchBytes_iff. setoid_rewrite (forms_matches (runes b) r l _ _ Hl).
  unfold some_matches. split.
  - intros (i & j & Hi & f & Hf & Hm). exists (trim f). split; [by apply (list_elem_of_fmap_2 trim)|].
    apply occurs_trim. by exists i, j.
  - intros (g & (f & -> & Hf)%list_elem_of_fmap & Ho). rewrite occurs_trim in Ho. destruct Ho as (i & j & Hi & Hm).
    exists i, j. split; [done|]. by exists f.
Qed.

(** ** Reading a form in the text *)

(** Between a word character and something else. *)
Definition word_edge (before rest : list Z) : bool :=
  xorb (match last before with Some r => isWordChar r | None => false end)
       (match head rest with Some r => isWordChar r | None => false end).

(** [mid], which stands between [pre] and [post], is made of the pieces. *)
Fixpoint reads (f : list (item (Z -> bool))) (pre mid post : list Z) : Prop :=
  match f with
  | [] => mid = []
  | Run P lo hi :: f' =>
      exists a m, mid = a ++ m /\ (lo <= length a)%nat /\ within_hi (length a) hi /\
        Forall (fun x => P x = true) a /\ reads f' (pre ++ a) m post
  | Edge :: f' => word_edge pre (mid ++ post) = true /\ reads f' pre mid post
  | AtStart :: f' => pre = [] /\ reads f' pre mid post
  | AtEnd :: f' => mid ++ post = [] /\ reads f' pre mid post
  end.

Definition contains (fs : list (list (item (Z -> bool)))) (s : list Z) : Prop :=
  exists f, f ∈ fs /\ exists pre mid post, s = pre ++ mid ++ post /\ reads f pre mid post.

Definition same_item (it : item class) (p : item (Z -> bool)) : Prop :=
  match it, p with
  | Run c lo hi, Run P lo' hi' => lo = lo' /\ hi = hi' /\ forall x, in_class c x = P x
  | Edge, Edge | AtStart, AtStart | AtEnd, AtEnd => True
  | _, _ => False
  end.

Lemma boundary_edge pre rest : boundary (pre ++ rest) (length pre) = word_edge pre rest.
Proof.
  unfold boundary, word_edge. f_equal.
  - destruct pre as [|y pre _] using rev_ind; [done|]. rewrite last_snoc, length_app. simpl.
    rewrite Nat.add_1_r. unfold wordAt. rewrite <- app_assoc. simpl. by rewrite list_lookup_middle.
  - unfold wordAt. rewrite lookup_app_r by lia. rewrite Nat.sub_diag. by destruct rest.
Qed.

(** A run between two positions is a run of the text between them. *)
Lemma run_segment c P lo hi pre a post : (forall x, in_class c x = P x) ->
  item_matches (pre ++ a ++ post) (Run c lo hi) (length pre) (length pre + length a) <->
  (lo <= length a)%nat /\ within_hi (length a) hi /\ Forall (fun x => P x = true) a.
Proof.
  intros HP. simpl. replace (length pre + length a - length pre)%nat with (length a) by lia.
  assert (Hall : (forall k, (length pre <= k < length pre + length a)%nat ->
      exists x, (pre ++ a ++ post) !! k = Some x /\ in_class c x = true) <-> Forall (fun x => P x = true) a).
  { rewrite Forall_lookup. split.
    - intros Hr k x Hk. pose proof (lookup_lt_Some _ _ _ Hk).
      destruct (Hr (length pre + k)%nat) as (y & Hy & Hc); [lia|].
      rewrite lookup_app_r, lookup_app_l in Hy by lia.
      replace (length pre + k - length pre)%nat with k in Hy by lia. simplify_eq. by rewrite <- HP.
    - intros Ha k Hk. destruct (lookup_lt_is_Some_2 a (k - length pre)) as [x Hx]; [lia|].
      exists x. rewrite lookup_app_r, lookup_app_l by lia. split; [done|]. rewrite HP. by eapply Ha. }
  rewrite Hall. split; [intros (? & ? & ?)|intros (? & ? & ?)]; split_and!; done || lia.
Qed.

Lemma split_at {A} n (l : list A) : (n <= length l)%nat -> exists a m, l = a ++ m /\ length a = n.
Proof. intros Hn. exists (take n l), (drop n l). rewrite take_drop, length_take. split; [done|lia]. Qed.

Lemma reads_matches f ps : Forall2 same_item f ps -> forall pre mid post,
  form_matches (pre ++ mid ++ post) f (length pre) (length pre + length mid) <-> reads ps pre mid post.
Proof.
  induction 1 as [|it p f ps Hsame Hf IH]; intros pre mid post.
  { simpl. split; [|intros ->; simpl; lia]. intros. apply length_zero_iff_nil. lia. }
  assert (Hhere : forall Q : Prop, (exists k, (Q /\ length pre = k) /\
      form_matches (pre ++ mid ++ post) f k (length pre + length mid)) <-> Q /\ reads ps pre mid post).
  { intros Q. rewrite <- IH. naive_solver. }
  destruct it as [c lo hi| | |], p as [P lo' hi'| | |]; try done; cbn [form_matches reads item_matches].
  - destruct Hsame as (<- & <- & HP). fold (item_matches (pre ++ mid ++ post) (Run c lo hi)). split.
    + intros (k & Hk & Hm). pose proof (item_bounds _ (Run c lo hi) _ _ Hk) as Hb.
      pose proof (form_bounds _ _ _ _ Hm) as Hb'. rewrite !length_app in *. specialize (Hb ltac:(lia)).
      specialize (Hb' ltac:(lia)).
      destruct (split_at (k - length pre) mid) as (a & m & -> & Ha); [lia|].
      replace k with (length pre + length a)%nat in * by lia. rewrite <- app_assoc in Hk, Hm.
      apply (run_segment c P) in Hk as (? & ? & ?); [|done].
      exists a, m. split_and!; [done..|]. apply IH. rewrite <- app_assoc, !length_app in *.
      by rewrite <- Nat.add_assoc.
    + intros (a & m & -> & Hlo & Hhi & Ha & Hr). exists (length pre + length a)%nat. split.
      * rewrite <- app_assoc. apply (run_segment c P); [done|]. by split_and!.
      * apply IH in Hr. rewrite <- !app_assoc, !length_app in *.
        by rewrite <- Nat.add_assoc in Hr.
  - rewrite Hhere. by rewrite boundary_edge.
  - rewrite Hhere, length_zero_iff_nil. done.
  - rewrite Hhere. split; intros [Hl ?]; (split; [|done]).
    + apply length_zero_iff_nil. rewrite !length_app in Hl. rewrite length_app. lia.
    + rewrite !length_app. apply (f_equal length) in Hl. rewrite length_app in Hl. simpl in Hl. lia.
Qed.

Lemma occurs_reads s f ps : Forall2 same_item f ps ->
  occurs s f <-> exists pre mid post, s = pre ++ mid ++ post /\ reads ps pre mid post.
Proof.
  intros Hs. split.
  - intros (i & j & Hi & Hm). pose proof (form_bounds _ _ _ _ Hm Hi) as Hb.
    exists (take i s), (take (j - i) (drop i s)), (drop (j - i) (drop i s)). rewrite !take_drop.
    split; [done|]. apply (reads_matches f ps Hs). rewrite !take_drop, !length_take, length_drop.
    replace (i `min` length s)%nat with i by lia.
    by replace (i + (j - i) `min` (length s - i))%nat with j by lia.
  - intros (pre & mid & post & -> & Hr%(reads_matches f ps Hs)).
    exists (length pre), (length pre + length mid)%nat. split; [rewrite length_app; lia|done].
Qed.

Lemma contains_spec r fs pss b : core r = Some fs -> Forall2 (Forall2 same_item) fs pss ->
  MatchBytes r b = true <-> contains pss (runes b).
Proof.
  intros Hc Hs. rewrite (core_spec r fs b Hc). clear Hc. unfold contains.
  induction Hs as [|f ps fs pss Hf Hs IH]; [set_solver|].
  setoid_rewrite elem_of_cons. pose proof (occurs_reads (runes b) f ps Hf). naive_solver.
Qed.

(** ** Characters *)

Definition among (l : list byte) (r : Z) : bool := existsb (fun c => r =? bz c) l.
Definition digit (r : Z) : bool := (48 <=? r) && (r <=? 57).
Definition letter (r : Z) : bool := ((65 <=? r) && (r <=? 90)) || ((97 <=? r) && (r <=? 122)).
Definition lower (r : Z) : bool := (97 <=? r) && (r <=? 122).
Definition hex (r : Z) : bool := digit r || ((65 <=? r) && (r <=? 70)) || ((97 <=? r) && (r <=? 102)).
Definition white : Z -> bool := among ["009"; "010"; "012"; "013"; " "]%byte.

(** Up to case folding, the letters and the word characters have two members
    outside ASCII, the long s and the Kelvin sign. *)
Definition folded (P : Z -> bool) (r : Z) : bool := P r || (r =? 383) || (r =? 8490).
Definition caseless (c : byte) (r : Z) : bool := existsb (Z.eqb (bz c)) (orbit r).

Definition one {K} (k : K) : item K := Run k 1 (Some 1%nat).
Definition times {K} (n : nat) (k : K) : item K := Run k n (Some n).
Definition opt {K} (k : K) : item K := Run k 0 (Some 1%nat).
Definition many {K} (k : K) : item K := Run k 0 None.

Definition word (l : string) : list (item (Z -> bool)) := map (fun c => one (caseless c)) (of_str l).

(** ** The forms *)

(** Seven digits with a separator after the third; eleven digits with white
    space between their groups, the first group possibly in brackets. *)
Definition phone_forms : list (list (item (Z -> bool))) :=
  [ [times 3 digit; opt (fun r => among ["-"; "."; "*"]%byte r || white r); times 4 digit];
    [one (among ["("]%byte); opt (among ["+"]%byte); times 2 digit; one (among [")"]%byte);
     many white; times 2 digit; many white; times 3 digit; many white; times 4 digit];
    [times 2 digit; many white; times 2 digit; many white; times 3 digit; many white; times 4 digit] ].

(** The end of a domain name. *)
Definition url_char (r : Z) : bool :=
  letter r || digit r || among ["-"; "@"; ":"; "%"; "."; "_"; "+"; "~"; "#"; "="]%byte r.

Definition url_forms : list (list (item (Z -> bool))) :=
  [ [times 2 url_char; one (among ["."]%byte); Run lower 2 (Some 6%nat); Edge] ].

Definition ssn_forms : list (list (item (Z -> bool))) :=
  [ [Edge; times 3 digit; one (among ["-"; " "]%byte); times 2 digit; one (among ["-"; " "]%byte); times 4 digit] ].

Definition zip_forms : list (list (item (Z -> bool))) :=
  [ [Edge; times 5 digit; Edge];
    [Edge; times 5 digit; one (among ["-"; " "]%byte); times 4 digit; Edge] ].

Definition po_box_forms : list (list (item (Z -> bool))) :=
  [ [one (caseless "P"); opt (among ["."]%byte); opt (among [" "]%byte); one (caseless "O"); opt (among ["."]%byte)]
    ++ word " Box " ++ [one digit] ].

Definition street_char (r : Z) : bool :=
  folded (fun r => letter r || digit r || among ["_"]%byte r) r || among [" "]%byte r.

(** A digit, a space, one to twenty word characters or spaces, a street. *)
Definition street_forms : list (list (item (Z -> bool))) :=
  map (fun street => [one digit; one (among [" "]%byte); Run street_char 1 (Some 20%nat)] ++ word street)
    ["st"; "ave"; "road"; "rd"; "highway"; "hwy"; "sq"; "trail"; "trl"; "dr"; "court"; "ct"; "park"; "pkwy";
     "cir"; "boulevard"; "blvd"]%string.

Definition iban_forms : list (list (item (Z -> bool))) :=
  [ [times 2 (folded letter); times 2 digit; opt (among ["009"; "012"; " "]%byte);
     times 4 (folded (fun r => letter r || digit r)); opt (among ["009"; "012"; " "]%byte);
     times 4 digit; opt (among ["009"; "012"; " "]%byte); times 3 digit] ].

Definition guid_forms : list (list (item (Z -> bool))) :=
  [ [times 8 hex; opt (among ["-"]%byte); times 4 hex; opt (among ["-"]%byte); times 4 hex;
     opt (among ["-"]%byte); times 4 hex; opt (among ["-"]%byte); times 12 hex] ].

(** ** Computing the forms *)

Lemma caseless_class c lo hi x : lo = bz c -> hi = bz c ->
  in_class (mkClass true false [(false, [(lo, hi)])]) x = caseless c x.
Proof.
  intros -> ->. unfold in_class, caseless. cbn [cfold cneg citems existsb fst snd].
  rewrite orb_false_r, !xorb_false_l. unfold in_ranges. cbn [existsb fst snd].
  induction (orbit x) as [|y l IH]; simpl; [done|]. rewrite IH. f_equal. lia.
Qed.

(** What a class with folding accepts, rune by rune. *)
Ltac orbit_cases x :=
  unfold orbit; repeat match goal with |- context [if ?b then _ else _] => destruct b eqn:? end.

Ltac kind x :=
  unfold in_class, street_char, folded, url_char, white, hex, letter, lower, digit, among;
  cbn [cfold cneg citems]; orbit_cases x; cbn; lia.

Lemma digit_kind x : in_class (mkClass false false [(false, [(48, 57)])]) x = digit x.
Proof. kind x. Qed.

Lemma white_kind x : in_class (mkClass false false [(false, [(9, 10); (12, 13); (32, 32)])]) x = white x.
Proof. kind x. Qed.

Lemma street_kind x :
  in_class (mkClass true false [(false, [(48, 57); (65, 90); (95, 95); (97, 122)]); (false, [(32, 32)])]) x
    = street_char x.
Proof. kind x. Qed.

Ltac same_kind :=
  intros ?x;
  lazymatch goal with
  | |- _ = caseless _ _ => apply caseless_class; reflexivity
  | |- in_class {| cfold := false |} _ = digit _ => exact (digit_kind x)
  | |- in_class _ _ = white _ => exact (white_kind x)
  | |- in_class _ _ = street_char _ => exact (street_kind x)
  | |- _ => kind x
  end.

Ltac same_forms :=
  repeat match goal with
  | |- Forall2 _ [] [] => apply Forall2_nil_2
  | |- Forall2 _ (_ :: _) (_ :: _) => apply Forall2_cons_2
  | |- same_item Edge Edge => exact I
  | |- same_item (Run _ _ _) _ => refine (conj eq_refl (conj eq_refl _)); same_kind
  end.

Ltac same_as forms := eexists; split; [vm_compute; reflexivity|]; unfold forms, one, times, opt, many, word; cbn; same_forms.

Lemma phone_same : exists fs, core phoneRegexp = Some fs /\ Forall2 (Forall2 same_item) fs phone_forms.
Proof. same_as phone_forms. Qed.

Lemma url_same : exists fs, core urlRegexp = Some fs /\ Forall2 (Forall2 same_item) fs url_forms.
Proof. same_as url_forms. Qed.

Lemma ssn_same : exists fs, core ssnRegexp = Some fs /\ Forall2 (Forall2 same_item) fs ssn_forms.
Proof. same_as ssn_forms. Qed.

Lemma zip_same : exists fs, core zipCodeRegexp = Some fs /\ Forall2 (Forall2 same_item) fs zip_forms.
Proof. same_as zip_forms. Qed.

Lemma po_box_same : exists fs, core poBoxRegexp = Some fs /\ Forall2 (Forall2 same_item) fs po_box_forms.
Proof. same_as po_box_forms. Qed.

Lemma street_same : exists fs, core streetAddressRegexp = Some fs /\ Forall2 (Forall2 same_item) fs street_forms.
Proof. same_as street_forms. Qed.

Lemma iban_same : exists fs, core ibanRegexp = Some fs /\ Forall2 (Forall2 same_item) fs iban_forms.
Proof. same_as iban_forms. Qed.

Lemma guid_same : exists fs, core guidRegexp = Some fs /\ Forall2 (Forall2 same_item) fs guid_forms.
Proof. same_as guid_forms. Qed.

(** ** Characters a form cannot do without *)

Lemma reads_needs f P lo hi : Run P (S lo) hi ∈ f -> forall pre mid post,
  reads f pre mid post -> exists x, x ∈ mid /\ P x = true.
Proof.
  induction f as [|p f IH]; intros Hin pre mid post; [by apply elem_of_nil in Hin|].
  apply elem_of_cons in Hin as [<-|Hin]; cbn [reads].
  - intros (a & m & -> & Hlo & _ & Ha & _). destruct a as [|x a]; [simpl in Hlo; lia|].
    apply Forall_cons in Ha as [Hx _]. exists x. split; [set_solver|done].
  - destruct p as [Q lo' hi'| | |].
    + intros (a & m & -> & _ & _ & _ & Hr). destruct (IH Hin _ _ _ Hr) as (x & ? & ?). exists x. set_solver.
    + intros [_ Hr]. by eapply IH.
    + intros [_ Hr]. by eapply IH.
    + intros [_ Hr]. by eapply IH.
Qed.

(** Every form has a space. *)
Definition spaced (fs : list (list (item (Z -> bool)))) : Prop :=
  Forall (fun f => one (among [" "]%byte) ∈ f \/ one (caseless " ") ∈ f) fs.

Lemma spaced_contains fs s : spaced fs -> contains fs s -> bz " " ∈ s.
Proof.
  intros Hs (f & Hf & pre & mid & post & -> & Hr). unfold spaced in Hs. rewrite Forall_forall in Hs.
  assert (exists x, x ∈ mid /\ x = bz " ") as (x & Hx & ->); [|set_solver].
  destruct (Hs f Hf) as [Hin|Hin]; destruct (reads_needs f _ _ _ Hin _ _ _ Hr) as (x & Hx & HP);
    exists x; (split; [done|]).
  - unfold among in HP. cbn [existsb] in HP. lia.
  - revert HP. unfold caseless. change (bz " ") with 32. orbit_cases x; cbn [existsb]; lia.
Qed.

Lemma elem_of_runes b s : is_ascii b = true -> bz b ∈ runes s -> b ∈ s.
Proof.
  intros Hb. unfold runes.
  induction s as [|c s Hc IH|raw s r Hc Hne Hr Hraw IH] using chunks_ind; [by intros ?%elem_of_nil| |].
  - rewrite chunks_ascii by done. simpl. intros [->%bz_inj|?]%elem_of_cons; set_solver.
  - rewrite Hc. simpl. intros [<-|?]%elem_of_cons; [|set_solver].
    unfold is_ascii, RuneSelf in *. lia.
Qed.

Lemma matches_forms r pss s :
  (exists fs, core r = Some fs /\ Forall2 (Forall2 same_item) fs pss) ->
  MatchBytes r s = true <-> contains pss (runes s).
Proof. intros (fs & Hc & Hs). by eapply contains_spec. Qed.

(** Streets and boxes have a space in them. *)
Lemma street_or_box_spaced s : MatchStreetAddress s || MatchPOBox s = true -> " "%byte ∈ s.
Proof.
  intros Hm. apply elem_of_runes; [done|].
  assert (Hst : spaced street_forms).
  { unfold spaced, street_forms. apply Forall_fmap. apply Forall_forall. intros street _. left.
    apply list_elem_of_lookup. by exists 1%nat. }
  assert (Hbox : spaced po_box_forms).
  { unfold spaced, po_box_forms, word. constructor; [|constructor]. right.
    apply list_elem_of_lookup. by exists 5%nat. }
  apply orb_true_iff in Hm as [Hm|Hm].
  - apply (matches_forms _ _ _ street_same) in Hm. exact (spaced_contains _ _ Hst Hm).
  - apply (matches_forms _ _ _ po_box_same) in Hm. exact (spaced_contains _ _ Hbox Hm).
Qed.

(** ** Property *)

(** C21: each expression of the matchers shipped accepts exactly the texts that
    contain one of its forms: phone numbers, the end of a domain name for
    a link, social security numbers, postal codes, boxes and streets, account
    numbers and identifiers.  What the expressions say of a scheme, a country
    code, the path of a link or the rest of an account number has no part in
    the answer. *)
Theorem shipped_expressions s :
  (MatchPhone s = true <-> contains phone_forms (runes s)) /\
  (MatchURL s = true <-> contains url_forms (runes s)) /\
  (MatchSSN s = true <-> contains ssn_forms (runes s)) /\
  (MatchZipCode s = true <-> contains zip_forms (runes s)) /\
  (MatchPOBox s = true <-> contains po_box_forms (runes s)) /\
  (MatchStreetAddress s = true <-> contains street_forms (runes s)) /\
  (MatchIBAN s = true <-> contains iban_forms (runes s)) /\
  (Matchguid s = true <-> contains guid_forms (runes s)).
Proof.
  split_and!; apply matches_forms; [apply phone_same|apply url_same|apply ssn_same|apply zip_same|apply po_box_same
    |apply street_same|apply iban_same|apply guid_same].
Qed.
