(* ===== verification/IPMatchers.v ===== *)
(** * pattern/regex.go: the matchers of IP addresses

    [MatchIP], [MatchIPV4] and [MatchIPV6] against the grammar of IPGrammar.v.
    The last two ask an expression before [net.ParseIP]: what the expressions
    say of a text that is an address is worked out here. *)
From S2P Require Import Prelude GoBytes NetIP IPGrammar Regex TextMatchers RegexMatchers Expressions.

(** ** Forms of an expression in a text *)

(** The kinds of characters as the expression writes them. *)
Definition as_read (it : item class) : item (Z -> bool) :=
  match it with
  | Run c lo hi => Run (in_class c) lo hi
  | Edge => Edge
  | AtStart => AtStart
  | AtEnd => AtEnd
  end.

Lemma as_read_same f : Forall2 same_item f (map as_read f).
Proof. induction f as [|[c lo hi| | |] f IH]; simpl; constructor; done. Qed.

Lemma matches_some r fs b : forms r = Some fs ->
  MatchBytes r b = true <->
    exists f, f ∈ fs /\ exists pre mid post, runes b = pre ++ mid ++ post /\ reads (map as_read f) pre mid post.
Proof.
  intros Hf. rewrite MatchBytes_iff. setoid_rewrite (forms_matches (runes b) r fs _ _ Hf). unfold some_matches.
  setoid_rewrite <- (fun f => occurs_reads (runes b) f (map as_read f) (as_read_same f)). unfold occurs. naive_solver.
Qed.

Lemma reads_app f g : forall pre mid post, reads (f ++ g) pre mid post <->
  exists a m, mid = a ++ m /\ reads f pre a (m ++ post) /\ reads g (pre ++ a) m post.
Proof.
  induction f as [|it f IH]; intros pre mid post; simpl.
  { split; [intros H; by exists [], mid; rewrite app_nil_r|]. intros (a & m & -> & -> & H). by rewrite app_nil_r in H. }
  destruct it as [P lo hi| | |]; setoid_rewrite IH.
  - split.
    + intros (a & ? & -> & Hlo & Hhi & Ha & b & m & -> & Hf & Hg). exists (a ++ b), m.
      rewrite <- app_assoc in Hg. rewrite <- app_assoc. split_and!; [done| |done]. by exists a, b.
    + intros (? & m & -> & (a & b & -> & Hlo & Hhi & Ha & Hf) & Hg). exists a, (b ++ m).
      rewrite <- app_assoc in *. split_and!; [done..|]. exists b, m. by rewrite <- app_assoc.
  - split.
    + intros (He & a & m & -> & Hf & Hg). exists a, m. by rewrite <- app_assoc in He.
    + intros (a & m & -> & (He & Hf) & Hg). rewrite <- app_assoc. split; [done|]. by exists a, m.
  - naive_solver.
  - split.
    + intros (He & a & m & -> & Hf & Hg). exists a, m. by rewrite <- app_assoc in He.
    + intros (a & m & -> & (He & Hf) & Hg). rewrite <- app_assoc. split; [done|]. by exists a, m.
Qed.

(** One character of a range. *)
Definition lit (lo hi : Z) : class := mkClass false false [(false, [(lo, hi)])].
Definition rng (lo hi : Z) : item class := Run (lit lo hi) 1 (Some 1%nat).
Definition chr (c : byte) : item class := rng (bz c) (bz c).

Lemma in_lit lo hi x : in_class (lit lo hi) x = (lo <=? x) && (x <=? hi).
Proof. unfold in_class, lit. cbn. by rewrite !orb_false_r. Qed.

Lemma reads_one it P f pre x mid post : as_read it = Run P 1 (Some 1%nat) -> P x = true ->
  reads f (pre ++ [x]) mid post -> reads (as_read it :: f) pre (x :: mid) post.
Proof. intros -> Hx Hr. exists [x], mid. split_and!; [done|simpl; lia|simpl; lia|by constructor|done]. Qed.

Lemma reads_skip c hi f pre mid post :
  reads f pre mid post -> reads (as_read (Run c 0 hi) :: f) pre mid post.
Proof.
  intros Hr. exists [], mid. rewrite app_nil_r. split_and!; [done|simpl; lia|destruct hi; simpl; lia || done|constructor|done].
Qed.

Lemma reads_opt c f pre x mid post : in_class c x = true ->
  reads f (pre ++ [x]) mid post -> reads (as_read (Run c 0 (Some 1%nat)) :: f) pre (x :: mid) post.
Proof. intros Hx Hr. exists [x], mid. split_and!; [done|simpl; lia|simpl; lia|by constructor|done]. Qed.

(** ** Dotted quads *)

Definition zero_or_one : class := mkClass false false [(false, [(48, 48)]); (false, [(49, 49)])].

(** [25[0-5]|2[0-4][0-9]|[01]?[0-9][0-9]?] *)
Definition octet_forms : list form :=
  [ [chr "2"; chr "5"; rng 48 53]; [chr "2"; rng 48 52; rng 48 57];
    [Run zero_or_one 0 (Some 1%nat); rng 48 57; Run (lit 48 57) 0 (Some 1%nat)] ].

Definition ipv4_forms : list form :=
  product (map (cons Edge) octet_forms) (power (product [[chr "."]] octet_forms) 3).

Lemma ipv4_same : forms ipv4Regexp = Some ipv4_forms.
Proof. vm_compute. reflexivity. Qed.

Lemma bz_digit_byte d : 0 <= d <= 9 -> bz (digit_byte d) = 48 + d.
Proof. intros Hd. unfold digit_byte. rewrite bz_byte_of_Z; lia. Qed.

Ltac read_one := eapply reads_one; [reflexivity|rewrite in_lit; change (bz "2") with 50; change (bz "5") with 53; lia|].

Lemma octet_reads n pre post : 0 <= n < 256 ->
  exists f, f ∈ octet_forms /\ reads (map as_read f) pre (map bz (itoa n)) post.
Proof.
  intros Hn. unfold itoa.
  pose proof (Z.mod_pos_bound n 10 ltac:(lia)). pose proof (Z.mod_pos_bound (n / 10) 10 ltac:(lia)).
  pose proof (Z.div_mod n 10 ltac:(lia)) as H10. pose proof (Z.div_mod (n / 10) 10 ltac:(lia)) as H100.
  rewrite Z.div_div in H100 by lia. change (10 * 10) with 100 in H100.
  destruct (Z.ltb_spec n 10); [|destruct (Z.ltb_spec n 100)]; cbn [map]; rewrite !bz_digit_byte by lia.
  - eexists. split; [right; right; left|]. cbn [map]. apply reads_skip. read_one. by apply reads_skip.
  - eexists. split; [right; right; left|]. cbn [map]. apply reads_skip. read_one.
    apply reads_opt; [rewrite in_lit; lia|done].
  - destruct (Z.eq_dec (n / 100) 1) as [E|E].
    + eexists. split; [right; right; left|]. cbn [map]. apply reads_opt; [rewrite E; done|]. read_one.
      apply reads_opt; [rewrite in_lit; lia|done].
    + destruct (Z.eq_dec (n / 10 mod 10) 5).
      * eexists. split; [left|]. cbn [map]. by do 3 read_one.
      * eexists. split; [right; left|]. cbn [map]. by do 3 read_one.
Qed.

Lemma dot_octet_reads n pre post : 0 <= n < 256 ->
  exists f, f ∈ product [[chr "."]] octet_forms /\ reads (map as_read f) pre (bz "." :: map bz (itoa n)) post.
Proof.
  intros Hn. destruct (octet_reads n (pre ++ [bz "."]) post Hn) as (f & Hf & Hr).
  exists ([chr "."] ++ f). split; [apply elem_of_product; exists [chr "."], f; split_and!; [set_solver|done|done]|].
  eapply reads_one; [reflexivity|by rewrite in_lit|done].
Qed.

(** A quad after the start of the text or after a colon. *)
Lemma quad_matches pre l post : octets l -> length l = 4%nat -> forallb is_ascii (pre ++ dotted l ++ post) = true ->
  pre = [] \/ last pre = Some ":"%byte -> MatchBytes ipv4Regexp (pre ++ dotted l ++ post) = true.
Proof.
  intros Ho Hl Hascii Hpre. destruct l as [|a [|b [|c [|d [|]]]]]; try done.
  apply Forall_cons in Ho as [Ha [Hb [Hc [Hd _]%Forall_cons]%Forall_cons]%Forall_cons].
  rewrite (matches_some _ _ _ ipv4_same), runes_ascii by done.
  assert (Htext : map bz (pre ++ dotted [a; b; c; d] ++ post) =
    map bz pre ++ (map bz (itoa a) ++ (bz "." :: map bz (itoa b)) ++ (bz "." :: map bz (itoa c)) ++
      (bz "." :: map bz (itoa d))) ++ map bz post).
  { unfold dotted. cbn [map Join]. rewrite !map_app, <- !app_assoc. reflexivity. }
  rewrite Htext. clear Htext.
  set (A := map bz (itoa a)). set (B := bz "." :: map bz (itoa b)).
  set (C := bz "." :: map bz (itoa c)). set (D := bz "." :: map bz (itoa d)).
  set (P := map bz pre). set (Q := map bz post).
  destruct (octet_reads a P (B ++ C ++ D ++ Q) Ha) as (fa & Hfa & Hra).
  destruct (dot_octet_reads b (P ++ A) (C ++ D ++ Q) Hb) as (fb & Hfb & Hrb).
  destruct (dot_octet_reads c ((P ++ A) ++ B) (D ++ Q) Hc) as (fc & Hfc & Hrc).
  destruct (dot_octet_reads d (((P ++ A) ++ B) ++ C) Q Hd) as (fd & Hfd & Hrd).
  exists ((Edge :: fa) ++ fb ++ fc ++ fd ++ []). split.
  - apply elem_of_product. exists (Edge :: fa), (fb ++ fc ++ fd ++ []).
    split_and!; [by apply (list_elem_of_fmap_2 (cons Edge))| |done].
    cbn [power]. apply elem_of_product. exists fb, (fc ++ fd ++ []). split_and!; [done| |done].
    apply elem_of_product. exists fc, (fd ++ []). split_and!; [done| |done].
    apply elem_of_product. exists fd, []. split_and!; [done|left|done].
  - exists P, (A ++ B ++ C ++ D), Q. split; [done|].
    rewrite !map_app. apply reads_app. exists A, (B ++ C ++ D). split; [done|]. split.
    + cbn [map as_read reads]. rewrite <- !app_assoc. split; [|done].
      destruct (hex_field_head (itoa a) (itoa_hex_field a Ha)) as (x & t & Hx & Hhex).
      unfold word_edge, A. rewrite Hx. cbn [map app head].
      assert (isWordChar (bz x) = true) as -> by (revert Hhex; all_bytes x).
      destruct Hpre as [->|Hlast]; [done|]. unfold P.
      destruct pre as [|y pre _] using rev_ind; [done|]. rewrite last_snoc in Hlast. injection Hlast as ->.
      rewrite map_app. cbn [map]. by rewrite last_snoc.
    + apply reads_app. exists B, (C ++ D). split; [done|]. rewrite <- app_assoc. split; [done|].
      apply reads_app. exists C, D. split; [done|]. split; [done|].
      apply reads_app. exists D, []. rewrite app_nil_r. split; [done|]. split; [done|]. done.
Qed.

(** A quad needs a dot. *)
Lemma quad_needs_dot s : MatchBytes ipv4Regexp s = true -> "."%byte ∈ s.
Proof.
  rewrite (matches_some _ _ _ ipv4_same). intros (f & Hf & pre & mid & post & Heq & Hr).
  apply elem_of_runes; [done|]. rewrite Heq.
  apply elem_of_product in Hf as (g & h & _ & Hh & ->). cbn [power] in Hh.
  apply elem_of_product in Hh as (k & h' & Hk & _ & ->).
  apply elem_of_product in Hk as (dot & o & ->%list_elem_of_singleton & _ & ->).
  destruct (reads_needs (map as_read (g ++ ([chr "."] ++ o) ++ h')) (in_class (lit 46 46)) 0 (Some 1%nat)) with pre mid post
    as (x & Hx & Hc); [|done|].
  - apply (list_elem_of_fmap_2 as_read _ (chr ".")). set_solver.
  - rewrite in_lit in Hc. change (bz ".") with 46. assert (x = 46) as -> by lia. set_solver.
Qed.

Lemma fields_dot gs n : fields gs n -> "."%byte ∈ colons gs ->
  exists pre l, colons gs = pre ++ dotted l /\ octets l /\ length l = 4%nat /\ (pre = [] \/ last pre = Some ":"%byte).
Proof.
  induction 1 as [|l Ho Hl|g gs n Hg Hgs IH]; intros Hdot; [by apply elem_of_nil in Hdot|exists [], l; auto|].
  assert (Hng : "."%byte ∉ g).
  { destruct Hg as [Hg%forallb_iff _]. intros Hin. rewrite Forall_forall in Hg. by specialize (Hg _ Hin). }
  destruct gs as [|g' gs]; [done|]. rewrite colons_cons in Hdot |- * by done.
  destruct IH as (pre & l & -> & Ho & Hl & Hpre); [set_solver|].
  exists (g ++ ":"%byte :: pre), l. split_and!; [by rewrite <- app_assoc|done|done|right].
  rewrite last_app_cons. destruct Hpre as [->|Hlast]; [done|]. by rewrite last_cons, Hlast.
Qed.

Lemma ip_dot s : is_ip s -> "."%byte ∈ s ->
  exists pre l, s = pre ++ dotted l /\ octets l /\ length l = 4%nat /\ (pre = [] \/ last pre = Some ":"%byte).
Proof.
  intros [(l & Ho & Hl & ->)|[(gs & Hgs & ->)|(front & back & n & Hf & Hb & _ & ->)]] Hdot.
  - exists [], l. auto.
  - by eapply fields_dot.
  - assert (Hnf : "."%byte ∉ colons front ++ of_str "::").
    { intros [[?|?]%hex_fields_only|Hin]%elem_of_app; [done..|]. revert Hin. apply (bool_decide_unpack _). vm_compute. exact I. }
    rewrite app_assoc in *. destruct (fields_dot back n Hb) as (pre & l & -> & Ho & Hl & Hpre); [set_solver|].
    exists ((colons front ++ of_str "::") ++ pre), l. split_and!; [by rewrite <- !app_assoc|done|done|right].
    destruct Hpre as [->|Hlast]; [|by rewrite last_app, Hlast]. rewrite app_nil_r. by rewrite last_app.
Qed.

(** ** Colons *)

Definition is_chr (c : byte) (it : item class) : bool := bool_decide (it = chr c).

Fixpoint double_colon (f : form) : bool :=
  match f with
  | a :: (b :: _) as f' => (is_chr ":" a && is_chr ":" b) || double_colon f'
  | _ => false
  end.

Definition colon_items (f : form) : nat := length (List.filter (is_chr ":") f).
Definition colon_count (s : list Z) : nat := length (List.filter (Z.eqb (bz ":")) s).

(** Two colons together, a percent sign or seven colons. *)
Definition ipv6_like (f : form) : bool :=
  double_colon f || existsb (is_chr "%") f || (7 <=? colon_items f)%nat.

Lemma check_forms (o : option (list form)) (check : form -> bool) :
  match o with Some fs => forallb check fs | None => false end = true ->
  exists fs, o = Some fs /\ forallb check fs = true.
Proof. destruct o as [fs|]; [by exists fs|done]. Qed.

Lemma ipv6_forms_like : exists fs, forms ipv6Regexp = Some fs /\ forallb ipv6_like fs = true.
Proof. apply check_forms. vm_compute. reflexivity. Qed.

Lemma reads_chr c f pre mid post : reads (as_read (chr c) :: f) pre mid post <->
  exists m, mid = bz c :: m /\ reads f (pre ++ [bz c]) m post.
Proof.
  split.
  - intros (a & m & -> & Hlo & Hhi & Ha & Hr). simpl in Hhi. destruct a as [|x [|]]; simpl in *; try lia.
    apply Forall_cons in Ha as [Hx _]. rewrite in_lit in Hx. assert (x = bz c) as -> by lia. by exists m.
  - intros (m & -> & Hr). eapply reads_one; [reflexivity|rewrite in_lit; lia|done].
Qed.

Lemma reads_tail it f pre mid post : reads (it :: f) pre mid post ->
  exists a m pre', mid = a ++ m /\ reads f pre' m post.
Proof. destruct it; simpl; [naive_solver|intros [_ ?]; by exists [], mid, pre..]. Qed.

Lemma double_colon_reads f : double_colon f = true -> forall pre mid post,
  reads (map as_read f) pre mid post -> exists l r, mid = l ++ [bz ":"; bz ":"] ++ r.
Proof.
  induction f as [|a f IH]; [done|]. intros Hd pre mid post Hr. destruct f as [|b f]; [done|].
  change (is_chr ":" a && is_chr ":" b || double_colon (b :: f) = true) in Hd.
  apply orb_true_iff in Hd as [[->%bool_decide_eq_true ->%bool_decide_eq_true]%andb_true_iff|Hd].
  - cbn [map] in Hr. apply reads_chr in Hr as (m & -> & (m' & -> & _)%reads_chr). by exists [], m'.
  - apply reads_tail in Hr as (x & m & pre' & -> & Hr). destruct (IH Hd _ _ _ Hr) as (l & r & ->).
    exists (x ++ l), r. by rewrite <- app_assoc.
Qed.

Lemma colon_items_reads f : forall pre mid post,
  reads (map as_read f) pre mid post -> (colon_items f <= colon_count mid)%nat.
Proof.
  induction f as [|it f IH]; intros pre mid post Hr; [unfold colon_items; simpl; lia|].
  unfold colon_items, colon_count in *. cbn [List.filter map] in *. destruct (is_chr ":" it) eqn:Hit.
  - apply bool_decide_eq_true in Hit as ->. apply reads_chr in Hr as (m & -> & Hr%IH).
    cbn [List.filter]. rewrite Z.eqb_refl. simpl. lia.
  - apply reads_tail in Hr as (x & m & pre' & -> & Hr%IH). rewrite List.filter_app, length_app. lia.
Qed.

(** What the expression needs. *)
Lemma ipv6_needs s : MatchBytes ipv6Regexp s = true ->
  (exists l r, runes s = l ++ [bz ":"; bz ":"] ++ r) \/ "%"%byte ∈ s \/ (7 <= colon_count (runes s))%nat.
Proof.
  destruct ipv6_forms_like as (fs & Hfs & Hlike).
  rewrite (matches_some _ _ _ Hfs). intros (f & Hf & pre & mid & post & Heq & Hr).
  rewrite forallb_iff, Forall_forall in Hlike. specialize (Hlike f Hf). unfold ipv6_like in Hlike.
  rewrite !orb_true_iff in Hlike. destruct Hlike as [[Hd|Hp]|Hc].
  - left. destruct (double_colon_reads f Hd _ _ _ Hr) as (l & r & ->). exists (pre ++ l), (r ++ post).
    by rewrite Heq, <- !app_assoc.
  - right. left. apply elem_of_runes; [done|]. rewrite Heq. apply existsb_exists in Hp as (it & Hin & ->%bool_decide_eq_true).
    destruct (reads_needs (map as_read f) (in_class (lit 37 37)) 0 (Some 1%nat)) with pre mid post as (x & Hx & Hc); [|done|].
    + apply (list_elem_of_fmap_2 as_read _ (chr "%")). by apply list_elem_of_In.
    + rewrite in_lit in Hc.
      assert (x = bz "%") as -> by (change (bz "%") with 37; lia).
      apply elem_of_app; right. apply elem_of_app; by left.
  - right. right. apply Nat.leb_le in Hc. apply colon_items_reads in Hr. unfold colon_count in *.
    rewrite Heq, !List.filter_app, !length_app. lia.
Qed.

Definition hex_class : class := mkClass false false [(false, [(48, 57)]); (false, [(97, 102)]); (false, [(65, 70)])].

(** [n + 1] hexadecimal fields. *)
Fixpoint hex_form (n : nat) : form :=
  Run hex_class 1 (Some 4%nat) :: match n with O => [] | S n' => chr ":" :: hex_form n' end.

Lemma ipv6_forms_have : exists fs, forms ipv6Regexp = Some fs /\ [chr ":"; chr ":"] ∈ fs /\ hex_form 7 ∈ fs.
Proof.
  destruct (check_forms (forms ipv6Regexp) (fun _ => true)) as (fs & Hfs & _); [vm_compute; reflexivity|].
  exists fs. split; [done|].
  assert (match forms ipv6Regexp with
          | Some fs => existsb (fun f => bool_decide (f = [chr ":"; chr ":"])) fs && existsb (fun f => bool_decide (f = hex_form 7)) fs
          | None => false
          end = true) as H by (vm_compute; reflexivity).
  rewrite Hfs in H. apply andb_true_iff in H as [H1 H2]. apply existsb_exists in H1 as (f & Hf & ->%bool_decide_eq_true).
  apply existsb_exists in H2 as (g & Hg & ->%bool_decide_eq_true).
  split; apply list_elem_of_In; assumption.
Qed.

Lemma hex_class_hex b : in_class hex_class (bz b) = is_hex b.
Proof. all_bytes b. Qed.

Lemma hex_form_reads n : forall gs pre post, Forall hex_field gs -> length gs = S n ->
  reads (map as_read (hex_form n)) pre (map bz (colons gs)) post.
Proof.
  assert (Hrun : forall g, hex_field g -> (1 <= length (map bz g))%nat /\ (length (map bz g) <= 4)%nat /\
    Forall (fun x => in_class hex_class x = true) (map bz g)).
  { intros g [Hg%forallb_iff Hl]. rewrite length_map. unfold blen in Hl. split_and!; [lia|lia|].
    apply Forall_fmap. eapply Forall_impl; [exact Hg|]. intros b. simpl. by rewrite hex_class_hex. }
  induction n as [|n IH]; intros gs pre post Hgs Hl; destruct gs as [|g gs]; try done;
    apply Forall_cons in Hgs as [(H1 & H4 & Ha)%Hrun Hgs].
  - destruct gs; [|done]. exists (map bz g), []. by rewrite app_nil_r.
  - destruct gs as [|g' gs]; [done|]. rewrite colons_cons by done. rewrite map_app. cbn [map].
    exists (map bz g), (bz ":" :: map bz (colons (g' :: gs))). split_and!; [done..|].
    apply reads_chr. eexists. split; [done|]. apply IH; [done|]. simpl in *. lia.
Qed.

(** ** Texts *)

Definition has_ellipsis (s : bytes) : Prop := exists l r, s = l ++ of_str "::" ++ r.

(** An address is in ASCII. *)
Lemma ip_ascii s : is_ip s -> forallb is_ascii s = true.
Proof.
  rewrite <- ParseIP_accepts. intros [l Hl]. destruct (forallb is_ascii s) eqn:Ha; [done|].
  rewrite ParseIP_non_ascii in Hl by done. discriminate Hl.
Qed.

(** Without a dot the fields are hexadecimal; with one there are fewer. *)
Lemma fields_shape gs n : fields gs n ->
  (("."%byte ∉ colons gs) /\ Forall hex_field gs /\ n = 2 * blen gs) \/
  (("."%byte ∈ colons gs) /\ n = 2 * blen gs + 2).
Proof.
  induction 1 as [|l Ho Hl|g gs n Hg Hgs IH].
  - left. split_and!; [set_solver|constructor|done].
  - right. destruct (dotted_head l Ho Hl) as (a & rest & Hd & _). unfold colons. simpl Join. rewrite Hd.
    split; [set_solver|done].
  - assert (Hng : "."%byte ∉ g).
    { destruct Hg as [Hh%forallb_iff _]. intros Hin. rewrite Forall_forall in Hh. by specialize (Hh _ Hin). }
    assert (Hin : ("."%byte ∈ colons (g :: gs)) <-> ("."%byte ∈ colons gs)).
    { destruct gs as [|g' gs]; [|rewrite colons_cons by done; set_solver].
      unfold colons. simpl. split; [done|by intros ?%elem_of_nil]. }
    rewrite Hin. destruct IH as [(? & ? & ->)|(? & ->)]; [left|right]; split_and!; try done; try blen_lia. by constructor.
Qed.

Lemma fields_colons gs n : fields gs n -> gs <> [] -> (S (colon_count (map bz (colons gs))) = length gs)%nat.
Proof.
  assert (Hnone : forall t, Forall (fun b => beq b ":" = false) t -> colon_count (map bz t) = 0%nat).
  { intros t Ht. unfold colon_count. induction Ht as [|b t Hb _ IH]; [done|]. cbn [map List.filter].
    unfold beq in Hb. by rewrite (Z.eqb_sym (bz ":")), Hb. }
  induction 1 as [|l Ho Hl|g gs n [Hg _] Hgs IH]; intros Hne; [done| |].
  - unfold colons. simpl Join. rewrite Hnone; [done|].
    assert (parseIPv4 (dotted l) = Some l) as Hc%parseIPv4Fields_chars by (by apply parseIPv4_iff).
    apply forallb_iff in Hc. eapply Forall_impl; [exact Hc|]. intros b. simpl. all_bytes b.
  - apply forallb_iff in Hg. assert (Hz : colon_count (map bz g) = 0%nat).
    { apply Hnone. eapply Forall_impl; [exact Hg|]. simpl. by intros b [? _]%hex_not_special. }
    destruct gs as [|g' gs]; [unfold colons; simpl Join; by rewrite Hz|].
    rewrite colons_cons by done. specialize (IH ltac:(done)). unfold colon_count in *.
    rewrite map_app, List.filter_app, length_app, Hz. cbn [map List.filter]. rewrite Z.eqb_refl. simpl length in *. lia.
Qed.

(** ** The matchers *)

Lemma MatchIP_is_ip s : MatchIP s = true <-> is_ip (strip especialChars s).
Proof.
  rewrite MatchIP_strip, <- ParseIP_accepts.
  destruct (ParseIP (strip especialChars s)); (split; [by intros|]); [done|by intros [? ?]].
Qed.

Lemma guarded_ParseIP r s : (if MatchBytes r s then match ParseIP s with Some _ => true | None => false end else false) = true <->
  is_ip s /\ MatchBytes r s = true.
Proof.
  rewrite <- ParseIP_accepts. destruct (MatchBytes r s), (ParseIP s); split; try done.
  - by intros [[? ?] _].
  - by intros [_ ?].
  - by intros [_ ?].
Qed.

Lemma ipv4_guard t : is_ip t -> MatchBytes ipv4Regexp t = true <-> "."%byte ∈ t.
Proof.
  intros Hip. split; [apply quad_needs_dot|]. intros Hdot.
  destruct (ip_dot t Hip Hdot) as (pre & l & Ht & Ho & Hl & Hpre).
  rewrite <- (app_nil_r (dotted l)) in Ht. rewrite Ht. apply quad_matches; [done|done| |done].
  rewrite <- Ht. by apply ip_ascii.
Qed.

Lemma map_ellipsis t l r : map bz t = l ++ [bz ":"; bz ":"] ++ r -> has_ellipsis t.
Proof.
  intros (t1 & t2 & -> & _ & H)%map_eq_app. apply map_eq_app in H as (c & t3 & -> & Hc & _).
  destruct c as [|c1 [|c2 [|]]]; try done. simpl in Hc. injection Hc as ->%bz_inj ->%bz_inj. by exists t1, t3.
Qed.

Lemma ipv6_guard t : is_ip t ->
  MatchBytes ipv6Regexp t = true <-> is_ipv6 t /\ (has_ellipsis t \/ "."%byte ∉ t).
Proof.
  intros Hip. pose proof (ip_ascii t Hip) as Hascii. split.
  - intros Hm. apply ipv6_needs in Hm. rewrite (runes_ascii t Hascii) in Hm.
    destruct Hip as [Hv4|Hv6].
    + exfalso. destruct Hv4 as (l & Ho & Hl & ->).
      assert (parseIPv4 (dotted l) = Some l) as Hc%parseIPv4Fields_chars by (by apply parseIPv4_iff).
      rewrite forallb_iff, Forall_forall in Hc. destruct Hm as [(a & b & (a' & b' & Heq)%map_ellipsis)|[Hp|Hn]].
      * by specialize (Hc ":"%byte ltac:(rewrite Heq; apply elem_of_app; right; by left)).
      * by specialize (Hc _ Hp).
      * assert (fields [dotted l] 4) as Hf by (by constructor).
        apply fields_colons in Hf; [|done]. change (colons [dotted l]) with (dotted l) in Hf. simpl in Hf. lia.
    + split; [done|]. pose proof (ipv6_no_percent t Hv6).
      destruct Hm as [(a & b & Hm%map_ellipsis)|[Hp|Hn]]; [by left|done|].
      destruct Hv6 as [(gs & Hgs & ->)|(front & back & n & _ & _ & _ & ->)]; [|left; by eexists _, _].
      right. destruct (fields_shape gs 16 Hgs) as [(? & _)|(_ & Hlen)]; [done|exfalso].
      apply fields_colons in Hgs; [|intros ->; inversion Hgs]. unfold blen in Hlen. lia.
  - intros [Hv6 Hform]. destruct ipv6_forms_have as (fs & Hfs & H2 & H8).
    rewrite (matches_some _ _ _ Hfs), (runes_ascii t Hascii). clear Hfs.
    assert (Hell : has_ellipsis t -> exists f, f ∈ fs /\ exists pre mid post, map bz t = pre ++ mid ++ post /\
      reads (map as_read f) pre mid post).
    { intros (l & r & ->). exists [chr ":"; chr ":"]. split; [assumption|].
      exists (map bz l), [bz ":"; bz ":"], (map bz r). split; [by rewrite !map_app|].
      cbn [map]. apply reads_chr. eexists. split; [done|]. apply reads_chr. by eexists. }
    destruct Hform as [He|Hdot]; [by apply Hell|].
    destruct Hv6 as [(gs & Hgs & ->)|(front & back & n & _ & _ & _ & ->)]; [|apply Hell; by eexists _, _].
    destruct (fields_shape gs 16 Hgs) as [(_ & Hhex & Hlen)|(? & _)]; [|done].
    exists (hex_form 7). split; [assumption|]. exists [], (map bz (colons gs)), []. rewrite app_nil_r. split; [done|].
    apply hex_form_reads; [done|]. unfold blen in Hlen. lia.
Qed.

Lemma ipv4_has_dot t : is_ipv4 t -> "."%byte ∈ t.
Proof.
  intros (l & Ho & Hl & ->). destruct (dotted_head l Ho Hl) as (a & rest & -> & _).
  apply elem_of_app. right. by left.
Qed.

Lemma MatchIPV4_iff s : let t := strip especialChars s in
  MatchIPV4 s = true <-> is_ipv4 t \/ (is_ipv6 t /\ "."%byte ∈ t).
Proof.
  intros t. unfold MatchIPV4. rewrite fold_RemoveAll. change (strip ip_chars s) with t. rewrite guarded_ParseIP.
  split.
  - intros [Hip Hm]. apply (ipv4_guard t Hip) in Hm. destruct Hip; auto.
  - intros H. assert (Hip : is_ip t) by (unfold is_ip; tauto). split; [done|]. apply (ipv4_guard t Hip).
    destruct H as [?%ipv4_has_dot|[_ ?]]; done.
Qed.

Lemma MatchIPV6_iff s : let t := strip especialChars s in
  MatchIPV6 s = true <-> is_ipv6 t /\ (has_ellipsis t \/ "."%byte ∉ t).
Proof.
  intros t. unfold MatchIPV6. rewrite fold_RemoveAll. change (strip ip_chars s) with t. rewrite guarded_ParseIP.
  split.
  - intros [Hip Hm]. by apply (ipv6_guard t Hip).
  - intros H. assert (Hip : is_ip t) by (right; tauto). split; [done|]. by apply (ipv6_guard t Hip).
Qed.

(** ** Property *)

(** C22: what the three matchers of IP addresses accept, for every input.  Once
    the wrapping characters are removed wherever they stand, [MatchIP] accepts
    exactly the texts of the grammar: four octets in decimal, without leading
    zeros, or an IPv6 address, eight fields of one to four hexadecimal digits
    the last two of which may be written as four octets, or fewer around one
    ellipsis.  [MatchIPV4] accepts the IPv4 addresses, and with them the IPv6
    ones that end in octets; [MatchIPV6] accepts the IPv6 addresses, but for
    those that end in octets and have no ellipsis. *)
Theorem ip_matchers_spec s :
  let t := strip especialChars s in
  (MatchIP s = true <-> is_ipv4 t \/ is_ipv6 t) /\
  (MatchIPV4 s = true <-> is_ipv4 t \/ (is_ipv6 t /\ "."%byte ∈ t)) /\
  (MatchIPV6 s = true <-> is_ipv6 t /\ (has_ellipsis t \/ "."%byte ∉ t)).
Proof. intros t. split_and!; [apply MatchIP_is_ip|apply MatchIPV4_iff|apply MatchIPV6_iff]. Qed.

(** An IPv6 address that the IPv4 matcher takes for one of its own, and one
    that the IPv6 matcher misses. *)
Example mapped_address : MatchIPV4 (of_str "::ffff:10.0.0.1") = true /\ MatchIP (of_str "::ffff:10.0.0.1") = true.
Proof. vm_compute. by split. Qed.

Example unshortened_address :
  MatchIPV6 (of_str "1:2:3:4:5:6:10.0.0.1") = false /\ MatchIP (of_str "1:2:3:4:5:6:10.0.0.1") = true.
Proof. vm_compute. by split. Qed.
