(* ===== verification/Documents.v ===== *)
(** * pattern/regex.go: CPF and CNPJ, the Brazilian taxpayer numbers

    The matchers clean the text and recompute the two check digits. *)
From S2P Require Import Prelude GoBytes Unicode NetIP Regex RegexMatchers.

(** [byteAtoi]: the value, zero with an error for a byte that is no digit. *)
Definition byteAtoi (b : byte) : Z * option string :=
  if (bz b <? bz "0") || (bz "9" <? bz b) then (0, Some "invalid byte for conversion"%string)
  else (bz b - 48, None).

(** The mapping of [MatchCPF] and [MatchCNPJ]: drop what is not a digit. *)
Definition only_digits (s : bytes) : bytes :=
  Map (fun r => if (r <? bz "0") || (bz "9" <? r) then -1 else r) s.

(** ** CPF *)

(** [for i := 0; i < 9; i++ { sum += digit * (w - i) }], from index [i]. *)
Fixpoint cpf_sum (n : nat) (i w : Z) (cpf : bytes) (sum : Z) : option Z :=
  match n with
  | O => Some sum
  | S n' => c ← idx cpf i; cpf_sum n' (i + 1) w cpf (sum + (byteAtoi c).1 * (w - i))
  end.

Definition validateCPFCheckDigits (cpf : bytes) : option bool :=
  sum ← cpf_sum 9 0 10 cpf 0;
  let result1 := Z.rem (sum * 10) 11 in
  let result1 := if result1 =? 10 then 0 else result1 in
  sum ← cpf_sum 9 0 11 cpf 0;
  let sum := sum + result1 * 2 in
  let result2 := Z.rem (sum * 10) 11 in
  let result2 := if result2 =? 10 then 0 else result2 in
  c9 ← idx cpf 9;
  c10 ← idx cpf 10;
  Some (((byteAtoi c9).1 =? result1) && ((byteAtoi c10).1 =? result2)).

Definition MatchCPF (s : bytes) : option bool :=
  let cpf := only_digits s in
  if negb (blen cpf =? 11) then Some false else validateCPFCheckDigits cpf.

(** ** CNPJ *)

Definition cnpjFirstDigitTable : list Z := [5; 4; 3; 2; 9; 8; 7; 6; 5; 4; 3; 2].
Definition cnpjSecondDigitTable : list Z := [6; 5; 4; 3; 2; 9; 8; 7; 6; 5; 4; 3; 2].

(** The loop of [checksum] from index [i]. *)
Fixpoint checksum_loop (ref : list Z) (i : Z) (ds : list Z) (s : Z) : option Z :=
  match ref with
  | [] => Some s
  | n :: ref' => d ← idx ds i; checksum_loop ref' (i + 1) ds (s + n * d)
  end.

Definition checksum (ds ref : list Z) : option Z :=
  s ← checksum_loop ref 0 ds 0;
  let r := Z.rem s 11 in
  if r <? 2 then Some 0 else Some (11 - r).

(** The conversion loop of [MatchCNPJ]: [None] inside is its early return. *)
Fixpoint numeric_cnpj (cnpj : bytes) : option (list Z) :=
  match cnpj with
  | [] => Some []
  | r :: cnpj' =>
      let '(digit, err) := byteAtoi r in
      match err with
      | Some _ => None
      | None => ds ← numeric_cnpj cnpj'; Some (digit :: ds)
      end
  end.

Definition MatchCNPJ (s : bytes) : option bool :=
  let cnpj := only_digits s in
  if negb (blen cnpj =? 14) then Some false else
  match numeric_cnpj cnpj with
  | None => Some false
  | Some numericCNPJ =>
      d1 ← checksum numericCNPJ cnpjFirstDigitTable;
      d2 ← checksum numericCNPJ cnpjSecondDigitTable;
      n12 ← idx numericCNPJ 12;
      n13 ← idx numericCNPJ 13;
      Some ((n12 =? d1) && (n13 =? d2))
  end.

Definition cnpj_format_rune (r : Z) : bool :=
  (r =? 46) || (r =? 47) || (r =? 45) || (r =? 34) || (r =? 93) || (r =? 125).

Definition cleanCNPJFormat (cnpj : bytes) : bytes := Join (FieldsFunc cnpj cnpj_format_rune) [].

(** [numericValues[i] = int(b - 48)] on an array of 14 values: the byte
    subtraction wraps, a 15th byte is out of range. *)
Definition cnpjAlphaToNumeric (cnpjUpper : bytes) : option (list Z) :=
  if 14 <? blen cnpjUpper then None
  else Some (map (fun b => (bz b - 48) mod 256) cnpjUpper ++ replicate (14 - length cnpjUpper) 0).

Definition MatchCNPJV2 (s : bytes) : option bool :=
  let cnpj := cleanCNPJFormat s in
  if negb (blen cnpj =? 14) then Some false else
  let cnpjUpper := BytesToUpper cnpj in
  let hasLetters := ContainsFunc cnpjUpper (fun r => (65 <=? r) && (r <=? 90)) in
  if negb hasLetters then Some false else
  if negb (MatchBytes cnpjAlphanumRegexp cnpjUpper) then Some false else
  numericValues ← cnpjAlphaToNumeric cnpjUpper;
  d1 ← checksum numericValues cnpjFirstDigitTable;
  d2 ← checksum numericValues cnpjSecondDigitTable;
  n12 ← idx numericValues 12;
  n13 ← idx numericValues 13;
  Some ((n12 =? d1) && (n13 =? d2)).

(** ** Specification *)

Fixpoint dot (ws ds : list Z) : Z :=
  match ws, ds with w :: ws', d :: ds' => w * d + dot ws' ds' | _, _ => 0 end.

(** The check digit of a CPF: ten times the weighted sum, modulo 11, ten
    counting as zero. *)
Definition cpf_check (ds : list Z) : Z :=
  let ws := rev (map (fun k => Z.of_nat k + 2) (List.seq 0 (length ds))) in
  (10 * dot ws ds) mod 11 mod 10.

(** The check digit of a CNPJ: what is missing from the weighted sum to a
    multiple of 11, ten and eleven counting as zero. *)
Definition cnpj_check (ws ds : list Z) : Z :=
  let r := dot ws ds mod 11 in if r <? 2 then 0 else 11 - r.

(** A number followed by its two check digits. *)
Definition with_checks (check1 check2 : list Z -> Z) (base : bytes) : bytes :=
  let ds := map digit_val base in
  base ++ [digit_byte (check1 ds); digit_byte (check2 (ds ++ [check1 ds]))].

Definition with_cpf_checks : bytes -> bytes := with_checks cpf_check cpf_check.
Definition with_cnpj_checks : bytes -> bytes :=
  with_checks (cnpj_check cnpjFirstDigitTable) (cnpj_check cnpjSecondDigitTable).

Definition digits_of (s : bytes) : bytes := List.filter is_digit s.

(** ** Cleaning *)

Lemma only_digits_filter s : only_digits s = digits_of s.
Proof.
  unfold only_digits, digits_of.
  transitivity (Map (keep (fun r => (48 <=? r) && (r <=? 57))) s).
  - apply Map_ext. intros r. unfold keep. bz_lit. destruct (r <? 48) eqn:?, (57 <? r) eqn:?; simpl;
      case_match; lia.
  - rewrite Map_keep_ascii; [done|]. unfold RuneSelf. lia.
Qed.

Lemma digits_of_digits s : Forall (fun c => is_digit c = true) (digits_of s).
Proof. apply Forall_forall. intros c Hc. unfold digits_of in Hc. by apply elem_of_filterb in Hc as [_ ?]. Qed.

Lemma byteAtoi_digit c : is_digit c = true -> byteAtoi c = (digit_val c, None).
Proof.
  unfold is_digit, byteAtoi, digit_val. intros H%in_range_iff. revert H. bz_lit. intros H. by if_lia.
Qed.

Lemma digit_byte_iff c d : is_digit c = true -> 0 <= d <= 9 -> digit_val c = d <-> c = digit_byte d.
Proof.
  intros Hc Hd. split.
  - intros <-. by rewrite digit_byte_val.
  - intros ->. unfold digit_val, digit_byte. rewrite bz_byte_of_Z; lia.
Qed.

Lemma cpf_check_bounds ds : 0 <= cpf_check ds <= 9.
Proof. unfold cpf_check. pose proof (Z.mod_pos_bound ((10 * dot (rev (map (fun k => Z.of_nat k + 2) (List.seq 0 (length ds)))) ds) mod 11) 10). lia. Qed.

Lemma cnpj_check_bounds ws ds : 0 <= cnpj_check ws ds <= 9.
Proof. unfold cnpj_check. pose proof (Z.mod_pos_bound (dot ws ds) 11). case_match; lia. Qed.

(** Ten counting as zero is a second remainder. *)
Lemma ten_is_zero x : 0 <= x ->
  (if Z.rem (x * 10) 11 =? 10 then 0 else Z.rem (x * 10) 11) = (10 * x) mod 11 mod 10.
Proof.
  intros Hx. rewrite Z.rem_mod_nonneg by lia. rewrite (Z.mul_comm x).
  pose proof (Z.mod_pos_bound (10 * x) 11).
  destruct (Z.eqb_spec ((10 * x) mod 11) 10) as [->|]; [done|]. symmetry. apply Z.mod_small. lia.
Qed.

(** Split a list of known length. *)
Ltac split_list l :=
  repeat (destruct l as [|? l]; [try (simpl in *; lia)|]); try (simpl in *; lia).

Lemma digit_vals_nonneg (l : bytes) : Forall (fun c => is_digit c = true) l ->
  Forall (fun d => 0 <= d <= 9) (map digit_val l).
Proof. intros H. apply Forall_fmap. eapply Forall_impl; [exact H|]. intros c. apply digit_val_bounds. Qed.

Lemma idx_middle {A} (pre : list A) c rest : idx (pre ++ c :: rest) (Z.of_nat (length pre)) = Some c.
Proof. rewrite idx_of_nat. by apply list_lookup_middle. Qed.

Lemma cpf_sum_spec base : forall pre rest w sum,
  Forall (fun c => is_digit c = true) base ->
  cpf_sum (length base) (Z.of_nat (length pre)) w (pre ++ base ++ rest) sum =
    Some (sum + dot (map (fun k => w - Z.of_nat k) (List.seq (length pre) (length base)))
                    (map digit_val base)).
Proof.
  induction base as [|c base IH]; intros pre rest w sum Hb; simpl.
  { f_equal. lia. }
  apply Forall_cons in Hb as [Hc Hb]. rewrite idx_middle. simpl.
  specialize (IH (pre ++ [c]) rest w (sum + (byteAtoi c).1 * (w - Z.of_nat (length pre))) Hb).
  rewrite length_app, <- app_assoc in IH. simpl in IH.
  replace (Z.of_nat (length pre + 1)) with (Z.of_nat (length pre) + 1) in IH by lia.
  rewrite IH, byteAtoi_digit by done. f_equal. simpl. rewrite Nat.add_1_r. lia.
Qed.

Lemma dot_nonneg ws ds : Forall (fun w => 0 <= w) ws -> Forall (fun d => 0 <= d) ds -> 0 <= dot ws ds.
Proof.
  revert ds. induction ws as [|w ws IH]; intros [|d ds] Hw Hd; simpl; try lia.
  apply Forall_cons in Hw as [? Hw], Hd as [? Hd]. specialize (IH ds Hw Hd). nia.
Qed.

Lemma dot_snoc ws ds w d : length ws = length ds -> dot (ws ++ [w]) (ds ++ [d]) = dot ws ds + w * d.
Proof.
  revert ds. induction ws as [|v ws IH]; intros [|e ds] H; simpl in *; try done; [lia|].
  rewrite IH by lia. lia.
Qed.

Lemma cpf_checks_eq base : length base = 9%nat -> Forall (fun c => is_digit c = true) base ->
  let ds := map digit_val base in
  let sum w := dot (map (fun k => w - Z.of_nat k) (List.seq 0 9)) ds in
  0 <= sum 10 /\ 0 <= sum 11 /\
  cpf_check ds = (10 * sum 10) mod 11 mod 10 /\
  forall d, cpf_check (ds ++ [d]) = (10 * (sum 11 + d * 2)) mod 11 mod 10.
Proof.
  intros Hlen Hd ds sum.
  assert (Hds : Forall (fun d => 0 <= d) ds).
  { apply Forall_fmap. eapply Forall_impl; [exact Hd|]. intros c ?%digit_val_bounds. simpl. lia. }
  assert (Hl : length ds = 9%nat) by (unfold ds; by rewrite length_map).
  split_and!.
  - apply dot_nonneg; [|done]. by repeat (constructor; [done|]).
  - apply dot_nonneg; [|done]. by repeat (constructor; [done|]).
  - unfold cpf_check. rewrite Hl. done.
  - intros d. unfold cpf_check. rewrite length_app, Hl. do 3 f_equal.
    change (rev (map (fun k => Z.of_nat k + 2) (List.seq 0 (9 + length [d]))))
      with (map (fun k => 11 - Z.of_nat k) (List.seq 0 9) ++ [2]).
    rewrite dot_snoc by by rewrite Hl. unfold sum. lia.
Qed.

Lemma validateCPF_checks base x y :
  length base = 9%nat -> Forall (fun c => is_digit c = true) (base ++ [x; y]) ->
  validateCPFCheckDigits (base ++ [x; y]) =
    Some (beq x (digit_byte (cpf_check (map digit_val base))) &&
          beq y (digit_byte (cpf_check (map digit_val base ++ [cpf_check (map digit_val base)])))).
Proof.
  intros Hlen Hd. apply Forall_app in Hd as [Hb Hxy]. rewrite !Forall_cons in Hxy.
  destruct Hxy as (Hx & Hy & _).
  assert (Hbeq : forall c d, is_digit c = true -> 0 <= d <= 9 ->
                   beq c (digit_byte d) = (digit_val c =? d)).
  { intros c d Hc Hd. apply eq_true_iff_eq. rewrite beq_true, Z.eqb_eq. by rewrite <- digit_byte_iff. }
  rewrite !Hbeq by (done || apply cpf_check_bounds).
  destruct (cpf_checks_eq base Hlen Hb) as (H10 & H11 & Hc1 & Hc2).
  pose proof (cpf_check_bounds (map digit_val base)).
  unfold validateCPFCheckDigits. rewrite <- Hlen.
  pose proof (cpf_sum_spec base [] [x; y] 10 0 Hb) as Hsum10.
  pose proof (cpf_sum_spec base [] [x; y] 11 0 Hb) as Hsum11. simpl app in Hsum10, Hsum11.
  change (Z.of_nat (length [])) with 0 in Hsum10, Hsum11. rewrite Hsum10, Hsum11.
  rewrite Hlen. cbn [mbind option_bind]. rewrite !Z.add_0_l, ten_is_zero by done.
  simpl length. rewrite <- Hc1, ten_is_zero by lia. rewrite <- Hc2.
  replace 9 with (Z.of_nat (length base)) by lia. rewrite idx_middle. cbn [mbind option_bind].
  replace 10 with (Z.of_nat (length (base ++ [x]))) by (rewrite length_app; simpl; lia).
  replace (base ++ [x; y]) with ((base ++ [x]) ++ [y]) by by rewrite <- app_assoc.
  rewrite idx_middle. cbn [mbind option_bind]. by rewrite !byteAtoi_digit.
Qed.

Lemma split_last2 {A} (l : list A) n : length l = S (S n) ->
  exists base x y, l = base ++ [x; y] /\ length base = n.
Proof.
  intros H. destruct l as [|y l _] using rev_ind; [done|]. rewrite length_app in H. simpl in H.
  destruct l as [|x l _] using rev_ind; [simpl in H; lia|]. rewrite length_app in H. simpl in H.
  exists l, x, y. rewrite <- app_assoc. split; [done|lia].
Qed.

Lemma MatchCPF_is_cpf s :
  exists b, MatchCPF s = Some b /\
    (b = true <-> exists base, length base = 9%nat /\ digits_of s = with_cpf_checks base).
Proof.
  unfold MatchCPF. rewrite only_digits_filter. pose proof (digits_of_digits s) as Hd.
  destruct (Z.eqb_spec (blen (digits_of s)) 11) as [Hlen|Hlen]; cbn [negb].
  - destruct (split_last2 (digits_of s) 9) as (base & x & y & Hs & Hb); [unfold blen in Hlen; lia|].
    rewrite Hs in *. rewrite validateCPF_checks by done. eexists. split; [done|].
    rewrite andb_true_iff, !beq_true. unfold with_cpf_checks, with_checks. split.
    + intros [-> ->]. by exists base.
    + intros (base' & Hb' & Heq). apply app_inj_1 in Heq as [<- [= -> ->]]; [done|congruence].
  - exists false. split; [done|]. split; [done|]. intros (base & Hb & Heq). destruct Hlen.
    rewrite Heq. unfold with_cpf_checks, with_checks, blen. rewrite length_app, Hb. done.
Qed.

(** ** Checksums *)

Lemma checksum_loop_dot ref : forall pre ds s, (length ref <= length ds)%nat ->
  checksum_loop ref (Z.of_nat (length pre)) (pre ++ ds) s = Some (s + dot ref ds).
Proof.
  induction ref as [|n ref IH]; intros pre ds s Hlen; simpl.
  { f_equal. lia. }
  destruct ds as [|d ds]; simpl in Hlen; [lia|]. rewrite idx_middle. simpl.
  specialize (IH (pre ++ [d]) ds (s + n * d) ltac:(lia)).
  rewrite length_app, <- app_assoc in IH. simpl in IH.
  replace (Z.of_nat (length pre + 1)) with (Z.of_nat (length pre) + 1) in IH by lia.
  rewrite IH. f_equal. lia.
Qed.

Lemma checksum_check ref ds :
  Forall (fun w => 0 <= w) ref -> Forall (fun d => 0 <= d) ds -> (length ref <= length ds)%nat ->
  checksum ds ref = Some (cnpj_check ref ds).
Proof.
  intros Hr Hd Hlen. unfold checksum, cnpj_check.
  pose proof (checksum_loop_dot ref [] ds 0 Hlen) as Hl. simpl app in Hl.
  change (Z.of_nat (length [])) with 0 in Hl. rewrite Hl. cbn [mbind option_bind]. rewrite Z.add_0_l.
  pose proof (dot_nonneg ref ds Hr Hd). rewrite Z.rem_mod_nonneg by lia. by case_match.
Qed.

Lemma dot_prefix ws ds rest : length ws = length ds -> dot ws (ds ++ rest) = dot ws ds.
Proof.
  revert ds. induction ws as [|w ws IH]; intros [|d ds] H; simpl in *; try done. by rewrite IH by lia.
Qed.

Lemma numeric_cnpj_digits s : Forall (fun c => is_digit c = true) s ->
  numeric_cnpj s = Some (map digit_val s).
Proof. induction 1 as [|c s Hc _ IH]; [done|]. cbn [numeric_cnpj]. by rewrite byteAtoi_digit, IH. Qed.

(** The comparison both CNPJ matchers end with, on fourteen values. *)
Lemma cnpj_checksums ds x y :
  length ds = 12%nat -> Forall (fun d => 0 <= d) (ds ++ [x; y]) ->
  (d1 ← checksum (ds ++ [x; y]) cnpjFirstDigitTable;
   d2 ← checksum (ds ++ [x; y]) cnpjSecondDigitTable;
   n12 ← idx (ds ++ [x; y]) 12;
   n13 ← idx (ds ++ [x; y]) 13;
   Some ((n12 =? d1) && (n13 =? d2))) =
  Some ((x =? cnpj_check cnpjFirstDigitTable ds) &&
        (y =? cnpj_check cnpjSecondDigitTable (ds ++ [cnpj_check cnpjFirstDigitTable ds]))).
Proof.
  intros Hlen Hd.
  rewrite !checksum_check by (done || (rewrite length_app, Hlen; simpl; lia) || by repeat (constructor; [lia|])).
  cbn [mbind option_bind].
  replace 12 with (Z.of_nat (length ds)) by lia. rewrite idx_middle. cbn [mbind option_bind].
  replace 13 with (Z.of_nat (length (ds ++ [x]))) by (rewrite length_app; simpl; lia).
  replace (ds ++ [x; y]) with ((ds ++ [x]) ++ [y]) by by rewrite <- app_assoc.
  rewrite idx_middle. cbn [mbind option_bind].
  assert (H1 : cnpj_check cnpjFirstDigitTable ((ds ++ [x]) ++ [y]) = cnpj_check cnpjFirstDigitTable ds).
  { unfold cnpj_check. rewrite <- app_assoc. by rewrite (dot_prefix cnpjFirstDigitTable ds) by by rewrite Hlen. }
  assert (H2 : cnpj_check cnpjSecondDigitTable ((ds ++ [x]) ++ [y]) = cnpj_check cnpjSecondDigitTable (ds ++ [x])).
  { unfold cnpj_check. rewrite (dot_prefix cnpjSecondDigitTable (ds ++ [x])); [done|].
    rewrite length_app, Hlen. done. }
  rewrite H1, H2. f_equal. destruct (Z.eqb_spec x (cnpj_check cnpjFirstDigitTable ds)) as [<-|]; done.
Qed.

Lemma beq_digit_byte c d : is_digit c = true -> 0 <= d <= 9 ->
  beq c (digit_byte d) = (digit_val c =? d).
Proof. intros Hc Hd. apply eq_true_iff_eq. rewrite beq_true, Z.eqb_eq. by rewrite <- digit_byte_iff. Qed.

(** The texts [MatchCNPJ] is meant to find. *)
Definition is_cnpj (s : bytes) : Prop :=
  exists base, length base = 12%nat /\ digits_of s = with_cnpj_checks base.

Lemma MatchCNPJ_is_cnpj s : exists b, MatchCNPJ s = Some b /\ (b = true <-> is_cnpj s).
Proof.
  unfold MatchCNPJ, is_cnpj. rewrite only_digits_filter. pose proof (digits_of_digits s) as Hd.
  destruct (Z.eqb_spec (blen (digits_of s)) 14) as [Hlen|Hlen]; cbn [negb].
  - destruct (split_last2 (digits_of s) 12) as (base & x & y & Hs & Hb); [unfold blen in Hlen; lia|].
    rewrite Hs in *. rewrite numeric_cnpj_digits by done. rewrite map_app. simpl map.
    rewrite cnpj_checksums.
    2: by rewrite length_map.
    2: { change [digit_val x; digit_val y] with (map digit_val [x; y]). rewrite <- map_app.
         eapply Forall_impl; [by apply digit_vals_nonneg|]. simpl. lia. }
    eexists. split; [done|]. apply Forall_app in Hd as [Hdb Hxy]. rewrite !Forall_cons in Hxy.
    destruct Hxy as (Hx & Hy & _).
    rewrite <- !beq_digit_byte by (done || apply cnpj_check_bounds).
    rewrite andb_true_iff, !beq_true. unfold with_cnpj_checks, with_checks. split.
    + intros [-> ->]. by exists base.
    + intros (base' & Hb' & Heq). apply app_inj_1 in Heq as [<- [= -> ->]]; [done|congruence].
  - exists false. split; [done|]. split; [done|]. intros (base & Hb & Heq). destruct Hlen.
    rewrite Heq. unfold with_cnpj_checks, with_checks, blen. rewrite length_app, Hb. done.
Qed.

(** C16: [MatchCPF] and [MatchCNPJ] never panic, look at the ASCII digits of the
    text only, and accept exactly those made of nine, respectively twelve,
    digits and their two check digits: whatever the punctuation, each base has
    one and only one accepted completion. *)
Theorem numeric_documents_spec s :
  (exists b, MatchCPF s = Some b /\
    (b = true <-> exists base, length base = 9%nat /\ digits_of s = with_cpf_checks base)) /\
  (exists b, MatchCNPJ s = Some b /\
    (b = true <-> exists base, length base = 12%nat /\ digits_of s = with_cnpj_checks base)).
Proof. split; [apply MatchCPF_is_cpf|apply MatchCNPJ_is_cnpj]. Qed.

(** ** The alphanumeric CNPJ *)

Definition alnum_upper (b : byte) : bool := in_range "A" "Z" b || in_range "0" "9" b.

(** The text without punctuation, in upper case. *)
Definition cnpj_text (s : bytes) : bytes :=
  map upper_byte (List.filter (fun b => negb (cnpj_format_rune (bz b))) s).

Lemma cleanCNPJFormat_filter s :
  cleanCNPJFormat s = List.filter (fun b => negb (cnpj_format_rune (bz b))) s.
Proof. apply Join_FieldsFunc. unfold RuneSelf, cnpj_format_rune. lia. Qed.

Definition ascii_count (s : bytes) : nat := length (List.filter is_ascii s).

Lemma ascii_count_app s t : ascii_count (s ++ t) = (ascii_count s + ascii_count t)%nat.
Proof. unfold ascii_count. by rewrite List.filter_app, length_app. Qed.

Lemma ascii_count_runes s :
  length (List.filter (fun r => r <? RuneSelf) (runes s)) = ascii_count s.
Proof.
  unfold runes. induction s as [|b s Hb IH|raw s r Hc Hne Hr Hraw IH] using chunks_ind; [done| |].
  - rewrite chunks_ascii by done. unfold ascii_count in *. simpl. rewrite Hb.
    unfold is_ascii in Hb. rewrite Hb. simpl. by rewrite IH.
  - rewrite Hc, ascii_count_app. simpl. destruct (Z.ltb_spec r RuneSelf); [lia|].
    rewrite IH. unfold ascii_count. by rewrite (filter_none _ raw).
Qed.

Lemma byte_of_Z_not_ascii z : 128 <= z < 256 -> is_ascii (byte_of_Z z) = false.
Proof. intros Hz. unfold is_ascii, RuneSelf. rewrite bz_byte_of_Z; lia. Qed.

Lemma AppendRune_all_non_ascii r :
  RuneSelf <= r -> Forall (fun b => is_ascii b = false) (AppendRune r).
Proof.
  unfold RuneSelf, AppendRune. intros Hr.
  pose proof (Z.mod_pos_bound r 64 ltac:(lia)). pose proof (Z.mod_pos_bound (r / 64) 64 ltac:(lia)).
  pose proof (Z.mod_pos_bound (r / 4096) 64 ltac:(lia)).
  assert (forall m k, 0 < m -> r < k * m -> 0 <= r / m < k) as Hdiv.
  { intros m k Hm Hk. split; [apply Z.div_pos; lia|]. apply Z.div_lt_upper_bound; lia. }
  destruct (Z.ltb_spec r 2048); [|destruct (Z.ltb_spec r 65536); [|destruct (Z.ltb_spec r 1114112)]].
  - pose proof (Hdiv 64 32). if_lia. repeat (constructor; [apply byte_of_Z_not_ascii; lia|]). constructor.
  - pose proof (Hdiv 4096 16). if_lia.
    destruct (_ || _); repeat (constructor; [done || (apply byte_of_Z_not_ascii; lia)|]); constructor.
  - pose proof (Hdiv 262144 5). if_lia. repeat (constructor; [apply byte_of_Z_not_ascii; lia|]). constructor.
  - if_lia. by repeat constructor.
Qed.

Lemma ascii_count_AppendRune r :
  (ascii_count (AppendRune r) <= if (r <? RuneSelf)%Z then 1 else 0)%nat.
Proof.
  destruct (Z.ltb_spec r RuneSelf) as [Hr|Hr].
  - unfold AppendRune, RuneSelf in *. repeat case_match; try lia; unfold ascii_count; simpl;
      repeat case_match; simpl; lia.
  - unfold ascii_count. rewrite filter_none; [simpl; lia|]. by apply AppendRune_all_non_ascii.
Qed.

(** A text whose upper case has as many ASCII bytes as it has bytes is ASCII. *)
Lemma ToUpper_RuneError : ToUpper RuneError = RuneError.
Proof. vm_compute. reflexivity. Qed.

Lemma ascii_count_Map f s :
  (ascii_count (Map f s) <= length (List.filter (fun r => (f r <? RuneSelf)%Z) (runes s)))%nat.
Proof.
  unfold Map, runes. induction (chunks s) as [|[r raw] cs IH]; simpl; [done|].
  rewrite ascii_count_app. pose proof (ascii_count_AppendRune (f r)) as Ha.
  destruct (f r <? RuneSelf) eqn:Hr, (f r <? 0) eqn:H0; simpl; unfold ascii_count in *; simpl in *;
    unfold RuneSelf in *; lia.
Qed.

Lemma filter_length_le {A} (f : A -> bool) l : (length (List.filter f l) <= length l)%nat.
Proof. induction l as [|x l IH]; simpl; [done|]. destruct (f x); simpl; lia. Qed.

Lemma filter_length_all {A} (f : A -> bool) l :
  length (List.filter f l) = length l -> Forall (fun x => f x = true) l.
Proof.
  induction l as [|x l IH]; simpl; [constructor|]. pose proof (filter_length_le f l).
  destruct (f x) eqn:Hx; simpl; intros Hl; [constructor; [done|apply IH; lia]|lia].
Qed.

Lemma upper_ascii s : (length s <= ascii_count (BytesToUpper s))%nat -> forallb is_ascii s = true.
Proof.
  intros Hc. unfold BytesToUpper in Hc. pose proof (ascii_count_Map ToUpper s) as Hm.
  pose proof (length_runes s) as Hr.
  pose proof (filter_length_le (fun r => ToUpper r <? RuneSelf) (runes s)) as Hf.
  assert (Hall : Forall (fun r => (ToUpper r <? RuneSelf) = true) (runes s))
    by (apply filter_length_all; lia).
  apply runes_all_ascii. pose proof (runes_full s ltac:(lia)) as Hfull.
  rewrite Forall_forall in Hall, Hfull |- *. intros r Hin.
  destruct (Hfull r Hin) as [?| ->]; [done|]. apply Hall in Hin. rewrite ToUpper_RuneError in Hin. done.
Qed.

(** ** The expression of the alphanumeric CNPJ *)

Definition alnum_class : class := mkClass false false [(false, [(65, 90)]); (false, [(48, 57)])].

Lemma cnpj_min_len : min_len cnpjAlphanumRegexp = 14%nat.
Proof. vm_compute. reflexivity. Qed.

Lemma cnpj_classes_ok :
  forallb (fun c => negb (in_class c RuneError) && forallb (fun b => if is_ascii b
      then implb (in_class c (bz b)) (alnum_upper b || cnpj_format_rune (bz b)) else true) all_byte_list
    && forallb (fun lh : bool * ranges => negb lh.1 && forallb (fun p : Z * Z => p.2 <? 128) lh.2) (citems c)
    && negb (cneg c) && negb (cfold c))
    (classes cnpjAlphanumRegexp) = true.
Proof. vm_compute. reflexivity. Qed.

Definition cnpj_alt : regex := Rep (Class alnum_class) 14 (Some 14%nat).

Lemma cnpj_regex_alt s i j : Matches s cnpj_alt i j -> Matches s cnpjAlphanumRegexp i j.
Proof.
  assert (Hshape : exists a, cnpjAlphanumRegexp = Cat Eps (Alt a (Cat Eps cnpj_alt))).
  { eexists. vm_compute. reflexivity. }
  destruct Hshape as (a & ->); intros H.
  exists i. split; [done|]. right. exists i. by split.
Qed.

Lemma cnpj_class c x : c ∈ classes cnpjAlphanumRegexp -> in_class c x = true -> x < 128.
Proof.
  intros Hc Hx. pose proof cnpj_classes_ok as Hok. rewrite forallb_forall in Hok.
  apply list_elem_of_In in Hc. specialize (Hok c Hc). bsplit.
  unfold in_class in Hx. match goal with H : cneg c = false |- _ => rewrite H in Hx end.
  match goal with H : cfold c = false |- _ => rewrite H in Hx end.
  rewrite xorb_false_l, existsb_exists in Hx. destruct Hx as ([neg rs] & Hin & Hx). simpl in Hx.
  match goal with H : forallb _ (citems c) = true |- _ => rewrite forallb_forall in H; specialize (H _ Hin) end.
  simpl in *. bsplit. subst neg. rewrite orb_false_r, xorb_false_l in Hx.
  unfold in_ranges in Hx. apply existsb_exists in Hx as ([lo hi] & Hlh & Hr).
  match goal with H : forallb _ rs = true |- _ => rewrite forallb_forall in H; specialize (H _ Hlh) end.
  simpl in *. lia.
Qed.

Lemma cnpj_class_byte c b : c ∈ classes cnpjAlphanumRegexp -> is_ascii b = true ->
  in_class c (bz b) = true -> alnum_upper b || cnpj_format_rune (bz b) = true.
Proof.
  intros Hc Hb Hx. pose proof cnpj_classes_ok as Hok. rewrite forallb_forall in Hok.
  apply list_elem_of_In in Hc. specialize (Hok c Hc). bsplit.
  match goal with H : forallb _ all_byte_list = true |- _ => pose proof (forall_bytes _ H b) as Hbb end.
  cbv beta in Hbb. rewrite Hb, Hx in Hbb. done.
Qed.

Lemma filter_window {A} (f : A -> bool) l i j :
  (j <= length l)%nat -> (forall k x, (i <= k < j)%nat -> l !! k = Some x -> f x = true) ->
  (j - i <= length (List.filter f l))%nat.
Proof.
  intros Hj Hf. rewrite <- (take_drop j l), List.filter_app, length_app.
  rewrite <- (take_drop i (take j l)), List.filter_app, length_app.
  rewrite (filter_all f (drop i (take j l))).
  - rewrite length_drop, length_take. lia.
  - apply Forall_lookup. intros k x Hx. rewrite lookup_drop in Hx.
    apply lookup_take_Some in Hx as [Hx ?]. apply (Hf (i + k)%nat); [lia|done].
Qed.

(** A match needs fourteen ASCII runes. *)
Lemma cnpj_match_ascii u : MatchBytes cnpjAlphanumRegexp u = true -> (14 <= ascii_count u)%nat.
Proof.
  intros H. apply MatchBytes_iff in H as (i & j & Hi & Hm).
  pose proof (Matches_min_len _ _ _ _ Hm) as Hlen. rewrite cnpj_min_len in Hlen.
  pose proof (Matches_bounds _ _ _ _ Hm) as [_ Hj].
  rewrite <- ascii_count_runes.
  enough (j - i <= length (List.filter (fun r => (r <? RuneSelf)%Z) (runes u)))%nat by lia.
  apply filter_window; [lia|]. intros k x Hk Hx.
  destruct (Matches_classes _ _ _ _ _ Hm Hk) as (x' & c & Hx' & Hc & Hin). simplify_eq.
  apply Z.ltb_lt. unfold RuneSelf. by eapply cnpj_class.
Qed.

(** On fourteen ASCII bytes without punctuation the expression asks for
    letters and digits. *)
Lemma cnpj_match_14 t : length t = 14%nat -> forallb is_ascii t = true ->
  Forall (fun b => cnpj_format_rune (bz b) = false) t ->
  MatchBytes cnpjAlphanumRegexp t = forallb alnum_upper t.
Proof.
  intros Hlen Ha Hf. apply eq_true_iff_eq. rewrite MatchBytes_iff, runes_ascii, length_map by done. split.
  - intros (i & j & Hi & Hm). pose proof (Matches_min_len _ _ _ _ Hm) as Hl. rewrite cnpj_min_len in Hl.
    pose proof (Matches_bounds _ _ _ _ Hm) as [_ Hj]. rewrite length_map in Hj.
    apply forallb_iff, Forall_lookup. intros k b Hk. pose proof (lookup_lt_Some _ _ _ Hk).
    destruct (Matches_classes _ _ _ _ k Hm) as (x & c & Hx & Hc & Hin); [lia|].
    rewrite list_lookup_fmap, Hk in Hx. simpl in Hx. simplify_eq.
    rewrite Forall_lookup in Hf. apply forallb_iff in Ha. rewrite Forall_lookup in Ha.
    pose proof (cnpj_class_byte c b Hc (Ha k b Hk) Hin) as Hor. by rewrite (Hf k b Hk), orb_false_r in Hor.
  - intros Hal. exists 0%nat, 14%nat. split; [lia|]. apply cnpj_regex_alt.
    apply (Matches_shape _ cnpj_alt (replicate 14 alnum_class)); [done|]. split; [done|].
    apply runs_through_lookup. intros k c Hk. apply lookup_replicate in Hk as [-> Hk].
    destruct (lookup_lt_is_Some_2 t k) as [b Hb]; [lia|]. exists (bz b).
    rewrite list_lookup_fmap. simpl. rewrite Hb. split; [done|].
    apply forallb_iff in Hal. rewrite Forall_lookup in Hal. specialize (Hal k b Hb).
    revert Hal. clear. all_bytes b.
Qed.

Lemma ContainsFunc_ascii f s : forallb is_ascii s = true ->
  ContainsFunc s f = existsb (fun b => f (bz b)) s.
Proof.
  intros Hs. unfold ContainsFunc. transitivity (existsb f (runes s)).
  - unfold runes. induction (chunks s) as [|rb cs IH]; simpl; [done|]. by rewrite IH.
  - rewrite runes_ascii by done. clear Hs. induction s as [|b s IH]; simpl; [done|]. by rewrite IH.
Qed.

Definition is_upper (b : byte) : bool := in_range "A" "Z" b.

Lemma upper_byte_format b : cnpj_format_rune (bz (upper_byte b)) = cnpj_format_rune (bz b).
Proof. all_bytes b. Qed.

Lemma alnum_upper_ascii b : alnum_upper (upper_byte b) = true -> is_ascii b = true.
Proof. all_bytes b. Qed.

Lemma alnum_value b : alnum_upper b = true -> (bz b - 48) mod 256 = digit_val b /\ 0 <= digit_val b.
Proof. all_bytes b; split; done. Qed.

Lemma alnum_check_digit b d : alnum_upper b = true -> 0 <= d <= 9 ->
  (digit_val b =? d) = beq b (digit_byte d).
Proof.
  intros Hb Hd. apply eq_true_iff_eq. rewrite Z.eqb_eq, beq_true. split.
  - intros <-. unfold digit_byte, digit_val. rewrite Zplus_minus. symmetry. apply byte_of_Z_bz.
  - intros ->. unfold digit_val, digit_byte. rewrite bz_byte_of_Z; lia.
Qed.

(** The texts [MatchCNPJV2] is meant to find. *)
Definition is_cnpj_v2 (s : bytes) : Prop :=
  let t := cnpj_text s in
  forallb alnum_upper t = true /\ existsb is_upper t = true /\
  exists base, length base = 12%nat /\ t = with_cnpj_checks base.

(** The capitals of an ASCII text without punctuation: a text of the same length,
    still ASCII, still without punctuation. *)
Lemma upper_text c : forallb is_ascii c = true ->
  Forall (fun b => cnpj_format_rune (bz b) = false) c ->
  forallb is_ascii (map upper_byte c) = true /\
  Forall (fun b => cnpj_format_rune (bz b) = false) (map upper_byte c).
Proof.
  intros Hasc%forallb_iff Hc. split.
  - apply forallb_iff, Forall_map. eapply Forall_impl; [exact Hasc|].
    intros b Hb. by apply upper_byte_ascii.
  - apply Forall_map. eapply Forall_impl; [exact Hc|]. intros b Hb. simpl. by rewrite upper_byte_format.
Qed.

(** The last steps, on fourteen capital letters and digits: the conversion table
    has room for them, and the two check digits are those of the first twelve. *)
Lemma cnpj_checks_alnum t : length t = 14%nat -> Forall (fun b => alnum_upper b = true) t ->
  exists b,
    (vs ← cnpjAlphaToNumeric t;
     d1 ← checksum vs cnpjFirstDigitTable; d2 ← checksum vs cnpjSecondDigitTable;
     n12 ← idx vs 12; n13 ← idx vs 13; Some ((n12 =? d1) && (n13 =? d2))) = Some b /\
    (b = true <-> exists base, length base = 12%nat /\ t = with_cnpj_checks base).
Proof.
  intros Htl Hal. unfold cnpjAlphaToNumeric, blen. rewrite Htl.
  change (14 <? Z.of_nat 14) with false. cbn iota. rewrite Nat.sub_diag, app_nil_r.
  match goal with |- context [Some ?l ≫= ?f] => change (Some l ≫= f) with (f l) end. cbv beta.
  assert (Hvals : map (fun b => (bz b - 48) mod 256) t = map digit_val t).
  { apply map_ext_in. intros b Hb. apply list_elem_of_In in Hb. rewrite Forall_forall in Hal.
    by apply alnum_value, Hal. }
  rewrite Hvals. destruct (split_last2 t 12) as (base & x & y & -> & Hb); [done|].
  rewrite map_app. simpl map. rewrite cnpj_checksums.
  2: by rewrite length_map.
  2: { change [digit_val x; digit_val y] with (map digit_val [x; y]). rewrite <- map_app.
       apply Forall_map. eapply Forall_impl; [exact Hal|]. intros b' Hb'. by apply alnum_value. }
  eexists. split; [done|]. apply Forall_app in Hal as [Hdb Hxy]. rewrite !Forall_cons in Hxy.
  destruct Hxy as (Hx & Hy & _).
  rewrite !alnum_check_digit by (done || apply cnpj_check_bounds).
  rewrite andb_true_iff, !beq_true. unfold with_cnpj_checks, with_checks. split.
  - intros [-> ->]. by exists base.
  - intros (base' & Hb' & Heq). apply app_inj_1 in Heq as [<- [= -> ->]]; [done|congruence].
Qed.

Lemma MatchCNPJV2_is_cnpj_v2 s : exists b, MatchCNPJV2 s = Some b /\ (b = true <-> is_cnpj_v2 s).
Proof.
  unfold is_cnpj_v2.
  unfold MatchCNPJV2, cnpj_text. rewrite cleanCNPJFormat_filter.
  set (c := List.filter (fun b => negb (cnpj_format_rune (bz b))) s).
  assert (Hc : Forall (fun b => cnpj_format_rune (bz b) = false) c).
  { apply Forall_forall. intros b Hb. apply elem_of_filterb in Hb as [_ Hb]. by apply negb_true_iff. }
  clearbody c.
  assert (Hwlen : forall base, length base = 12%nat -> length (with_cnpj_checks base) = 14%nat).
  { intros base Hb. unfold with_cnpj_checks, with_checks. rewrite length_app, Hb. done. }
  destruct (Z.eqb_spec (blen c) 14) as [Hlen|Hlen]; cbn [negb].
  2:{ exists false. split; [done|]. split; [done|]. intros (_ & _ & base & Hb & Heq).
      destruct Hlen. apply (f_equal length) in Heq. rewrite length_map, Hwlen in Heq by done.
      unfold blen. lia. }
  assert (Hlen' : length c = 14%nat) by (unfold blen in Hlen; lia).
  destruct (forallb is_ascii c) eqn:Hasc.
  2:{ exists false. split.
      - destruct (ContainsFunc _ _); cbn [negb]; [|done].
        destruct (MatchBytes _ _) eqn:Hm; cbn [negb]; [|done].
        apply cnpj_match_ascii in Hm. rewrite <- Hlen' in Hm. apply upper_ascii in Hm. congruence.
      - split; [done|]. intros (Hal & _). apply not_true_iff_false in Hasc. destruct Hasc.
        apply forallb_iff, Forall_forall. intros b Hb. apply forallb_iff in Hal.
        rewrite Forall_map, Forall_forall in Hal. by apply alnum_upper_ascii, Hal. }
  rewrite BytesToUpper_ascii by done. set (t := map upper_byte c).
  assert (Htl : length t = 14%nat) by (unfold t; by rewrite length_map).
  destruct (upper_text c Hasc Hc) as [Hta Htf]. fold t in Hta, Htf.
  clearbody t. clear Hc Hasc Hlen Hlen'. clear c.
  rewrite ContainsFunc_ascii by done. fold is_upper.
  change (existsb (fun b => (65 <=? bz b) && (bz b <=? 90)) t) with (existsb is_upper t).
  destruct (existsb is_upper t); cbn [negb];
    [|exists false; split; [done|]; split; [done|]; by intros (_ & ? & _)].
  rewrite cnpj_match_14 by done.
  destruct (forallb alnum_upper t) eqn:Hal; cbn [negb];
    [|exists false; split; [done|]; split; [done|]; by intros (? & _)].
  apply forallb_iff in Hal. destruct (cnpj_checks_alnum t Htl Hal) as (b & -> & Hb).
  exists b. split; [done|]. rewrite Hb. naive_solver.
Qed.

(** C17: [MatchCNPJV2] never panics, its conversion table of fourteen entries
    included.  It accepts exactly the texts that, without punctuation and in
    upper case, are fourteen letters and digits with at least one letter and
    end with the check digits of the first twelve, a letter counting for its
    distance to the digit 0. *)
Theorem MatchCNPJV2_spec s :
  exists b, MatchCNPJV2 s = Some b /\
    (b = true <->
       let t := cnpj_text s in
       forallb alnum_upper t = true /\ existsb is_upper t = true /\
       exists base, length base = 12%nat /\ t = with_cnpj_checks base).
Proof. apply MatchCNPJV2_is_cnpj_v2. Qed.

(** The two formats are disjoint: no text is accepted by both matchers. *)
Theorem cnpj_formats_disjoint s :
  ~ (MatchCNPJ s = Some true /\ MatchCNPJV2 s = Some true).
Proof.
  intros [H1 H2].
  destruct (MatchCNPJ_is_cnpj s) as (b1 & E1 & I1). rewrite H1 in E1. simplify_eq.
  destruct (MatchCNPJV2_is_cnpj_v2 s) as (b2 & E2 & I2). rewrite H2 in E2. simplify_eq.
  destruct (proj1 I1 eq_refl) as (base1 & Hb1 & Hd). destruct (proj1 I2 eq_refl) as (Hal & Hup & base2 & Hb2 & Ht).
  assert (Hlen : forall base, length base = 12%nat -> length (with_cnpj_checks base) = 14%nat).
  { intros base Hb. unfold with_cnpj_checks, with_checks. rewrite length_app, Hb. done. }
  apply (f_equal length) in Hd. rewrite Hlen in Hd by done.
  apply (f_equal length) in Ht. rewrite Hlen in Ht by done.
  unfold cnpj_text in Ht, Hup. rewrite length_map in Ht.
  set (c := List.filter (fun b => negb (cnpj_format_rune (bz b))) s) in *.
  assert (Hdc : digits_of s = List.filter is_digit c).
  { unfold digits_of, c. clear. induction s as [|b s IH]; simpl; [done|].
    destruct (is_digit b) eqn:Hb.
    - assert (cnpj_format_rune (bz b) = false) as -> by (revert Hb; clear; all_bytes b; done).
      simpl. by rewrite Hb, IH.
    - destruct (cnpj_format_rune (bz b)); simpl; [|rewrite Hb]; done. }
  rewrite Hdc in Hd. pose proof (filter_length_all is_digit c ltac:(lia)) as Hall.
  apply existsb_exists in Hup as (x & Hx & Hux). apply in_map_iff in Hx as (b & <- & Hb).
  apply list_elem_of_In in Hb. rewrite Forall_forall in Hall. specialize (Hall b Hb).
  revert Hall Hux. clear. all_bytes b; done.
Qed.
