(* ===== verification/Monitoring.v ===== *)
(** * monitoring/: contexts, the tracer, spans and log records

    A Go [context.Context] is a record of the values the program stores in it.
    What a call makes visible to the outside, the log records and the spans, is
    a list of events in the order they happen; a computation that returns an
    [A], may panic and emits events is an [emits A].  Spans started by
    [StartSpanFromContext] are numbered along the nesting by their name. *)
From S2P Require Import Prelude.

(** ** Contexts *)

(** A logger is known by its name; the records it receives are events. *)
Abbreviation Logger := string.
Definition slogDefault : Logger := "default".

(** The values under [loggerCtxKey], [patternMonitoringEnabledCtxKey] and
    [workIDCtxKey], and the spans the context carries, innermost first. *)
Record Context := mkContext {
  logger : option Logger;
  monitoring : option bool;
  workID : option string;
  spans : list string
}.

Definition Background : Context := mkContext None None None [].

Definition WithPatternMonitoring (ctx : Context) (enabled : bool) : Context :=
  mkContext (logger ctx) (Some enabled) (workID ctx) (spans ctx).

Definition PatternMonitoringEnabled (ctx : Context) : bool :=
  match monitoring ctx with Some enabled => enabled | None => false end.

(** [WithWorkID]: the identifier is generated by the uuid package. *)
Definition WithWorkID (ctx : Context) (new : string) : Context :=
  mkContext (logger ctx) (monitoring ctx) (Some new) (spans ctx).

Definition WithLogger (ctx : Context) (l : Logger) : Context :=
  mkContext (Some l) (monitoring ctx) (workID ctx) (spans ctx).

Definition LoggerFromContext (ctx : Context) : Logger :=
  match logger ctx with Some l => l | None => slogDefault end.

Definition WorkIDFromContext (ctx : Context) : string :=
  match workID ctx with Some id => id | None => EmptyString end.

(** ** Events *)

Inductive event :=
| PatternStarted (to : Logger) (pattern workID : string)
| PatternEnded (to : Logger) (pattern : string) (matched : bool) (workID : string)
| SpanStarted (name : string)
| SpanTagged (name key value : string)
| SpanFinished (name : string).

#[export] Instance event_eq_dec : EqDecision event.
Proof. solve_decision. Defined.

Abbreviation emits A := (option (A * list event)).

Definition ret {A} (a : A) : emits A := Some (a, []).

Definition bind {A B} (m : emits A) (f : A -> emits B) : emits B :=
  '(a, ev1) ← m; '(b, ev2) ← f a; Some (b, ev1 ++ ev2).

Definition tell (ev : event) : emits unit := Some (tt, [ev]).

Definition panic {A} : emits A := None.

(** A computation without events, as an [emits]. *)
Definition quiet {A} (m : option A) : emits A := match m with Some a => ret a | None => None end.

Notation "'let*' x := m 'in' k" := (bind m (fun x => k))
  (at level 10, x name, m at level 100, k at level 200) : go_scope.
Notation "m ;;; k" := (bind m (fun _ => k)) (at level 199, right associativity) : go_scope.
#[global] Arguments bind : simpl never.

(** ** Tracers

    The interfaces [Span] and [Tracer]: starting a span gives a context and the
    span, with the events of the start; the methods of a span emit events. *)

Record Span := mkSpan { SetTag : string -> string -> list event; Finish : list event }.

Record Tracer := mkTracer {
  StartSpanFromContext : Context -> string -> (Context * Span) * list event
}.

Definition noopSpan : Span := mkSpan (fun _ _ => []) [].

Definition noopTracer : Tracer := mkTracer (fun ctx _ => ((ctx, noopSpan), [])).

(** The tracer of tracing_datadog.go; the tracing library is a parameter. *)
Section Datadog.
Context {DDSpan : Type} (ddStart : Context -> string -> (DDSpan * Context) * list event)
  (ddSetTag : DDSpan -> string -> string -> list event) (ddFinish : DDSpan -> list event).

Definition ddSpan (span : DDSpan) : Span := mkSpan (fun key value => ddSetTag span key value) (ddFinish span).

Definition dataDogTracer : Tracer :=
  mkTracer (fun ctx op => let '((span, newCtx), ev) := ddStart ctx op in ((newCtx, ddSpan span), ev)).

Definition NewDatadogTracer : Tracer := dataDogTracer.
End Datadog.

(** What is expected of the library: a span is known by its operation, its
    events are its own, and the context derived for it keeps the values that
    the program has stored. *)
Class SpanLibrary {DDSpan : Type} (ddStart : Context -> string -> (DDSpan * Context) * list event)
    (ddSetTag : DDSpan -> string -> string -> list event) (ddFinish : DDSpan -> list event) : Prop := {
  dd_start ctx op : exists span newCtx, ddStart ctx op = ((span, newCtx), [SpanStarted op]) /\
    logger newCtx = logger ctx /\ monitoring newCtx = monitoring ctx /\ workID newCtx = workID ctx /\
    (forall key value, ddSetTag span key value = [SpanTagged op key value]) /\
    ddFinish span = [SpanFinished op]
}.

(** A library that records the spans, and pushes them on the context. *)
Definition recStart (ctx : Context) (op : string) : (string * Context) * list event :=
  ((op, mkContext (logger ctx) (monitoring ctx) (workID ctx) (op :: spans ctx)), [SpanStarted op]).
Definition recSetTag (op key value : string) : list event := [SpanTagged op key value].
Definition recFinish (op : string) : list event := [SpanFinished op].

#[export] Instance recording_library : SpanLibrary recStart recSetTag recFinish.
Proof. split. intros ctx op. by eexists _, _. Qed.

Definition recordingTracer : Tracer := NewDatadogTracer recStart recSetTag recFinish.

(** [TracePattern]: the new context and the finish function. *)
Definition TracePattern (t : Tracer) (ctx : Context) (patternName : string)
    : (Context * emits unit) * list event :=
  let '((newCtx, span), ev) := StartSpanFromContext t ctx patternName in
  ((newCtx, Some (tt, Finish span)), ev).

Definition LogPatternStart (ctx : Context) (patternName : string) : emits unit :=
  tell (PatternStarted (LoggerFromContext ctx) patternName (WorkIDFromContext ctx)).

Definition LogPatternEnd (ctx : Context) (patternName : string) (output : bool) : emits unit :=
  tell (PatternEnded (LoggerFromContext ctx) patternName output (WorkIDFromContext ctx)).

(** ** Lemmas *)

Lemma bind_ret {A B} (a : A) (f : A -> emits B) : bind (ret a) f = f a.
Proof. unfold bind, ret. simpl. by destruct (f a) as [[b ev]|]. Qed.

Lemma bind_assoc {A B C} (m : emits A) (f : A -> emits B) (g : B -> emits C) :
  bind (bind m f) g = bind m (fun a => bind (f a) g).
Proof.
  unfold bind. destruct m as [[a ev1]|]; simpl; [|done].
  destruct (f a) as [[b ev2]|]; simpl; [|done].
  destruct (g b) as [[c ev3]|]; simpl; [|done]. by rewrite app_assoc.
Qed.

Lemma bind_Some {A B} (m : emits A) (f : A -> emits B) b ev :
  bind m f = Some (b, ev) <->
  exists a ev1 ev2, m = Some (a, ev1) /\ f a = Some (b, ev2) /\ ev = ev1 ++ ev2.
Proof.
  unfold bind. destruct m as [[a ev1]|]; simpl; [|naive_solver].
  destruct (f a) as [[b' ev2]|] eqn:E; simpl; naive_solver.
Qed.

(** The result of a computation, its events left out. *)
Definition result {A} (m : emits A) : option A := fst <$> m.

#[global] Arguments result : simpl never.

Lemma result_bind {A B} (m : emits A) (f : A -> emits B) :
  result (bind m f) = (a ← result m; result (f a)).
Proof.
  unfold result, bind. destruct m as [[a ev1]|]; simpl; [|done].
  by destruct (f a) as [[b ev2]|].
Qed.

Lemma result_Some {A} (a : A) ev : result (Some (a, ev)) = Some a.
Proof. done. Qed.

Lemma result_ret {A} (a : A) : result (ret a) = Some a.
Proof. done. Qed.

Lemma result_quiet {A} (m : option A) : result (quiet m) = m.
Proof. by destruct m. Qed.
