(* ===== verification/GlobalTracer.v ===== *)
(** * monitoring/tracing.go: the package-level tracer

    [defaultTracer] is read by [GlobalTracer] and replaced by [SetGlobalTracer]
    under a [sync.RWMutex], by any number of goroutines.  A call is a sequence
    of transitions: the lock, the access to the variable, the deferred unlock.
    A writer that waits for the readers to leave keeps new readers out. *)
From S2P Require Import Prelude Monitoring.

(** ** Goroutines *)

(** Where a call is.  [since] is the index in [history] of the tracer the
    variable held when the call began. *)
Inductive call :=
| Get (since : nat)                        (* [GlobalTracer()] *)
| GetLocked (since : nat)                  (* after [RLock] *)
| GetRead (since : nat) (v : Tracer)       (* the value to return is read *)
| GetDone (since : nat) (v : Tracer)
| Put (t : Tracer)                         (* [SetGlobalTracer(t)] *)
| PutWaiting (t : Tracer)                  (* in [Lock], for the readers to leave *)
| PutLocked (t : Tracer)
| PutWritten (t : Tracer)
| PutDone (t : Tracer).

Record gt_state := mkG {
  calls : list call;
  readers : nat;                           (* the mutex: readers inside *)
  announced : bool;                        (* and a writer, inside or waiting *)
  defaultTracer : Tracer;
  history : list Tracer                    (* the values the variable has held *)
}.

(** The package is initialised with the no-op tracer. *)
Definition gt_initial : gt_state := mkG [] 0 false noopTracer [noopTracer].

Inductive gt_step : gt_state -> gt_state -> Prop :=
| g_get cs n w v h :
    gt_step (mkG cs n w v h) (mkG (cs ++ [Get (length h - 1)]) n w v h)
| g_put t cs n w v h :
    gt_step (mkG cs n w v h) (mkG (cs ++ [Put t]) n w v h)
| g_rlock k a b n v h :                                        (* RLock *)
    gt_step (mkG (a ++ Get k :: b) n false v h) (mkG (a ++ GetLocked k :: b) (S n) false v h)
| g_read k a b n w v h :
    gt_step (mkG (a ++ GetLocked k :: b) n w v h) (mkG (a ++ GetRead k v :: b) n w v h)
| g_runlock k r a b n w v h :                                  (* RUnlock *)
    gt_step (mkG (a ++ GetRead k r :: b) (S n) w v h) (mkG (a ++ GetDone k r :: b) n w v h)
| g_announce t a b n v h :                                     (* Lock *)
    gt_step (mkG (a ++ Put t :: b) n false v h) (mkG (a ++ PutWaiting t :: b) n true v h)
| g_lock t a b w v h :
    gt_step (mkG (a ++ PutWaiting t :: b) 0 w v h) (mkG (a ++ PutLocked t :: b) 0 w v h)
| g_write t a b n w v h :
    gt_step (mkG (a ++ PutLocked t :: b) n w v h) (mkG (a ++ PutWritten t :: b) n w t (h ++ [t]))
| g_unlock t a b n v h :                                       (* Unlock *)
    gt_step (mkG (a ++ PutWritten t :: b) n true v h) (mkG (a ++ PutDone t :: b) n false v h).

(** ** Invariant *)

Definition reading (c : call) : nat := match c with GetLocked _ | GetRead _ _ => 1 | _ => 0 end.
Definition writing (c : call) : nat := match c with PutLocked _ | PutWritten _ => 1 | _ => 0 end.
Definition claiming (c : call) : nat :=
  match c with PutWaiting _ | PutLocked _ | PutWritten _ => 1 | _ => 0 end.

(** The value a call returns is one the variable has held since it began. *)
Definition seen (h : list Tracer) (c : call) : Prop :=
  match c with
  | Get k | GetLocked k => (k < length h)%nat
  | GetRead k v | GetDone k v => exists i, (k <= i)%nat /\ h !! i = Some v
  | _ => True
  end.

Record gt_inv (st : gt_state) : Prop := {
  gi_readers : sum_list_with reading (calls st) = readers st;
  gi_claim : sum_list_with claiming (calls st) = if announced st then 1%nat else 0%nat;
  gi_writing : (0 < sum_list_with writing (calls st))%nat -> readers st = 0%nat;
  gi_history : last (history st) = Some (defaultTracer st);
  gi_seen : Forall (seen (history st)) (calls st)
}.

Lemma writing_claiming cs : (sum_list_with writing cs <= sum_list_with claiming cs)%nat.
Proof. induction cs as [|[] cs IH]; simpl; lia. Qed.

Lemma seen_snoc h t c : seen h c -> seen (h ++ [t]) c.
Proof.
  destruct c; simpl; try done; rewrite ?length_app; [lia|lia|..];
    intros (i & ? & ?); exists i; (split; [done|by apply lookup_app_l_Some]).
Qed.

Lemma last_lookup_pred {A} (h : list A) v : last h = Some v -> h !! (length h - 1)%nat = Some v /\ (0 < length h)%nat.
Proof.
  intros Hv. rewrite last_lookup in Hv. pose proof (lookup_lt_Some _ _ _ Hv).
  replace (length h - 1)%nat with (pred (length h)) by lia. split; [done|lia].
Qed.

Lemma gt_inv_step st st' : gt_inv st -> gt_step st st' -> gt_inv st'.
Proof.
  intros [Hr Hc Hw Hh Hs] Hstep. pose proof (last_lookup_pred _ _ Hh) as [Hl Hlen].
  destruct Hstep; simpl in *; rewrite ?sum_list_with_app in *; simpl in *;
    rewrite ?Forall_app, ?Forall_cons in *;
    (split; simpl; rewrite ?sum_list_with_app, ?Forall_app, ?Forall_cons; simpl; try done; try lia).
  - split_and!; [done|lia|constructor].
  - pose proof (writing_claiming a). pose proof (writing_claiming b). lia.
  - destruct Hs as (? & Hk & ?). split_and!; [done| |done]. exists (length h - 1)%nat. simpl in Hk. split; [lia|done].
  - by rewrite last_snoc.
  - destruct Hs as (Ha & _ & Hb). split_and!; [|done|]; (eapply Forall_impl; [eassumption|]);
      intros c; apply seen_snoc.
Qed.

Lemma gt_inv_reachable st : rtc gt_step gt_initial st -> gt_inv st.
Proof.
  intros Hr. pattern st. eapply rtc_ind_r; [|intros ? ? _ ? ?; by eapply gt_inv_step|exact Hr].
  by split.
Qed.

(** ** Progress *)

(** The transitions a call has still to make. *)
Definition left_to_do (c : call) : nat :=
  match c with
  | Get _ => 3 | GetLocked _ => 2 | GetRead _ _ => 1 | GetDone _ _ => 0
  | Put _ => 4 | PutWaiting _ => 3 | PutLocked _ => 2 | PutWritten _ => 1 | PutDone _ => 0
  end.

Definition gt_measure (st : gt_state) : nat := sum_list_with left_to_do (calls st).

(** A call under way moves, every transition but that of a new call being one
    of a call that gets closer to its end. *)
Lemma gt_step_measure st st' : gt_step st st' ->
  gt_measure st' = pred (gt_measure st) /\ (0 < gt_measure st)%nat \/
  exists c, calls st' = calls st ++ [c].
Proof.
  destruct 1; unfold gt_measure; simpl; rewrite ?sum_list_with_app; simpl; eauto; left; lia.
Qed.

Lemma sum_list_pos {A} (f : A -> nat) l : (0 < sum_list_with f l)%nat -> exists a x b, l = a ++ x :: b /\ (0 < f x)%nat.
Proof.
  induction l as [|x l IH]; simpl; [lia|]. intros H. destruct (decide (f x = 0)%nat) as [H0|H0].
  - destruct IH as (a & y & b & -> & Hy); [lia|]. by exists (x :: a), y, b.
  - exists [], x, l. split; [done|lia].
Qed.

Lemma global_progress st : gt_inv st -> (0 < gt_measure st)%nat ->
  exists st', gt_step st st' /\ length (calls st') = length (calls st).
Proof.
  intros [Hr Hc Hw _ _] Hpos. destruct st as [cs n w v h]; simpl in *.
  assert (Hlen : forall (a b : list call) c c', length (a ++ c' :: b) = length (a ++ c :: b))
    by (intros; by rewrite !length_app).
  destruct (decide (sum_list_with reading cs = 0)%nat) as [Hnone|Hread].
  2:{ destruct (sum_list_pos reading cs) as (a & c & b & -> & Hc'); [lia|].
      destruct c; simpl in Hc'; try lia.
      - eexists. split; [apply g_read|]. simpl. apply Hlen.
      - rewrite sum_list_with_app in Hr. simpl in Hr. destruct n as [|n]; [lia|].
        eexists. split; [apply g_runlock|]. simpl. apply Hlen. }
  assert (n = 0%nat) as -> by lia. destruct w.
  - destruct (sum_list_pos claiming cs) as (a & c & b & -> & Hc'); [lia|].
    destruct c; simpl in Hc'; try lia; eexists; (split; [constructor|]; simpl; apply Hlen).
  - destruct (sum_list_pos left_to_do cs) as (a & c & b & -> & Hc'); [done|].
    rewrite !sum_list_with_app in *. simpl in *.
    destruct c; simpl in *; try lia; eexists; (split; [constructor|]; simpl; apply Hlen).
Qed.

(** ** Property *)

(** C40: the package-level tracer is safe to read and to replace from any number
    of goroutines: a call about to write the variable, or between its write and
    its unlock, excludes every other access; [GlobalTracer] returns a tracer
    that the variable has held since the call began, the no-op tracer or one
    given to [SetGlobalTracer]; and while some call is under way one of them
    can move, each such move bringing a call closer to its end. *)
Theorem global_tracer_safe st (run : rtc gt_step gt_initial st) :
  (forall a c b, calls st = a ++ c :: b -> writing c = 1%nat ->
     Forall (fun c' => reading c' = 0%nat /\ writing c' = 0%nat) (a ++ b)) /\
  (forall k v, GetDone k v ∈ calls st -> exists i, (k <= i)%nat /\ history st !! i = Some v) /\
  last (history st) = Some (defaultTracer st) /\
  ((0 < gt_measure st)%nat -> exists st', gt_step st st' /\ S (gt_measure st') = gt_measure st).
Proof.
  apply gt_inv_reachable in run as Hi. destruct Hi as [Hr Hc Hw Hh Hs]. split_and!; [|by rewrite Forall_forall in Hs; intros k v ?; apply (Hs (GetDone k v))|done|].
  - intros a c b Heq Hone. rewrite Heq in *.
    assert (Hone' : claiming c = 1%nat) by (by destruct c).
    rewrite !sum_list_with_app in *. simpl in *. specialize (Hw ltac:(lia)).
    pose proof (writing_claiming a). pose proof (writing_claiming b).
    assert (Hzero : forall f (l : list call), sum_list_with f l = 0%nat -> Forall (fun c => f c = 0%nat) l).
    { intros f l. induction l as [|x l IH]; simpl; intros; constructor; [lia|]. apply IH. lia. }
    assert (Hcl : (claiming c <= if announced st then 1 else 0)%nat) by (destruct (announced st); lia).
    apply Forall_and. split; apply Hzero; rewrite sum_list_with_app; destruct (announced st); lia.
  - intros Hpos. destruct (global_progress st) as (st' & Hst & Hlen); [by apply gt_inv_reachable|done|].
    exists st'. split; [done|]. apply gt_step_measure in Hst as [[-> ?]|[c Hcs]]; [lia|].
    rewrite Hcs, length_app in Hlen. simpl in Hlen. lia.
Qed.

(** ** Witness *)

(** A reader begins, the tracer is replaced, the reader goes on. *)
Lemma global_tracer_safe_witness :
  exists st, rtc gt_step gt_initial st /\ GetDone 0 recordingTracer ∈ calls st /\
    exists i, history st !! i = Some recordingTracer.
Proof.
  set (t := recordingTracer).
  assert (Hrun : rtc gt_step gt_initial (mkG [GetDone 0 t; PutDone t] 0 false t [noopTracer; t])).
  { unfold gt_initial. eapply rtc_l; [apply g_get|]. eapply rtc_l; [apply (g_put t)|]. simpl.
    eapply rtc_l; [apply (g_announce t [Get 0] [])|]. eapply rtc_l; [apply (g_lock t [Get 0] [])|].
    eapply rtc_l; [apply (g_write t [Get 0] [])|]. eapply rtc_l; [apply (g_unlock t [Get 0] [])|]. simpl.
    eapply rtc_l; [apply (g_rlock 0 [] [PutDone t])|]. eapply rtc_l; [apply (g_read 0 [] [PutDone t])|].
    eapply rtc_l; [apply (g_runlock 0 t [] [PutDone t])|]. apply rtc_refl. }
  eexists. split; [exact Hrun|]. split; [apply list_elem_of_here|].
  destruct (global_tracer_safe _ Hrun) as (_ & Hget & _).
  destruct (Hget 0%nat t (list_elem_of_here _ _)) as (i & _ & Hi). exists i. exact Hi.
Defined.
