(* ===== verification/Sha256.v ===== *)
(** * crypto/sha256 and encoding/hex, for the tag of cache spans

    FIPS 180-4 on lists of 32-bit words kept in [Z]. *)
From S2P Require Import Prelude.

Definition w32 (x : Z) : Z := x mod 2 ^ 32.
Definition rotr (x n : Z) : Z := Z.lor (Z.shiftr x n) (w32 (Z.shiftl x (32 - n))).

Definition Ch (x y z : Z) : Z := Z.lxor (Z.land x y) (Z.land (2 ^ 32 - 1 - x) z).
Definition Maj (x y z : Z) : Z := Z.lxor (Z.lxor (Z.land x y) (Z.land x z)) (Z.land y z).
Definition Sigma0 (x : Z) : Z := Z.lxor (Z.lxor (rotr x 2) (rotr x 13)) (rotr x 22).
Definition Sigma1 (x : Z) : Z := Z.lxor (Z.lxor (rotr x 6) (rotr x 11)) (rotr x 25).
Definition sigma0 (x : Z) : Z := Z.lxor (Z.lxor (rotr x 7) (rotr x 18)) (Z.shiftr x 3).
Definition sigma1 (x : Z) : Z := Z.lxor (Z.lxor (rotr x 17) (rotr x 19)) (Z.shiftr x 10).

Definition K256 : list Z := [
  1116352408; 1899447441; 3049323471; 3921009573; 961987163; 1508970993; 2453635748;
  2870763221; 3624381080; 310598401; 607225278; 1426881987; 1925078388; 2162078206; 2614888103;
  3248222580; 3835390401; 4022224774; 264347078; 604807628; 770255983; 1249150122; 1555081692;
  1996064986; 2554220882; 2821834349; 2952996808; 3210313671; 3336571891; 3584528711;
  113926993; 338241895; 666307205; 773529912; 1294757372; 1396182291; 1695183700; 1986661051;
  2177026350; 2456956037; 2730485921; 2820302411; 3259730800; 3345764771; 3516065817;
  3600352804; 4094571909; 275423344; 430227734; 506948616; 659060556; 883997877; 958139571;
  1322822218; 1537002063; 1747873779; 1955562222; 2024104815; 2227730452; 2361852424;
  2428436474; 2756734187; 3204031479; 3329325298].

Definition H256 : list Z := [
  1779033703; 3144134277; 1013904242; 2773480762; 1359893119; 2600822924; 528734635; 1541459225].

(** The message with a one bit, zeros, and its length in bits on 64 bits, in
    bytes. *)
Definition be_bytes (n : nat) (x : Z) : list Z :=
  map (fun i => Z.shiftr x (8 * Z.of_nat i) mod 256) (rev (List.seq 0 n)).

Definition pad (msg : list Z) : list Z :=
  msg ++ [128] ++ replicate (Z.to_nat ((55 - blen msg) mod 64)) 0 ++ be_bytes 8 (8 * blen msg).

Fixpoint words (l : list Z) : list Z :=
  match l with
  | a :: b :: c :: d :: l' => (a * 2 ^ 24 + b * 2 ^ 16 + c * 2 ^ 8 + d) :: words l'
  | _ => []
  end.

(** The message schedule: [w] holds the words computed so far, latest first. *)
Fixpoint schedule (n : nat) (w : list Z) : list Z :=
  match n with
  | O => rev w
  | S n' =>
      let at_ i := default 0 (w !! i) in
      schedule n' (w32 (sigma1 (at_ 1%nat) + at_ 6%nat + sigma0 (at_ 14%nat) + at_ 15%nat) :: w)
  end.

Fixpoint rounds (kw : list (Z * Z)) (s : list Z) : list Z :=
  match kw, s with
  | (k, w) :: kw', [a; b; c; d; e; f; g; h] =>
      let t1 := h + Sigma1 e + Ch e f g + k + w in
      let t2 := Sigma0 a + Maj a b c in
      rounds kw' [w32 (t1 + t2); a; b; c; w32 (d + t1); e; f; g]
  | _, _ => s
  end.

Definition block (h : list Z) (ws : list Z) : list Z :=
  zip_with (fun x y => w32 (x + y)) h (rounds (zip K256 (schedule 48 (rev ws))) h).

Fixpoint blocks (fuel : nat) (ws : list Z) (h : list Z) : list Z :=
  match fuel, ws with
  | S fuel', _ :: _ => blocks fuel' (drop 16 ws) (block h (take 16 ws))
  | _, _ => h
  end.

(** [sha256.Sum256]. *)
Definition Sum256 (msg : bytes) : bytes :=
  let ws := words (pad (map bz msg)) in
  map byte_of_Z (concat (map (be_bytes 4) (blocks (length ws) ws H256))).

Definition hex_digit (n : Z) : byte := byte_of_Z (if n <? 10 then 48 + n else 87 + n).

(** [hex.EncodeToString]. *)
Definition EncodeToString (b : bytes) : bytes :=
  concat (map (fun x => [hex_digit (bz x / 16); hex_digit (bz x mod 16)]) b).

Lemma length_zip_with {A B C} (f : A -> B -> C) l k n :
  length l = n -> length k = n -> length (zip_with f l k) = n.
Proof. intros <- Hk. rewrite length_zip_with. lia. Qed.

Lemma length_rounds kw : forall s, length s = 8%nat -> length (rounds kw s) = 8%nat.
Proof.
  induction kw as [|[k w] kw IH]; intros s Hs; [done|].
  destruct s as [|a [|b [|c [|d [|e [|f [|g [|h [|? ?]]]]]]]]]; try done. by apply IH.
Qed.

Lemma length_blocks fuel : forall ws h, length h = 8%nat -> length (blocks fuel ws h) = 8%nat.
Proof.
  induction fuel as [|fuel IH]; intros ws h Hh; [done|]. destruct ws; [done|]. simpl.
  apply IH. apply length_zip_with; [done|]. by apply length_rounds.
Qed.

(** A digest has 32 bytes. *)
Lemma length_Sum256 msg : length (Sum256 msg) = 32%nat.
Proof.
  unfold Sum256. rewrite length_map.
  pose proof (length_blocks (length (words (pad (map bz msg)))) (words (pad (map bz msg))) H256 eq_refl) as Hl.
  set (hs := blocks _ _ _) in *. clearbody hs.
  destruct hs as [|a [|b [|c [|d [|e [|f [|g [|h [|? ?]]]]]]]]]; done.
Qed.

Lemma length_EncodeToString b : length (EncodeToString b) = (2 * length b)%nat.
Proof. unfold EncodeToString. induction b as [|x b IH]; simpl in *; [done|]. lia. Qed.
