(* ===== verification/CacheTracer.v ===== *)
(** * monitoring/cache.go and analyzer/cache/tracer.go: the tracing decorator

    [CacheStoreTracer] wraps a store: each operation runs inside a span tagged
    with a prefix of the digest of the token.  The spans are kept in the state
    of the decorated store, in the order they are emitted. *)
From S2P Require Import Prelude Rules CacheStore Monitoring Sha256.

(** [tokenDigestPrefix]: a slice of the hexadecimal digest, which is longer. *)
Definition tokenDigestPrefix (token : bytes) : option string :=
  prefix ← slice (EncodeToString (Sum256 token)) 0 12;
  Some (to_str prefix).

(** [TraceCacheGetMatches] and [TraceCacheSaveMatches]: the events of the start
    and those of the finish function. *)
Definition TraceCache (t : Tracer) (ctx : Context) (operation : string) (token : bytes)
    : option (Context * list event * list event) :=
  let '((newCtx, span), started) := StartSpanFromContext t ctx operation in
  digest ← tokenDigestPrefix token;
  Some (newCtx, started ++ SetTag span "cache.token" digest, Finish span).

Definition TraceCacheGetMatches t ctx token := TraceCache t ctx "anonymize_cache_get_matches" token.
Definition TraceCacheSaveMatches t ctx token := TraceCache t ctx "anonymize_cache_save_matches" token.

Record traced (C : Type) := mkTraced { underlying : C; trace : list event }.
Arguments mkTraced {C}.
Arguments underlying {C}.
Arguments trace {C}.

Section Decorator.
Context {C : Type} `{CacheStore C} (t : Tracer) (ctx : Context).

Definition TracerGetMatches (data : bytes) (c : traced C) : option ((results + string) * traced C) :=
  '(_, started, finished) ← TraceCacheGetMatches t ctx data;
  '(got, c') ← GetMatches data (underlying c);
  Some (got, mkTraced c' (trace c ++ started ++ finished)).

Definition TracerSaveMatches (data : bytes) (m : results) (c : traced C)
    : option (option string * traced C) :=
  '(_, started, finished) ← TraceCacheSaveMatches t ctx data;
  '(err, c') ← SaveMatches data m (underlying c);
  Some (err, mkTraced c' (trace c ++ started ++ finished)).

Definition CacheStoreTracer : CacheStore (traced C) := {|
  GetMatches := TracerGetMatches;
  SaveMatches := TracerSaveMatches
|}.
End Decorator.

Lemma tokenDigestPrefix_total token :
  exists prefix, tokenDigestPrefix token = Some (to_str prefix) /\ length prefix = 12%nat.
Proof.
  unfold tokenDigestPrefix.
  assert (Hl : blen (EncodeToString (Sum256 token)) = 64).
  { unfold blen. by rewrite length_EncodeToString, length_Sum256. }
  rewrite slice_Some by lia. simpl. eexists. split; [done|].
  pose proof (length_sub (EncodeToString (Sum256 token)) 0 12 ltac:(lia) ltac:(lia)) as Hs.
  unfold blen in Hs. lia.
Qed.

(** C39: the decorator is transparent: under the DataDog tracer, over any
    tracing library that keeps its contract, it answers what the store under it
    answers, panics only if that store does, and leaves exactly one span per
    operation, tagged with twelve characters of the token's digest and closed. *)
Theorem tracer_transparent {C} `{CacheStore C} {DDSpan} ddStart ddSetTag ddFinish
    `{!SpanLibrary (DDSpan:=DDSpan) ddStart ddSetTag ddFinish} ctx data m (c : traced C) :
  exists digest, length digest = 12%nat /\ tokenDigestPrefix data = Some (to_str digest) /\
    let t := NewDatadogTracer ddStart ddSetTag ddFinish in
    let span name := [SpanStarted name; SpanTagged name "cache.token" (to_str digest); SpanFinished name] in
    TracerGetMatches t ctx data c =
      ('(got, c') ← GetMatches data (underlying c);
       Some (got, mkTraced c' (trace c ++ span "anonymize_cache_get_matches"%string))) /\
    TracerSaveMatches t ctx data m c =
      ('(err, c') ← SaveMatches data m (underlying c);
       Some (err, mkTraced c' (trace c ++ span "anonymize_cache_save_matches"%string))).
Proof.
  destruct (tokenDigestPrefix_total data) as (prefix & Hp & Hl). exists prefix.
  split; [done|]. split; [done|]. cbv zeta.
  assert (Ht : forall op, exists newCtx, TraceCache (NewDatadogTracer ddStart ddSetTag ddFinish) ctx op data =
    Some (newCtx, [SpanStarted op; SpanTagged op "cache.token" (to_str prefix)], [SpanFinished op])).
  { intros op. unfold TraceCache, NewDatadogTracer, dataDogTracer. simpl.
    destruct (dd_start ctx op) as (span & newCtx & -> & _ & _ & _ & Htag & Hfin). simpl.
    rewrite Hp. simpl. rewrite Htag, Hfin. by exists newCtx. }
  unfold TracerGetMatches, TraceCacheGetMatches, TracerSaveMatches, TraceCacheSaveMatches.
  split; [destruct (Ht "anonymize_cache_get_matches"%string) as [? ->]
    |destruct (Ht "anonymize_cache_save_matches"%string) as [? ->]]; done.
Qed.

Lemma tracer_transparent_witness :
  TracerGetMatches recordingTracer Background (of_str "abc") (mkTraced (tt : Noop) []) =
    Some (inl ∅, mkTraced tt [SpanStarted "anonymize_cache_get_matches";
      SpanTagged "anonymize_cache_get_matches" "cache.token" "ba7816bf8f01"; SpanFinished "anonymize_cache_get_matches"]).
Proof.
  destruct (tracer_transparent recStart recSetTag recFinish Background (of_str "abc") ∅ (mkTraced (tt : Noop) []))
    as (digest & _ & Hd & Hg & _).
  assert (Hv : tokenDigestPrefix (of_str "abc") = Some "ba7816bf8f01"%string) by (vm_compute; reflexivity).
  rewrite Hv in Hd. injection Hd as Hd. unfold recordingTracer. rewrite Hg. simpl. rewrite <- Hd. reflexivity.
Defined.

(** The decorated store keeps the contract of the store under it. *)
#[export] Instance CacheStoreTracer_Laws {C} (view : C -> bytes -> results) `{CacheStoreLaws C view} t ctx :
  @CacheStoreLaws (traced C) (CacheStoreTracer t ctx) (fun c => view (underlying c)).
Proof.
  assert (Ht : forall op data, exists ctx' s f, TraceCache t ctx op data = Some (ctx', s, f)).
  { intros op data. unfold TraceCache. destruct (StartSpanFromContext t ctx op) as [[newCtx span] started].
    destruct (tokenDigestPrefix_total data) as (p & -> & _). simpl. eauto. }
  split; simpl.
  - intros data c. unfold TracerGetMatches. destruct (Ht "anonymize_cache_get_matches"%string data) as (?&?&?&He).
    unfold TraceCacheGetMatches. rewrite He. simpl.
    destruct (get_total (view:=view) data (underlying c)) as [[got c'] ->]. by eexists.
  - intros data m c. unfold TracerSaveMatches. destruct (Ht "anonymize_cache_save_matches"%string data) as (?&?&?&He).
    unfold TraceCacheSaveMatches. rewrite He. simpl.
    destruct (save_total (view:=view) data m (underlying c)) as [[err c'] ->]. by eexists.
  - intros data c m c' Hg. unfold TracerGetMatches, TraceCacheGetMatches in Hg.
    destruct (TraceCache _ _ _ _) as [[[? s] f]|]; simpl in Hg; [|done].
    destruct (GetMatches data (underlying c)) as [[got cu]|] eqn:E; simpl in Hg; simplify_eq.
    by eapply get_sound.
  - intros data c got c' Hg. unfold TracerGetMatches, TraceCacheGetMatches in Hg.
    destruct (TraceCache _ _ _ _) as [[[? s] f]|]; simpl in Hg; [|done].
    destruct (GetMatches data (underlying c)) as [[gotu cu]|] eqn:E; simpl in Hg; simplify_eq.
    by eapply get_keeps.
  - intros data m c err c' Hs. unfold TracerSaveMatches, TraceCacheSaveMatches in Hs.
    destruct (TraceCache _ _ _ _) as [[[? s] f]|]; simpl in Hs; [|done].
    destruct (SaveMatches data m (underlying c)) as [[erru cu]|] eqn:E; simpl in Hs; simplify_eq.
    by eapply save_sound.
Qed.

(** The digest prefix of [abc]. *)
Example digest_abc : tokenDigestPrefix (of_str "abc") = Some "ba7816bf8f01"%string.
Proof. vm_compute. reflexivity. Qed.
