(* ===== verification/Patterns.v ===== *)
(** * pattern/pattern.go and pattern/meta.go: patterns and their combination

    A [Pattern] is the Go interface: a name and a [Match].  [NewBasePattern]
    wraps a predicate with the monitoring of [BasePattern.Match]; the
    combinators of meta.go build predicates out of patterns.  The tracer is the
    package-level one.  [Regex] takes [regexp.Compile] as an argument: the
    expression is the caller's and may use any of its syntax. *)
From S2P Require Import Prelude GoBytes Unicode Monitoring.

(** [PatternPredicate]. *)
Definition PatternPredicate := Context -> bytes -> emits bool.

Record Pattern := mkPattern { PName : string; PMatch : Context -> bytes -> emits bool }.

(** [BasePattern]: the implementation of the interface in this package. *)
Record BasePattern := mkBasePattern { base_name : string; base_f : PatternPredicate }.

Definition BaseName (p : BasePattern) : string := base_name p.

Section WithTracer.
Context (t : Tracer).

(** [BasePattern.Match]: the finish function is deferred, so it runs after
    the records. *)
Definition BaseMatch (p : BasePattern) (ctx : Context) (input : bytes) : emits bool :=
  if negb (PatternMonitoringEnabled ctx) then base_f p ctx input
  else
    let '((newCtx, traceFinish), ev) := TracePattern t ctx (base_name p) in
    Some (tt, ev) ;;;
    LogPatternStart newCtx (base_name p) ;;;
    let* output := base_f p newCtx input in
    LogPatternEnd newCtx (base_name p) output ;;;
    traceFinish ;;;
    ret output.

(** A [BasePattern] where a [Pattern] is expected. *)
Definition as_pattern (p : BasePattern) : Pattern := mkPattern (BaseName p) (BaseMatch p).

Definition NewBasePattern (name : string) (f : PatternPredicate) : Pattern :=
  as_pattern (mkBasePattern name f).

(** [getFunctionName]: the part of a symbol after the last slash; the symbol is
    what the runtime calls the function. *)
Definition getFunctionName (fullName : string) : string :=
  let parts := Split (of_str fullName) "/"%byte in
  to_str (List.last parts []).

(** [PatternFunc(f)]: the name is derived from the symbol of the function. *)
Definition PatternFunc (fullName : string) (f : PatternPredicate) : Pattern :=
  NewBasePattern (getFunctionName fullName) f.

(** A function whose context is the blank parameter: it emits nothing itself. *)
Definition ignoring (f : bytes -> option bool) : PatternPredicate := fun _ s => quiet (f s).

(** ** meta.go *)

Definition joined (ps : list Pattern) : string := String.concat ", " (map PName ps).

Definition Not (f : Pattern) : Pattern :=
  NewBasePattern ("Not(" ++ PName f ++ ")") (fun ctx s =>
    let* b := PMatch f ctx s in ret (negb b)).

(** The loop of [All]: false on the first pattern that does not match. *)
Fixpoint All_loop (ps : list Pattern) (ctx : Context) (s : bytes) (last : bool) : emits bool :=
  match ps with
  | [] => ret last
  | f :: ps' =>
      let* b := PMatch f ctx s in
      if negb b then ret false else All_loop ps' ctx s last
  end.

Definition All (funcs : list Pattern) : Pattern :=
  NewBasePattern ("All(" ++ joined funcs ++ ")") (fun ctx s =>
    All_loop funcs ctx s (0 <? blen funcs)).

Definition And (a b : Pattern) : Pattern :=
  NewBasePattern ("And(" ++ PName a ++ ", " ++ PName b ++ ")") (fun ctx s =>
    let* x := PMatch a ctx s in
    if negb x then ret false else PMatch b ctx s).

Fixpoint Any_loop (ps : list Pattern) (ctx : Context) (s : bytes) : emits bool :=
  match ps with
  | [] => ret false
  | f :: ps' =>
      let* b := PMatch f ctx s in
      if b then ret true else Any_loop ps' ctx s
  end.

Definition Any (funcs : list Pattern) : Pattern :=
  NewBasePattern ("Any(" ++ joined funcs ++ ")") (fun ctx s => Any_loop funcs ctx s).

Definition Or (a b : Pattern) : Pattern :=
  NewBasePattern ("Or(" ++ PName a ++ ", " ++ PName b ++ ")") (fun ctx s =>
    let* x := PMatch a ctx s in
    if x then ret true else PMatch b ctx s).

Definition EqualTo (ref : bytes) : Pattern :=
  NewBasePattern "Equal" (fun _ s => ret (Equal ref s)).

Definition IgnoreCaseEqual (ref : bytes) : Pattern :=
  NewBasePattern "IgnoreCaseEqual" (fun _ s => ret (EqualFold ref s)).

Definition StartsWith (ref : bytes) : Pattern :=
  NewBasePattern "StartsWith" (fun _ s => ret (HasPrefix s ref)).

Definition EndsWith (ref : bytes) : Pattern :=
  NewBasePattern "EndsWith" (fun _ s => ret (HasSuffix s ref)).

(** [Regex]: the error of [Compile] is wrapped and returned; [quote] is [%q]. *)
Definition Regex (quote : string -> string) (compile : string -> (bytes -> bool) + string)
    (expr : string) : Pattern + string :=
  match compile expr with
  | inr err => inr ("failed to compile regex pattern " ++ quote expr ++ ": " ++ err)%string
  | inl re => inl (NewBasePattern ("Regex(" ++ expr ++ ")") (fun _ s => ret (re s)))
  end.

(** The loop of [AtLeastN], with the number of patterns and the two counts. *)
Fixpoint AtLeastN_loop (ps : list Pattern) (total n passes fails : Z) (ctx : Context) (s : bytes)
    : emits bool :=
  match ps with
  | [] => ret false
  | f :: ps' =>
      let* b := PMatch f ctx s in
      let passes := if b then passes + 1 else passes in
      let fails := if b then fails else fails + 1 in
      if total - fails <? n then ret false
      else if n <=? passes then ret true
      else AtLeastN_loop ps' total n passes fails ctx s
  end.

(** The decimal notation of [%d], a parameter of the name only. *)
Context (show : Z -> string).

Definition clamp (n : Z) (patterns : list Pattern) : Z :=
  let n := if n <? 1 then 1 else n in
  if blen patterns <? n then blen patterns else n.

Definition AtLeastN (n : Z) (patterns : list Pattern) : Pattern :=
  let n := clamp n patterns in
  NewBasePattern ("AtLeastN(" ++ show n ++ ", " ++ joined patterns ++ ")") (fun ctx s =>
    AtLeastN_loop patterns (blen patterns) n 0 0 ctx s).

(** ** Patterns that answer a function of the input *)

(** [answers p f]: in every context [p] answers [f], without panic. *)
Definition answers (p : Pattern) (f : bytes -> bool) : Prop :=
  forall ctx s, result (PMatch p ctx s) = Some (f s).

Lemma BaseMatch_result name f ctx s :
  exists ctx', result (BaseMatch (mkBasePattern name f) ctx s) = result (f ctx' s).
Proof.
  unfold BaseMatch, TracePattern. destruct (PatternMonitoringEnabled ctx); simpl; [|by exists ctx].
  destruct (StartSpanFromContext t ctx name) as [[newCtx span] ev].
  exists newCtx. rewrite !result_bind, result_Some. simpl.
  destruct (result (f newCtx s)) as [b|]; simpl; [|done]. by rewrite !result_bind.
Qed.

Lemma NewBasePattern_answers name f g :
  (forall ctx s, result (f ctx s) = Some (g s)) -> answers (NewBasePattern name f) g.
Proof.
  intros Hf ctx s. destruct (BaseMatch_result name f ctx s) as [ctx' Hr].
  simpl. rewrite Hr. apply Hf.
Qed.

Lemma PatternFunc_answers name f g :
  (forall s, f s = Some (g s)) -> answers (PatternFunc name (ignoring f)) g.
Proof. intros Hf. apply NewBasePattern_answers. intros ctx s. unfold ignoring. by rewrite result_quiet. Qed.

Lemma Not_answers p f : answers p f -> answers (Not p) (fun s => negb (f s)).
Proof.
  intros Hp. apply NewBasePattern_answers. intros ctx s. rewrite result_bind, Hp. done.
Qed.

Lemma And_answers p q f g : answers p f -> answers q g -> answers (And p q) (fun s => f s && g s).
Proof.
  intros Hp Hq. apply NewBasePattern_answers. intros ctx s. rewrite result_bind, Hp. simpl.
  destruct (f s); simpl; [apply Hq|done].
Qed.

Lemma Or_answers p q f g : answers p f -> answers q g -> answers (Or p q) (fun s => f s || g s).
Proof.
  intros Hp Hq. apply NewBasePattern_answers. intros ctx s. rewrite result_bind, Hp. simpl.
  destruct (f s); simpl; [done|apply Hq].
Qed.


Lemma All_loop_result ps fs last ctx s : Forall2 answers ps fs ->
  result (All_loop ps ctx s last) = Some (forallb (fun f => f s) fs && last).
Proof.
  induction 1 as [|p f ps fs Hp _ IH]; simpl; [done|]. rewrite result_bind, Hp. simpl.
  destruct (f s); simpl; [apply IH|done].
Qed.

Lemma Any_loop_result ps fs ctx s : Forall2 answers ps fs ->
  result (Any_loop ps ctx s) = Some (existsb (fun f => f s) fs).
Proof.
  induction 1 as [|p f ps fs Hp _ IH]; simpl; [done|]. rewrite result_bind, Hp. simpl.
  destruct (f s); simpl; [done|apply IH].
Qed.

Lemma All_answers ps fs : Forall2 answers ps fs ->
  answers (All ps) (fun s => forallb (fun f => f s) fs && (0 <? blen ps)).
Proof. intros H. apply NewBasePattern_answers. intros ctx s. by apply All_loop_result. Qed.

Lemma Any_answers ps fs : Forall2 answers ps fs ->
  answers (Any ps) (fun s => existsb (fun f => f s) fs).
Proof. intros H. apply NewBasePattern_answers. intros ctx s. by apply Any_loop_result. Qed.

Definition count (fs : list (bytes -> bool)) (s : bytes) : Z := blen (List.filter (fun f => f s) fs).

Lemma count_bounds fs s : 0 <= count fs s <= blen fs.
Proof. unfold count, blen. induction fs as [|f fs IH]; simpl; [lia|]. destruct (f s); simpl; lia. Qed.

Lemma AtLeastN_loop_result ps fs n ctx s : Forall2 answers ps fs -> forall passes fails,
  passes < n -> n <= passes + blen ps -> 0 <= passes ->
  result (AtLeastN_loop ps (passes + fails + blen ps) n passes fails ctx s) =
    Some (n <=? passes + count fs s).
Proof.
  induction 1 as [|p f ps fs Hp Hps IH]; intros passes fails Hpass Hfail H0.
  - change (blen []) with 0 in Hfail. lia.
  - simpl AtLeastN_loop. rewrite result_bind, Hp. cbn [mbind option_bind].
    pose proof (count_bounds fs s). pose proof (Forall2_length _ _ _ Hps) as Hl.
    unfold count in *. rewrite blen_cons in Hfail |- *. simpl List.filter.
    destruct (f s); rewrite ?blen_cons.
    + destruct (Z.ltb_spec (passes + fails + (1 + blen ps) - fails) n); [lia|].
      destruct (Z.leb_spec n (passes + 1)).
      * rewrite result_ret. f_equal. lia.
      * replace (passes + fails + (1 + blen ps)) with ((passes + 1) + fails + blen ps) by lia.
        rewrite IH by lia. f_equal. f_equal. lia.
    + destruct (Z.ltb_spec (passes + fails + (1 + blen ps) - (fails + 1)) n).
      * rewrite result_ret. f_equal. unfold blen in *. lia.
      * destruct (Z.leb_spec n passes); [lia|].
        replace (passes + fails + (1 + blen ps)) with (passes + (fails + 1) + blen ps) by lia.
        by rewrite IH by lia.
Qed.

Lemma AtLeastN_answers n ps fs : Forall2 answers ps fs -> ps <> [] ->
  answers (AtLeastN n ps) (fun s => clamp n ps <=? count fs s).
Proof.
  intros H Hne. apply NewBasePattern_answers. intros ctx s.
  pose proof (AtLeastN_loop_result ps fs (clamp n ps) ctx s H 0 0) as Hl.
  pose proof (blen_pos _ Hne). rewrite !Z.add_0_l in Hl. apply Hl; unfold clamp; repeat case_match; lia.
Qed.
End WithTracer.

(** ** The trace of a pattern *)

(** Well-nested traces: every pattern opens its span, records its start, then
    the trace of its parts, its end, and closes its span. *)
Inductive nested (to : Logger) (id : string) : list event -> Prop :=
| nested_nil : nested to id []
| nested_pattern name b inner rest :
    nested to id inner -> nested to id rest ->
    nested to id (SpanStarted name :: PatternStarted to name id ::
               inner ++ PatternEnded to name b id :: SpanFinished name :: rest).

Lemma nested_app to id ev1 ev2 : nested to id ev1 -> nested to id ev2 -> nested to id (ev1 ++ ev2).
Proof.
  intros H1 H2. induction H1 as [|name b inner rest Hi _ Hr IH]; [done|].
  simpl. rewrite <- app_assoc. simpl. by constructor.
Qed.

(** A predicate leaves a well-nested trace when monitoring is enabled in the
    context and none otherwise. *)
Definition trace_ok (ctx : Context) (ev : list event) : Prop :=
  if PatternMonitoringEnabled ctx then nested (LoggerFromContext ctx) (WorkIDFromContext ctx) ev else ev = [].

Definition well_traced (f : PatternPredicate) : Prop :=
  forall ctx s b ev, f ctx s = Some (b, ev) -> trace_ok ctx ev.

Lemma trace_ok_nil ctx : trace_ok ctx [].
Proof. unfold trace_ok. destruct (PatternMonitoringEnabled ctx); [constructor|done]. Qed.

Lemma trace_ok_app ctx ev1 ev2 : trace_ok ctx ev1 -> trace_ok ctx ev2 -> trace_ok ctx (ev1 ++ ev2).
Proof.
  unfold trace_ok. destruct (PatternMonitoringEnabled ctx); [apply nested_app|by intros -> ->].
Qed.

Lemma ret_traced (g : bytes -> bool) : well_traced (fun _ s => ret (g s)).
Proof. intros ctx s b ev [= <- <-]. apply trace_ok_nil. Qed.

(** The functions of regex.go leave no trace. *)
Lemma ignoring_traced (g : bytes -> option bool) : well_traced (ignoring g).
Proof. intros ctx s b ev. unfold ignoring. destruct (g s); [|done]. intros [= <- <-]. apply trace_ok_nil. Qed.

Section Traces.
Context {DDSpan : Type} (ddStart : Context -> string -> (DDSpan * Context) * list event)
  (ddSetTag : DDSpan -> string -> string -> list event) (ddFinish : DDSpan -> list event)
  `{!SpanLibrary ddStart ddSetTag ddFinish} (show : Z -> string).
Abbreviation t := (NewDatadogTracer ddStart ddSetTag ddFinish).

Lemma BaseMatch_traced name f : well_traced f -> well_traced (BaseMatch t (mkBasePattern name f)).
Proof.
  intros Hf ctx s b ev. unfold BaseMatch, trace_ok.
  destruct (PatternMonitoringEnabled ctx) eqn:Hm; cbn [negb].
  2:{ intros H. apply Hf in H. unfold trace_ok in H. by rewrite Hm in H. }
  unfold TracePattern, NewDatadogTracer, dataDogTracer. simpl.
  destruct (dd_start ctx name) as (span & ctx' & -> & Hlog & Hmon & Hid & _ & Hfin). simpl.
  assert (HL : LoggerFromContext ctx' = LoggerFromContext ctx) by (unfold LoggerFromContext; by rewrite Hlog).
  assert (HM : PatternMonitoringEnabled ctx' = true) by (unfold PatternMonitoringEnabled in *; by rewrite Hmon).
  assert (HW : WorkIDFromContext ctx' = WorkIDFromContext ctx) by (unfold WorkIDFromContext; by rewrite Hid).
  unfold LogPatternStart, LogPatternEnd. rewrite Hfin, HL, HW.
  intros (_ & ? & ? & [= <-] & (_ & ? & ? & [= <-] & (o & evf & ? & Ho &
    (_ & ? & ? & [= <-] & (_ & ? & ? & [= <-] & [= <- <-] & ->)%bind_Some & ->)%bind_Some & ->)%bind_Some
    & ->)%bind_Some & ->)%bind_Some.
  apply Hf in Ho. unfold trace_ok in Ho. rewrite HM, HL, HW in Ho. subst.
  by apply (nested_pattern _ _ name o evf []); [|constructor].
Qed.

(** The patterns the program builds, from functions that leave such traces. *)
Inductive built : Pattern -> Prop :=
| built_func name f : well_traced f -> built (PatternFunc t name f)
| built_not p : built p -> built (Not t p)
| built_all ps : Forall built ps -> built (All t ps)
| built_and p q : built p -> built q -> built (And t p q)
| built_any ps : Forall built ps -> built (Any t ps)
| built_or p q : built p -> built q -> built (Or t p q)
| built_at_least n ps : Forall built ps -> built (AtLeastN t show n ps)
| built_equal ref : built (EqualTo t ref)
| built_ignore_case ref : built (IgnoreCaseEqual t ref)
| built_starts ref : built (StartsWith t ref)
| built_ends ref : built (EndsWith t ref)
| built_regex quote compile expr p : Regex t quote compile expr = inl p -> built p.

Lemma All_loop_traced ps last : Forall (fun p => well_traced (PMatch p)) ps ->
  well_traced (fun ctx s => All_loop ps ctx s last).
Proof.
  intros Hps ctx s. induction Hps as [|p ps Hp _ IH]; intros b ev; simpl.
  - intros [= <- <-]. apply trace_ok_nil.
  - intros (x & ev1 & ev2 & H1%Hp & H2 & ->)%bind_Some. apply trace_ok_app; [done|].
    destruct x; simpl in H2; [by eapply IH|]. injection H2 as <- <-. apply trace_ok_nil.
Qed.

Lemma Any_loop_traced ps : Forall (fun p => well_traced (PMatch p)) ps ->
  well_traced (fun ctx s => Any_loop ps ctx s).
Proof.
  intros Hps ctx s. induction Hps as [|p ps Hp _ IH]; intros b ev; simpl.
  - intros [= <- <-]. apply trace_ok_nil.
  - intros (x & ev1 & ev2 & H1%Hp & H2 & ->)%bind_Some. apply trace_ok_app; [done|].
    destruct x; simpl in H2; [|by eapply IH]. injection H2 as <- <-. apply trace_ok_nil.
Qed.

Lemma AtLeastN_loop_traced ps total n : Forall (fun p => well_traced (PMatch p)) ps ->
  forall passes fails, well_traced (fun ctx s => AtLeastN_loop ps total n passes fails ctx s).
Proof.
  intros Hps. induction Hps as [|p ps Hp _ IH]; intros passes fails ctx s b ev; simpl.
  - intros [= <- <-]. apply trace_ok_nil.
  - intros (x & ev1 & ev2 & H1%Hp & H2 & ->)%bind_Some. apply trace_ok_app; [done|].
    cbv zeta in H2.
    destruct (_ <? n); [injection H2 as <- <-; apply trace_ok_nil|].
    destruct (n <=? _); [injection H2 as <- <-; apply trace_ok_nil|]. by eapply IH.
Qed.

Lemma built_traced p : built p -> well_traced (PMatch p).
Proof.
  revert p. fix IH 2. intros p Hp.
  assert (HF : forall ps, Forall built ps -> Forall (fun p => well_traced (PMatch p)) ps).
  { fix IHF 2. intros ps [|p' ps' Hp' Hps']; constructor; [by apply IH|by apply IHF]. }
  destruct Hp as [name f Hf|p Hp|ps Hps|p q Hp Hq|ps Hps|p q Hp Hq|n ps Hps|ref|ref|ref|ref
    |quote compile expr p Hr];
    [..|unfold Regex in Hr; destruct (compile expr) as [re|err]; simplify_eq];
    apply BaseMatch_traced.
  - exact Hf.
  - intros ctx s b ev (x & ev1 & ev2 & H1 & [= <- <-] & ->)%bind_Some.
    rewrite app_nil_r. by eapply IH.
  - by apply All_loop_traced, HF.
  - intros ctx s b ev (x & ev1 & ev2 & H1 & H2 & ->)%bind_Some.
    apply trace_ok_app; [by eapply (IH p)|].
    destruct x; simpl in H2; [by eapply (IH q)|]. injection H2 as <- <-. apply trace_ok_nil.
  - by apply Any_loop_traced, HF.
  - intros ctx s b ev (x & ev1 & ev2 & H1 & H2 & ->)%bind_Some.
    apply trace_ok_app; [by eapply (IH p)|].
    destruct x; simpl in H2; [|by eapply (IH q)]. injection H2 as <- <-. apply trace_ok_nil.
  - by apply AtLeastN_loop_traced, HF.
  - apply (ret_traced (Equal ref)).
  - apply (ret_traced (EqualFold ref)).
  - apply (ret_traced (fun s => HasPrefix s ref)).
  - apply (ret_traced (fun s => HasSuffix s ref)).
  - apply (ret_traced re).
Qed.

(** C38: a pattern leaves no trace when monitoring is off; when it is on, under
    the DataDog tracer over any tracing library that keeps its contract, the
    spans and records are well nested, each pattern's end follows its start
    with the work identifier of the context and in its logger, and every span opened is closed
    once. *)
Theorem pattern_trace p ctx s b ev (from_program : built p)
    (answered : PMatch p ctx s = Some (b, ev)) :
  if PatternMonitoringEnabled ctx then nested (LoggerFromContext ctx) (WorkIDFromContext ctx) ev else ev = [].
Proof. by eapply built_traced. Qed.
End Traces.

Lemma pattern_trace_witness :
  let p := Not recordingTracer (EqualTo recordingTracer (of_str "a")) in
  let ctx := WithLogger (WithWorkID (WithPatternMonitoring Background true) "w") "l" in
  exists b ev, PMatch p ctx (of_str "b") = Some (b, ev) /\ nested "l" "w" ev.
Proof.
  intros p ctx. eexists _, _. split; [reflexivity|].
  exact (pattern_trace recStart recSetTag recFinish (fun _ => ""%string) p ctx (of_str "b") _ _
    (built_not _ _ _ _ _ (built_equal _ _ _ _ _)) eq_refl).
Defined.

(** C23: the combinators are the boolean connectives: on patterns that answer
    functions of the input, in every context and under every tracer, each
    combination answers the corresponding function, without panic; [All] of no
    pattern is false, like [Any] of none. *)
Theorem combinators_boolean t p q f g ps fs
    (Hp : answers p f) (Hq : answers q g) (Hps : Forall2 answers ps fs) :
  answers (Not t p) (fun s => negb (f s)) /\
  answers (And t p q) (fun s => f s && g s) /\
  answers (Or t p q) (fun s => f s || g s) /\
  answers (Any t ps) (fun s => existsb (fun h => h s) fs) /\
  answers (All t ps) (fun s => match fs with [] => false | _ => forallb (fun h => h s) fs end).
Proof.
  split_and!; [by apply Not_answers|by apply And_answers|by apply Or_answers|by apply Any_answers|].
  intros ctx s. rewrite (All_answers t ps fs Hps ctx s). f_equal.
  destruct Hps; [done|]. rewrite blen_cons. pose proof (blen_nonneg l).
  destruct (Z.ltb_spec 0 (1 + blen l)); [|lia]. by rewrite andb_true_r.
Qed.

(** C24: [AtLeastN] answers whether at least [n] of the patterns match, [n]
    being lowered to the number of patterns but never below one, so that no
    pattern at all answers false: the two early exits of its loop never change
    the answer. *)
Theorem AtLeastN_count t show n ps fs (Hps : Forall2 answers ps fs) :
  answers (AtLeastN t show n ps) (fun s => Z.max 1 (Z.min n (blen ps)) <=? count fs s).
Proof.
  intros ctx s. destruct (decide (ps = [])) as [->|Hne].
  - apply Forall2_nil_inv_l in Hps as ->.
    assert (answers (AtLeastN t show n []) (fun _ => false)) as -> by by apply NewBasePattern_answers.
    change (count [] s) with 0. change (blen (@nil Pattern)) with 0. f_equal. symmetry. apply Z.leb_gt. lia.
  - rewrite (AtLeastN_answers t show n ps fs Hps Hne ctx s). pose proof (blen_pos _ Hne). do 2 f_equal.
    unfold clamp. repeat case_match; lia.
Qed.

Lemma EqualTo_answers t ref : answers (EqualTo t ref) (Equal ref).
Proof. by apply NewBasePattern_answers. Qed.

Lemma combinators_boolean_witness :
  answers (Not noopTracer (EqualTo noopTracer (of_str "a"))) (fun s => negb (Equal (of_str "a") s)) /\
  answers (All noopTracer []) (fun _ => false).
Proof.
  destruct (combinators_boolean noopTracer (EqualTo noopTracer (of_str "a")) (EqualTo noopTracer (of_str "b"))
    (Equal (of_str "a")) (Equal (of_str "b")) [] []
    (EqualTo_answers _ _) (EqualTo_answers _ _) (List.Forall2_nil _)) as (H1 & _ & _ & _ & H2).
  split; [exact H1|exact H2].
Defined.

Lemma AtLeastN_count_witness :
  let ps := [EqualTo noopTracer (of_str "a"); EqualTo noopTracer (of_str "b")] in
  result (PMatch (AtLeastN noopTracer (fun _ => ""%string) 1 ps) Background (of_str "b")) = Some true /\
  result (PMatch (AtLeastN noopTracer (fun _ => ""%string) 1 []) Background (of_str "b")) = Some false.
Proof.
  intros ps. split.
  - exact (AtLeastN_count noopTracer (fun _ => ""%string) 1 ps [Equal (of_str "a"); Equal (of_str "b")]
      ltac:(repeat constructor; apply EqualTo_answers) Background (of_str "b")).
  - exact (AtLeastN_count noopTracer (fun _ => ""%string) 1 [] [] (List.Forall2_nil _) Background (of_str "b")).
Defined.

(** [IgnoreCaseEqual] compares ASCII texts in lower case. *)
Theorem IgnoreCaseEqual_ascii t ref s ctx
    (ascii_ref : forallb is_ascii ref = true) (ascii_input : forallb is_ascii s = true) :
  result (PMatch (IgnoreCaseEqual t ref) ctx s) =
    Some (Equal (map lower_byte ref) (map lower_byte s)).
Proof.
  destruct (BaseMatch_result t "IgnoreCaseEqual" (fun _ s => ret (EqualFold ref s)) ctx s) as [ctx' Hr].
  unfold IgnoreCaseEqual, NewBasePattern. simpl. rewrite Hr. rewrite result_ret. by rewrite EqualFold_ascii.
Qed.

Lemma IgnoreCaseEqual_ascii_witness :
  result (PMatch (IgnoreCaseEqual noopTracer (of_str "Secret")) Background (of_str "sECRET")) = Some true.
Proof.
  exact (IgnoreCaseEqual_ascii noopTracer (of_str "Secret") (of_str "sECRET") Background eq_refl eq_refl).
Defined.
