(* ===== verification/BuiltinMatchers.v ===== *)
(** * pattern/matcher.go, pattern/entity.go and rules.go: the matchers shipped

    Each matcher is an entity and a pattern built from the functions of
    pattern/regex.go, as in the source.  The functions are total (their theorems
    show that they never panic), so the matchers answer in every context. *)
From S2P Require Import Prelude GoBytes Rules Monitoring Patterns.
From S2P Require Import Regex NetIP TextMatchers RegexMatchers Documents.

(** ** entity.go *)

Definition EntityEmail : Entity := "EMAIL".
Definition EntityCPF : Entity := "CPF_NUMBER".
Definition EntityCNPJ : Entity := "CNPJ_NUMBER".
Definition EntityIPAddress : Entity := "IP_ADDRESS".
Definition EntityCreditCard : Entity := "CREDIT_CARD".
Definition EntityPhone : Entity := "PHONE".
Definition EntityLink : Entity := "LINK".
Definition EntitySSN : Entity := "SSN".
Definition EntityAddress : Entity := "ADDRESS".
Definition EntityBankInfo : Entity := "BANK_INFO".
Definition EntityUUID : Entity := "UUID".
Definition EntityVIN : Entity := "VIN".

(** ** matcher.go *)

Record PatternMatcher := mkPM { pm_entity : Entity; pm_pattern : Pattern }.

Definition NewPatternMatcher (e : Entity) (p : Pattern) : PatternMatcher := mkPM e p.

Definition PMEntity (m : PatternMatcher) : Entity := pm_entity m.

Definition PMMatch (m : PatternMatcher) (ctx : Context) (input : bytes) : emits bool :=
  PMatch (pm_pattern m) ctx input.

(** The symbol of a function of package pattern. *)
Definition symbol (name : string) : string :=
  ("github.com/Prosus-Cyber-Xchange/leakspok/pattern." ++ name)%string.

Section WithTracer.
Context (t : Tracer).

(** [PatternFunc] of a function that cannot panic. *)
Definition func (name : string) (f : bytes -> bool) : Pattern :=
  PatternFunc t (symbol name) (ignoring (fun s => Some (f s))).

Definition pMatchEmailV2 := PatternFunc t (symbol "MatchEmailV2") (ignoring MatchEmailV2).
Definition pMatchFilename := PatternFunc t (symbol "MatchFilename") (ignoring MatchFilename).
Definition pMatchRepeatingNumber := func "MatchRepeatingNumber" MatchRepeatingNumber.

Definition PhoneMatcher : PatternMatcher :=
  mkPM EntityPhone
    (And t (Not t (Any t [pMatchEmailV2; pMatchFilename; pMatchRepeatingNumber]))
           (Any t [func "MatchPhone" MatchPhone])).

Definition LinkMatcher : PatternMatcher :=
  mkPM EntityLink
    (And t (Any t [func "MatchURL" MatchURL]) (Not t pMatchEmailV2)).

Definition SSNMatcher : PatternMatcher :=
  mkPM EntitySSN
    (And t (func "MatchSSN" MatchSSN)
           (All t [Not t (PatternFunc t (symbol "MatchPhoneV2") (ignoring MatchPhoneV2));
                   Not t pMatchFilename; Not t pMatchRepeatingNumber])).

Definition EmailMatcher : PatternMatcher := mkPM EntityEmail pMatchEmailV2.

Definition IPMatcher : PatternMatcher := mkPM EntityIPAddress (func "MatchIP" MatchIP).

Definition IPv4Matcher : PatternMatcher :=
  mkPM EntityIPAddress (func "MatchIPV4" MatchIPV4).

Definition IPv6Matcher : PatternMatcher :=
  mkPM EntityIPAddress (func "MatchIPV6" MatchIPV6).

Definition CreditCardMatcher : PatternMatcher :=
  mkPM EntityCreditCard
    (And t (Any t [PatternFunc t (symbol "MatchMasterCardCreditCard") (ignoring MatchMasterCardCreditCard);
                   PatternFunc t (symbol "MatchVisaCreditCard") (ignoring MatchVisaCreditCard)])
           (All t [Not t (func "MatchUUID" MatchUUID);
                   Not t (func "MatchTestCreditCard" MatchTestCreditCard)])).

Definition AddressMatcher : PatternMatcher :=
  mkPM EntityAddress
    (And t (Any t [func "MatchStreetAddress" MatchStreetAddress;
                   func "MatchPOBox" MatchPOBox])
           (func "MatchZipCode" MatchZipCode)).

Definition BankInfoMatcher : PatternMatcher :=
  mkPM EntityBankInfo
    (And t (Any t [func "MatchIBAN" MatchIBAN]) (Not t pMatchRepeatingNumber)).

Definition VINMatcher : PatternMatcher := mkPM EntityVIN (func "MatchVIN" MatchVIN).

Definition UUIDMatcher : PatternMatcher :=
  mkPM EntityUUID
    (And t (Any t [func "Matchguid" Matchguid; func "MatchUUID" MatchUUID;
                   func "MatchUUIDV3" MatchUUIDV3; func "MatchUUIDV4" MatchUUIDV4;
                   func "MatchUUIDV5" MatchUUIDV5])
           (Not t pMatchFilename)).

Definition HaltLangDetect : Pattern :=
  Any t [pm_pattern UUIDMatcher; pm_pattern LinkMatcher; pm_pattern EmailMatcher;
         pm_pattern CreditCardMatcher].

Definition CPFMatcher : PatternMatcher :=
  mkPM EntityCPF (PatternFunc t (symbol "MatchCPF") (ignoring MatchCPF)).

Definition CNPJMatcher : PatternMatcher :=
  mkPM EntityCNPJ (Any t [PatternFunc t (symbol "MatchCNPJ") (ignoring MatchCNPJ);
                          PatternFunc t (symbol "MatchCNPJV2") (ignoring MatchCNPJV2)]).

Definition BrazilianPIIMatcher : PatternMatcher :=
  mkPM "BRAZILIAN_PII" (Any t [PatternFunc t (symbol "MatchCPF") (ignoring MatchCPF);
                               PatternFunc t (symbol "MatchCNPJ") (ignoring MatchCNPJ);
                               PatternFunc t (symbol "MatchCNPJV2") (ignoring MatchCNPJV2)]).

Definition all_matchers : list PatternMatcher :=
  [PhoneMatcher; LinkMatcher; SSNMatcher; EmailMatcher; IPMatcher; IPv4Matcher; IPv6Matcher;
   CreditCardMatcher; AddressMatcher; BankInfoMatcher; VINMatcher; UUIDMatcher; CPFMatcher;
   CNPJMatcher; BrazilianPIIMatcher].

(** ** As matchers of rules *)

(** The matcher a rule holds, in the context of a call: the runners use its
    answer only. *)
Definition as_matcher (ctx : Context) (m : PatternMatcher) : Matcher :=
  mkMatcher (PMEntity m) (fun s => result (PMMatch m ctx s)).

(** ** rules.go *)

Definition DefaultMaskString : string := "*".
Definition DefaultRedactString : string := "<REDACTED>".

Definition DefaultRuleSetting : RuleSettings :=
  mkSettings REDACT (Some (mkRedact DefaultRedactString)) (Some (mkMask DefaultMaskString 0)).

Definition default_rule (ctx : Context) (name description : string) (m : PatternMatcher) : Rule :=
  mkRule false name description (as_matcher ctx m) [] DefaultRuleSetting.

Definition DefaultCPFRule ctx := default_rule ctx "brazilian_cpf" "Brazilian CPF" CPFMatcher.
Definition DefaultCNPJRule ctx := default_rule ctx "brazilian_cnpj" "Brazilian CNPJ" CNPJMatcher.
Definition DefaultEmailRule ctx :=
  default_rule ctx "email_address" "valid email address" EmailMatcher.
Definition DefaultIPRule ctx :=
  default_rule ctx "ip_address" "valid IPv4 or IPv6 address" IPMatcher.
Definition DefaultCreditCardRule ctx :=
  default_rule ctx "credit_card" "valid credit card number" CreditCardMatcher.

Definition default_rules (ctx : Context) : list Rule :=
  [DefaultCPFRule ctx; DefaultCNPJRule ctx; DefaultEmailRule ctx; DefaultIPRule ctx;
   DefaultCreditCardRule ctx].
End WithTracer.

(** ** What the matchers answer *)

(** The answer of a function that does not panic. *)
Definition yes (b : option bool) : bool := default false b.

Definition total (f : bytes -> option bool) : Prop := forall s, is_Some (f s).

Lemma total_yes f s : total f -> f s = Some (yes (f s)).
Proof. intros Hf. by destruct (Hf s) as [b ->]. Qed.

Lemma MatchEmailV2_total : total MatchEmailV2.
Proof. intros s. destruct (MatchEmailV2_spec_lemma s) as (b & -> & _). by eexists. Qed.

Lemma MatchFilename_total : total MatchFilename.
Proof. intros s. destruct (MatchFilename_spec_lemma s) as (b & -> & _). by eexists. Qed.

Lemma MatchPhoneV2_total : total MatchPhoneV2.
Proof. intros s. destruct (MatchPhoneV2_spec_lemma s) as (b & -> & _). by eexists. Qed.

Lemma MatchVisaCreditCard_total : total MatchVisaCreditCard.
Proof. intros s. destruct (credit_cards_spec_lemma s) as (-> & _). by eexists. Qed.

Lemma MatchMasterCardCreditCard_total : total MatchMasterCardCreditCard.
Proof. intros s. destruct (credit_cards_spec_lemma s) as (_ & -> & _). by eexists. Qed.

Lemma MatchCPF_total : total MatchCPF.
Proof. intros s. destruct (MatchCPF_is_cpf s) as (b & -> & _). by eexists. Qed.

Lemma MatchCNPJ_total : total MatchCNPJ.
Proof. intros s. destruct (MatchCNPJ_is_cnpj s) as (b & -> & _). by eexists. Qed.

Lemma MatchCNPJV2_total : total MatchCNPJV2.
Proof. intros s. destruct (MatchCNPJV2_is_cnpj_v2 s) as (b & -> & _). by eexists. Qed.

Lemma func_answers t name f : answers (func t name f) f.
Proof. by apply PatternFunc_answers. Qed.

Lemma PatternFunc_total t name f : total f -> answers (PatternFunc t name (ignoring f)) (fun s => yes (f s)).
Proof. intros Hf. apply PatternFunc_answers. intros s. by apply total_yes. Qed.

Create HintDb matchers.
#[export] Hint Resolve
  MatchEmailV2_total MatchFilename_total MatchPhoneV2_total MatchVisaCreditCard_total
  MatchMasterCardCreditCard_total MatchCPF_total MatchCNPJ_total MatchCNPJV2_total : matchers.

(** A function is named by its package and its own name. *)
Example matcher_name t : PName (PatternFunc t (symbol "MatchCPF") (ignoring MatchCPF)) = "pattern.MatchCPF"%string.
Proof. reflexivity. Qed.

(** Read the boolean function off a combination of patterns. *)
Ltac solve_answers :=
  lazymatch goal with
  | |- answers (Not _ _) _ => eapply Not_answers; solve_answers
  | |- answers (And _ _ _) _ => eapply And_answers; solve_answers
  | |- answers (Any _ _) _ => eapply Any_answers; solve_answers
  | |- answers (All _ _) _ => eapply All_answers; solve_answers
  | |- answers (func _ _ _) _ => apply func_answers
  | |- answers (PatternFunc _ _ _) _ => apply PatternFunc_total; auto with matchers
  | |- answers (pMatchEmailV2 _) _ => apply PatternFunc_total; auto with matchers
  | |- answers (pMatchFilename _) _ => apply PatternFunc_total; auto with matchers
  | |- answers (pMatchRepeatingNumber _) _ => apply func_answers
  | |- Forall2 answers [] _ => apply List.Forall2_nil
  | |- Forall2 answers (_ :: _) _ => apply List.Forall2_cons; solve_answers
  end.

Lemma answers_ext p f g : answers p f -> (forall s, f s = g s) -> answers p g.
Proof. intros Hp Hfg ctx s. by rewrite Hp, Hfg. Qed.

(** An identifier of 36 characters never cleans to the sixteen digits of a card. *)
Lemma uuid_not_card s : MatchUUID s = true -> MatchVisaCreditCard s = Some false /\ MatchMasterCardCreditCard s = Some false.
Proof.
  intros Hu. destruct (credit_cards_spec_lemma s) as (-> & -> & _).
  enough ((blen (card_digits s) =? 16) = false) as -> by done. apply Z.eqb_neq. intros Hlen.
  unfold MatchUUID in Hu. destruct (Z.eqb_spec (blen s) 36) as [Hs|]; [|done]. cbn [negb] in Hu.
  assert (Hrem : forall n s, uuid_loop (Z.of_nat n) s = true ->
    (length s <= length (strip ccStripSet s) + length (List.filter (fun k => dash_at (Z.of_nat k)) (List.seq n (length s))))%nat).
  { clear. intros n s. revert n. induction s as [|c s IH]; intros n H; [simpl; lia|].
    cbn [uuid_loop] in H. fold (dash_at (Z.of_nat n)) in H. cbn [length List.seq List.filter].
    assert (Hnext : uuid_loop (Z.of_nat (S n)) s = true).
    { replace (Z.of_nat (S n)) with (Z.of_nat n + 1) by lia. by repeat case_match. }
    specialize (IH (S n) Hnext). unfold strip in *.
    set (f := fun b => negb (existsb (fun c => bz c =? bz b) ccStripSet)) in *.
    cbn [List.filter]. destruct (dash_at (Z.of_nat n)) eqn:Hd.
    - destruct (f c); cbn [length]; lia.
    - destruct (isHexDigit c) eqn:Hc; [|done].
      assert (f c = true) as -> by (revert Hc; clear; unfold f; all_bytes c; done).
      cbn [length]. lia. }
  specialize (Hrem 0%nat s Hu). unfold blen in *.
  replace (length s) with 36%nat in Hrem by lia. unfold card_digits in Hlen.
  change (length (List.filter (fun k => dash_at (Z.of_nat k)) (List.seq 0 36))) with 4%nat in Hrem. lia.
Qed.

(** ** Properties *)

Lemma all_matchers_answer t : Forall (fun m => exists f, answers (pm_pattern m) f) (all_matchers t).
Proof.
  unfold all_matchers. repeat (constructor; [eexists; unfold PhoneMatcher, LinkMatcher, SSNMatcher,
    EmailMatcher, IPMatcher, IPv4Matcher, IPv6Matcher, CreditCardMatcher, AddressMatcher, BankInfoMatcher, VINMatcher,
    UUIDMatcher, CPFMatcher, CNPJMatcher, BrazilianPIIMatcher; cbn [pm_pattern]; solve_answers|]). constructor.
Qed.

(** A matcher that answers a function of the token does not panic. *)
Definition steady (ctx : Context) (M : Matcher) : Prop :=
  exists m f, M = as_matcher ctx m /\ answers (pm_pattern m) f.

Lemma steady_returns ctx M s : steady ctx M -> is_Some (Match M s).
Proof. intros (m & f & -> & Hf). eexists. apply Hf. Qed.

Lemma shipped_steady t ctx m : m ∈ all_matchers t -> steady ctx (as_matcher ctx m).
Proof.
  intros Hm. pose proof (all_matchers_answer t) as Hall. rewrite Forall_forall in Hall.
  destruct (Hall m Hm) as [f Hf]. by exists m, f.
Qed.

Lemma steady_panic_free ctx rules :
  Forall (fun r => steady ctx (RMatcher r) /\ Forall (fun x => steady ctx (ExMatcher x)) (Exceptions r)) rules ->
  panic_free rules.
Proof.
  intros Hall. apply panic_free_all. eapply Forall_impl; [exact Hall|]. intros r [Hr Hx] data.
  split; [by eapply steady_returns|]. eapply Forall_impl; [exact Hx|]. intros x. by apply steady_returns.
Qed.

Lemma default_rules_panic_free t ctx : panic_free (default_rules t ctx).
Proof.
  apply (steady_panic_free ctx). repeat (constructor; [split; [apply (shipped_steady t); set_solver|constructor]|]).
  constructor.
Qed.

(** The credit card matcher accepts the Visa and MasterCard numbers that
    are not, without separators, one of the test numbers: its exclusion of
    universally unique identifiers removes nothing. *)
Theorem credit_card_matcher t :
  answers (pm_pattern (CreditCardMatcher t)) (fun s =>
    (yes (MatchVisaCreditCard s) || yes (MatchMasterCardCreditCard s)) && negb (MatchTestCreditCard s)).
Proof.
  eapply answers_ext; [unfold CreditCardMatcher; cbn [pm_pattern]; solve_answers|].
  intros s. cbn [existsb forallb]. change (0 <? blen [_; _]) with true.
  rewrite ?orb_false_r, ?andb_true_r.
  destruct (MatchUUID s) eqn:Hu; simpl.
  - destruct (uuid_not_card s Hu) as [-> ->]. done.
  - by rewrite (orb_comm (yes (MatchVisaCreditCard s))).
Qed.

(** The test numbers are exempted only as they are written in the table:
    the same number with dashes is found. *)
Theorem test_card_with_dashes t ctx :
  result (PMMatch (CreditCardMatcher t) ctx (of_str "4242424242424242")) = Some false /\
  result (PMMatch (CreditCardMatcher t) ctx (of_str "4242-4242-4242-4242")) = Some true.
Proof.
  assert (Ha : answers (pm_pattern (CreditCardMatcher t)) (fun s =>
    (yes (MatchMasterCardCreditCard s) || yes (MatchVisaCreditCard s)) &&
      (negb (MatchUUID s) && negb (MatchTestCreditCard s)))).
  { eapply answers_ext; [unfold CreditCardMatcher; cbn [pm_pattern]; solve_answers|].
    intros s. cbn [existsb forallb]. change (0 <? blen [_; _]) with true.
    by rewrite ?orb_false_r, ?andb_true_r. }
  unfold PMMatch. rewrite !Ha. split; vm_compute; reflexivity.
Qed.

(** ** Expressions of the caller *)

(** What is known of [regexp.Compile]: on the expressions of the syntax of
    Regex.v it returns an expression that matches as [MatchBytes] says. *)
Definition compiles (compile : string -> (bytes -> bool) + string) : Prop :=
  forall expr re, Compile expr = Some re -> exists m, compile expr = inl m /\ forall s, m s = MatchBytes re s.

(** C25: [Regex] makes a pattern of every expression of the syntax of Regex.v
    that Go accepts, and the pattern matches, in every context and without
    panic, exactly the texts with a match of the expression somewhere in their
    runes; when the expression does not compile, the error is wrapped and
    returned. *)
Theorem regex_pattern t quote compile expr (engine : compiles compile) :
  match Compile expr with
  | Some re =>
      exists p, Regex t quote compile expr = inl p /\
        forall ctx s, exists b, result (PMatch p ctx s) = Some b /\
          (b = true <-> exists i j, (i <= length (runes s))%nat /\ Matches (runes s) re i j)
  | None =>
      forall err, compile expr = inr err ->
        Regex t quote compile expr =
          inr ("failed to compile regex pattern " ++ quote expr ++ ": " ++ err)%string
  end.
Proof.
  destruct (Compile expr) as [re|] eqn:Hc; [|intros err He; unfold Regex; by rewrite He].
  destruct (engine _ _ Hc) as (m & Hm & Hmatch). unfold Regex. rewrite Hm.
  eexists. split; [done|]. intros ctx s. exists (MatchBytes re s). split; [|apply MatchBytes_iff].
  rewrite <- Hmatch. by apply (NewBasePattern_answers t _ _ m).
Qed.

(** An engine for this syntax and no other. *)
Definition this_syntax (expr : string) : (bytes -> bool) + string :=
  match Compile expr with Some re => inl (MatchBytes re) | None => inr "unsupported"%string end.

Lemma regex_pattern_witness :
  (exists p, Regex noopTracer (fun e => e) this_syntax "ab+" = inl p /\
     result (PMatch p Background (of_str "xabb")) = Some true) /\
  Regex noopTracer (fun e => e) this_syntax "a{2}{3}" =
    inr "failed to compile regex pattern a{2}{3}: unsupported"%string.
Proof.
  assert (Hengine : compiles this_syntax).
  { intros expr re Hc. exists (MatchBytes re). unfold this_syntax. by rewrite Hc. }
  split.
  - destruct (regex_pattern noopTracer (fun e => e) this_syntax "ab+" Hengine) as (p & Hp & _).
    exists p. split; [exact Hp|]. injection Hp as <-. reflexivity.
  - exact (regex_pattern noopTracer (fun e => e) this_syntax "a{2}{3}" Hengine "unsupported"%string eq_refl).
Defined.
