(* ===== verification/PersonalData.v ===== *)
(** * The personal data the default rules are about

    A description of the tokens that the rules of rules.go look for, apart from
    the matchers, and the proof that the matchers decide it.  The meaning of the
    parts is in Documents.v, TextMatchers.v and IPGrammar.v. *)
From S2P Require Import Prelude GoBytes IPGrammar NetIP TextMatchers IPMatchers Documents BuiltinMatchers.

(** ** Description *)

(** Nine digits and their two check digits, whatever the punctuation. *)
Definition is_cpf (c : bytes) : Prop := exists base, length base = 9%nat /\ digits_of c = with_cpf_checks base.

(** Sixteen digits, spaces and dashes aside, that begin with 4 or with 51 to 55. *)
Definition is_card (c : bytes) : Prop :=
  let digits := card_digits c in
  blen digits = 16 /\ forallb is_digit digits = true /\
  ((exists rest, digits = "4"%byte :: rest) \/
   exists d rest, digits = "5"%byte :: d :: rest /\ in_range "1" "5" d = true).

(** A CPF, a CNPJ in either format, an e-mail address, an IP address in any
    wrapping, or a card number that is not one of the test numbers. *)
Definition personal_data (c : bytes) : Prop :=
  is_cpf c \/ is_cnpj c \/ is_cnpj_v2 c \/ is_email c \/ is_ip (strip especialChars c) \/
  (is_card c /\ c ∉ testCreditCardNumbers).

(** ** What the matchers of the default rules answer *)

Definition is_pii (c : bytes) : bool :=
  yes (MatchCPF c) || (yes (MatchCNPJ c) || yes (MatchCNPJV2 c)) || yes (MatchEmailV2 c) || MatchIP c
  || ((yes (MatchVisaCreditCard c) || yes (MatchMasterCardCreditCard c)) && negb (MatchTestCreditCard c)).

Lemma yes_iff (o : option bool) P : (exists b, o = Some b /\ (b = true <-> P)) -> yes o = true <-> P.
Proof. by intros (b & -> & ?). Qed.

Lemma card_matchers c : yes (MatchVisaCreditCard c) || yes (MatchMasterCardCreditCard c) = true <-> is_card c.
Proof.
  destruct (credit_cards_spec_lemma c) as (-> & -> & _). unfold is_card. simpl yes.
  rewrite <- andb_orb_distrib_r, !andb_true_iff, Z.eqb_eq, orb_true_iff, <- (and_assoc (blen _ = 16)).
  do 2 (apply and_iff_compat_l). generalize (card_digits c) as ds. intros ds. split.
  - destruct ds as [|d0 ds]; [by intros [|]|]. intros [->%beq_true|H]; [left; by exists ds|right].
    destruct ds as [|d1 ds]; [done|]. apply andb_true_iff in H as [->%beq_true H]. by exists d1, ds.
  - intros [[rest ->]|(d & rest & -> & Hd)]; [by left|right]. by rewrite Hd.
Qed.

Lemma test_cards c : MatchTestCreditCard c = true <-> c ∈ testCreditCardNumbers.
Proof.
  unfold MatchTestCreditCard. rewrite existsb_exists. setoid_rewrite <- list_elem_of_In. setoid_rewrite Equal_true.
  naive_solver.
Qed.

Lemma is_pii_iff c : is_pii c = true <-> personal_data c.
Proof.
  unfold is_pii, personal_data. rewrite !orb_true_iff, andb_true_iff, negb_true_iff, card_matchers, MatchIP_is_ip.
  rewrite <- (not_true_iff_false (MatchTestCreditCard c)), test_cards.
  rewrite (yes_iff _ _ (MatchCPF_is_cpf c)), (yes_iff _ _ (MatchCNPJ_is_cnpj c)),
    (yes_iff _ _ (MatchCNPJV2_is_cnpj_v2 c)), (yes_iff _ _ (MatchEmailV2_spec_lemma c)).
  unfold is_cpf. tauto.
Qed.

#[export] Instance personal_data_dec c : Decision (personal_data c).
Proof.
  destruct (is_pii c) eqn:Hp; [left; by apply is_pii_iff|right]. rewrite <- is_pii_iff. by rewrite Hp.
Defined.

Lemma is_pii_decide c : is_pii c = bool_decide (personal_data c).
Proof. apply eq_true_iff_eq. by rewrite is_pii_iff, bool_decide_eq_true. Qed.
