(* ===== verification/Entities.v ===== *)
(** * pattern/matcher.go: what each matcher shipped finds

    The fifteen matchers against descriptions of the texts they accept, which
    come from the theorems on the functions of regex.go: TextMatchers.v,
    Expressions.v, IPMatchers.v, Documents.v and PersonalData.v.  The forms of
    the identifiers that [UUIDMatcher] asks for one after the other are compared
    here: one of them contains the others. *)
From S2P Require Import Prelude GoBytes Rules Monitoring Patterns NetIP IPGrammar Regex TextMatchers RegexMatchers.
From S2P Require Import Expressions IPMatchers Documents BuiltinMatchers PersonalData.

(** ** Forms that contain others *)





(** ** Universally unique identifiers *)


















(** ** Descriptions *)














(** ** Property *)




