(* ===== verification/Leakspok.v ===== *)
(** * rules.go: the default rules, from the text to its anonymized copy

    The components put together: the tokenizer, the serial runner over a lawful
    store, the matchers shipped and the byte analyzer. *)
From S2P Require Import Prelude GoBytes Tokenization Rules ByteAnalyzer CacheStore SerialRunner ConcurrentTokens ConcurrentRunner Runners.
From S2P Require Import Monitoring Patterns NetIP TextMatchers RegexMatchers Documents BuiltinMatchers PersonalData.

(** ** Specification *)

(** The settings of every default rule, on those tokens. *)
Definition pii_settings (c : bytes) : option RuleSettings :=
  if decide (personal_data c) then Some DefaultRuleSetting else None.

(** The text from [pos] on with the tokens that are personal data replaced. *)
Fixpoint redact_pii (s : bytes) (pos : Z) (ts : list Token) : bytes :=
  match ts with
  | [] => sub s pos (blen s)
  | t :: ts' =>
      sub s pos (Start t)
      ++ (if decide (personal_data (Content t)) then of_str "<REDACTED>" else Content t)
      ++ redact_pii s (End_ t) ts'
  end.

(** ** The default rules *)

Lemma matches_answers ctx name description m f c :
  answers (pm_pattern m) f -> matches (default_rule ctx name description m) c = f c.
Proof. intros Ha. unfold matches. simpl. unfold PMMatch. by rewrite Ha. Qed.

Lemma default_rules_coherent t ctx data : coherent (default_rules t ctx) data.
Proof. apply distinct_coherent. by apply (bool_decide_unpack _). Qed.

Lemma default_rules_settings t ctx :
  Forall (fun r => Settings r = DefaultRuleSetting /\ Disable r = false /\ Exceptions r = []) (default_rules t ctx).
Proof. by repeat constructor. Qed.

Lemma existsb_find_settings rules c :
  Forall (fun r => Settings r = DefaultRuleSetting /\ Disable r = false /\ Exceptions r = []) rules ->
  verdict_settings first_match rules c =
    if existsb (fun r => matches r c) rules then Some DefaultRuleSetting else None.
Proof.
  unfold verdict_settings, first_match. induction 1 as [|r rules (Hs & Hd & He) _ IH]; simpl; [done|].
  unfold applies at 1. rewrite Hd, He. simpl. destruct (matches r c); simpl; [by rewrite Hs|done].
Qed.

Lemma credit_card_answers t : answers (pm_pattern (CreditCardMatcher t)) (fun s =>
  (yes (MatchVisaCreditCard s) || yes (MatchMasterCardCreditCard s)) && negb (MatchTestCreditCard s)).
Proof.
  eapply answers_ext; [unfold CreditCardMatcher; cbn [pm_pattern]; solve_answers|].
  intros s. cbn [existsb forallb]. change (0 <? blen [_; _]) with true.
  rewrite ?orb_false_r, ?andb_true_r. destruct (MatchUUID s) eqn:Hu; simpl.
  - destruct (uuid_not_card s Hu) as [-> ->]. done.
  - by rewrite (orb_comm (yes (MatchVisaCreditCard s))).
Qed.

Lemma default_verdict t ctx c :
  verdict_settings first_match (default_rules t ctx) c = pii_settings c.
Proof.
  rewrite existsb_find_settings by apply default_rules_settings. unfold pii_settings.
  enough (existsb (fun r => matches r c) (default_rules t ctx) = is_pii c) as ->
    by (rewrite is_pii_decide; destruct (decide (personal_data c)) as [H|H];
      [by rewrite (bool_decide_true _ H)|by rewrite (bool_decide_false _ H)]).
  unfold default_rules, is_pii. cbn [existsb].
  unfold DefaultCPFRule, DefaultCNPJRule, DefaultEmailRule, DefaultIPRule, DefaultCreditCardRule.
  assert (Hcpf : answers (pm_pattern (CPFMatcher t)) (fun s => yes (MatchCPF s)))
    by (unfold CPFMatcher; cbn [pm_pattern]; solve_answers).
  assert (Hcnpj : answers (pm_pattern (CNPJMatcher t)) (fun s => yes (MatchCNPJ s) || yes (MatchCNPJV2 s))).
  { eapply answers_ext; [unfold CNPJMatcher; cbn [pm_pattern]; solve_answers|].
    intros s. cbn [existsb]. by rewrite orb_false_r. }
  assert (Hmail : answers (pm_pattern (EmailMatcher t)) (fun s => yes (MatchEmailV2 s)))
    by (unfold EmailMatcher; cbn [pm_pattern]; solve_answers).
  assert (Hip : answers (pm_pattern (IPMatcher t)) MatchIP)
    by (unfold IPMatcher; cbn [pm_pattern]; solve_answers).
  rewrite (matches_answers ctx _ _ _ _ c Hcpf), (matches_answers ctx _ _ _ _ c Hcnpj),
    (matches_answers ctx _ _ _ _ c Hmail), (matches_answers ctx _ _ _ _ c Hip),
    (matches_answers ctx _ _ _ _ c (credit_card_answers t)).
  by rewrite !orb_assoc, orb_false_r.
Qed.

Lemma rewrite_tokens_ext f g s ts : (forall c, f c = g c) -> forall pos,
  rewrite_tokens f s pos ts = rewrite_tokens g s pos ts.
Proof. intros Hfg. induction ts as [|t ts IH]; intros pos; simpl; [done|]. by rewrite Hfg, IH. Qed.

Lemma rewrite_redacts s ts : forall pos, rewrite_tokens pii_settings s pos ts = redact_pii s pos ts.
Proof.
  induction ts as [|t ts IH]; intros pos; simpl; [done|]. rewrite IH.
  unfold pii_settings. by destruct (decide _).
Qed.

Lemma default_rules_configured t ctx : Forall (fun r => settings_ok (Settings r)) (default_rules t ctx).
Proof. eapply Forall_impl; [apply default_rules_settings|]. intros r (-> & _). by eexists. Qed.

(** When all the rules have the same settings, whichever applicable rule
    a runner answers comes to the same. *)
Lemma uniform_may_answer rules st c v :
  Forall (fun r => Settings r = st) rules -> coherent rules c -> may_answer rules c v ->
  Settings <$> v = verdict_settings first_match rules c.
Proof.
  intros Hset Hco. rewrite Forall_forall in Hset.
  unfold verdict_settings. rewrite <- coherent_first_match by done.
  destruct v as [r|]; simpl; [|by intros ->]. intros (Hin & He & Ho). rewrite (Hset r Hin).
  destruct (first_by_entity rules c) as [r'|] eqn:Hf.
  - apply List.find_some in Hf as [Hin' _]. apply list_elem_of_In in Hin'. simpl. by rewrite (Hset r' Hin').
  - exfalso. unfold first_by_entity in Hf. apply list_elem_of_In in Hin.
    pose proof (List.find_none _ _ Hf r Hin) as Hn. simpl in Hn. by rewrite He, Ho in Hn.
Qed.

Lemma uniform_choices rules st s cs :
  Forall (fun r => Settings r = st) rules -> (forall c, coherent rules c) ->
  admissible may_answer rules cs ->
  Forall (fun c => Settings <$> c.2 = verdict_settings first_match rules (Content c.1)) cs /\
  forall pos, rewrite_choices s pos cs =
    rewrite_tokens (verdict_settings first_match rules) s pos (map fst cs).
Proof.
  intros Hset Hco Hadm.
  assert (Hv : Forall (fun c => Settings <$> c.2 = verdict_settings first_match rules (Content c.1)) cs).
  { eapply Forall_impl; [exact Hadm|]. simpl. intros c. by apply (uniform_may_answer rules st). }
  split; [done|]. clear Hadm. induction Hv as [|[tok v] cs Hc _ IH]; intros pos; simpl in *; [done|].
  rewrite IH, <- Hc. by destruct v.
Qed.

(** Whether something is found is decided by the text. *)
Lemma uniform_found rules st cs :
  Forall (fun r => Settings r = st) rules -> (forall c, coherent rules c) ->
  admissible may_answer rules cs ->
  chosen_any cs = existsb (fun tok => bool_decide (is_Some (verdict_settings first_match rules (Content tok))))
    (map fst cs).
Proof.
  intros Hset Hco Hadm. destruct (uniform_choices rules st [] cs Hset Hco Hadm) as [Hv _]. clear Hadm.
  unfold chosen_any. induction Hv as [|[tok v] cs Hc _ IH]; simpl in *; [done|]. rewrite IH, <- Hc.
  f_equal. apply bool_decide_ext. by rewrite fmap_is_Some.
Qed.

Lemma default_choices s t ctx cs :
  admissible may_answer (default_rules t ctx) cs ->
  rewrite_choices s 0 cs = redact_pii s 0 (map fst cs) /\
  (chosen_any cs = true <-> exists tok, tok ∈ map fst cs /\ personal_data (Content tok)).
Proof.
  intros Hadm.
  assert (Hset : Forall (fun r => Settings r = DefaultRuleSetting) (default_rules t ctx)) by (by repeat constructor).
  assert (Hco : forall c, coherent (default_rules t ctx) c) by (intros; by apply default_rules_coherent).
  destruct (uniform_choices _ _ s cs Hset Hco Hadm) as [_ ->]. rewrite (uniform_found _ _ _ Hset Hco Hadm).
  rewrite (rewrite_tokens_ext _ _ _ _ (default_verdict t ctx)), rewrite_redacts. split; [done|].
  rewrite existsb_exists. setoid_rewrite <- list_elem_of_In. setoid_rewrite bool_decide_eq_true.
  setoid_rewrite default_verdict. unfold pii_settings. split; intros (tok & Htok & Hp); exists tok; (split; [done|]).
  - destruct (decide _); [done|]. by apply is_Some_None in Hp.
  - by rewrite decide_True.
Qed.

(** C3: end to end: with the default rules, a store of true negatives that may
    fail or forget at any time, and any tracer, [Anonymize] writes the text with
    every token that is [personal_data] (a CPF, a CNPJ, an e-mail address, an IP
    address or a card number, as PersonalData.v describes them apart from the
    matchers) replaced by [<REDACTED>] and every other byte unchanged, and
    reports a finding exactly when there is such a token. *)
Theorem default_rules_redact {C} (view : C -> bytes -> results) `{CacheStoreLaws C view}
    t ctx data (e : env C) buf w
    (true_negatives : sound view (default_rules t ctx) (cache e)) (some_data : data <> []) :
  exists details e',
    Anonymize (default_rules t ctx) data e (mkOutput (W:=Buffer) buf w) =
      Some (details, e', mkOutput (buf ++ redact_pii data 0 (lex_tokens data)) w) /\
    (HasFindings details = true <-> exists tok, tok ∈ lex_tokens data /\ personal_data (Content tok)).
Proof.
  destruct (Anonymize_spec (fun rules e => sound view rules (cache e) /\ panic_free rules) first_by_entity
    (default_rules t ctx) data e buf w) as (e' & _ & ->); [split; [done|apply default_rules_panic_free]|apply default_rules_configured|done|done|].
  destruct (default_choices data t ctx (choices_of first_by_entity (default_rules t ctx) (lex_tokens data))) as [Hr Hf].
  { apply Forall_forall. intros [tok v] (t' & Heq & _)%list_elem_of_fmap.
    injection Heq as -> ->. apply by_entity_may_answer. }
  eexists _, e'. rewrite <- rewrite_choices_of, Hr, choices_of_fst. split; [done|].
  simpl. by rewrite Hf, choices_of_fst.
Qed.

Lemma default_rules_redact_witness :
  exists details e',
    Anonymize (default_rules noopTracer Background) (of_str "cpf: 529.982.247-25, ip 10.0.0.1 ok")
      (mkEnv (∅ : MapStore) []) (mkOutput (W:=Buffer) [] []) =
      Some (details, e', mkOutput (of_str "cpf: <REDACTED>, ip <REDACTED> ok") []).
Proof.
  destruct (default_rules_redact map_view noopTracer Background
    (of_str "cpf: 529.982.247-25, ip 10.0.0.1 ok") (mkEnv (∅ : MapStore) []) [] []
    (empty_map_sound _) ltac:(discriminate)) as (d & e' & HA & _).
  exists d, e'. rewrite HA. vm_compute. reflexivity.
Defined.

(** The same text comes out when everything runs in parallel: with the
    default rules evaluated by the concurrent runner on a pool of any size, the
    tokens processed as tasks of another pool of any size, for every interleaving of the
    tasks and of the workers inside each of them, any sharing between callers
    and any store of true negatives, a complete run that nobody cancels or
    stops writes the text with exactly the personal data redacted, though which
    rule is answered may vary. *)
Theorem default_rules_redact_concurrent {C} (view : C -> bytes -> results) `{CacheStoreLaws C view}
    coalesced poolSize tokenPoolSize t ctx data (c : scheduled (cflight * bool) C) st buf w
    (runner_ok : concurrent_ok view coalesced poolSize (default_rules t ctx) c)
    (run : rtc (tstep tokenPoolSize (concurrent_ok view coalesced poolSize) (default_rules t ctx))
      (initial (lex_tokens data) c false) st)
    (complete : final st) (not_cancelled : ConcurrentTokens.ctx_done st = false) (not_stopped : pool_closed st = false) :
  exists details,
    writeResult data (conc_result st) (mkOutput (W:=Buffer) buf w) =
      Some (details, mkOutput (buf ++ redact_pii data 0 (lex_tokens data)) w) /\
    (HasFindings details = true <-> exists tok, tok ∈ lex_tokens data /\ personal_data (Content tok)).
Proof.
  destruct (concurrent_chosen_spec (concurrent_ok view coalesced poolSize) holds_negatives may_answer tokenPoolSize (default_rules t ctx) data c false st
    buf w runner_ok (default_rules_configured t ctx) run complete) as (cs & _ & Hadm & Hall & ->).
  destruct (default_choices data t ctx cs Hadm) as [-> Hf].
  rewrite (Hall not_cancelled not_stopped) in *. by exists (chosen_details cs).
Qed.

Lemma default_rules_redact_concurrent_witness :
  exists details (st : tstate (scheduled (cflight * bool) MapStore) (option results)),
    writeResult (of_str "cpf: 529.982.247-25, ip 10.0.0.1 ok") (conc_result st)
      (mkOutput (W:=Buffer) [] []) =
    Some (details, mkOutput (of_str "cpf: <REDACTED>, ip <REDACTED> ok") []).
Proof.
  pose proof (eager_concurrent_ok map_view true 4 (default_rules noopTracer Background) (mkEnv ∅ [])
    ltac:(lia) (default_rules_panic_free _ _) (empty_map_sound _)) as Hok.
  destruct (undisturbed_run (concurrent_ok map_view true 4) holds_negatives may_answer 2 (default_rules noopTracer Background)
    ltac:(lia)
    (lex_tokens (of_str "cpf: 529.982.247-25, ip 10.0.0.1 ok")) _ [] ∅ ∅ Hok) as (st & Hrun & Hst & Hctx & Hcl).
  destruct (default_rules_redact_concurrent map_view true 4 2 noopTracer Background
    (of_str "cpf: 529.982.247-25, ip 10.0.0.1 ok") _ st [] [] Hok Hrun Hst Hctx Hcl) as (details & HA & _).
  exists details, st. rewrite HA. vm_compute. reflexivity.
Defined.

(** ** IPv4 and IPv6 rules *)

Definition ipv4_rule t ctx : Rule := default_rule ctx "ipv4" "IPv4 address" (IPv4Matcher t).
Definition ipv6_rule t ctx : Rule := default_rule ctx "ipv6" "IPv6 address" (IPv6Matcher t).

(** The two matchers share one entity, so after the IPv4 rule the IPv6
    rule never finds anything: [::1] passes both rules unseen. *)
Theorem ipv6_rule_shadowed {C} (view : C -> bytes -> results) `{CacheStoreLaws C view} t ctx (e : env C)
    (true_negatives : sound view [ipv4_rule t ctx; ipv6_rule t ctx] (cache e)) :
  MatchIPV6 (of_str "::1") = true /\
  exists e', SerialProcess Lead [ipv4_rule t ctx; ipv6_rule t ctx] (of_str "::1") e = Some (None, e').
Proof.
  split; [vm_compute; reflexivity|].
  destruct (SerialProcess_verdict view Lead [ipv4_rule t ctx; ipv6_rule t ctx] (of_str "::1") e
    true_negatives I) as (e' & -> & _).
  { apply panic_free_returns, (steady_panic_free ctx).
    repeat (constructor; [split; [apply (shipped_steady t); set_solver|constructor]|]). constructor. }
  exists e'. do 2 f_equal.
  assert (H4 : matches (ipv4_rule t ctx) (of_str "::1") = false).
  { unfold ipv4_rule. rewrite (matches_answers ctx _ _ _ MatchIPV4); [vm_compute; reflexivity|].
    unfold IPv4Matcher; cbn [pm_pattern]; solve_answers. }
  unfold first_by_entity, entity_outcome. cbn [List.find].
  change (entity (ipv4_rule t ctx)) with EntityIPAddress. change (entity (ipv6_rule t ctx)) with EntityIPAddress.
  change (eligible (of_str "::1") (ipv4_rule t ctx)) with true.
  rewrite bool_decide_eq_true_2 by done. cbn [andb]. by rewrite H4, andb_false_r.
Qed.

Lemma ipv6_rule_shadowed_witness :
  exists e', SerialProcess Lead [ipv4_rule noopTracer Background; ipv6_rule noopTracer Background]
    (of_str "::1") (mkEnv (∅ : MapStore) []) = Some (None, e').
Proof.
  destruct (ipv6_rule_shadowed map_view noopTracer Background (mkEnv (∅ : MapStore) []) (empty_map_sound _))
    as (_ & Hp). exact Hp.
Defined.
