(* ===== verification/System.v ===== *)
(** * The analyzer that the factory builds, run

    [MakeByteAnalyzer] (factory.go) returns a description of the analyzer: its
    store, its runner and its pools.  This file gives every such description
    its behaviour, from the models of the parts, and shows that whatever the
    options are the analyzer built redacts the personal data of the text. *)
From S2P Require Import Prelude GoBytes GoFloat Tokenization Factory Rules ByteAnalyzer Pool ConcurrentTokens SharedPool.
From S2P Require Import CacheStore ValkeyCache SerialRunner ConcurrentRunner Runners Interleaving.
From S2P Require Import Monitoring CacheTracer Patterns RegexMatchers Expressions BuiltinMatchers PersonalData Leakspok.

Section System.
Context {S G : Type} (visible : S -> string -> gmap string string) `{HC : ClientLaws S visible}
  (Float64 : G -> spec_float * G) (oor : spec_float -> Z) (t : Tracer) (ctx : Context).

(** ** The stores *)

Fixpoint store_state (k : Store) : Type :=
  match k with
  | NoopRuleMatchingCache => Noop
  | ValkeyRuleMatchingCache _ _ => vstate S G
  | TracedStore k => traced (store_state k)
  end.

#[export] Instance store_ops : forall k, CacheStore (store_state k) :=
  fix store_ops k :=
  match k with
  | NoopRuleMatchingCache => Noop_Store
  | ValkeyRuleMatchingCache c _ => Valkey_Store Float64 oor c
  | TracedStore k => @CacheStoreTracer (store_state k) (store_ops k) t ctx
  end.

Fixpoint store_view (k : Store) : store_state k -> bytes -> results :=
  match k with
  | NoopRuleMatchingCache => fun _ _ => ∅
  | ValkeyRuleMatchingCache _ _ => valkey_view visible
  | TracedStore k => fun c => store_view k (underlying c)
  end.

#[export] Instance store_laws k : CacheStoreLaws (store_state k) (store_view k).
Proof.
  induction k as [|c client|k IH]; [apply Noop_Laws|apply Valkey_Laws; exact HC|].
  by apply CacheStoreTracer_Laws.
Qed.

(** ** The runners *)

Definition runner_store (r : Runner) : Store :=
  match r with SerialRulesRunner _ k => k | ConcurrentRulesRunner _ k _ => k end.

Definition runner_state (r : Runner) : Type :=
  match r with
  | SerialRulesRunner _ k => scheduled flight (store_state k)
  | ConcurrentRulesRunner _ k _ => scheduled (cflight * bool) (store_state k)
  end.

#[export] Instance runner_ops r : RuleRunner (runner_state r) :=
  match r with
  | SerialRulesRunner _ _ => Scheduled_Serial
  | ConcurrentRulesRunner _ _ _ => Scheduled_Concurrent
  end.

(** What a call holds between its two parts. *)
Definition runner_job (r : Runner) : Type :=
  match r with SerialRulesRunner _ _ => results | ConcurrentRulesRunner _ _ _ => option results end.

#[export] Instance runner_stepped r : SteppedRunner (runner_state r) (runner_job r) :=
  match r with
  | SerialRulesRunner _ _ => Stepped_Serial
  | ConcurrentRulesRunner _ _ _ => Stepped_Concurrent
  end.

Definition runner_held (r : Runner) : list Rule -> bytes -> runner_job r -> Prop :=
  match r with
  | SerialRulesRunner _ _ => sound_negatives
  | ConcurrentRulesRunner _ _ _ => holds_negatives
  end.

(** The workers of a pool. *)
Definition workers (pool : option resource) : nat :=
  match pool with Some (AntsPool size _) => Z.to_nat size | _ => 0 end.

(** A pool that is there has a worker. *)
Definition has_workers (pool : option resource) : Prop :=
  match pool with Some pool => (0 < workers (Some pool))%nat | None => True end.

(** A fit runner: its store holds true negatives, no matcher and no exception of
    the rules panics, and no call to come is cancelled or meets a closed pool. *)
Definition runner_ok (r : Runner) (rules : list Rule) : runner_state r -> Prop :=
  match r with
  | SerialRulesRunner coalesced k => serial_ok (store_view k) coalesced rules
  | ConcurrentRulesRunner coalesced k pool => concurrent_ok (store_view k) coalesced (workers pool) rules
  end.

Lemma runner_ok_panic_free r rules s : runner_ok r rules s -> panic_free rules.
Proof. destruct r; simpl; [intros (_ & ? & _)|intros (_ & ? & _)]; done. Qed.

(** The store and the errors logged so far. *)
Definition runner_env (r : Runner) : runner_state r -> env (store_state (runner_store r)) :=
  match r with SerialRulesRunner _ _ => senv | ConcurrentRulesRunner _ _ _ => senv end.

#[export] Instance runner_spec r :
  SteppedRunnerSpec (runner_state r) (runner_job r) (runner_ok r) (runner_held r) may_answer.
Proof.
  destruct r as [coalesced k|coalesced k pool]; simpl.
  - eapply stepped_weaken; [| |apply (Stepped_Serial_Spec (store_view k))].
    + intros rules data v ->. apply by_entity_may_answer.
    + by intros rules data rule (? & _).
  - apply (Stepped_Concurrent_Spec (store_view k)).
Qed.

#[export] Instance runner_rule_spec r : RuleRunnerSpec (runner_state r) (runner_ok r) may_answer :=
  stepped_spec (runner_ok r) (runner_held r) may_answer _.

(** A runner whose store lost entries is as fit as before: what the store
    loses between the parts of the calls is an [i_other] and a [t_other]. *)
Lemma runner_loses r rules (s : runner_state r) (e : env (store_state (runner_store r))) :
  runner_ok r rules s ->
  (forall data, store_view (runner_store r) (cache e) data ⊆ store_view (runner_store r) (cache (runner_env r s)) data) ->
  exists s', runner_ok r rules s' /\ runner_env r s' = e.
Proof.
  destruct r as [coalesced k|coalesced k pool]; simpl; intros Hok Hs; exists (mkScheduled e (schedule s) (calls s)).
  - split; [|done]. apply serial_ok_env; [|done]. by eapply sound_shrinks; [exact Hs|apply Hok].
  - split; [|done]. apply concurrent_ok_env; [|done]. by eapply sound_shrinks; [exact Hs|apply Hok].
Qed.

(** A runner can start over any store of true negatives. *)
Lemma runner_starts r rules (e : env (store_state (runner_store r))) :
  match r with ConcurrentRulesRunner _ _ pool => (0 < workers pool)%nat | _ => True end ->
  panic_free rules -> sound (store_view (runner_store r)) rules (cache e) ->
  exists s, runner_ok r rules s /\ runner_env r s = e.
Proof.
  destruct r as [coalesced k|coalesced k pool]; simpl; intros Hpool Hp Hs.
  - exists (mkScheduled e lead_schedule 0). split; [|done]. by apply lead_serial_ok.
  - exists (mkScheduled e eager_schedule 0). split; [|done]. by apply eager_concurrent_ok.
Qed.

(** The steps of calls of [Process] that overlap on a runner. *)
Definition overlap (r : Runner) (rules : list Rule) :
    istate (runner_state r) (runner_job r) -> istate (runner_state r) (runner_job r) -> Prop :=
  istep (runner_ok r) rules.

(** ** The analyzers *)

(** [Anonymize] of an analyzer, with the concurrent path when it has a token
    pool: the details, the runner and the output after a call that nobody
    cancels or stops. *)
Definition anonymizes {W} `{Writer W} (a : Factory.ByteAnalyzer) (rules : list Rule) (data : bytes)
    (r : runner_state (ruleRunner a)) (out : Output W)
    (details : AnonymizationDetails) (r' : runner_state (ruleRunner a)) (out' : Output W) : Prop :=
  match tokenPool a with
  | None => Anonymize rules data r out = Some (details, r', out')
  | Some pool =>
      if (blen data =? 0) || (blen rules =? 0) then (details, r', out') = (noDetails, r, out)
      else exists st, rtc (tstep (workers (Some pool)) (runner_ok (ruleRunner a)) rules) (initial (lex_tokens data) r false) st /\ final st /\
        ConcurrentTokens.ctx_done st = false /\ pool_closed st = false /\ shared st = r' /\
        writeResult data (conc_result st) out = Some (details, out')
  end.

(** The steps of calls of [Anonymize] that overlap on an analyzer with a token
    pool. *)
Definition overlapping (a : Factory.ByteAnalyzer) (rules : list Rule) :
    relation (pooled bytes (runner_state (ruleRunner a) * bool) (tstate (runner_state (ruleRunner a)) (runner_job (ruleRunner a)))) :=
  anonymizations (workers (tokenPool a)) (runner_ok (ruleRunner a)) rules.

(** What a call answers, for any rules. *)
Lemma anonymizes_chosen a rules data r buf w details r' out' :
  runner_ok (ruleRunner a) rules r -> Forall (fun r => settings_ok (Settings r)) rules ->
  data <> [] -> rules <> [] ->
  anonymizes a rules data r (mkOutput (W:=Buffer) buf w) details r' out' ->
  runner_ok (ruleRunner a) rules r' /\
  exists cs, map fst cs = lex_tokens data /\ admissible may_answer rules cs /\
    details = chosen_details cs /\ out' = mkOutput (buf ++ rewrite_choices data 0 cs) w.
Proof.
  intros Hr Hok Hdata Hrules. unfold anonymizes. destruct (tokenPool a) as [pool|].
  - pose proof (blen_pos data Hdata). pose proof (blen_pos rules Hrules). if_lia.
    intros (st & Hrun & Hfin & Hctx & Hcl & <- & Hw).
    destruct (reachable_final (runner_ok (ruleRunner a)) (runner_held (ruleRunner a)) may_answer _ rules _ _ _ _ _ _ (lex_tokens_within data)
      Hr Hrun Hfin) as (cs & Hsub & Hadm & Hinv & Hres & Hall).
    specialize (Hall Hctx Hcl). rewrite Hres in Hw.
    rewrite (writeResult_chosen may_answer rules) in Hw
      by (done || by intros ? ? ? (? & _)).
    simplify_eq. split; [done|]. by exists cs.
  - intros HA. destruct (Anonymize_chosen (runner_ok (ruleRunner a)) may_answer rules data r buf w)
      as (cs & r'' & Hfst & Hadm & Hinv & HA'); [done..|].
    rewrite HA in HA'. simplify_eq. split; [done|]. by exists cs.
Qed.

(** A call that nobody cancels or stops can be completed. *)
Lemma anonymizes_total a rules data r buf w :
  runner_ok (ruleRunner a) rules r -> Forall (fun r => settings_ok (Settings r)) rules ->
  data <> [] -> rules <> [] -> has_workers (tokenPool a) ->
  exists details r' out', anonymizes a rules data r (mkOutput (W:=Buffer) buf w) details r' out'.
Proof.
  intros Hr Hok Hdata Hrules Hpool. unfold anonymizes. destruct (tokenPool a) as [pool|].
  - pose proof (blen_pos data Hdata). pose proof (blen_pos rules Hrules). if_lia.
    destruct (undisturbed_run (runner_ok (ruleRunner a)) (runner_held (ruleRunner a)) may_answer
      (workers (Some pool)) rules Hpool (lex_tokens data) r [] ∅ ∅ Hr)
      as (st & Hrun & Hfin & Hctx & Hcl).
    destruct (concurrent_chosen_spec (runner_ok (ruleRunner a)) (runner_held (ruleRunner a)) may_answer (workers (Some pool)) rules data r false st buf w
      Hr Hok Hrun Hfin) as (cs & _ & _ & _ & Hw).
    exists (chosen_details cs), (shared st), (mkOutput (buf ++ rewrite_choices data 0 cs) w).
    exists st. by split_and!.
  - destruct (Anonymize_chosen (runner_ok (ruleRunner a)) may_answer rules data r buf w)
      as (cs & r' & _ & _ & _ & HA); [done..|]. by eexists _, _, _.
Qed.
End System.

(** The pools of an analyzer that was built have a worker. *)
Lemma built_workers NewClient Ping NewPool o a live :
  MakeByteAnalyzer NewClient Ping NewPool o [] = (inl a, live) ->
  match ruleRunner a with ConcurrentRulesRunner _ _ pool => (0 < workers pool)%nat | _ => True end /\
  has_workers (tokenPool a).
Proof.
  intros Hb. pose proof (MakeByteAnalyzer_built NewClient Ping NewPool o) as Hs.
  destruct (buildable NewClient Ping NewPool o) eqn:Hbuild.
  - rewrite Hb in Hs. destruct Hs as [Hs _]. simplify_eq. unfold buildable, rules_ok, tokens_ok, pool_ok in Hbuild.
    unfold expected. simpl. split.
    + destruct (rules_concurrent o); simpl in *; [|done]. bsplit. lia.
    + destruct (tokens_concurrent o); simpl in *; [|done]. bsplit. lia.
  - destruct Hs as (err & live' & Hs). congruence.
Qed.

(** ** Properties *)

(** C1: whatever the options say (no cache or a Valkey cache with or without
    the tracing decorator, coalesced or not, rules and tokens evaluated in turn
    or on pools), the analyzer that [MakeByteAnalyzer] returns, run on the
    default rules, redacts exactly the personal data.  Every call that nobody
    cancels or stops writes the text with the tokens that are [personal_data] replaced
    by [<REDACTED>] and every other byte unchanged, reports a finding exactly
    when there is such a token, and leaves the runner fit for the next call;
    such a call can always be completed; and the runner can start over any
    store that holds true negatives. *)
Theorem built_analyzer_redacts {S G : Type} (visible : S -> string -> gmap string string)
    `{HC : ClientLaws S visible} (Float64 : G -> spec_float * G) (oor : spec_float -> Z) (t : Tracer)
    (ctx : Context) NewClient Ping NewPool o a live data buf w
    (built : MakeByteAnalyzer NewClient Ping NewPool o [] = (inl a, live)) (some_data : data <> []) :
  let rules := default_rules t ctx in
  let fit := runner_ok visible (ruleRunner a) rules in
  (forall r details r' out', fit r ->
     anonymizes visible Float64 oor t ctx a rules data r (mkOutput (W:=Buffer) buf w) details r' out' ->
     out' = mkOutput (buf ++ redact_pii data 0 (lex_tokens data)) w /\
     (HasFindings details = true <-> exists tok, tok ∈ lex_tokens data /\ personal_data (Content tok)) /\
     fit r') /\
  (forall r, fit r -> exists details r' out',
     anonymizes visible Float64 oor t ctx a rules data r (mkOutput (W:=Buffer) buf w) details r' out') /\
  (forall e, sound (store_view visible (runner_store (ruleRunner a))) rules (cache e) ->
     exists r, fit r /\ runner_env (ruleRunner a) r = e).
Proof.
  intros rules fit. split_and!.
  - intros r details r' out' Hr HA.
    destruct (anonymizes_chosen visible Float64 oor t ctx a rules data r buf w details r' out' Hr
      (default_rules_configured t ctx) some_data ltac:(done) HA) as (Hr' & cs & Hfst & Hadm & -> & ->).
    destruct (default_choices data t ctx cs Hadm) as [-> Hf]. rewrite Hfst in *. by split_and!.
  - intros r Hr. apply (anonymizes_total visible); [done|apply default_rules_configured|done|done|by eapply built_workers].
  - intros e He. apply (runner_starts visible); [by eapply built_workers|apply default_rules_panic_free|done].
Qed.

(** C4: [Process] is safe for concurrent use, with any runner the factory can
    return, for rules whose matchers and exceptions do not panic and calls that
    nobody cancels and that find the pool open, which is what a fit runner
    stands for.  However the parts of any number of such calls on any tokens
    interleave with each other and with what else may happen to the store, every
    call that has answered gave a rule that applies to its token, and none only
    if none applies; the runner stays fit, its store holding true negatives only;
    and a call that has not answered yet can always take its next step, the first
    being the read of the store and the second the answer. *)
Theorem interleaved_calls {S G : Type} (visible : S -> string -> gmap string string)
    `{HC : ClientLaws S visible} (Float64 : G -> spec_float * G) (oor : spec_float -> Z) (t : Tracer)
    (ctx : Context) (k : Runner) rules (r : runner_state (S:=S) (G:=G) k)
    (st : istate (runner_state (S:=S) (G:=G) k) (runner_job k))
    (fit : runner_ok visible k rules r)
    (run : rtc (overlap visible Float64 oor t ctx k rules) (start r) st) :
  runner_ok visible k rules (runner_at st) /\
  (forall i data v, jobs st !! i = Some (data, Answered v) -> may_answer rules data v) /\
  (forall i data g, jobs st !! i = Some (data, g) -> (forall v, g <> Answered v) ->
     exists st', overlap visible Float64 oor t ctx k rules st st' /\
       exists g', jobs st' !! i = Some (data, g') /\
       match g with Called => exists j, g' = Holding j | _ => exists v, g' = Answered v end).
Proof.
  pose proof (runner_spec visible Float64 oor t ctx k) as Hspec.
  pose proof (iinv_reachable (runner_ok visible k) rules (runner_held k) may_answer r st fit run) as Hi.
  split_and!; [apply Hi| |].
  - intros i data v Hj. exact (proj2 Hi i data _ Hj).
  - intros i data g Hj Hg. by eapply job_progress.
Qed.

(** Calls of [Anonymize] that overlap on one of these analyzers, when it has a
    token pool: each of those that return, neither cancelled nor stopped, wrote
    its text redacted, and all of them can return. *)
Theorem overlapping_calls_redact {S G : Type} (visible : S -> string -> gmap string string)
    `{HC : ClientLaws S visible} (Float64 : G -> spec_float * G) (oor : spec_float -> Z) (t : Tracer)
    (ctx : Context) NewClient Ping NewPool o a live pool
    (r : runner_state (S:=S) (G:=G) (ruleRunner a)) F :
  let rules := default_rules t ctx in
  let shared_step := overlapping visible Float64 oor t ctx a rules in
  MakeByteAnalyzer NewClient Ping NewPool o [] = (inl a, live) -> tokenPool a = Some pool ->
  runner_ok visible (ruleRunner a) rules r -> rtc shared_step (new_analyzer r) F ->
  (forall i data st buf w, clients F !! i = Some (data, st) -> final st ->
     ConcurrentTokens.ctx_done st = false -> pool_closed st = false ->
     exists details, writeResult data (conc_result st) (mkOutput (W:=Buffer) buf w) =
       Some (details, mkOutput (buf ++ redact_pii data 0 (lex_tokens data)) w) /\
     (HasFindings details = true <-> exists tok, tok ∈ lex_tokens data /\ personal_data (Content tok))) /\
  exists F', rtc shared_step F F' /\ (common F').2 = (common F).2 /\
    Forall2 (fun k k' => k'.1 = k.1 /\ ConcurrentTokens.ctx_done k'.2 = ConcurrentTokens.ctx_done k.2 /\ final k'.2)
      (clients F) (clients F').
Proof.
  intros rules shared_step Hbuilt Hpool Hr Hrun. apply built_workers in Hbuilt as [_ Hw]. rewrite Hpool in Hw.
  unfold shared_step, overlapping in *. rewrite Hpool in *. simpl in Hw.
  pose proof (stepped_panicky _ _ _ (runner_spec visible Float64 oor t ctx (ruleRunner a))) as Hspec.
  pose proof (anonymization_laws (workers (Some pool)) _ rules _ _ _) as Hlaws.
  pose proof (pool_inv_reachable _ _ _ _ _ _ _ (r, false) F Hr Hrun) as Hp.
  split; [|exact (pool_completes _ _ _ _ _ _ _ F Hw Hp)]. intros i data st buf w Hi Hfin Hctx Hcl.
  destruct (finished_call _ _ _ _ _ _ F i data st buf w (default_rules_configured t ctx) Hp Hi Hfin)
    as (cs & copied & Hsub & Hperm & Hadm & _ & Hcop & ->). specialize (Hcop Hctx Hcl).
  destruct copied as [|? ?]; [|by apply Forall_cons in Hcop as [[] _]]. rewrite app_nil_r in Hperm.
  destruct (default_choices data t ctx cs Hadm) as [-> Hf].
  assert (Hfst : map fst cs = lex_tokens data) by (apply sublist_eq_length; [done|by rewrite Hperm]).
  rewrite Hfst in *. by exists (chosen_details cs).
Qed.

(** Runners answer nothing when no rule matches, and then the text is copied. *)
Lemma no_match_no_choice rules cs :
  Forall (fun c : choice => Forall (fun rule => matches rule (Content c.1) = false) rules) cs ->
  admissible may_answer rules cs -> Forall (fun c : choice => c.2 = None) cs.
Proof.
  intros Hno. unfold admissible. rewrite !Forall_forall in *. intros Hadm [tok [rule|]] Hc; [|done].
  exfalso. destruct (Hadm _ Hc) as (_ & _ & Ho). specialize (Hno _ Hc). simpl in *.
  unfold entity_outcome in Ho. destruct (List.find _ rules) as [r|] eqn:Hf; [|done].
  apply List.find_some in Hf as [Hr%list_elem_of_In _]. rewrite Forall_forall in Hno. by rewrite Hno in Ho.
Qed.

Lemma no_choice_copies data cs :
  Forall (fun c : choice => c.2 = None) cs -> map fst cs = lex_tokens data ->
  rewrite_choices data 0 cs = data /\ HasFindings (chosen_details cs) = false.
Proof.
  intros Hno Hfst. assert (Ha : chosen_actions cs = []).
  { clear Hfst. induction Hno as [|[t v] cs Hv _ IH]; [done|]. simpl in Hv. subst v.
    by rewrite chosen_actions_cons. }
  split.
  - pose proof (blen_nonneg data). rewrite rewrite_choices_actions, Ha; rewrite ?Hfst;
      [by apply sub_full|lia|apply lex_tokens_within|apply lex_tokens_content].
  - unfold chosen_details. simpl. rewrite <- chosen_nonempty, Ha. done.
Qed.

(** No token is an address: a street or a box has a space. *)
Lemma address_no_token t ctx rule data tok : RMatcher rule = as_matcher ctx (AddressMatcher t) ->
  tok ∈ lex_tokens data -> matches rule (Content tok) = false.
Proof.
  intros Hm Htok. unfold matches, as_matcher in *. rewrite Hm. cbn [Match]. unfold PMMatch.
  assert (answers (pm_pattern (AddressMatcher t)) (fun s => (MatchStreetAddress s || MatchPOBox s) && MatchZipCode s)) as ->.
  { unfold AddressMatcher. cbn [pm_pattern]. eapply answers_ext; [solve_answers|]. intros s. cbn [existsb].
    by rewrite orb_false_r. }
  simpl. destruct (MatchStreetAddress _ || _) eqn:Hs; [|done]. exfalso.
  apply street_or_box_spaced in Hs.
  destruct (lex_no_delimiter (chunks data) 0 (chunks_ascii_faithful data)) as [Hall _].
  specialize (Hall false). rewrite Forall_forall in Hall. specialize (Hall _ Htok).
  unfold no_delimiter in Hall. rewrite Forall_forall in Hall. by specialize (Hall _ Hs eq_refl).
Qed.

(** C34: a rule with the matcher for addresses never finds one: whatever the
    options, the settings and the exceptions, an analyzer whose rules use
    [AddressMatcher] copies every text as it is and reports no finding.  Streets
    and boxes are written with spaces, and tokens have none. *)
Theorem address_rules_find_nothing {S G : Type} (visible : S -> string -> gmap string string)
    `{HC : ClientLaws S visible} (Float64 : G -> spec_float * G) (oor : spec_float -> Z) (t : Tracer)
    (ctx : Context) a rules data r buf w details r' out'
    (addresses : Forall (fun rule => RMatcher rule = as_matcher ctx (AddressMatcher t)) rules)
    (configured : Forall (fun rule => settings_ok (Settings rule)) rules)
    (some_rule : rules <> []) (some_data : data <> [])
    (fit : runner_ok (G:=G) visible (ruleRunner a) rules r)
    (call : anonymizes visible Float64 oor t ctx a rules data r (mkOutput (W:=Buffer) buf w) details r' out') :
  out' = mkOutput (buf ++ data) w /\ HasFindings details = false.
Proof.
  destruct (anonymizes_chosen visible Float64 oor t ctx a rules data r buf w details r' out' fit
    configured some_data some_rule call) as (_ & cs & Hfst & Hadm & -> & ->).
  destruct (no_choice_copies data cs) as [-> ->]; [|done..].
  apply (no_match_no_choice rules); [|done]. apply Forall_forall. intros c Hc.
  eapply Forall_impl; [exact addresses|]. simpl. intros rule Hrule. apply (address_no_token t ctx _ data); [done|].
  rewrite <- Hfst. by apply (list_elem_of_fmap_2 fst).
Qed.

(** ** Witness *)

(** A cache on a Valkey server, traced, with coalescing and both pools. *)
Definition full_options : RunnerOptions :=
  mkRunnerOptions
    (mkCacheOptions true 3600000000000 (S754_zero false) true false (of_str "localhost:6379") true "" "" 0 0 0 0 0
       false false None true)
    (mkConcurrency true true true 4 2 0).

Definition demo_text : bytes := of_str "cpf: 529.982.247-25, ip 10.0.0.1 ok".

(** The server is empty and nothing is traced yet. *)
Definition demo_env : env (traced (vstate MemServer unit)) := mkEnv (mkTraced (mkV ∅ tt) []) [].

Lemma demo_env_sound rules : sound (fun c => valkey_view hash (underlying c)) rules (cache demo_env).
Proof. intros data e v Hv. unfold valkey_view, decode, hash in Hv. by rewrite lookup_fmap in Hv. Qed.

Lemma built_analyzer_redacts_witness :
  let rand g := (S754_zero false, g) : spec_float * unit in
  exists details r r',
    anonymizes hash rand (fun _ => 0) noopTracer Background (expected full_options)
      (default_rules noopTracer Background) demo_text r (mkOutput (W:=Buffer) [] []) details r'
      (mkOutput (of_str "cpf: <REDACTED>, ip <REDACTED> ok") []).
Proof.
  intros rand.
  destruct (built_analyzer_redacts hash rand (fun _ => 0) noopTracer Background (fun _ => None) (fun _ => None)
    (fun _ _ => None) full_options (expected full_options) _ demo_text [] [] eq_refl ltac:(discriminate))
    as (Hout & Htotal & Hstart).
  destruct (Hstart demo_env (demo_env_sound _)) as (r & Hr & _).
  destruct (Htotal r Hr) as (details & r' & out' & HA).
  exists details, r, r'. destruct (Hout r details r' out' Hr HA) as (Heq & _).
  assert (Ho : mkOutput (of_str "cpf: <REDACTED>, ip <REDACTED> ok") [] = out')
    by (rewrite Heq; vm_compute; reflexivity).
  rewrite Ho. exact HA.
Defined.

(** Two calls on the same token, on the runner with every option: both read
    the empty store before either answers. *)
Definition busy : runner_state (S:=MemServer) (G:=unit) (ruleRunner (expected full_options)) :=
  mkScheduled demo_env eager_schedule 0.

Definition both : list (bytes * goroutine (option results)) :=
  [(of_str "bob", Answered (Some bob)); (of_str "bob", Answered (Some bob))].

Definition no_rand (g : unit) : spec_float * unit := (S754_zero false, g).

Lemma busy_fit : runner_ok (G:=unit) hash (ruleRunner (expected full_options)) demo_rules busy.
Proof.
  apply (eager_concurrent_ok (store_view hash (runner_store (ruleRunner (expected full_options))))); [simpl; lia|apply demo_panic_free|].
  apply demo_env_sound.
Qed.

Lemma both_run : exists r,
  rtc (overlap (G:=unit) hash no_rand (fun _ => 0) noopTracer Background (ruleRunner (expected full_options)) demo_rules) (start busy) (mkI both r).
Proof.
  eexists. eapply rtc_l; [apply (i_call _ _ (of_str "bob"))|].
  eapply rtc_l; [apply (i_call _ _ (of_str "bob"))|].
  eapply rtc_l; [eapply (i_begin _ _ 0); [reflexivity|vm_compute; reflexivity]|].
  eapply rtc_l; [eapply (i_begin _ _ 1); [reflexivity|vm_compute; reflexivity]|].
  eapply rtc_l; [eapply (i_finish _ _ 1); [reflexivity|vm_compute; reflexivity]|].
  eapply rtc_l; [eapply (i_finish _ _ 0); [reflexivity|vm_compute; reflexivity]|].
  apply rtc_refl.
Qed.

Lemma interleaved_calls_witness :
  exists r, runner_ok (G:=unit) hash (ruleRunner (expected full_options)) demo_rules r /\
    may_answer demo_rules (of_str "bob") (Some bob).
Proof.
  destruct both_run as [r Hr]. exists r.
  destruct (interleaved_calls hash no_rand (fun _ => 0) noopTracer Background (ruleRunner (expected full_options))
    demo_rules busy (mkI both r) busy_fit Hr) as (Hs & Ha & _).
  split; [exact Hs|exact (Ha 0%nat (of_str "bob") (Some bob) eq_refl)].
Defined.

(** A street, a box and a postal code in one text. *)
Definition address_text : bytes := of_str "12 Main Street, PO Box 7, 90210".

Definition address_rule : Rule :=
  mkRule false "address" "address" (as_matcher Background (AddressMatcher noopTracer)) [] DefaultRuleSetting.

Lemma address_rules_find_nothing_witness :
  matches address_rule address_text = true /\
  exists details r r',
    anonymizes (G:=unit) hash no_rand (fun _ => 0) noopTracer Background (expected full_options)
      [address_rule] address_text r (mkOutput (W:=Buffer) [] []) details r' (mkOutput address_text []) /\
    HasFindings details = false.
Proof.
  split; [vm_compute; reflexivity|].
  assert (Hset : Forall (fun rule => settings_ok (Settings rule)) [address_rule])
    by (constructor; [by eexists|constructor]).
  destruct (runner_starts hash (ruleRunner (expected full_options)) [address_rule] demo_env) as (r & Hr & _);
    [simpl; lia| |apply demo_env_sound|].
  { apply (steady_panic_free Background). constructor; [|constructor].
    split; [apply (shipped_steady noopTracer); set_solver|constructor]. }
  destruct (anonymizes_total hash no_rand (fun _ => 0) noopTracer Background (expected full_options) [address_rule]
    address_text r [] [] Hr Hset ltac:(done) ltac:(done) ltac:(simpl; lia)) as (details & r' & out' & HA).
  exists details, r, r'.
  destruct (address_rules_find_nothing hash no_rand (fun _ => 0) noopTracer Background (expected full_options)
    [address_rule] address_text r [] [] details r' out' ltac:(repeat constructor) Hset ltac:(done) ltac:(done) Hr HA)
    as (-> & Hf).
  split; [exact HA|exact Hf].
Defined.
