(* ===== verification/Examples.v ===== *)
(** * examples/: clients of the library

    The rules that the example programs build from the public combinators, the
    analyzers they make and the reports they print.  What a program prints is a
    string; the durations it measures are arguments. *)
From stdpp Require Import pretty.
From S2P Require Import Prelude GoBytes GoFloat Tokenization Factory Rules ByteAnalyzer CacheStore.
From S2P Require Import ValkeyCache SerialRunner ConcurrentRunner Runners.
From S2P Require Import Monitoring Patterns NetIP TextMatchers RegexMatchers Documents BuiltinMatchers Leakspok System.

(** The newline of a Go string literal. *)
Definition nl : string := String (Ascii.ascii_of_nat 10) EmptyString.

(** What [fmt] makes of a bool, of a slice of entities and of a number. *)
Definition fmt_bool (b : bool) : string := if b then "true" else "false".
Definition fmt_entities (es : list Entity) : string := ("[" ++ String.concat " " es ++ "]")%string.
Definition fmt_int (n : Z) : string := pretty n.

(** ** examples/basic *)

Definition basic_rules (t : Tracer) (ctx : Context) : list Rule :=
  [DefaultCPFRule t ctx; DefaultEmailRule t ctx; DefaultCreditCardRule t ctx].

Definition basic_input : string :=
  ("User report:" ++ nl ++ "  Name: Maria Silva" ++ nl ++ "  CPF: 529.982.247-25" ++ nl ++
   "  Email: maria.silva@example.com" ++ nl ++ "  Card: 4532-0167-4352-9607" ++ nl)%string.

(** A serial runner without a cache, singleflight disabled. *)
Definition example_runner : env Noop := mkEnv tt [].

Definition basic_main (t : Tracer) (ctx : Context) : option (string * AnonymizationDetails * env Noop) :=
  StringAnonymize (basic_rules t ctx) basic_input example_runner.

Definition basic_report (result : string) (details : AnonymizationDetails) : string :=
  ("=== Anonymization Results ===" ++ nl ++
   "Has findings: " ++ fmt_bool (HasFindings details) ++ nl ++
   (if HasFindings details then
      "Detected entities:   " ++ fmt_entities (DetectedEntities details) ++ nl ++
      "Anonymized entities: " ++ fmt_entities (AnonymizedEntities details) ++ nl
    else "") ++
   "--- Anonymized output ---" ++ nl ++ result)%string.

(** ** examples/custom-rules *)

Section CustomRules.
Context (t : Tracer) (ctx : Context).

(** [NewBasePattern] of a function of the bytes. *)
Definition base (name : string) (f : bytes -> bool) : Pattern := NewBasePattern t name (fun _ b => ret (f b)).

Definition startsWith (prefix : string) (b : bytes) : bool := HasPrefix b (of_str prefix).

Definition apiKeyPattern : Pattern :=
  And t (base "startsWith(sk-)" (startsWith "sk-")) (base "len>=24" (fun b => 24 <=? blen b)).

Definition testKeyException : Exception :=
  mkException "Test API keys (sk-test-*) are safe and can appear in logs"
    (as_matcher ctx (NewPatternMatcher "TEST_API_KEY" (base "startsWith(sk-test-)" (startsWith "sk-test-")))).

Definition apiKeyRule : Rule :=
  mkRule false "api_key" "Production API keys (sk-*, excluding sk-test-*)"
    (as_matcher ctx (NewPatternMatcher "API_KEY" apiKeyPattern)) [testKeyException]
    (mkSettings REDACT (Some (mkRedact "[REDACTED_API_KEY]")) None).

Definition orderIDPattern : Pattern :=
  And t (Or t (base "startsWith(ORD-)" (startsWith "ORD-")) (base "startsWith(PO-)" (startsWith "PO-")))
    (base "len>=12" (fun b => 12 <=? blen b)).

Definition orderIDRule : Rule :=
  mkRule false "order_id" "Order/Purchase Order IDs - mask the numeric suffix"
    (as_matcher ctx (NewPatternMatcher "ORDER_ID" orderIDPattern)) []
    (mkSettings MASK None (Some (mkMask "*" 4))).

Fixpoint hexCharsOnly (b : bytes) : bool :=
  match b with
  | [] => true
  | c :: b' =>
      if negb (in_range "0" "9" c || in_range "a" "f" c || in_range "A" "F" c) then false
      else hexCharsOnly b'
  end.

Definition secretPattern : Pattern :=
  And t (And t (base "hexCharsOnly" hexCharsOnly) (base "len>=32" (fun b => 32 <=? blen b)))
    (Not t (base "isUUID" MatchUUID)).

Definition secretRule : Rule :=
  mkRule false "internal_secret" "Long hex tokens that are not UUIDs - potential internal secrets"
    (as_matcher ctx (NewPatternMatcher "INTERNAL_SECRET" secretPattern)) []
    (mkSettings REDACT (Some (mkRedact "[SECRET]")) None).

Definition custom_rules : list Rule := [apiKeyRule; orderIDRule; secretRule].

Definition custom_input : string :=
  ("Deployment report:" ++ nl ++ "  API Key: sk-live-abcd1234efgh5678ijkl" ++ nl ++
   "  Test Key: sk-test-0000deadbeefcafe0000" ++ nl ++ "  Order: ORD-20250605123" ++ nl ++
   "  Purchase: PO-987654321098" ++ nl ++ "  Secret: af37c8b92d1e4f6a8b3c1d9e2f4a7c6b0" ++ nl ++
   "  Request ID: 550e8400-e29b-41d4-a716-446655440000" ++ nl)%string.

Definition custom_main : option (string * AnonymizationDetails * env Noop) :=
  StringAnonymize custom_rules custom_input example_runner.
End CustomRules.

(** The line of the report on a rule. *)
Definition rule_line (r : Rule) : string :=
  let strategy := match Strategy (Settings r) with MASK => "MASK" | _ => "REDACT" end in
  let exceptionNote :=
    if 0 <? blen (Exceptions r) then (" (with " ++ fmt_int (blen (Exceptions r)) ++ " exception(s))")%string
    else "" in
  ("  • " ++ Name r ++ " [" ++ strategy ++ "]" ++ exceptionNote ++ nl)%string.

Definition custom_report (rules : list Rule) (result : string) (details : AnonymizationDetails) : string :=
  ("╔════════════════════════════════════════════════════╗" ++ nl ++
   "║     Custom Rules — Anonymization Results          ║" ++ nl ++
   "╚════════════════════════════════════════════════════╝" ++ nl ++ nl ++
   "Has findings: " ++ fmt_bool (HasFindings details) ++ nl ++
   "Detected entities:   " ++ fmt_entities (DetectedEntities details) ++ nl ++
   "Anonymized entities: " ++ fmt_entities (AnonymizedEntities details) ++ nl ++ nl ++
   "─── Rules Applied ───" ++ nl ++ String.concat "" (map rule_line rules) ++ nl ++
   "─── Anonymized Output ───" ++ nl ++ "Observe:" ++ nl ++
   "  - sk-live-... is REDACTED entirely" ++ nl ++
   "  - sk-test-... is preserved (exception)" ++ nl ++
   "  - ORD-... and PO-... are MASKED (first 4 chars visible)" ++ nl ++
   "  - af37c8b... (hex secret) is REDACTED" ++ nl ++
   "  - The UUID is left intact (excluded by Not composition)" ++ nl ++ nl ++ result)%string.

(** ** examples/concurrent *)

Definition log_lines : list string :=
  ["2026-06-05T10:15:00Z [INFO ] Request handled user=maria.silva email=maria.silva@example.com";
   "2026-06-05T10:15:01Z [INFO ] Request handled user=joao.souza email=joao.souza@corp.io";
   "2026-06-05T10:15:02Z [INFO ] New account CPF 52998224725 registered via mobile app";
   "2026-06-05T10:15:03Z [INFO ] New account CPF 12345678909 created successfully";
   "2026-06-05T10:15:04Z [INFO ] New account CPF 98765432100 approved by compliance";
   "2026-06-05T10:15:05Z [INFO ] Payment 4532016743529607 authorized for order #8812";
   "2026-06-05T10:15:06Z [INFO ] Payment 5500000000000004 processed via gateway";
   "2026-06-05T10:15:07Z [INFO ] Payment 4111111111111111 declined insufficient funds";
   "2026-06-05T10:15:08Z [INFO ] Client 192.168.1.10 connected from VPN endpoint";
   "2026-06-05T10:15:09Z [INFO ] Client 10.0.0.5 established websocket session";
   "2026-06-05T10:15:10Z [INFO ] Client 172.16.0.1 disconnected after timeout";
   "2026-06-05T10:15:11Z [DEBUG] cache hit key=session:abc123 ttl=300";
   "2026-06-05T10:15:12Z [DEBUG] db query latency=2ms rows=42";
   "2026-06-05T10:15:13Z [TRACE] rpc call service=payments method=charge";
   "2026-06-05T10:15:14Z [DEBUG] metrics scraped total_requests=15420";
   "2026-06-05T10:15:15Z [INFO ] health check passed, all services healthy"]%string.

(** [largeInput]: the lines, six times. *)
Definition largeInput : bytes :=
  concat (replicate 6 (concat (map (fun line => of_str (line ++ nl)%string) log_lines))).

Definition log_rules (t : Tracer) (ctx : Context) : list Rule :=
  [DefaultCPFRule t ctx; DefaultCNPJRule t ctx; DefaultEmailRule t ctx; DefaultCreditCardRule t ctx;
   DefaultIPRule t ctx; default_rule ctx "vehicle_vin" "Vehicle Identification Number" (VINMatcher t)].

(** [RunnerOptions] with the cache left out, and the three modes. *)
Definition no_cache : CacheOptions :=
  mkCacheOptions false 0 (S754_zero false) false false [] false "" "" 0 0 0 0 0 false false None false.

Definition serial_mode : RunnerOptions := mkRunnerOptions no_cache (mkConcurrency false false false 0 0 0).
Definition token_mode : RunnerOptions := mkRunnerOptions no_cache (mkConcurrency true true false 0 8 0).
Definition rule_mode : RunnerOptions := mkRunnerOptions no_cache (mkConcurrency true false true 8 0 0).

(** What a mode leaves in its buffer, what it reports and how long it takes. *)
Record mode_run := mkRun { run_output : bytes; run_details : AnonymizationDetails; run_elapsed : string }.

Definition ruler : string := "─────────────────────────────────────────────────────".

Definition printResult (label : string) (r : mode_run) : string :=
  (ruler ++ nl ++ label ++ nl ++
   "  Elapsed:        " ++ run_elapsed r ++ nl ++
   "  Has findings:   " ++ fmt_bool (HasFindings (run_details r)) ++ nl ++
   "  Detected:       " ++ fmt_entities (DetectedEntities (run_details r)) ++ nl ++
   "  Anonymized:     " ++ fmt_entities (AnonymizedEntities (run_details r)) ++ nl ++
   "  Output length:  " ++ fmt_int (blen (run_output r)) ++ " bytes" ++ nl ++
   ruler ++ nl)%string.

Definition concurrent_report (serial token rule : mode_run) : string :=
  ("Input size: " ++ fmt_int (blen largeInput) ++ " bytes" ++ nl ++ nl ++
   printResult "Serial (baseline)" serial ++ nl ++
   printResult "Concurrent Token Processing (pool=8)" token ++ nl ++
   printResult "Concurrent Rule Processing (pool=8)" rule ++ nl ++
   "All three modes completed successfully." ++ nl ++
   "Note: For small inputs the goroutine overhead may make concurrent" ++ nl ++
   "modes slower than serial. The benefit increases with input size" ++ nl ++
   "and rule count — try with larger payloads to see the speedup." ++ nl)%string.

(** ** What the custom rules do, on any text *)

Definition custom_settings (c : bytes) : option RuleSettings :=
  if startsWith "sk-" c && (24 <=? blen c) && negb (startsWith "sk-test-" c)
  then Some (mkSettings REDACT (Some (mkRedact "[REDACTED_API_KEY]")) None)
  else if (startsWith "ORD-" c || startsWith "PO-" c) && (12 <=? blen c)
  then Some (mkSettings MASK None (Some (mkMask "*" 4)))
  else if hexCharsOnly c && (32 <=? blen c) && negb (MatchUUID c)
  then Some (mkSettings REDACT (Some (mkRedact "[SECRET]")) None)
  else None.

Lemma custom_rules_coherent t ctx data : coherent (custom_rules t ctx) data.
Proof. apply distinct_coherent. by apply (bool_decide_unpack _). Qed.

Lemma base_answers t name f : answers (base t name f) f.
Proof. apply NewBasePattern_answers. by intros ctx s. Qed.

(** What the patterns of the custom rules answer. *)
Lemma custom_patterns t :
  answers (apiKeyPattern t) (fun s => startsWith "sk-" s && (24 <=? blen s)) /\
  answers (orderIDPattern t) (fun s => (startsWith "ORD-" s || startsWith "PO-" s) && (12 <=? blen s)) /\
  answers (secretPattern t) (fun s => hexCharsOnly s && (32 <=? blen s) && negb (MatchUUID s)) /\
  answers (base t "startsWith(sk-test-)" (startsWith "sk-test-")) (startsWith "sk-test-").
Proof.
  split_and!; [apply And_answers|apply And_answers; [apply Or_answers|]|
    apply And_answers; [apply And_answers|apply Not_answers]|]; apply base_answers.
Qed.

Lemma custom_rules_panic_free t ctx : panic_free (custom_rules t ctx).
Proof.
  destruct (custom_patterns t) as (Ha & Ho & Hs & Hx). apply (steady_panic_free ctx).
  repeat (constructor; [split; [eexists _, _; split; [reflexivity|eassumption]|]|]);
    repeat constructor. eexists _, _. split; [reflexivity|exact Hx].
Qed.

Lemma custom_verdict t ctx c :
  verdict_settings first_by_entity (custom_rules t ctx) c = custom_settings c.
Proof.
  unfold verdict_settings. rewrite coherent_first_match by apply custom_rules_coherent.
  destruct (custom_patterns t) as (Ha & Ho & Hs & Hx).
  unfold first_match, custom_settings, custom_rules, applies. cbn [List.find].
  unfold matches, apiKeyRule, orderIDRule, secretRule, testKeyException, as_matcher, NewPatternMatcher, PMMatch.
  cbn [Disable Exceptions RMatcher Match excepted existsb ExMatcher pm_pattern negb andb orb].
  rewrite (Ha ctx c), (Ho ctx c), (Hs ctx c), (Hx ctx c). cbn [default].
  destruct (startsWith "sk-" c), (24 <=? blen c), (startsWith "sk-test-" c); cbn [andb negb]; try done;
    (destruct (startsWith "ORD-" c), (startsWith "PO-" c), (12 <=? blen c); cbn [andb orb]; try done;
     by destruct (_ && _ && _)).
Qed.

(** On any text and over any lawful store, the rules of the example replace the
    tokens [custom_settings] gives settings for, and nothing else. *)
Theorem custom_rules_output {C} (view : C -> bytes -> results) `{CacheStoreLaws C view}
    t ctx data (e : env C) buf w
    (true_negatives : sound view (custom_rules t ctx) (cache e)) (some_data : data <> []) :
  exists details e', Anonymize (custom_rules t ctx) data e (mkOutput (W:=Buffer) buf w) =
    Some (details, e', mkOutput (buf ++ rewrite_tokens custom_settings data 0 (lex_tokens data)) w).
Proof.
  destruct (Anonymize_spec (fun rules e => sound view rules (cache e) /\ panic_free rules) first_by_entity
    (custom_rules t ctx) data e buf w) as (e' & _ & ->);
    [split; [done|apply custom_rules_panic_free]| |done|done|].
  { repeat constructor; by eexists. }
  eexists _, e'. by rewrite (rewrite_tokens_ext _ _ _ _ (custom_verdict t ctx)).
Qed.

(** A rule set with one settings record and distinct entities. *)
Lemma log_rules_uniform t ctx :
  Forall (fun r => Settings r = DefaultRuleSetting) (log_rules t ctx) /\
  forall c, coherent (log_rules t ctx) c.
Proof. split; [by repeat constructor|]. intros c. apply distinct_coherent. by apply (bool_decide_unpack _). Qed.

Section Modes.
Context {G S : Type} (visible : S -> string -> gmap string string) `{HC : ClientLaws S visible}
  (Float64 : G -> spec_float * G) (oor : spec_float -> Z) (t : Tracer) (ctx : Context)
  (NewClient Ping : ClientOption -> option string).

(** One mode of the program: [MakeByteAnalyzer] and a call of [Anonymize] on an
    empty buffer. *)
Definition mode_runs (o : RunnerOptions) (input : bytes) (r : mode_run) : Prop :=
  exists a live st st' w, MakeByteAnalyzer NewClient Ping (fun _ _ => None) o [] = (inl a, live) /\
    runner_ok visible (ruleRunner a) (log_rules t ctx) st /\
    anonymizes visible Float64 oor t ctx a (log_rules t ctx) input st (mkOutput (W:=Buffer) [] [])
      (run_details r) st' (mkOutput (run_output r) w).

(** The program: the text it prints. *)
Definition concurrent_main (text : string) : Prop :=
  exists serial token rule, mode_runs serial_mode largeInput serial /\
    mode_runs token_mode largeInput token /\ mode_runs rule_mode largeInput rule /\
    text = concurrent_report serial token rule.

(** The three modes of the concurrent example are built without error, and all
    of them write the same bytes and answer alike for every text and every
    interleaving: by the first rule to match each token. *)
Theorem modes_agree o input (mode : o ∈ [serial_mode; token_mode; rule_mode]) (some_data : input <> []) :
  (exists a live, MakeByteAnalyzer NewClient Ping (fun _ _ => None) o [] = (inl a, live)) /\
  forall r, mode_runs o input r ->
    run_output r = rewrite_tokens (verdict_settings first_match (log_rules t ctx)) input 0 (lex_tokens input) /\
    HasFindings (run_details r) =
      existsb (fun tok => bool_decide (is_Some (verdict_settings first_match (log_rules t ctx) (Content tok))))
        (lex_tokens input).
Proof.
  assert (Hb : buildable NewClient Ping (fun _ _ => None) o = true).
  { repeat (apply elem_of_cons in mode as [->|mode]); [done..|by apply not_elem_of_nil in mode]. }
  pose proof (MakeByteAnalyzer_built NewClient Ping (fun _ _ => None) o) as Hm. rewrite Hb in Hm.
  destruct Hm as [Hm _]. split; [eexists _, _; exact Hm|].
  intros [out details el] (a & live & st & st' & w & Ha & Hr & HA). simpl in *. rewrite Hm in Ha. simplify_eq.
  destruct (anonymizes_chosen visible Float64 oor t ctx (expected o) (log_rules t ctx) input st [] [] details st' (mkOutput out w) Hr)
    as (_ & cs & Hfst & Hadm & -> & Hout); [by repeat (constructor; [by eexists|])|done|done|exact HA|].
  destruct (log_rules_uniform t ctx) as [Hset Hco]. simpl. rewrite <- Hfst.
  split; [|by apply (uniform_found _ _ _ Hset Hco)].
  injection Hout as -> _. by destruct (uniform_choices _ _ input cs Hset Hco Hadm) as [_ <-].
Qed.
End Modes.

(** What the concurrent example prints, the order of the entities and the
    durations aside: every mode finds something and writes 6960 bytes, the same
    in the three of them, out of the 7284 of the input. *)
Theorem concurrent_program {G S : Type} (visible : S -> string -> gmap string string) `{HC : ClientLaws S visible}
    (Float64 : G -> spec_float * G) oor NewClient Ping text
    (run : concurrent_main visible Float64 oor noopTracer Background NewClient Ping text) :
  exists rs rt rr tail, run_output rs = run_output rt /\ run_output rt = run_output rr /\
  let block label r := (ruler ++ nl ++ label ++ nl ++
     "  Elapsed:        " ++ run_elapsed r ++ nl ++
     "  Has findings:   true" ++ nl ++
     "  Detected:       " ++ fmt_entities (DetectedEntities (run_details r)) ++ nl ++
     "  Anonymized:     " ++ fmt_entities (AnonymizedEntities (run_details r)) ++ nl ++
     "  Output length:  6960 bytes" ++ nl ++ ruler ++ nl)%string in
  text =
    ("Input size: 7284 bytes" ++ nl ++ nl ++
     block "Serial (baseline)" rs ++ nl ++
     block "Concurrent Token Processing (pool=8)" rt ++ nl ++
     block "Concurrent Rule Processing (pool=8)" rr ++ nl ++ tail)%string.
Proof.
  assert (Hne : largeInput <> []) by discriminate.
  assert (Hlen : blen (rewrite_tokens (verdict_settings first_match (log_rules noopTracer Background)) largeInput 0
    (lex_tokens largeInput)) = 6960) by (vm_compute; reflexivity).
  assert (Hfound : existsb (fun tok => bool_decide (is_Some (verdict_settings first_match
    (log_rules noopTracer Background) (Content tok)))) (lex_tokens largeInput) = true) by (vm_compute; reflexivity).
  assert (Hrun : forall o r, o ∈ [serial_mode; token_mode; rule_mode] ->
    mode_runs visible Float64 oor noopTracer Background NewClient Ping o largeInput r ->
    run_output r = rewrite_tokens (verdict_settings first_match (log_rules noopTracer Background)) largeInput 0
      (lex_tokens largeInput) /\ blen (run_output r) = 6960 /\ HasFindings (run_details r) = true).
  { intros o r Ho Hr. destruct (modes_agree visible Float64 oor noopTracer Background NewClient Ping o largeInput Ho Hne)
      as [_ Hall]. destruct (Hall r Hr) as [Hout Hf]. clear Hall.
    split; [exact Hout|]. split; [rewrite Hout; exact Hlen|rewrite Hf; exact Hfound]. }
  destruct run as (rs & rt & rr & serial & token & rule & ->).
  apply Hrun in serial as (Hs & Hsl & Hsf), token as (Ht & Htl & Htf), rule as (Hr & Hrl & Hrf);
    [|by repeat constructor..].
  exists rs, rt, rr. eexists. split; [congruence|]. split; [congruence|]. unfold concurrent_report, printResult.
  rewrite Hsl, Hsf, Htl, Htf, Hrl, Hrf. cbv zeta.
  assert (fmt_int (blen largeInput) = "7284"%string) as -> by (vm_compute; reflexivity).
  assert (fmt_int 6960 = "6960"%string) as -> by (vm_compute; reflexivity).
  reflexivity.
Qed.

(** The texts the two programs print.  MASK hides the first four characters of
    an order number, though the example says that it keeps them visible. *)
Lemma example_outputs :
  ((fun r => r.1.1) <$> basic_main noopTracer Background = Some
    ("User report:" ++ nl ++ "  Name: Maria Silva" ++ nl ++ "  CPF: <REDACTED>" ++ nl ++
     "  Email: <REDACTED>" ++ nl ++ "  Card: <REDACTED>" ++ nl)%string) /\
  ((fun r => r.1.1) <$> custom_main noopTracer Background = Some
    ("Deployment report:" ++ nl ++ "  API Key: [REDACTED_API_KEY]" ++ nl ++
     "  Test Key: sk-test-0000deadbeefcafe0000" ++ nl ++ "  Order: ****20250605123" ++ nl ++
     "  Purchase: ****87654321098" ++ nl ++ "  Secret: [SECRET]" ++ nl ++
     "  Request ID: 550e8400-e29b-41d4-a716-446655440000" ++ nl)%string).
Proof. split; vm_compute; reflexivity. Qed.

(** What the reports say: the entities found, in some order, and the lines on
    the rules of the second program. *)
Lemma example_reports :
  (exists out details e, basic_main noopTracer Background = Some (out, details, e) /\
     HasFindings details = true /\ DetectedEntities details ≡ₚ ["CPF_NUMBER"; "EMAIL"; "CREDIT_CARD"]%string) /\
  (exists out details e, custom_main noopTracer Background = Some (out, details, e) /\
     HasFindings details = true /\ DetectedEntities details ≡ₚ ["API_KEY"; "ORDER_ID"; "INTERNAL_SECRET"]%string) /\
  String.concat "" (map rule_line (custom_rules noopTracer Background)) =
    ("  • api_key [REDACT] (with 1 exception(s))" ++ nl ++ "  • order_id [MASK]" ++ nl ++
     "  • internal_secret [REDACT]" ++ nl)%string.
Proof.
  split_and!; [eexists _, _, _; split; [vm_compute; reflexivity|]..|vm_compute; reflexivity];
    (split; [done|]; simpl; by apply (bool_decide_unpack _)).
Qed.
